(** * rtdppo: the wire codec, the depth engine's book, the decision relay's
      exploration gate and the lifecycle engine's fill accounting

    A shallow embedding of the C++ sources of the three services
    (okx-orderbook, ppo-service, oms-service) together with the properties
    their specification states about them.

    Numbers.  A C++ [double] is read as the rational number it denotes
    ([Q]); [+], [-], [*], [/], [std::min], [std::abs], [std::floor] are
    taken exact, so rounding of arithmetic results is abstracted away.  Two
    things are not abstracted, because properties below depend on them:
    the conversion of a 64-bit integer to [double] rounds to 53 significant
    bits (round to nearest, ties to even), and the conversion of a [double]
    to an unsigned integer truncates.  NaN, infinities and the sign of zero
    are outside the model.  Decimal literals denote the rational they spell.
    (The depth engine's mid price and VWAP and the order manager's
    [processAction] are the exception: there every operation is written
    with its binary64 rounding, section "binary64 rounding".)
    Unsigned machine integers are [Z] with the masks of the source written
    out; strings are [string]; [std::vector] and [std::deque] are lists;
    [std::unordered_map] is [gmap], [std::unordered_set] is [gset]. *)

From Stdlib Require Import ZArith QArith Qround Qabs Qminmax Qpower Lia Lqa List Bool.
From Stdlib Require Import Sorting.Sorted Sorting.Permutation.
From stdpp Require Import gmap strings list sorting.

Local Open Scope Z_scope.

(** ** Doubles as rationals *)

Abbreviation double := Q (only parsing).

Definition Qltb (x y : Q) : bool := negb (Qle_bool y x).
Definition Qleb (x y : Q) : bool := Qle_bool x y.
Definition Qgtb (x y : Q) : bool := Qltb y x.
Definition Qgeb (x y : Q) : bool := Qleb y x.

(** [n / d] rounded to the nearest integer, ties to the even one ([0 < d]). *)
Definition round_half_even (n d : Z) : Z :=
  let q := n / d in
  let r := n mod d in
  if d <? 2 * r then q + 1
  else if (2 * r =? d) && Z.odd q then q + 1
  else q.

(** [static_cast<double>(n)] for an unsigned 64-bit [n]: exact below [2^53],
    otherwise rounded to 53 significant bits. *)
Definition double_of_u64 (n : Z) : Q :=
  if n <? 2 ^ 53 then inject_Z n
  else
    let e := Z.log2 n - 52 in
    inject_Z (round_half_even n (2 ^ e) * 2 ^ e).

(** [static_cast<uint64_t>(x)] (and [uint32_t]) truncates toward zero; the
    C++ conversion is only defined while the truncated value fits the
    target type, which is the only way the sources use it. *)
Definition u64_of_double (x : Q) : Z := Z.quot (Qnum x) (Zpos (Qden x)).

(** A finite binary64 value: an integer significand below [2^53] scaled by a
    power of two. *)
Definition binary64_value (m e : Z) : Q := inject_Z m * Qpower 2 e.

(** [std::round]: to the nearest integer, halfway cases away from zero. *)
Definition std_round (x : Q) : Q :=
  if Qltb x 0 then inject_Z (- Qfloor (- x + (1 # 2)))
  else inject_Z (Qfloor (x + (1 # 2))).

(** Results of code that may throw. *)
Inductive result (A : Type) : Type :=
  | Ok (a : A)
  | Throw (what : string).
Arguments Ok {A} a.
Arguments Throw {A} what.

(** ** binary_utils: the wire codec (header listed in ppo-service/README.md) *)

Module binary_utils.

Definition PRICE_SIGN_MASK : Z := Z.shiftl 1 63.
Definition PRICE_FRAC_MASK : Z := Z.shiftl 1 63 - 1.
Definition PRICE_FRAC_SCALE : Q := double_of_u64 (Z.shiftl 1 63 - 1).
Definition PRICE_FRAC_SCALE_INV : Q := 1 / double_of_u64 (Z.shiftl 1 63 - 1).

Definition ORDERBOOK_SIGN_MASK : Z := Z.shiftl 1 63.
Definition ORDERBOOK_WHOLE_MASK : Z := Z.shiftl (Z.shiftl 1 10 - 1) 53.
Definition ORDERBOOK_FRAC_MASK : Z := Z.shiftl 1 53 - 1.
Definition ORDERBOOK_FRAC_SCALE : Q := double_of_u64 (Z.shiftl 1 53 - 1).
Definition ORDERBOOK_FRAC_SCALE_INV : Q := 1 / double_of_u64 (Z.shiftl 1 53 - 1).

Definition ACTION_TYPE_MASK : Z := 7.
Definition ZERO_THRESHOLD : Q := 1 # 1000000000000000.   (* 1e-15 *)
Definition MAX_MIDPRICE : Z := 1000000.
Definition CENTS_MULTIPLIER : Z := 100.

Definition isZero (value : Q) : bool := Qltb (Qabs value) ZERO_THRESHOLD.

(** Format: 1 bit sign, 63 bits fraction. *)
Definition encodeChangeValue (value : Q) : Z :=
  if isZero value then 0
  else
    let sign := if Qltb value 0 then 1 else 0 in
    let absValue := Qabs value in
    let fraction := u64_of_double (absValue * PRICE_FRAC_SCALE) in
    Z.lor (Z.shiftl sign 63) (Z.land fraction PRICE_FRAC_MASK).

Definition decodeChangeValue (encoded : Z) : Q :=
  if encoded =? 0 then 0%Q
  else
    let is_negative := negb (Z.land encoded PRICE_SIGN_MASK =? 0) in
    let fraction := Z.land encoded PRICE_FRAC_MASK in
    let value := (double_of_u64 fraction * PRICE_FRAC_SCALE_INV)%Q in
    if is_negative then (- value)%Q else value.

(** Format: 1 bit sign, 10 bits whole number, 53 bits fraction.
    [std::modf] splits [absValue] into its integral and fractional part. *)
Definition encodeOrderBookValue (value : Q) : Z :=
  if isZero value then 0
  else
    let sign := if Qltb value 0 then 1 else 0 in
    let absValue := Qabs value in
    let wholePart := inject_Z (Qfloor absValue) in
    let fracPart := (absValue - wholePart)%Q in
    let wholeInt := u64_of_double (Qmin wholePart 1023) in
    let fractionInt := u64_of_double (fracPart * ORDERBOOK_FRAC_SCALE) in
    Z.lor (Z.lor (Z.shiftl sign 63)
                 (Z.shiftl (Z.land wholeInt (Z.shiftl 1 10 - 1)) 53))
          (Z.land fractionInt ORDERBOOK_FRAC_MASK).

Definition decodeOrderBookValue (encoded : Z) : Q :=
  if encoded =? 0 then 0%Q
  else
    let is_negative := negb (Z.land encoded ORDERBOOK_SIGN_MASK =? 0) in
    let whole := Z.shiftr (Z.land encoded ORDERBOOK_WHOLE_MASK) 53 in
    let fraction := Z.land encoded ORDERBOOK_FRAC_MASK in
    let value := (double_of_u64 whole
                  + double_of_u64 fraction * ORDERBOOK_FRAC_SCALE_INV)%Q in
    if is_negative then (- value)%Q else value.

(** The 23-byte action frame.  The source stores each field through a
    [reinterpret_cast] at its byte offset; on the little-endian hosts the
    services run on this writes the low byte first. *)
Fixpoint le_bytes (n : nat) (v : Z) : list Z :=
  match n with
  | O => []
  | S n' => Z.land v 255 :: le_bytes n' (Z.shiftr v 8)
  end.

Fixpoint le_value (bs : list Z) : Z :=
  match bs with
  | [] => 0
  | b :: bs' => Z.lor b (Z.shiftl (le_value bs') 8)
  end.

Definition slice (off len : nat) (buffer : list Z) : list Z :=
  firstn len (skipn off buffer).

Definition encodeOmsActionV2 (action_type : Z) (price volume mid_price : Q)
    (state_id : Z) : result (list Z) :=
  if Qltb mid_price 0 || Qgtb mid_price (inject_Z MAX_MIDPRICE) then
    Throw "Mid-price must be between 0.00 and 1000000.00"
  else
    let mid_price_cents :=
      u64_of_double (std_round (mid_price * inject_Z CENTS_MULTIPLIER)) in
    Ok (le_bytes 1 (Z.land action_type ACTION_TYPE_MASK)
        ++ le_bytes 8 (encodeChangeValue price)
        ++ le_bytes 8 (encodeOrderBookValue volume)
        ++ le_bytes 4 mid_price_cents
        ++ le_bytes 2 state_id).

Record OmsActionV2 : Type := {
  action_type : Z;
  price : Q;
  volume : Q;
  mid_price : Q;
  state_id : Z
}.

Definition decodeOmsActionV2 (buffer : list Z) : OmsActionV2 :=
  {| action_type := Z.land (le_value (slice 0 1 buffer)) ACTION_TYPE_MASK;
     price := decodeChangeValue (le_value (slice 1 8 buffer));
     volume := decodeOrderBookValue (le_value (slice 9 8 buffer));
     mid_price := (double_of_u64 (le_value (slice 17 4 buffer))
                   / inject_Z CENTS_MULTIPLIER)%Q;
     state_id := le_value (slice 21 2 buffer) |}.

End binary_utils.

(** The integer part of a scaled significand, and the 63-bit magnitude the
    change encoder stores for [v = m * 2^e]. *)
Definition floor_scaled (m t : Z) : Z :=
  if 0 <=? t then m * 2 ^ t else m / 2 ^ (- t).

Definition magnitude (m e : Z) : Z := floor_scaled (Z.abs m) (e + 63).


(** ** okx-orderbook: the depth engine's book (orderbook_handler.cpp) *)

Module OrderBookHandler.
Local Open Scope nat_scope.

Record OrderBookLevel : Type := {
  price : Q;
  volume : Q;
  orders : Q
}.

(** One element of a [bids]/[asks] array:
    [[price_str, size_str, deprecated_str, order_count_str]].  Each member
    is [Some d] when it is a JSON string, [d] being what [fast_stod]
    returns for it, and [None] otherwise. *)
Definition json_level : Type := list (option Q).

(** The [data] object of a frame.  A side is [None] when the key is absent
    or not an array; an element of a side is [None] when it is not an
    array. *)
Record DepthData : Type := {
  data_bids : option (list (option json_level));
  data_asks : option (list (option json_level))
}.

Record Book : Type := {
  bids : list OrderBookLevel;
  asks : list OrderBookLevel
}.

Definition REQUIRED_LEVELS : nat := 400.

(** [validateOrderBookState] throws [std::runtime_error] unless both sides
    hold [REQUIRED_LEVELS] entries. *)
Definition validateOrderBookState (b : Book) : bool :=
  negb (negb (length (bids b) =? REQUIRED_LEVELS)
        || negb (length (asks b) =? REQUIRED_LEVELS)).

(** The loop "for (auto value : level)" with its [switch (idx)]. *)
Fixpoint extract_values (level : json_level) (idx : nat) (acc : Q * Q * Q)
    : nat * (Q * Q * Q) :=
  match level with
  | [] => (idx, acc)
  | value :: rest =>
      if 4 <=? idx then (idx, acc)
      else
        let '(p, v, o) := acc in
        let acc' :=
          match value with
          | Some d =>
              match idx with
              | 0 => (d, v, o)
              | 1 => (p, d, o)
              | 3 => (p, v, d)
              | _ => acc
              end
          | None => acc
          end in
        extract_values rest (S idx) acc'
  end.

Definition compareAsks (a b : OrderBookLevel) : bool := Qltb (price a) (price b).
Definition compareBids (a b : OrderBookLevel) : bool := Qgtb (price a) (price b).

(** The binary search of [updatePriceLevel], one iteration per unit of
    fuel.  [None] stands for running out of fuel or for reading [side[mid]]
    out of range; neither happens from [updatePriceLevel]
    (lemma [search_returns]). *)
Fixpoint search (fuel : nat) (side : list OrderBookLevel) (is_bids : bool)
    (price_ volume_ orders_ : Q) (left right : nat)
    : option (list OrderBookLevel) :=
  match fuel with
  | O => None
  | S fuel' =>
      if left <? right then
        let mid := (left + right) / 2 in
        match side !! mid with
        | None => None
        | Some lvl =>
            let mid_price := price lvl in
            let found :=
              if Qleb volume_ 0 then delete mid side
              else <[mid := {| price := mid_price; volume := volume_;
                               orders := orders_ |}]> side in
            if is_bids then
              if Qgtb mid_price price_ then
                search fuel' side is_bids price_ volume_ orders_ (mid + 1) right
              else if Qltb mid_price price_ then
                search fuel' side is_bids price_ volume_ orders_ left mid
              else Some found
            else
              if Qltb mid_price price_ then
                search fuel' side is_bids price_ volume_ orders_ (mid + 1) right
              else if Qgtb mid_price price_ then
                search fuel' side is_bids price_ volume_ orders_ left mid
              else Some found
        end
      else
        Some (if Qleb volume_ 0 then side
              else take left side
                   ++ {| price := price_; volume := volume_; orders := orders_ |}
                   :: drop left side)
  end.

Definition updatePriceLevel (side : list OrderBookLevel) (level : json_level)
    (is_bids : bool) : list OrderBookLevel :=
  let '(idx, (price_, volume_, orders_)) := extract_values level 0 (0%Q, 0%Q, 0%Q) in
  if idx <? 4 then side
  else
    match search (S (length side)) side is_bids price_ volume_ orders_
                 0 (length side) with
    | Some side' => side'
    | None => side
    end.

(** [std::sort(first, last, comp)] leaves a permutation in which no element
    is [comp]-before an earlier one; merge sort is one such algorithm. *)
Definition not_after (comp : OrderBookLevel -> OrderBookLevel -> bool)
    : relation OrderBookLevel :=
  fun a b => comp b a = false.

#[export] Instance not_after_dec comp : RelDecision (not_after comp) :=
  fun a b => bool_eq_dec (comp b a) false.

Definition std_sort (comp : OrderBookLevel -> OrderBookLevel -> bool)
    (l : list OrderBookLevel) : list OrderBookLevel :=
  merge_sort (not_after comp) l.

Definition update_side (side : list OrderBookLevel)
    (levels : list (option json_level)) (is_bids : bool)
    : list OrderBookLevel :=
  fold_left
    (fun side level =>
       match level with
       | Some level_array => updatePriceLevel side level_array is_bids
       | None => side
       end)
    levels side.

(** The outcome of a frame: the book is mutated in place, so it is there
    after the exception too. *)
Inductive outcome : Type :=
  | Applied (b : Book)
  | Fatal (b : Book).

Definition book_of (o : outcome) : Book :=
  match o with Applied b | Fatal b => b end.

Definition validated (b : Book) : outcome :=
  if validateOrderBookState b then Applied b else Fatal b.

Definition processOrderBookUpdate (data : DepthData) (b : Book) : outcome :=
  let asks' :=
    match data_asks data with
    | Some asks_array => std_sort compareAsks (update_side (asks b) asks_array false)
    | None => asks b
    end in
  let bids' :=
    match data_bids data with
    | Some bids_array => std_sort compareBids (update_side (bids b) bids_array true)
    | None => bids b
    end in
  validated {| bids := bids'; asks := asks' |}.

(** The body of the snapshot loops: a level with four members and a
    positive size is appended. *)
Definition emplace_level (side : list OrderBookLevel)
    (level : option json_level) : list OrderBookLevel :=
  match level with
  | Some level_array =>
      let '(idx, (price_, volume_, orders_)) :=
        extract_values level_array 0 (0%Q, 0%Q, 0%Q) in
      if (4 <=? idx) && Qgtb volume_ 0 then
        side ++ [{| price := price_; volume := volume_; orders := orders_ |}]
      else side
  | None => side
  end.

(** The levels a snapshot side contributes, in frame order. *)
Definition snapshot_levels (levels : list (option json_level))
    : list OrderBookLevel :=
  fold_left emplace_level levels [].

Definition handleSnapshot (data : DepthData) (b : Book) : outcome :=
  let bids' :=
    match data_bids data with
    | Some bids_array => std_sort compareBids (snapshot_levels bids_array)
    | None => []
    end in
  let asks' :=
    match data_asks data with
    | Some asks_array => std_sort compareAsks (snapshot_levels asks_array)
    | None => []
    end in
  validated {| bids := bids'; asks := asks' |}.

(** A run of delta frames, stopping at the first fatal one. *)
Fixpoint apply_updates (frames : list DepthData) (b : Book) : outcome :=
  match frames with
  | [] => Applied b
  | data :: rest =>
      match processOrderBookUpdate data b with
      | Applied b' => apply_updates rest b'
      | Fatal b' => Fatal b'
      end
  end.

(** The book invariant of the specification. *)
Definition strictly_before (is_bids : bool) : relation OrderBookLevel :=
  fun a b => if is_bids then (price b < price a)%Q else (price a < price b)%Q.

Definition strictly_sorted (is_bids : bool) (side : list OrderBookLevel) : Prop :=
  StronglySorted (strictly_before is_bids) side.

Definition positive_volumes (side : list OrderBookLevel) : Prop :=
  Forall (fun l => (0 < volume l)%Q) side.

Definition distinct_prices (side : list OrderBookLevel) : Prop :=
  ForallOrdPairs (fun a b => ~ (price a == price b)%Q) side.

Record book_invariant (b : Book) : Prop := {
  inv_bids_count : length (bids b) = REQUIRED_LEVELS;
  inv_asks_count : length (asks b) = REQUIRED_LEVELS;
  inv_bids_sorted : strictly_sorted true (bids b);
  inv_asks_sorted : strictly_sorted false (asks b);
  inv_bids_volume : positive_volumes (bids b);
  inv_asks_volume : positive_volumes (asks b)
}.

(** Price [a] comes strictly before price [b] on a side, as a proposition
    and as the comparison the search makes. *)
Definition price_before (is_bids : bool) (a b : Q) : Prop :=
  if is_bids then (b < a)%Q else (a < b)%Q.

Definition cmp_before (is_bids : bool) (a b : Q) : bool :=
  if is_bids then Qgtb a b else Qltb a b.

(** The comparator handed to the sort on each side. *)
Definition side_comp (is_bids : bool) : OrderBookLevel -> OrderBookLevel -> bool :=
  if is_bids then compareBids else compareAsks.

Definition side_ok (is_bids : bool) (side : list OrderBookLevel) : Prop :=
  strictly_sorted is_bids side /\ positive_volumes side.

Definition sides_ok (b : Book) : Prop :=
  side_ok true (bids b) /\ side_ok false (asks b).

(** Checking that prices are pairwise different. *)
Fixpoint distinct_pricesb (l : list OrderBookLevel) : bool :=
  match l with
  | [] => true
  | x :: t =>
      forallb (fun y => negb (Qeq_bool (price x) (price y))) t
      && distinct_pricesb t
  end.

(** Frames used in the evaluations below. *)
Definition level_of (p v o : Z) : option json_level :=
  Some [Some (inject_Z p); Some (inject_Z v); Some 0%Q; Some (inject_Z o)].

Definition ladder (start : Z) (step : Z) (n : nat) : list (option json_level) :=
  map (fun i => level_of (start + step * Z.of_nat i) 1 1) (seq 0 n).

Definition empty_book : Book := {| bids := []; asks := [] |}.

(** A snapshot of 400 bids from 1000 downwards and 400 asks from 1001
    upwards, and a delta that overwrites the best bid, removes the best ask
    and adds an ask at 1401. *)
Definition ladder_snapshot : DepthData :=
  {| data_bids := Some (ladder 1000 (-1) 400);
     data_asks := Some (ladder 1001 1 400) |}.

Definition ladder_delta : DepthData :=
  {| data_bids := Some [level_of 1000 5 2];
     data_asks := Some [level_of 1001 0 0; level_of 1401 3 1] |}.

(** A snapshot that lists the price 1000 twice among its 400 bids. *)
Definition duplicate_snapshot : DepthData :=
  {| data_bids := Some (level_of 1000 1 1 :: ladder 1000 (-1) 399);
     data_asks := Some (ladder 1001 1 400) |}.

End OrderBookHandler.

(** ** ppo-service: the decision relay (ppo_handler.cpp) *)

Module PPOHandler.
Local Open Scope nat_scope.

Definition NETWORK_INPUT_SIZE : nat := 80.
Definition HISTORY_BUFFER_SIZE : nat := 1000.
Definition ACTION_BUFFER_SIZE : nat := 1000.
Definition EXPLORATION_PERIOD : nat := 1000.

(** What the relay keeps of a decoded feature frame (the levels and the
    features only feed the actor network). *)
Record OrderBookState : Type := {
  state_id : Z;
  mid_price : Q
}.

Record ActionInfo : Type := {
  action_price : Q;
  action_volume : Q;
  action_state_id : Z
}.

(** One call of [publishAction]: the values it is given, the frame it
    encodes, and, for reference, the actor's output, the value [rand()]
    returned and the value of [state_counter_] in the [forwardPass] that
    made the call. *)
Record Decision : Type := {
  actor_output : Q;
  rand_value : Z;
  counter : nat;
  price_offset : Q;
  volume_fraction : Q;
  decision_state_id : Z;
  wire : result (list Z)
}.

Record PPO : Type := {
  state_buffer_ : list OrderBookState;
  action_buffer_ : list ActionInfo;
  state_counter_ : nat;
  trigger_state_id_ : Z;
  decisions : list Decision
}.

Definition initial : PPO :=
  {| state_buffer_ := []; action_buffer_ := []; state_counter_ := 0;
     trigger_state_id_ := 0; decisions := [] |}.

(** A feature frame of the expected size, with what the environment
    supplies while it is handled: the actor network's output for the
    current window and the next value of [rand()]. *)
Record Input : Type := {
  frame_state_id : Z;
  frame_mid_price_cents : Z;
  actor_price : Q;
  actor_volume : Q;
  rand_ : Z
}.

Definition back (buffer : list OrderBookState) : OrderBookState :=
  List.last buffer {| state_id := 0; mid_price := 0 |}.

Definition publishAction (i : Input) (price volume : Q) (s : PPO) : PPO :=
  let action := {| action_price := price; action_volume := volume;
                   action_state_id := state_id (back (state_buffer_ s)) |} in
  let actions :=
    (if ACTION_BUFFER_SIZE <=? length (action_buffer_ s)
     then tl (action_buffer_ s) else action_buffer_ s) ++ [action] in
  let current_mid_price := mid_price (back (state_buffer_ s)) in
  let current_state_id := state_id (back (state_buffer_ s)) in
  {| state_buffer_ := state_buffer_ s;
     action_buffer_ := actions;
     state_counter_ := state_counter_ s;
     trigger_state_id_ := trigger_state_id_ s;
     decisions := decisions s ++
       [{| actor_output := actor_price i;
           rand_value := rand_ i;
           counter := state_counter_ s;
           price_offset := price;
           volume_fraction := volume;
           decision_state_id := current_state_id;
           wire := binary_utils.encodeOmsActionV2 0 price volume
                     current_mid_price current_state_id |}] |}.

Definition forwardPass (i : Input) (s : PPO) : PPO :=
  let price_value := actor_price i in
  let volume_value := actor_volume i in
  let price_value :=
    if state_counter_ s <? EXPLORATION_PERIOD then
      if (rand_ i mod 2 =? 0)%Z then (- price_value)%Q else price_value
    else price_value in
  publishAction i price_value volume_value s.

Definition handleMessage (i : Input) (s : PPO) : PPO :=
  let state := {| state_id := frame_state_id i;
                  mid_price := (double_of_u64 (frame_mid_price_cents i)
                                / inject_Z binary_utils.CENTS_MULTIPLIER)%Q |} in
  let buffer :=
    (if HISTORY_BUFFER_SIZE <=? length (state_buffer_ s)
     then tl (state_buffer_ s) else state_buffer_ s) ++ [state] in
  let s1 := {| state_buffer_ := buffer;
               action_buffer_ := action_buffer_ s;
               state_counter_ := S (state_counter_ s);
               trigger_state_id_ := trigger_state_id_ s;
               decisions := decisions s |} in
  if (NETWORK_INPUT_SIZE <=? length (state_buffer_ s1))
     && (state_id (back (state_buffer_ s1)) mod 2 =? 0)%Z then
    forwardPass i
      {| state_buffer_ := state_buffer_ s1;
         action_buffer_ := action_buffer_ s1;
         state_counter_ := state_counter_ s1;
         trigger_state_id_ := state_id (back (state_buffer_ s1));
         decisions := decisions s1 |}
  else s1.

Definition run (inputs : list Input) (s : PPO) : PPO :=
  fold_left (fun s i => handleMessage i s) inputs s.

(** What the exploration gate does to a decision. *)
Definition gate (d : Decision) : Q :=
  if (counter d <? EXPLORATION_PERIOD) && (rand_value d mod 2 =? 0)%Z
  then (- actor_output d)%Q else actor_output d.

(** Frames numbered as the depth engine numbers them, an actor that always
    answers 1/2 and a [rand()] that always returns 0. *)
Definition steady_inputs (n : nat) : list Input :=
  map (fun k => {| frame_state_id := Z.of_nat k mod 65536;
                   frame_mid_price_cents := 3000000;
                   actor_price := 1 # 2; actor_volume := 1 # 2;
                   rand_ := 0 |}) (seq 0 n).

(** What every run keeps: the history never holds more frames than were
    counted, and each logged decision passed the gate at a counter value
    that lies between its own position and the present. *)
Definition relay_inv (s : PPO) : Prop :=
  length (state_buffer_ s) <= state_counter_ s /\
  forall k d, decisions s !! k = Some d ->
    price_offset d = gate d /\
    NETWORK_INPUT_SIZE + k <= counter d <= state_counter_ s.

End PPOHandler.

(** ** oms-service: orders, trades and the fill callback
       (okx_websocket.hpp, okx_websocket.cpp, oms_handler.hpp, oms_handler.cpp) *)

Module FillPortion.
Record t : Type := mk {
  tradeId : string;
  size : Q;
  price : Q;
  timestamp : Z;
  is_closing : bool;
  (** the field has no initialiser and several paths never assign it:
      [None] is the unassigned field *)
  execution_percentage : option Q
}.
End FillPortion.

Module OrderInfo.
Record t : Type := mk {
  state_id : Z;
  volume : Q;
  price : Q;
  okx_order_id : string;
  has_okx_id : bool;
  filled_size : Q;
  cumulative_filled_size : Q;
  avg_fill_price : Q;
  is_filled : bool;
  execution_percentage : Q;
  order_state : string;
  side : string;
  tradeId : string;
  fill_time : Z;
  fill_portions : list FillPortion.t
}.

Definition has_id (id : string) (o : t) : bool := String.eqb (okx_order_id o) id.

(** Member-wise updates of an order that stays in its container. *)
Definition with_fill (filled avg : Q) (st sd : string) (exec : Q) (filled_flag : bool)
    (portions : list FillPortion.t) (o : t) : t :=
  mk (state_id o) (volume o) (price o) (okx_order_id o) (has_okx_id o)
     filled (cumulative_filled_size o) avg filled_flag exec st sd (tradeId o)
     (fill_time o) portions.

Definition with_tradeId (tid : string) (o : t) : t :=
  mk (state_id o) (volume o) (price o) (okx_order_id o) (has_okx_id o)
     (filled_size o) (cumulative_filled_size o) (avg_fill_price o) (is_filled o)
     (execution_percentage o) (order_state o) (side o) tid (fill_time o)
     (fill_portions o).

Definition with_cumulative (cumulative : Q) (o : t) : t :=
  mk (state_id o) (volume o) (price o) (okx_order_id o) (has_okx_id o)
     (filled_size o) cumulative (avg_fill_price o) (is_filled o)
     (execution_percentage o) (order_state o) (side o) (tradeId o) (fill_time o)
     (fill_portions o).

Definition with_okx_id (id : string) (has_id_flag : bool) (st : string) (o : t) : t :=
  mk (state_id o) (volume o) (price o) id has_id_flag
     (filled_size o) (cumulative_filled_size o) (avg_fill_price o) (is_filled o)
     (execution_percentage o) st (side o) (tradeId o) (fill_time o)
     (fill_portions o).
End OrderInfo.

Module Trade.
Record t : Type := mk {
  has_active_trade : bool;
  is_long : bool;
  size : Q;
  maxdd : Q;
  cumulative_reward : Q;
  total_size : Q;
  tradeId : string;
  orders : list OrderInfo.t;
  buy_side_cumulative_price : Q;
  buy_side_total_size : Q;
  sell_side_cumulative_price : Q;
  sell_side_total_size : Q
}.

(** [Trade()], and [Trade new_trade;] whose two members without an
    initialiser are read as zero. *)
Definition empty : t := mk false false 0 0 0 0 "" [] 0 0 0 0.

Definition get_avg_buy_price (tr : t) : Q :=
  if Qgtb (buy_side_total_size tr) 0
  then (buy_side_cumulative_price tr / buy_side_total_size tr)%Q else 0%Q.

Definition get_avg_sell_price (tr : t) : Q :=
  if Qgtb (sell_side_total_size tr) 0
  then (sell_side_cumulative_price tr / sell_side_total_size tr)%Q else 0%Q.

Definition with_position (long : bool) (sz : Q) (tr : t) : t :=
  mk (has_active_trade tr) long sz (maxdd tr) (cumulative_reward tr)
     (total_size tr) (tradeId tr) (orders tr) (buy_side_cumulative_price tr)
     (buy_side_total_size tr) (sell_side_cumulative_price tr)
     (sell_side_total_size tr).

Definition with_size (sz : Q) (tr : t) : t := with_position (is_long tr) sz tr.

Definition with_orders (os : list OrderInfo.t) (tr : t) : t :=
  mk (has_active_trade tr) (is_long tr) (size tr) (maxdd tr) (cumulative_reward tr)
     (total_size tr) (tradeId tr) os (buy_side_cumulative_price tr)
     (buy_side_total_size tr) (sell_side_cumulative_price tr)
     (sell_side_total_size tr).

Definition with_reward (reward total : Q) (tr : t) : t :=
  mk (has_active_trade tr) (is_long tr) (size tr) (maxdd tr) reward
     total (tradeId tr) (orders tr) (buy_side_cumulative_price tr)
     (buy_side_total_size tr) (sell_side_cumulative_price tr)
     (sell_side_total_size tr).

Definition with_sides (buy_qp buy_qty sell_qp sell_qty : Q) (tr : t) : t :=
  mk (has_active_trade tr) (is_long tr) (size tr) (maxdd tr) (cumulative_reward tr)
     (total_size tr) (tradeId tr) (orders tr) buy_qp buy_qty sell_qp sell_qty.
End Trade.

(** What [amqp_basic_publish] is handed on the execution exchange. *)
Inductive Report : Type :=
  (** [{state_id, okx_id, is_trade_closed: false}], with
      [execution_percentage] from the three-argument overload *)
  | ExecutionReport (state_id : Z) (okx_id : string) (execution_percentage : option Q)
  (** [{is_trade_closed, filled_portions, reward}] *)
  | TradeReport (is_trade_closed : bool) (filled_portions : list (string * Q))
                (reward : option Q).

(** A fill as [order_fill_callback] receives it. *)
Record Fill : Type := {
  okx_order_id : string;
  filled_size : Q;
  avg_price : Q;
  side : string;
  state : string;
  pnl : Q;
  fill_time : Z
}.

Module OMS.

(** The state of [OMSHandler] and of the [OKXWebSocket] it owns.
    [amqp_status] lists what the coming calls of [amqp_basic_publish] will
    return ([true] for [AMQP_STATUS_OK]; [AMQP_STATUS_OK] once the list is
    used up); [outbox] lists the calls made, oldest first, each with the
    status it returned. *)
Record t : Type := mk {
  orders_ : list OrderInfo.t;
  maxdd_ : Q;
  current_trade_ : Trade.t;
  next_trade_ : Trade.t;
  has_next_trade_ : bool;
  published_state_ids_ : gset Z;
  known_orders_ : gmap string Z;
  amqp_status : list bool;
  outbox : list (Report * bool)
}.

Definition initial (statuses : list bool) : t :=
  mk [] 0 Trade.empty Trade.empty false ∅ ∅ statuses [].

Definition with_orders_ (os : list OrderInfo.t) (s : t) : t :=
  mk os (maxdd_ s) (current_trade_ s) (next_trade_ s) (has_next_trade_ s)
     (published_state_ids_ s) (known_orders_ s) (amqp_status s) (outbox s).

Definition with_maxdd_ (m : Q) (s : t) : t :=
  mk (orders_ s) m (current_trade_ s) (next_trade_ s) (has_next_trade_ s)
     (published_state_ids_ s) (known_orders_ s) (amqp_status s) (outbox s).

Definition with_current_trade_ (tr : Trade.t) (s : t) : t :=
  mk (orders_ s) (maxdd_ s) tr (next_trade_ s) (has_next_trade_ s)
     (published_state_ids_ s) (known_orders_ s) (amqp_status s) (outbox s).

Definition with_next_trade_ (tr : Trade.t) (flag : bool) (s : t) : t :=
  mk (orders_ s) (maxdd_ s) (current_trade_ s) tr flag
     (published_state_ids_ s) (known_orders_ s) (amqp_status s) (outbox s).

Definition with_known_orders_ (known : gmap string Z) (s : t) : t :=
  mk (orders_ s) (maxdd_ s) (current_trade_ s) (next_trade_ s) (has_next_trade_ s)
     (published_state_ids_ s) known (amqp_status s) (outbox s).

(** [amqp_basic_publish]: the call is recorded with its status; the
    two per-execution overloads mark [state_id] as published when the
    status is [AMQP_STATUS_OK]. *)
Definition next_status (s : t) : bool :=
  match amqp_status s with [] => true | ok :: _ => ok end.

Definition amqp_basic_publish (r : Report) (mark : option Z) (s : t) : t :=
  let ok := next_status s in
  mk (orders_ s) (maxdd_ s) (current_trade_ s) (next_trade_ s) (has_next_trade_ s)
     (match mark with
      | Some state_id =>
          if ok then {[state_id]} ∪ published_state_ids_ s
          else published_state_ids_ s
      | None => published_state_ids_ s
      end)
     (known_orders_ s) (tl (amqp_status s)) (outbox s ++ [(r, ok)]).

(** First element of a container satisfying a test, and the update of that
    element in place (the loops that [break] at the first match). *)
Definition first_order (id : string) (os : list OrderInfo.t) : option OrderInfo.t :=
  List.find (OrderInfo.has_id id) os.

Fixpoint update_first (id : string) (f : OrderInfo.t -> OrderInfo.t)
    (os : list OrderInfo.t) : list OrderInfo.t :=
  match os with
  | [] => []
  | o :: rest =>
      if OrderInfo.has_id id o then f o :: rest
      else o :: update_first id f rest
  end.

Definition is_buy (side : string) : bool := String.eqb side "buy".
Definition is_sell (side : string) : bool := String.eqb side "sell".
Definition is_filled_state (state : string) : bool := String.eqb state "filled".

(** [(volume > 0) ? (x / volume) : 0.0] *)
Definition ratio (x volume : Q) : Q :=
  if Qgtb volume 0 then (x / volume)%Q else 0%Q.

(** *** OKXWebSocket *)

(** [store_order], as [send_order] calls it for a new order. *)
Definition new_order (state_id : Z) (side : string) (size price : Q) : OrderInfo.t :=
  OrderInfo.mk state_id size price "" false 0 0 0 false 0 "pending" side "" 0 [].

Fixpoint trim_front (n : nat) (os : list OrderInfo.t) : list OrderInfo.t :=
  match n with
  | O => os
  | S n' => if (300 <? length os)%nat then trim_front n' (tl os) else os
  end.

Definition store_order (order : OrderInfo.t) (s : t) : t :=
  let volume :=
    if Qleb (OrderInfo.volume order) 0
    then Qmax (OrderInfo.filled_size order) (1 # 10) else OrderInfo.volume order in
  let exec :=
    if OrderInfo.is_filled order || is_filled_state (OrderInfo.order_state order)
    then 1%Q else ratio (OrderInfo.filled_size order) volume in
  let new_order :=
    OrderInfo.mk (OrderInfo.state_id order) volume (OrderInfo.price order)
      (OrderInfo.okx_order_id order) (OrderInfo.has_okx_id order)
      (OrderInfo.filled_size order) (OrderInfo.cumulative_filled_size order)
      (OrderInfo.avg_fill_price order) (OrderInfo.is_filled order) exec
      (OrderInfo.order_state order) (OrderInfo.side order) (OrderInfo.tradeId order)
      (OrderInfo.fill_time order) (OrderInfo.fill_portions order) in
  let os := orders_ s ++ [new_order] in
  with_orders_ (trim_front (length os) os) s.

Fixpoint update_order_id (state_id : Z) (okx_order_id : string) (has_okx_id : bool)
    (os : list OrderInfo.t) : list OrderInfo.t :=
  match os with
  | [] => []
  | o :: rest =>
      if (OrderInfo.state_id o =? state_id) && negb (OrderInfo.has_okx_id o)
      then OrderInfo.with_okx_id okx_order_id has_okx_id "live" o :: rest
      else o :: update_order_id state_id okx_order_id has_okx_id rest
  end.

Definition same_portion (a b : FillPortion.t) : bool :=
  Qeq_bool (FillPortion.size a) (FillPortion.size b)
  && Qeq_bool (FillPortion.price a) (FillPortion.price b)
  && (FillPortion.timestamp a =? FillPortion.timestamp b).

Definition update_order_fill (fill : Fill) (os : list OrderInfo.t)
    : list OrderInfo.t :=
  update_first (okx_order_id fill)
    (fun order =>
       let prev_cumulative_filled := OrderInfo.cumulative_filled_size order in
       let filled_size :=
         if is_filled_state (state fill) then OrderInfo.volume order
         else filled_size fill in
       let fill_delta := (filled_size - prev_cumulative_filled)%Q in
       if Qgtb fill_delta 0 then
         let new_portion :=
           FillPortion.mk (OrderInfo.tradeId order) fill_delta (avg_price fill)
             (OrderInfo.fill_time order) false None in
         let portions :=
           if existsb (fun existing => same_portion existing new_portion)
                      (OrderInfo.fill_portions order)
           then OrderInfo.fill_portions order
           else OrderInfo.fill_portions order ++ [new_portion] in
         let exec :=
           if is_filled_state (state fill) then 1%Q
           else if Qgtb (OrderInfo.volume order) 0
                then (filled_size / OrderInfo.volume order)%Q
                else if Qgtb filled_size 0 then 1%Q else 0%Q in
         let filled_flag :=
           if is_filled_state (state fill) then true else Qgeb exec 1 in
         OrderInfo.with_cumulative filled_size
           (OrderInfo.with_fill fill_delta (avg_price fill) (state fill) (side fill)
              exec filled_flag portions order)
       else order)
    os.

(** [handle_position_update] for one position entry carrying [uplRatio]. *)
Definition handle_position_update (uplRatio : Q) (s : t) : t :=
  if Qltb uplRatio 0 then
    let current_maxdd := maxdd_ s in
    if Qltb uplRatio current_maxdd then with_maxdd_ uplRatio s else s
  else s.

(** *** OMSHandler *)

Definition fill_time_le : relation OrderInfo.t :=
  fun a b => (OrderInfo.fill_time a <= OrderInfo.fill_time b)%Z.

#[export] Instance fill_time_le_dec : RelDecision fill_time_le :=
  fun a b => Z_le_dec (OrderInfo.fill_time a) (OrderInfo.fill_time b).

(** [std::sort] with the comparator [a.fill_time < b.fill_time]: the
  result is a permutation in ascending [fill_time]; merge sort is one
  such algorithm, and what is proved of the result below holds of any. *)
Definition sort_by_fill_time (os : list OrderInfo.t) : list OrderInfo.t :=
  merge_sort fill_time_le os.

Definition recovered_order (state_id : Z) (fill : Fill) : OrderInfo.t :=
  OrderInfo.mk state_id (filled_size fill) (avg_price fill) (okx_order_id fill)
    true (filled_size fill) 0 (avg_price fill) (is_filled_state (state fill)) 1
    (state fill) (side fill) "" (fill_time fill) [].

(** The first block of [order_fill_callback]: is the order known, under
    which state id, and the recovery of an order that left the deque. *)
Definition recognise (fill : Fill) (s : t) : bool * Z * t :=
  match known_orders_ s !! okx_order_id fill with
  | Some state_id =>
      let in_active_deque :=
        existsb (OrderInfo.has_id (okx_order_id fill)) (orders_ s) in
      if negb in_active_deque && Qgtb (filled_size fill) 0 then
        (true, state_id,
         with_orders_
           (sort_by_fill_time (orders_ s ++ [recovered_order state_id fill])) s)
      else (true, state_id, s)
  | None =>
      match first_order (okx_order_id fill) (orders_ s) with
      | Some order =>
          (true, OrderInfo.state_id order,
           with_known_orders_
             (<[okx_order_id fill := OrderInfo.state_id order]> (known_orders_ s)) s)
      | None => (false, 0, s)
      end
  end.

(** [publishTradeUpdate(state_id, okx_id)] *)
Definition publishTradeUpdate2 (state_id : Z) (okx_id : string) (s : t) : t :=
  if bool_decide (state_id ∈ published_state_ids_ s) then s
  else
    let has_execution :=
      existsb (fun order => OrderInfo.has_id okx_id order
                            && Qgtb (OrderInfo.filled_size order) 0)
              (Trade.orders (current_trade_ s)) in
    if negb has_execution then s
    else amqp_basic_publish (ExecutionReport state_id okx_id None) (Some state_id) s.

(** [publishTradeUpdate(state_id, okx_id, execution_percentage)] *)
Definition publishTradeUpdate3 (state_id : Z) (okx_id : string)
    (execution_percentage : Q) (s : t) : t :=
  if bool_decide (state_id ∈ published_state_ids_ s) then s
  else if Qleb execution_percentage 0 then s
  else amqp_basic_publish
         (ExecutionReport state_id okx_id (Some execution_percentage))
         (Some state_id) s.

(** The reward [publishTradeUpdate] writes into a closure report. *)
Definition published_reward (tr : Trade.t) (maxdd : Q) : option Q :=
  let avg_buy_price := Trade.get_avg_buy_price tr in
  let avg_sell_price := Trade.get_avg_sell_price tr in
  if Qgtb avg_buy_price 0 && Qgtb avg_sell_price 0 then
    let final_reward :=
      if Trade.is_long tr
      then ((avg_sell_price - avg_buy_price) / avg_buy_price * 100)%Q
      else ((avg_buy_price - avg_sell_price) / avg_sell_price * 100)%Q in
    Some (if Qgtb final_reward 0
          then (final_reward * (1 - 2 * Qabs maxdd))%Q
          else if Qltb final_reward 0
               then (final_reward * (1 + 2 * Qabs maxdd))%Q
               else final_reward)
  else None.

Definition opening_size_of (order : OrderInfo.t) : Q :=
  fold_left
    (fun total portion =>
       if FillPortion.is_closing portion then total
       else (total + FillPortion.size portion)%Q)
    (OrderInfo.fill_portions order) 0%Q.

(** The [filled_portions] array [publishTradeUpdate] writes. *)
Definition report_portions (is_trade_closed : bool) (tr : Trade.t)
    : list (string * Q) :=
  flat_map
    (fun order =>
       if String.eqb (OrderInfo.tradeId order) (Trade.tradeId tr) then
         if is_trade_closed then
           [(OrderInfo.okx_order_id order, OrderInfo.execution_percentage order)]
         else
           let total_opening_size := opening_size_of order in
           if Qgtb total_opening_size 0 then
             [(OrderInfo.okx_order_id order,
               (total_opening_size / OrderInfo.volume order)%Q)]
           else []
       else [])
    (Trade.orders tr).

(** [publishTradeUpdate(state_id, okx_id, is_trade_closed, filled_portions)];
    the vector it is given is only tested for emptiness. *)
Definition publishTradeUpdate4 (state_id : Z) (okx_id : string)
    (is_trade_closed : bool) (filled_portions : list (string * option Q))
    (s : t) : t :=
  if negb is_trade_closed
     && match filled_portions with [] => true | _ => false end
  then s
  else
    let portions := report_portions is_trade_closed (current_trade_ s) in
    let reward :=
      if is_trade_closed then published_reward (current_trade_ s) (maxdd_ s)
      else None in
    amqp_basic_publish (TradeReport is_trade_closed portions reward) None s.

(** The order record the callback creates for a fill it attributes whole to
    the current trade. *)
Definition trade_order (state_id : Z) (fill : Fill)
    (intended_volume intended_price : Q) (trade_id : string) (closing : bool)
    : OrderInfo.t :=
  OrderInfo.mk state_id intended_volume intended_price (okx_order_id fill) true
    (filled_size fill) 0 (avg_price fill) (is_filled_state (state fill))
    (ratio (filled_size fill) intended_volume) (state fill) (side fill) trade_id 0
    [FillPortion.mk trade_id (filled_size fill) (avg_price fill) (fill_time fill)
       closing None].

(** [sum_of_orders]: buy-side minus sell-side sizes over the portions
    tagged with the current trade id. *)
Definition side_total (buy : bool) (tr : Trade.t) : Q :=
  fold_left
    (fun total order =>
       fold_left
         (fun total portion =>
            if String.eqb (FillPortion.tradeId portion) (Trade.tradeId tr)
               && Bool.eqb (is_buy (OrderInfo.side order)) buy
            then (total + FillPortion.size portion)%Q else total)
         (OrderInfo.fill_portions order) total)
    (Trade.orders tr) 0%Q.

Definition sum_of_orders (tr : Trade.t) : Q :=
  (side_total true tr - side_total false tr)%Q.

Definition previous_filled_size (fill : Fill) (tr : Trade.t) : Q :=
  match first_order (okx_order_id fill) (Trade.orders tr) with
  | Some order => OrderInfo.filled_size order
  | None => 0%Q
  end.

Definition in_trade (fill : Fill) (tr : Trade.t) : bool :=
  existsb (OrderInfo.has_id (okx_order_id fill)) (Trade.orders tr).

(** "Update cumulative reward and total size for position reduction" *)
Definition update_reward (fill : Fill) (tr : Trade.t) : Trade.t :=
  if negb (Qeq_bool (pnl fill) 0) && Qgtb (filled_size fill) 0
     && Qgtb (avg_price fill) 0 then
    let pnl_percentage := (pnl fill / (filled_size fill * avg_price fill))%Q in
    let previous_filled := previous_filled_size fill tr in
    let new_fill_amount := (filled_size fill - previous_filled)%Q in
    let reward_increment := (new_fill_amount * pnl_percentage)%Q in
    Trade.with_reward (Trade.cumulative_reward tr + reward_increment)%Q
                      (Trade.total_size tr + new_fill_amount)%Q tr
  else tr.

(** "Update cumulative prices and sizes based on order side" *)
Definition update_side_sums (fill : Fill) (tr : Trade.t) : Trade.t :=
  match first_order (okx_order_id fill) (Trade.orders tr) with
  | Some current_order =>
      if is_buy (OrderInfo.side current_order) then
        Trade.with_sides
          (Trade.buy_side_cumulative_price tr + filled_size fill * avg_price fill)%Q
          (Trade.buy_side_total_size tr + filled_size fill)%Q
          (Trade.sell_side_cumulative_price tr) (Trade.sell_side_total_size tr) tr
      else
        Trade.with_sides
          (Trade.buy_side_cumulative_price tr) (Trade.buy_side_total_size tr)
          (Trade.sell_side_cumulative_price tr + filled_size fill * avg_price fill)%Q
          (Trade.sell_side_total_size tr + filled_size fill)%Q tr
  | None => tr
  end.

(** The [final_reward] the callback computes at closure; it is printed and
    never handed to [publishTradeUpdate]. *)
Definition final_reward (tr : Trade.t) (maxdd : Q) : Q :=
  let avg_buy_price := Trade.get_avg_buy_price tr in
  let avg_sell_price := Trade.get_avg_sell_price tr in
  if Qgtb avg_buy_price 0 && Qgtb avg_sell_price 0 then
    let final_reward :=
      if Trade.is_long tr
      then ((avg_sell_price - avg_buy_price) / avg_buy_price * 100 * 100)%Q
      else ((avg_buy_price - avg_sell_price) / avg_sell_price * 100 * 100)%Q in
    if Qgtb final_reward 0 then (final_reward * (1 - 2 * Qabs maxdd))%Q
    else if Qltb final_reward 0 then (final_reward * (1 + 2 * Qabs maxdd))%Q
    else final_reward
  else 0%Q.

(** The vector the callback prepares for the closure report: one entry per
    fill portion, in percent. *)
Definition prepare_filled_portions (tr : Trade.t) : list (string * option Q) :=
  flat_map
    (fun order =>
       match OrderInfo.fill_portions order with
       | [] =>
           [(OrderInfo.okx_order_id order,
             Some (Qmin 100 (OrderInfo.execution_percentage order * 100)))]
       | portions =>
           map (fun portion =>
                  (OrderInfo.okx_order_id order,
                   option_map (fun pct => Qmin 100 (pct * 100))
                              (FillPortion.execution_percentage portion)))
               portions
       end)
    (Trade.orders tr).

Definition push_order (order : OrderInfo.t) (s : t) : t :=
  with_current_trade_
    (Trade.with_orders (Trade.orders (current_trade_ s) ++ [order]) (current_trade_ s)) s.

Definition EPSILON : Q := 1 # 100000000.        (* 1e-8 *)
Definition MIN_PORTION : Q := 1 # 1000.          (* 0.001 *)

(** The order that carries the closing part of a fill. *)
Definition closing_order_of (fill : Fill) (state_id : Z)
    (intended_volume intended_price closing_size : Q) (trade_id : string)
    : OrderInfo.t :=
  let closing_pct := ratio closing_size intended_volume in
  OrderInfo.mk state_id intended_volume intended_price (okx_order_id fill)
    true closing_size 0 (avg_price fill) (is_filled_state (state fill))
    closing_pct (state fill) (side fill) trade_id 0
    (if Qgeb closing_size MIN_PORTION then
       [FillPortion.mk trade_id closing_size (avg_price fill) (fill_time fill)
          true (Some closing_pct)]
     else []).

(** The trade opened by the opening part of a fill: its id is the fill's
    order id, its direction the fill's side. *)
Definition follow_on_trade (fill : Fill) (state_id : Z)
    (intended_volume intended_price opening_size : Q) : Trade.t :=
  let opening_pct := ratio opening_size intended_volume in
  let opening_order :=
    OrderInfo.mk state_id intended_volume intended_price (okx_order_id fill)
      true opening_size 0 (avg_price fill) (is_filled_state (state fill))
      opening_pct (state fill) (side fill) (okx_order_id fill) 0
      [FillPortion.mk (okx_order_id fill) opening_size (avg_price fill)
         (fill_time fill) false (Some opening_pct)] in
  Trade.mk true (is_buy (side fill)) opening_size 0 0 0 (okx_order_id fill)
    [opening_order] 0 0 0 0.

(** "if (!closing_order_found)": the closing order joins the current trade
    and is reported; an opening part of at least 0.001 is parked in
    [next_trade_] and reported. *)
Definition dual_purpose_order (fill : Fill) (state_id : Z)
    (intended_volume intended_price fill_delta previous_size : Q) (s : t) : t :=
  let closing_size := Qmin fill_delta (Qabs previous_size) in
  let opening_size := (fill_delta - closing_size)%Q in
  let closing_order :=
    closing_order_of fill state_id intended_volume intended_price closing_size
      (Trade.tradeId (current_trade_ s)) in
  let s2 :=
    publishTradeUpdate3 state_id (okx_order_id fill)
      (OrderInfo.execution_percentage closing_order)
      (push_order closing_order s) in
  if Qgeb opening_size MIN_PORTION then
    publishTradeUpdate3 state_id (okx_order_id fill)
      (ratio opening_size intended_volume)
      (with_next_trade_
         (follow_on_trade fill state_id intended_volume intended_price opening_size)
         true s2)
  else s2.

(** The closure block, which the callback contains three times in the same
    words: the dual-purpose order when the closing order is not in the
    trade yet, the closure report, and the switch to the next trade. *)
Definition closure_path (fill : Fill) (state_id : Z)
    (intended_volume intended_price fill_delta previous_size : Q) (s : t) : t :=
  let s1 :=
    if in_trade fill (current_trade_ s) then s
    else dual_purpose_order fill state_id intended_volume intended_price
           fill_delta previous_size s in
  let filled_portions := prepare_filled_portions (current_trade_ s1) in
  let s3 := publishTradeUpdate4 state_id (okx_order_id fill) true filled_portions s1 in
  if has_next_trade_ s3 then
    with_next_trade_ (next_trade_ s3) false (with_current_trade_ (next_trade_ s3) s3)
  else with_current_trade_ Trade.empty s3.

(** No active trade: the fill opens one. *)
Definition open_trade (fill : Fill) (state_id : Z)
    (intended_volume intended_price : Q) (s : t) : t :=
  let tr := current_trade_ s in
  if Qgtb (filled_size fill) 0
     && (Qeq_bool (Trade.size tr) 0
         || (Trade.is_long tr && is_buy (side fill))
         || (negb (Trade.is_long tr) && is_sell (side fill))) then
    let order :=
      trade_order state_id fill intended_volume intended_price (okx_order_id fill)
        false in
    let tr' :=
      Trade.mk true (is_buy (side fill)) (filled_size fill) (Trade.maxdd tr) 0 0
        (okx_order_id fill) (Trade.orders tr ++ [order])
        (Trade.buy_side_cumulative_price tr) (Trade.buy_side_total_size tr)
        (Trade.sell_side_cumulative_price tr) (Trade.sell_side_total_size tr) in
    publishTradeUpdate2 state_id (okx_order_id fill) (with_current_trade_ tr' s)
  else s.

(** Active trade, fill on the trade's side.  The result says whether the
    callback returned from inside the closure block. *)
Definition same_direction (fill : Fill) (state_id : Z)
    (intended_volume intended_price : Q) (s : t) : t * bool :=
  let tr := current_trade_ s in
  let previous_filled_size := previous_filled_size fill tr in
  let fill_delta := (filled_size fill - previous_filled_size)%Q in
  let previous_size := Trade.size tr in
  let size1 :=
    if Trade.is_long tr then (previous_size + fill_delta)%Q
    else (- (Qabs previous_size + fill_delta))%Q in
  let order_found := in_trade fill tr in
  let trade_id := Trade.tradeId tr in
  let orders1 :=
    update_first (okx_order_id fill)
      (fun order =>
         let portions0 :=
           match OrderInfo.fill_portions order with
           | [] =>
               if Qgtb previous_filled_size 0 then
                 [FillPortion.mk trade_id previous_filled_size
                    (OrderInfo.avg_fill_price order) (fill_time fill - 1) false None]
               else []
           | portions => portions
           end in
         let new_portion :=
           FillPortion.mk trade_id fill_delta (avg_price fill) (fill_time fill)
             false None in
         OrderInfo.with_fill (filled_size fill) (avg_price fill) (state fill)
           (side fill)
           (if is_filled_state (state fill) then 1%Q
            else ratio (filled_size fill) (OrderInfo.volume order))
           (is_filled_state (state fill))
           (portions0 ++ [new_portion]) order)
      (Trade.orders tr) in
  let orders2 :=
    if negb order_found && Qgtb (filled_size fill) 0 then
      orders1 ++ [trade_order state_id fill intended_volume intended_price
                    trade_id false]
    else orders1 in
  let tr1 := Trade.with_orders orders2 (Trade.with_size size1 tr) in
  let sum := sum_of_orders tr1 in
  let tr2 :=
    if Qltb (Qabs sum) EPSILON then Trade.with_size 0 tr1
    else Trade.with_size sum tr1 in
  (* the size correction that follows in the source requires
     [!is_same_direction] and never runs on this path *)
  let tr3 := update_side_sums fill (update_reward fill tr2) in
  let s1 := with_current_trade_ tr3 s in
  if Qltb (Qabs (Trade.size tr3)) EPSILON then
    (closure_path fill state_id intended_volume intended_price fill_delta
       previous_size s1, true)
  else
    (if Qgtb (filled_size fill) 0
     then publishTradeUpdate2 state_id (okx_order_id fill) s1 else s1, false).

(** Active trade, fill against the trade's side. *)
Definition opposite_direction (fill : Fill) (state_id : Z)
    (intended_volume intended_price : Q) (s : t) : t * bool :=
  let tr := current_trade_ s in
  let previous_size := Trade.size tr in
  let previous_filled := previous_filled_size fill tr in
  let fill_delta := (filled_size fill - previous_filled)%Q in
  let closing_size := Qmin fill_delta (Qabs previous_size) in
  let opening_size := (fill_delta - closing_size)%Q in
  let size1 :=
    if Qgtb previous_size 0 then Qmax 0 (previous_size - closing_size)
    else Qmin 0 (previous_size + closing_size) in
  let tr1 :=
    Trade.with_reward (Trade.cumulative_reward tr)
      (Trade.total_size tr + closing_size)%Q (Trade.with_size size1 tr) in
  if Qltb (Qabs size1) EPSILON then
    (closure_path fill state_id intended_volume intended_price fill_delta
       previous_size (with_current_trade_ tr1 s), true)
  else
    let flip := Qgeb opening_size MIN_PORTION in
    let tr2 :=
      if flip then
        Trade.with_position (is_buy (side fill))
          (if is_buy (side fill) then opening_size else (- opening_size)%Q) tr1
      else tr1 in
    let trade_id := Trade.tradeId tr2 in
    let order_found := in_trade fill tr2 in
    let orders1 :=
      update_first (okx_order_id fill)
        (fun order =>
           let portions :=
             OrderInfo.fill_portions order
             ++ (if Qgeb closing_size MIN_PORTION then
                   [FillPortion.mk trade_id closing_size (avg_price fill)
                      (fill_time fill) true None]
                 else [])
             ++ (if flip then
                   [FillPortion.mk trade_id opening_size (avg_price fill)
                      (fill_time fill) false None]
                 else []) in
           OrderInfo.with_tradeId trade_id
             (OrderInfo.with_fill
                (if flip then opening_size else filled_size fill)
                (avg_price fill) (state fill) (side fill)
                (if Qgtb (OrderInfo.volume order) 0 then
                   if flip then (opening_size / OrderInfo.volume order)%Q
                   else (filled_size fill / OrderInfo.volume order)%Q
                 else 0%Q)
                (OrderInfo.is_filled order) portions order))
        (Trade.orders tr2) in
    let orders2 :=
      if negb order_found && Qgtb fill_delta 0 then
        if Qltb opening_size MIN_PORTION && Qgtb closing_size 0 then
          orders1 ++ [trade_order state_id fill intended_volume intended_price
                        trade_id true]
        else orders1
      else orders1 in
    let tr3 := Trade.with_orders orders2 tr2 in
    let sum := sum_of_orders tr3 in
    let tr4 := Trade.with_position (Qgeb sum 0) sum tr3 in
    let tr5 := update_side_sums fill (update_reward fill tr4) in
    let s1 := with_current_trade_ tr5 s in
    if Qltb (Qabs (Trade.size tr5)) EPSILON then
      (closure_path fill state_id intended_volume intended_price fill_delta
         previous_size s1, true)
    else
      (if Qgtb (filled_size fill) 0
       then publishTradeUpdate2 state_id (okx_order_id fill) s1 else s1, false).

(** "Update order state in deque": orders of this id are refreshed, and
    removed once filled; then the deque is cut to 300, every order that
    leaves it staying in [known_orders_]. *)
Fixpoint refresh_deque (fill : Fill) (os : list OrderInfo.t)
    (known : gmap string Z) : list OrderInfo.t * gmap string Z :=
  match os with
  | [] => ([], known)
  | o :: rest =>
      if OrderInfo.has_id (okx_order_id fill) o then
        let exec :=
          if is_filled_state (state fill) then 1%Q
          else ratio (filled_size fill) (OrderInfo.volume o) in
        let o' :=
          OrderInfo.with_fill (filled_size fill) (avg_price fill) (state fill)
            (OrderInfo.side o) exec (is_filled_state (state fill))
            (OrderInfo.fill_portions o) o in
        if is_filled_state (state fill) || Qgeb exec 1 then
          refresh_deque fill rest
            (<[OrderInfo.okx_order_id o := OrderInfo.state_id o]> known)
        else
          let '(rest', known') := refresh_deque fill rest known in
          (o' :: rest', known')
      else
        let '(rest', known') := refresh_deque fill rest known in
        (o :: rest', known')
  end.

Fixpoint cut_deque (n : nat) (os : list OrderInfo.t) (known : gmap string Z)
    : list OrderInfo.t * gmap string Z :=
  match n, os with
  | S n', front :: rest =>
      if (300 <? length os)%nat then
        cut_deque n' rest
          (if String.eqb (OrderInfo.okx_order_id front) "" then known
           else <[OrderInfo.okx_order_id front := OrderInfo.state_id front]> known)
      else (os, known)
  | _, _ => (os, known)
  end.

Definition housekeeping (fill : Fill) (s : t) : t :=
  let '(os, known) := refresh_deque fill (orders_ s) (known_orders_ s) in
  let '(os', known') := cut_deque (length os) os known in
  with_known_orders_ known' (with_orders_ os' s).

(** "Get order details from deque" *)
Definition order_details (fill : Fill) (os : list OrderInfo.t) : Q * Q :=
  match first_order (okx_order_id fill) os with
  | Some order => (OrderInfo.volume order, OrderInfo.price order)
  | None => (0%Q, 0%Q)
  end.

Definition order_fill_callback (fill : Fill) (s : t) : t :=
  let '(order_exists, state_id, s0) := recognise fill s in
  if negb order_exists then s0
  else
    let s1 := with_orders_ (update_order_fill fill (orders_ s0)) s0 in
    let '(intended_volume, intended_price) := order_details fill (orders_ s1) in
    let '(s2, returned) :=
      if negb (Trade.has_active_trade (current_trade_ s1)) then
        (open_trade fill state_id intended_volume intended_price s1, false)
      else
        let is_same_direction :=
          (Trade.is_long (current_trade_ s1) && is_buy (side fill))
          || (negb (Trade.is_long (current_trade_ s1)) && is_sell (side fill)) in
        if is_same_direction then
          same_direction fill state_id intended_volume intended_price s1
        else
          opposite_direction fill state_id intended_volume intended_price s1 in
    if returned then s2 else housekeeping fill s2.

(** What reaches the lifecycle engine: an order handed to [send_order],
    the exchange's order id for it, a fill, a position update. *)
Inductive Event : Type :=
  | OrderSent (state_id : Z) (side : string) (size price : Q)
  | OrderId (state_id : Z) (okx_order_id : string)
  | OrderFill (fill : Fill)
  | PositionUpdate (uplRatio : Q).

Definition step (s : t) (e : Event) : t :=
  match e with
  | OrderSent state_id side size price =>
      store_order (new_order state_id side size price) s
  | OrderId state_id okx_order_id =>
      with_known_orders_ (<[okx_order_id := state_id]> (known_orders_ s))
        (with_orders_ (update_order_id state_id okx_order_id true (orders_ s)) s)
  | OrderFill fill => order_fill_callback fill s
  | PositionUpdate uplRatio => handle_position_update uplRatio s
  end.

Definition run (events : list Event) (s : t) : t := fold_left step events s.

(** A per-execution report for [state_id], and one the broker accepted. *)
Definition exec_for (state_id : Z) (e : Report * bool) : bool :=
  match fst e with
  | ExecutionReport state_id' _ _ => (state_id' =? state_id)%Z
  | TradeReport _ _ _ => false
  end.

Definition published_for (state_id : Z) (e : Report * bool) : bool :=
  exec_for state_id e && snd e.

(** What the engine's operations may do to the drawdown, the set of
    published state ids and the outbox: nothing, one per-execution report
    for a state id that is not yet in the set (entering the set when the
    broker accepts it), or one trade report. *)
Inductive extends : OMS.t -> OMS.t -> Prop :=
  | extends_same s s' :
      maxdd_ s' = maxdd_ s ->
      published_state_ids_ s' = published_state_ids_ s ->
      outbox s' = outbox s ->
      extends s s'
  | extends_execution s s' state_id okx_id pct (ok : bool) :
      state_id ∉ published_state_ids_ s ->
      maxdd_ s' = maxdd_ s ->
      published_state_ids_ s' =
        (if ok then {[state_id]} ∪ published_state_ids_ s
         else published_state_ids_ s) ->
      outbox s' = outbox s ++ [(ExecutionReport state_id okx_id pct, ok)] ->
      extends s s'
  | extends_trade s s' closed portions reward ok :
      maxdd_ s' = maxdd_ s ->
      published_state_ids_ s' = published_state_ids_ s ->
      outbox s' = outbox s ++ [(TradeReport closed portions reward, ok)] ->
      extends s s'
  | extends_trans s1 s2 s3 :
      extends s1 s2 -> extends s2 s3 -> extends s1 s3.

(** Every accepted per-execution report has its state id in the set, and
    no per-execution report for a state id follows an accepted one. *)
Definition reported_once (pub : gset Z) (out : list (Report * bool)) : Prop :=
  (forall e state_id, e ∈ out -> published_for state_id e = true -> state_id ∈ pub) /\
  (forall state_id i j e e',
     (i < j)%nat -> out !! i = Some e -> out !! j = Some e' ->
     published_for state_id e = true -> exec_for state_id e' = false).

(** The two trades and the follow-on flag. *)
Definition trades (s : OMS.t) : Trade.t * Trade.t * bool :=
  (current_trade_ s, next_trade_ s, has_next_trade_ s).

End OMS.

(** ** Event sequences used in the evaluations *)

Module Scenario.
Import OMS.

Definition fill (id : string) (filled price : Q) (side state : string) (time : Z)
    : Event :=
  OrderFill {| okx_order_id := id; filled_size := filled; avg_price := price;
               side := side; state := state; pnl := 0; fill_time := time |}.

(** An order of the given size is sent, acknowledged under [id], and filled
    completely in one fill. *)
Definition filled_order (state_id : Z) (id side : string) (size price : Q)
    (time : Z) : list Event :=
  [OrderSent state_id side size price; OrderId state_id id;
   fill id size price side "filled" time].

(** Long 1.0 at 30000, then a sell order of 3.0 that fills 0.5 first. *)
Definition partial_then_flip_prefix : list Event :=
  filled_order 2 "A" "buy" 1 30000 1000
  ++ [OrderSent 4 "sell" 3 30150; OrderId 4 "X";
      fill "X" (1 # 2) 30150 "sell" "partially_filled" 2000].

Definition flipping_fill : Fill :=
  {| okx_order_id := "X"; filled_size := 3; avg_price := 30150; side := "sell";
     state := "filled"; pnl := 0; fill_time := 3000 |}.

(** The same position and the same sell order, filled 3.0 at once. *)
Definition single_flip_prefix : list Event :=
  filled_order 2 "A" "buy" 1 30000 1000
  ++ [OrderSent 4 "sell" 3 30150; OrderId 4 "X"].

(** Two buys at 30000 (the second in two fills), then a sell order of 2.0
    at 30300 filled in two fills, which closes the trade. *)
Definition round_trip_prefix : list Event :=
  filled_order 2 "A" "buy" 1 30000 1000
  ++ [OrderSent 4 "buy" 1 30000; OrderId 4 "B";
      fill "B" (1 # 2) 30000 "buy" "partially_filled" 2000;
      fill "B" 1 30000 "buy" "filled" 3000;
      OrderSent 6 "sell" 2 30300; OrderId 6 "C";
      fill "C" 1 30300 "sell" "partially_filled" 4000].

Definition closing_fill : Fill :=
  {| okx_order_id := "C"; filled_size := 2; avg_price := 30300; side := "sell";
     state := "filled"; pnl := 0; fill_time := 5000 |}.

(** Long 1.0 at 30000 in one fill, closed at 30300 in one fill. *)
Definition simple_round_trip : list Event :=
  filled_order 2 "A" "buy" 1 30000 1000
  ++ filled_order 4 "B" "sell" 1 30300 2000.

(** A drawdown of 10% is observed during a first trade, which then closes;
    a second trade follows with no position update at all. *)
Definition drawdown_then_close : list Event :=
  filled_order 2 "A" "buy" 1 30000 1000
  ++ [PositionUpdate (- (1 # 10))]
  ++ filled_order 4 "B" "sell" 1 29900 2000.

(** A fill for the known order "X" arrives after the order has left the
    deque, while another order "Y" is active. *)
Definition late_state : OMS.t :=
  with_known_orders_ {[ "X" := 7 ]}
    (with_orders_
       [OrderInfo.mk 9 2 30100 "Y" true 1 1 30100 false (1 # 2)
          "partially_filled" "buy" "" 5000 []]
       (initial [])).

Definition late_fill : Fill :=
  {| okx_order_id := "X"; filled_size := 1 # 2; avg_price := 30050;
     side := "sell"; state := "partially_filled"; pnl := 0; fill_time := 3000 |}.

End Scenario.

(** ** binary64 rounding

    Where a property depends on how the result of an arithmetic operation
    is rounded, the operation is written with [fl]: the exact result
    rounded to the nearest binary64 value, ties to the even significand.  A
    binary64 value has 53 significant bits and a last place no smaller than
    [2^-1074] (values below [2^-1022] are subnormal).  Results of [2^1024]
    and beyond, which the hardware turns into infinities, are outside the
    model, as are NaN and the sign of zero. *)

Module binary64.

(** A rational rounded to the nearest integer, ties to the even one. *)
Definition Qrne (t : Q) : Z := round_half_even (Qnum t) (Zpos (Qden t)).

(** The exponent [e] with [2^e <= |x| < 2^(e+1)], for [x] other than 0. *)
Definition ilog2 (x : Q) : Z :=
  let e := Z.log2 (Z.abs (Qnum x)) - Z.log2 (Zpos (Qden x)) in
  if Qle_bool (2 ^ e) (Qabs x) then e else e - 1.

(** Rounding of a magnitude: to a multiple of the unit in the last place,
    which is [2^(e-52)] in the binade of [2^e] and never below [2^-1074]. *)
Definition fl_pos (x : Q) : Q :=
  if Qle_bool x 0 then 0%Q
  else
    let q := Z.max (ilog2 x - 52) (-1074) in
    (inject_Z (Qrne (x / 2 ^ q)) * 2 ^ q)%Q.

(** Rounding is symmetric: the sign is kept and the magnitude rounded. *)
Definition fl (x : Q) : Q :=
  if Qltb x 0 then (- fl_pos (- x))%Q else fl_pos x.

(** The unit roundoff, [2^-53]. *)
Definition u : Q := 1 # 9007199254740992.

End binary64.

(** ** okx-orderbook: number parsing, features and the message loop
       (orderbook_handler.cpp, orderbook_handler.hpp) *)

Module DepthEngine.
Import Stdlib.Strings.Ascii.
Import OrderBookHandler binary64.
Local Open Scope nat_scope.

(** *** [fast_stod] *)

(** [*p >= '0' && *p <= '9'] and [*p - '0'] *)
Definition is_digit (c : ascii) : bool :=
  (48 <=? nat_of_ascii c) && (nat_of_ascii c <=? 57).

Definition digit_value (c : ascii) : Z := Z.of_nat (nat_of_ascii c) - 48.

(** "while (p < end && *p >= '0' && *p <= '9') { val = val * 10.0 + (*p - '0'); ++p; }" *)
Fixpoint scan_integer (p : string) (val : Q) : Q * string :=
  match p with
  | String c rest =>
      if is_digit c
      then scan_integer rest (val * 10 + inject_Z (digit_value c))%Q
      else (val, p)
  | EmptyString => (val, p)
  end.

(** "val += (*p - '0') * factor; factor *= 0.1;" *)
Fixpoint scan_fraction (p : string) (val factor : Q) : Q * string :=
  match p with
  | String c rest =>
      if is_digit c
      then scan_fraction rest (val + inject_Z (digit_value c) * factor)%Q
             (factor * (1 # 10))%Q
      else (val, p)
  | EmptyString => (val, p)
  end.

(** "exp = exp * 10 + (*p - '0')" on an [int]; the overflow of an
    exponent of ten digits or more is outside the model. *)
Fixpoint scan_exponent (p : string) (exp : Z) : Z * string :=
  match p with
  | String c rest =>
      if is_digit c then scan_exponent rest (exp * 10 + digit_value c)%Z
      else (exp, p)
  | EmptyString => (exp, p)
  end.

(** "while (exp-- > 0) val *= factor;" *)
Definition scale (exp : Z) (factor val : Q) : Q :=
  Nat.iter (Z.to_nat exp) (fun val => (val * factor)%Q) val.

Definition fast_stod (str : string) : Q :=
  let '(neg, p) :=
    match str with
    | String "-"%char rest => (true, rest)
    | _ => (false, str)
    end in
  let '(val, p) := scan_integer p 0%Q in
  let '(val, p) :=
    match p with
    | String "."%char rest => scan_fraction rest val (1 # 10)%Q
    | _ => (val, p)
    end in
  let val :=
    match p with
    | String c rest =>
        if Ascii.eqb c "e" || Ascii.eqb c "E" then
          let '(exp_neg, p) :=
            match rest with
            | String "-"%char rest' => (true, rest')
            | String "+"%char rest' => (false, rest')
            | _ => (false, rest)
            end in
          let '(exp, _) := scan_exponent p 0%Z in
          if exp_neg then scale exp (1 # 10)%Q val else scale exp 10%Q val
        else val
    | EmptyString => val
    end in
  if neg then (- val)%Q else val.

(** What [fast_stod] reads after the sign. *)
Definition unsigned_value (p : string) : Q :=
  let '(val, p) := scan_integer p 0%Q in
  let '(val, p) :=
    match p with
    | String "."%char rest => scan_fraction rest val (1 # 10)%Q
    | _ => (val, p)
    end in
  match p with
  | String c rest =>
      if Ascii.eqb c "e" || Ascii.eqb c "E" then
        let '(exp_neg, p) :=
          match rest with
          | String "-"%char rest' => (true, rest')
          | String "+"%char rest' => (false, rest')
          | _ => (false, rest)
          end in
        let '(exp, _) := scan_exponent p 0%Z in
        if exp_neg then scale exp (1 # 10)%Q val else scale exp 10%Q val
      else val
  | EmptyString => val
  end.

(** The value a string of decimal digits spells. *)
Definition decimal_value (digits : string) : Z :=
  fold_left (fun acc c => (acc * 10 + digit_value c)%Z) (String.list_ascii_of_string digits) 0%Z.

Definition all_digits (s : string) : bool :=
  forallb is_digit (String.list_ascii_of_string s).

(** A rest at which the integer loop stops and nothing more is read:
    the end, or a character that is no digit, no minus sign, no point and
    no exponent mark. *)
Definition stops (rest : string) : bool :=
  match rest with
  | EmptyString => true
  | String c _ =>
      negb (is_digit c) && negb (Ascii.eqb c "-") && negb (Ascii.eqb c ".")
      && negb (Ascii.eqb c "e") && negb (Ascii.eqb c "E")
  end.

(** *** Features *)

(** The mid price and the volume-weighted average price are written with
    the rounding of every operation, each on its own (no fused
    multiply-add); the two imbalances are left exact, what is proved of
    them holding of the rounded quotient as well. *)
Definition calculateMidPrice (b : Book) : Q :=
  match asks b, bids b with
  | best_ask :: _, best_bid :: _ => fl (fl (price best_ask + price best_bid) / 2)
  | _, _ => 0%Q
  end.

(** "for (size_t i = 0; i < depth && i < side.size(); ++i) sum += side[i].f;" *)
Definition depth_sum (f : OrderBookLevel -> Q) (depth : nat)
    (side : list OrderBookLevel) : Q :=
  fold_left (fun sum level => (sum + f level)%Q) (take depth side) 0%Q.

Definition calculateVolumeImbalance (b : Book) (depth : nat) : Q :=
  let bidVolume := depth_sum volume depth (bids b) in
  let askVolume := depth_sum volume depth (asks b) in
  let totalVolume := (bidVolume + askVolume)%Q in
  if Qgtb totalVolume 0 then ((bidVolume - askVolume) / totalVolume)%Q else 0%Q.

Definition calculateOrderImbalance (b : Book) (depth : nat) : Q :=
  let bidOrders := depth_sum orders depth (bids b) in
  let askOrders := depth_sum orders depth (asks b) in
  let totalOrders := (bidOrders + askOrders)%Q in
  if Qgtb totalOrders 0 then ((bidOrders - askOrders) / totalOrders)%Q else 0%Q.

(** "volumeSum += side[i].volume;
     weightedPriceSum += side[i].price * side[i].volume;" *)
Definition vwap_sums (levels : list OrderBookLevel) : Q * Q :=
  fold_left
    (fun '(volumeSum, weightedPriceSum) level =>
       (fl (volumeSum + volume level),
        fl (weightedPriceSum + fl (price level * volume level))))
    levels (0%Q, 0%Q).

Definition calculateVWAP (b : Book) (depth : nat) (is_bids : bool) : Q :=
  let side := if is_bids then bids b else asks b in
  let '(volumeSum, weightedPriceSum) := vwap_sums (take depth side) in
  if Qgtb volumeSum 0 then fl (weightedPriceSum / volumeSum) else 0%Q.

Record OrderBookFeatures : Type := {
  midPrice : Q;
  volumeImbalance : list Q;
  orderImbalance : list Q;
  bidVwapChange : list Q;
  askVwapChange : list Q
}.

Definition depthLevels : list nat := [10; 20; 50; 100; 400].

Definition calculateFeatures (b : Book) : OrderBookFeatures :=
  let mid := calculateMidPrice b in
  let change (is_bids : bool) (depth : nat) : Q :=
    if Qgtb mid 0 then fl (fl (calculateVWAP b depth is_bids - mid) / mid)
    else 0%Q in
  {| midPrice := mid;
     volumeImbalance := map (calculateVolumeImbalance b) depthLevels;
     orderImbalance := map (calculateOrderImbalance b) depthLevels;
     bidVwapChange := map (change true) depthLevels;
     askVwapChange := map (change false) depthLevels |}.

(** Prices and sizes between [2^-64] and [2^64]: in this range no
    intermediate result of the VWAP loop is subnormal or overflows. *)
Definition ordinary (level : OrderBookLevel) : Prop :=
  (2 ^ (-64) <= price level <= 2 ^ 64)%Q /\
  (2 ^ (-64) <= volume level <= 2 ^ 64)%Q.

(** *** Frames *)

Definition LEVEL_VALUES : nat := 3.
Definition VALUE_SIZE : nat := 8.
Definition STATE_ID_SIZE : nat := 2.
Definition NUM_DEPTHS : nat := 5.
Definition NUM_FEATURES : nat := 4.
Definition MAX_STATE_ID : Z := 65535.

Definition incrementStateId (current_state_id_ : Z) : Z :=
  ((current_state_id_ + 1) mod (MAX_STATE_ID + 1))%Z.

Definition message_size (b : Book) : nat :=
  (length (bids b) * LEVEL_VALUES + length (asks b) * LEVEL_VALUES + 1
   + NUM_DEPTHS * NUM_FEATURES) * VALUE_SIZE
  + 4 + STATE_ID_SIZE.

(** The frame one call of [publishOrderBookUpdate] builds: the book it
    serialises, the features it computes from it, the size of the buffer
    it fills, the mid price in cents and the state id it writes last.
    (The 64-bit words of the buffer are the codec's images of the book's
    levels and of the features; they are not spelled out here.) *)
Record Frame : Type := {
  frame_book : Book;
  frame_features : OrderBookFeatures;
  frame_size : nat;
  frame_mid_price_cents : Z;
  frame_state_id : Z
}.

(** [publish_status] lists what the coming calls of
    [RabbitMQHandler::publishBinaryMessage] will return ([false] when there
    is no connection or the broker's status is not [AMQP_STATUS_OK];
    [true] once the list is used up); [outbox] lists the calls made,
    oldest first, each with what it returned. *)
Record Engine : Type := {
  book : Book;
  current_state_id_ : Z;
  publish_status : list bool;
  outbox : list (Frame * bool)
}.

Definition initial (statuses : list bool) : Engine :=
  {| book := {| bids := []; asks := [] |}; current_state_id_ := 0;
     publish_status := statuses; outbox := [] |}.

Definition next_status (e : Engine) : bool :=
  match publish_status e with [] => true | ok :: _ => ok end.

(** The state id is written into the buffer and incremented before the
    buffer is handed to [publishBinaryMessage], whose result is ignored. *)
Definition publishOrderBookUpdate (e : Engine) : Engine :=
  let features := calculateFeatures (book e) in
  {| book := book e;
     current_state_id_ := incrementStateId (current_state_id_ e);
     publish_status := tl (publish_status e);
     outbox := outbox e ++
       [({| frame_book := book e;
            frame_features := features;
            frame_size := message_size (book e);
            frame_mid_price_cents :=
              u64_of_double (midPrice features
                             * inject_Z binary_utils.CENTS_MULTIPLIER)%Q;
            frame_state_id := current_state_id_ e |},
         next_status e)] |}.

(** The frames that reached the exchange. *)
Definition published (e : Engine) : list Frame :=
  map fst (List.filter snd (outbox e)).

(** The members of a WebSocket document that [handleMessage] looks at:
    each is [Some] when the key is there with the type asked for. *)
Record Message : Type := {
  op : option string;
  event : option string;
  action : option string;
  data : option (list DepthData)
}.

(** [handleMessage] returns the engine and whether a [std::runtime_error]
    left it: only [simdjson_error] is caught, so a book of the wrong size
    ends the call before anything is published. *)
Definition with_book (b : Book) (e : Engine) : Engine :=
  {| book := b; current_state_id_ := current_state_id_ e;
     publish_status := publish_status e; outbox := outbox e |}.

Definition handleMessage (m : Message) (e : Engine) : Engine * bool :=
  match op m with
  | Some "ping"%string | Some "pong"%string => (e, false)
  | _ =>
      match event m with
      | Some _ => (e, false)
      | None =>
          match action m, data m with
          | Some action, Some (first_item :: _) =>
              if String.eqb action "snapshot" then
                match handleSnapshot first_item (book e) with
                | Applied b => (publishOrderBookUpdate (with_book b e), false)
                | Fatal b => (with_book b e, true)
                end
              else if String.eqb action "update" then
                match processOrderBookUpdate first_item (book e) with
                | Applied b => (publishOrderBookUpdate (with_book b e), false)
                | Fatal b => (with_book b e, true)
                end
              else (e, false)
          | _, _ => (e, false)
          end
      end
  end.

(** The messages of a session.  [WebSocketClient::callback_function]
    catches what [handleMessage] throws and goes on with the next message,
    so a book of the wrong size stays as the frame left it. *)
Definition run (messages : list Message) (e : Engine) : Engine :=
  fold_left (fun e m => fst (handleMessage m e)) messages e.

(** *** Vocabulary for the effect of a delta on a side *)

Definition at_price (p : Q) (level : OrderBookLevel) : bool :=
  Qeq_bool (price level) p.

Definition levels_at (p : Q) (side : list OrderBookLevel) : list OrderBookLevel :=
  List.filter (at_price p) side.

Definition levels_off (p : Q) (side : list OrderBookLevel) : list OrderBookLevel :=
  List.filter (fun level => negb (at_price p level)) side.

End DepthEngine.

(** ** ppo-service: frame size and execution updates
       (ppo_handler.cpp, ppo_handler.hpp) *)

Module PPOExecution.
Import PPOHandler.
Local Open Scope nat_scope.

(** *** The size [handleMessage] insists on *)

Definition LEVELS : nat := 400.
Definition VALUES_PER_LEVEL : nat := 3.
Definition NUM_DEPTHS : nat := 5.
Definition NUM_FEATURES : nat := 4.

Definition expected_size : nat :=
  (LEVELS * 2 * VALUES_PER_LEVEL + 1 + NUM_DEPTHS * NUM_FEATURES) * 8 + 4 + 2.

(** *** Trades as the relay tracks them *)

(** [OrderInfo order;] leaves [action] unassigned unless exactly one action
    matches: [None] is the unassigned member. *)
Record OrderInfo : Type := {
  state_ids : list Z;
  action : option ActionInfo;
  okx_id : string;
  coefficient : Q
}.

Record TradeInfo : Type := {
  reward : Q;
  orders : list OrderInfo
}.

(** [TradeInfo()] *)
Definition TradeInfo_ : TradeInfo := {| reward := 0; orders := [] |}.

Record Learner : Type := {
  current_trade_ : TradeInfo;
  training_buffer_ : list TradeInfo
}.

Definition MAX_TRAINING_BUFFER_SIZE : nat := 100.

(** A member of the JSON document: absent, there with a type the
    conversion asked for throws on, or there with a value. *)
Inductive field (A : Type) : Type :=
  | Absent
  | Mistyped
  | Present (a : A).
Arguments Absent {A}.
Arguments Mistyped {A}.
Arguments Present {A} a.

(** An execution update.  [filled_portions] is [Some] when the key is
    there; it lists the elements the outer loop visits, each with the
    key/value pairs [items()] yields, a value being [None] when its
    conversion to [double] throws.  [state_id] is what [get<uint32_t>]
    returns. *)
Record ExecutionUpdate : Type := {
  is_trade_closed : field bool;
  filled_portions : option (list (list (string * option Q)));
  reward_ : field Q;
  state_id_ : field Z;
  okx_id_ : field string
}.

Definition has_id (id : string) (order : OrderInfo) : bool :=
  String.eqb (okx_id order) id.

Definition with_coefficient (c : Q) (order : OrderInfo) : OrderInfo :=
  {| state_ids := state_ids order; action := action order;
     okx_id := okx_id order; coefficient := c |}.

(** "auto order_it = std::find_if(...); if (order_it != end)
    order_it->coefficient = execution_percentage;" *)
Fixpoint set_coefficient (id : string) (c : Q) (os : list OrderInfo)
    : list OrderInfo :=
  match os with
  | [] => []
  | order :: rest =>
      if has_id id order then with_coefficient c order :: rest
      else order :: set_coefficient id c rest
  end.

(** The inner loop over one portion; the flag says that a conversion
    threw, which ends the handler with the orders as they are then. *)
Fixpoint assign_items (items : list (string * option Q)) (os : list OrderInfo)
    : list OrderInfo * bool :=
  match items with
  | [] => (os, false)
  | (id, execution_percentage) :: rest =>
      if existsb (has_id id) os then
        match execution_percentage with
        | Some c => assign_items rest (set_coefficient id c os)
        | None => (os, true)
        end
      else assign_items rest os
  end.

Fixpoint assign_portions (portions : list (list (string * option Q)))
    (os : list OrderInfo) : list OrderInfo * bool :=
  match portions with
  | [] => (os, false)
  | portion :: rest =>
      let '(os', thrown) := assign_items portion os in
      if thrown then (os', true) else assign_portions rest os'
  end.

(** [updateNetworks], as far as the training buffer goes. *)
Definition updateNetworks (completed_trade : TradeInfo)
    (training_buffer : list TradeInfo) : list TradeInfo :=
  let buffer := training_buffer ++ [completed_trade] in
  if MAX_TRAINING_BUFFER_SIZE <? length buffer then tl buffer else buffer.

(** The state ids collected for an order: [start_state_id] is a
    [uint16_t], and each entry is taken modulo
    [std::numeric_limits<uint16_t>::max()], which is 65535. *)
Definition UINT16_MAX : Z := 65535.

Definition start_state_id (state_id : Z) : Z :=
  if (Z.of_nat NETWORK_INPUT_SIZE <=? state_id)%Z
  then ((state_id - Z.of_nat NETWORK_INPUT_SIZE + 1) mod 65536)%Z
  else ((UINT16_MAX - (Z.of_nat NETWORK_INPUT_SIZE - state_id - 1)) mod 65536)%Z.

Definition state_sequence (state_id : Z) : list Z :=
  map (fun i => ((start_state_id state_id + Z.of_nat i) mod UINT16_MAX)%Z)
      (seq 0 NETWORK_INPUT_SIZE).

Definition matching_actions (state_id : Z) (action_buffer : list ActionInfo)
    : list ActionInfo :=
  List.filter (fun action => (action_state_id action =? state_id)%Z) action_buffer.

Definition new_order (state_id : Z) (id : string) (action_buffer : list ActionInfo)
    : OrderInfo :=
  {| state_ids := state_sequence state_id;
     action :=
       match matching_actions state_id action_buffer with
       | [matching] => Some matching
       | _ => None
       end;
     okx_id := id;
     coefficient := 0 |}.

Definition with_orders (os : list OrderInfo) (l : Learner) : Learner :=
  {| current_trade_ := {| reward := reward (current_trade_ l); orders := os |};
     training_buffer_ := training_buffer_ l |}.

(** [handleExecutionUpdate]; [action_buffer] is the relay's
    [action_buffer_] at the time of the call.  Every exception is caught
    at the end of the handler, so a throw leaves what was assigned before
    it. *)
Definition handleExecutionUpdate (action_buffer : list ActionInfo)
    (json : ExecutionUpdate) (l : Learner) : Learner :=
  match is_trade_closed json with
  | Present true =>
      match orders (current_trade_ l), filled_portions json with
      | [], None => l
      | _, _ =>
          let '(os, thrown) :=
            match filled_portions json with
            | Some (portion :: rest) =>
                assign_portions (portion :: rest) (orders (current_trade_ l))
            | _ => (orders (current_trade_ l), false)
            end in
          if thrown then with_orders os l
          else
            match reward_ json with
            | Mistyped => with_orders os l
            | r =>
                let trade :=
                  {| reward := match r with
                               | Present x => x
                               | _ => reward (current_trade_ l)
                               end;
                     orders := os |} in
                {| current_trade_ := TradeInfo_;
                   training_buffer_ :=
                     match os with
                     | [] => training_buffer_ l
                     | _ => updateNetworks trade (training_buffer_ l)
                     end |}
            end
      end
  | Present false =>
      match state_id_ json, okx_id_ json with
      | Present state_id, Present id =>
          if existsb (has_id id) (orders (current_trade_ l)) then l
          else
            with_orders
              (orders (current_trade_ l) ++ [new_order state_id id action_buffer]) l
      | _, _ => l
      end
  | _ => l
  end.

(** A sequence of execution updates, each with the action buffer of its
    moment. *)
Definition run_updates (updates : list (list ActionInfo * ExecutionUpdate))
    (l : Learner) : Learner :=
  fold_left (fun l '(action_buffer, json) =>
               handleExecutionUpdate action_buffer json l) updates l.

(** Assigning coefficients changes nothing else of an order. *)
Definition shape (os : list OrderInfo) : list (string * list Z * option ActionInfo) :=
  map (fun order => (okx_id order, state_ids order, action order)) os.

(** Distinct ids, and a well-formed window of state ids for every order. *)
Definition orders_ok (os : list OrderInfo) : Prop :=
  NoDup (map okx_id os) /\
  Forall (fun order =>
            length (state_ids order) = NETWORK_INPUT_SIZE /\
            Forall (fun id => (0 <= id < UINT16_MAX)%Z) (state_ids order)) os.

(** What the relay keeps between updates: ids within the trade differ,
    every order carries a window of [NETWORK_INPUT_SIZE] state ids none of
    which is 65535, and the training buffer holds at most
    [MAX_TRAINING_BUFFER_SIZE] trades, none without an order. *)
Definition learner_inv (l : Learner) : Prop :=
  NoDup (map okx_id (orders (current_trade_ l))) /\
  Forall (fun order =>
            length (state_ids order) = NETWORK_INPUT_SIZE /\
            Forall (fun id => (0 <= id < UINT16_MAX)%Z) (state_ids order))
         (orders (current_trade_ l)) /\
  length (training_buffer_ l) <= MAX_TRAINING_BUFFER_SIZE /\
  Forall (fun trade => orders trade <> []) (training_buffer_ l).

(** The last value a list of reported portions gives for an id, if any,
    and an order after a closure report with these portions. *)
Definition reported_value (id : string) (portions : list (string * Q)) : option Q :=
  last (map snd (List.filter (fun item => String.eqb (fst item) id) portions)).

Definition after_report (portions : list (string * Q)) (order : OrderInfo)
    : OrderInfo :=
  match reported_value (okx_id order) portions with
  | Some c => with_coefficient c order
  | None => order
  end.

(** One reported portion applied to one order. *)
Definition assign (item : string * Q) (order : OrderInfo) : OrderInfo :=
  if has_id (fst item) order then with_coefficient (snd item) order else order.

(** A learner that has seen nothing yet; the reward of its trade is
    whatever the constructor left there. *)
Definition fresh (r : Q) : Learner :=
  {| current_trade_ := {| reward := r; orders := [] |}; training_buffer_ := [] |}.

(** The JSON document the order manager writes for a report, as this
    handler reads it. *)
Definition of_report (r : Report) : ExecutionUpdate :=
  match r with
  | ExecutionReport state_id id _ =>
      {| is_trade_closed := Present false; filled_portions := None;
         reward_ := Absent; state_id_ := Present state_id; okx_id_ := Present id |}
  | TradeReport closed portions reward =>
      {| is_trade_closed := Present closed;
         filled_portions :=
           Some (map (fun '(id, pct) => [(id, Some pct)]) portions);
         reward_ := match reward with Some x => Present x | None => Absent end;
         state_id_ := Absent; okx_id_ := Absent |}
  end.

End PPOExecution.

(** ** oms-service: from an action to an order request
       (oms_handler.cpp: processAction) *)

Module OMSAction.
Import binary64.
Local Open Scope nat_scope.

(** The arguments [processAction] hands to [place_order]. *)
Record PlaceOrder : Type := {
  order_state_id : Z;
  inst_id : string;
  td_mode : string;
  order_side : string;
  ord_type : string;
  order_size : Q;
  order_price : Q;
  original_volume : Q;
  original_price : Q
}.

(** The literals [100.0] and [0.1]; [0.1] is no binary64 value and
    denotes the nearest one. *)
Definition LEVERAGE : Q := 100.
Definition MIN_CONTRACT_SIZE : Q := fl (1 # 10).

(** [std::ceil] *)
Definition ceil (x : Q) : Q := inject_Z (Qceiling x).

(** "const double order_price = mid_price * (1.0 + (price / 1000.0));" *)
Definition price_of (price mid_price : Q) : Q :=
  fl (mid_price * fl (1 + fl (price / 1000))).

(** "const double margin = balance * 0.001 * volume;
     double size = LEVERAGE * margin / (order_price / 100.0);" *)
Definition raw_size (balance volume order_price : Q) : Q :=
  let margin := fl (fl (balance * fl (1 # 1000)) * volume) in
  fl (fl (LEVERAGE * margin) / fl (order_price / 100)).

(** [processAction] with the balance [get_balance()] returns: the call of
    [place_order] it makes, or [None] when the size is below the minimum.
    Every arithmetic result is rounded to binary64, as the code computes
    it.  (A zero order price makes the source divide by zero, which is
    outside the number model; what is proved below assumes a positive mid
    price.) *)
Definition processAction (balance : Q) (action_type : Z)
    (price volume mid_price : Q) (state_id : Z) : option PlaceOrder :=
  let order_price := price_of price mid_price in
  let side := if Qltb price 0 then "buy"%string else "sell"%string in
  let order_type := if (action_type =? 0)%Z then "limit"%string else "market"%string in
  let size := raw_size balance volume order_price in
  let size := fl (ceil (fl (size * 10)) / 10) in
  if Qltb size MIN_CONTRACT_SIZE then None
  else
    Some {| order_state_id := state_id; inst_id := "BTC-USDT-SWAP";
            td_mode := "cross"; order_side := side; ord_type := order_type;
            order_size := size; order_price := order_price;
            original_volume := volume; original_price := price |}.

End OMSAction.

(** ** oms-service: the buffer of order updates and the order deque
       (okx_websocket.cpp, okx_websocket.hpp) *)

Module OrderUpdates.
Import OMS.
Local Open Scope Z_scope.

Definition BUFFER_WINDOW_MS : Z := 2000.

(** A [BufferedOrderUpdate] carries what the fill callback is called with
    (its [timestamp] is the callback's [fill_time]); its [raw_data] and
    [fill_delta] members are written and never read. *)
Definition timestamp (update : Fill) : Z := fill_time update.

Definition timestamp_le : relation Fill :=
  fun a b => timestamp a <= timestamp b.

#[export] Instance timestamp_le_dec : RelDecision timestamp_le :=
  fun a b => Z_le_dec (timestamp a) (timestamp b).

(** [std::sort] with the comparator [a.timestamp < b.timestamp]: some
    permutation in ascending [timestamp]; merge sort is one such
    algorithm. *)
Definition sort_by_timestamp (updates : list Fill) : list Fill :=
  merge_sort timestamp_le updates.

Definition add_to_buffer (update : Fill) (update_buffer : list Fill) : list Fill :=
  sort_by_timestamp (update_buffer ++ [update]).

(** "(current_time - update.timestamp) > BUFFER_WINDOW_MS" *)
Definition expired (current_time : Z) (update : Fill) : bool :=
  BUFFER_WINDOW_MS <? current_time - timestamp update.

(** [process_buffered_updates] at [current_time]: the updates handed to the
    callback, in the order of the calls, and the buffer afterwards.
    ([std::partition] may leave either group in any order; the first group
    is sorted before use, and of the second only its members matter
    below.) *)
Definition process_buffered_updates (current_time : Z) (update_buffer : list Fill)
    : list Fill * list Fill :=
  match update_buffer with
  | [] => ([], [])
  | _ =>
      let '(updates_to_process, rest) :=
        List.partition (expired current_time) update_buffer in
      (sort_by_timestamp updates_to_process, rest)
  end.

(** The part of [handle_order_update] that follows the parsing of one
    element of [data]: the update is buffered when its accumulated fill
    size exceeds what the deque has recorded for the order by more than
    [1e-8]. *)
Definition prev_acc_filled_size (update : Fill) (orders : list OrderInfo.t) : Q :=
  match first_order (okx_order_id update) orders with
  | Some order => OrderInfo.cumulative_filled_size order
  | None => 0%Q
  end.

Definition handle_order_update (update : Fill) (orders : list OrderInfo.t)
    (update_buffer : list Fill) : list Fill :=
  let fill_delta := (filled_size update - prev_acc_filled_size update orders)%Q in
  if Qgtb fill_delta (1 # 100000000) then add_to_buffer update update_buffer
  else update_buffer.

(** The buffer and the calls of the callback over a sequence of
    operations, which [buffer_mutex_] serialises. *)
Inductive Op : Type :=
  | Add (update : Fill)
  | Tick (current_time : Z).

Record Buffer : Type := {
  update_buffer_ : list Fill;
  calls : list Fill
}.

Definition op_step (b : Buffer) (op : Op) : Buffer :=
  match op with
  | Add update =>
      {| update_buffer_ := add_to_buffer update (update_buffer_ b);
         calls := calls b |}
  | Tick current_time =>
      let '(updates_to_process, rest) :=
        process_buffered_updates current_time (update_buffer_ b) in
      {| update_buffer_ := rest; calls := calls b ++ updates_to_process |}
  end.

Definition run_ops (ops : list Op) (b : Buffer) : Buffer := fold_left op_step ops b.

Definition added (ops : list Op) : list Fill :=
  flat_map (fun op => match op with Add update => [update] | Tick _ => [] end) ops.

(** *** The deque and the registry of known ids *)

Definition deque (s : OMS.t) : list OrderInfo.t * gmap string Z :=
  (orders_ s, known_orders_ s).

Definition volumes_positive (os : list OrderInfo.t) : Prop :=
  Forall (fun order => (0 < OrderInfo.volume order)%Q) os.

(** A registry that has every id of another. *)
Definition remembers (known known' : gmap string Z) : Prop :=
  forall id, is_Some (known !! id) -> is_Some (known' !! id).

End OrderUpdates.

(** ** Across the services *)

Module Pipeline.
Local Open Scope nat_scope.

Section Engine.
Import OrderBookHandler DepthEngine.

(** What every message keeps: the counter is the number of frames
    handed to the broker so far, modulo 65536, and each of them carries
    its own number, a book of 400 levels a side, that book's features
    and the size the relay insists on; the broker's answers are used up
    in order. *)
Definition engine_inv (statuses : list bool) (e : Engine) : Prop :=
  current_state_id_ e = (Z.of_nat (length (outbox e)) mod 65536)%Z /\
  publish_status e = drop (length (outbox e)) statuses /\
  forall k f ok, outbox e !! k = Some (f, ok) ->
    frame_state_id f = (Z.of_nat k mod 65536)%Z /\
    length (bids (frame_book f)) = REQUIRED_LEVELS /\
    length (asks (frame_book f)) = REQUIRED_LEVELS /\
    frame_features f = calculateFeatures (frame_book f) /\
    frame_size f = PPOExecution.expected_size /\
    ok = nth k statuses true.

End Engine.

Section Relay.
Import PPOHandler.

(** What [handleMessage] keeps of a frame, and whether the frame makes
    the relay decide once enough frames are buffered. *)
Definition decoded_state (i : Input) : OrderBookState :=
  {| state_id := frame_state_id i;
     mid_price := (double_of_u64 (frame_mid_price_cents i)
                   / inject_Z binary_utils.CENTS_MULTIPLIER)%Q |}.

Definition triggers (i : Input) : bool := (frame_state_id i mod 2 =? 0)%Z.

(** The action [publishAction] stores for a decision. *)
Definition action_of (d : Decision) : ActionInfo :=
  {| action_price := price_offset d; action_volume := volume_fraction d;
     action_state_id := decision_state_id d |}.

(** Frames numbered the way the depth engine numbers them, the first
    of them carrying [a]. *)
Definition numbered (a : Z) (inputs : list Input) : Prop :=
  forall k i, inputs !! k = Some i ->
    frame_state_id i = ((a + Z.of_nat k) mod 65536)%Z.

(** The even number at or after [b]. *)
Definition next_even (b : Z) : Z := (b + b mod 2)%Z.

End Relay.

End Pipeline.

(** * Properties *)

(** ** Comparisons on doubles *)

Lemma Qltb_true (x y : Q) : Qltb x y = true <-> (x < y)%Q.
Proof.
  unfold Qltb. rewrite negb_true_iff.
  split; intros H.
  - apply Qnot_le_lt. intros Hle. apply Qle_bool_iff in Hle. congruence.
  - destruct (Qle_bool y x) eqn:E; [|reflexivity].
    apply Qle_bool_iff in E. exfalso. apply (Qlt_not_le _ _ H E).
Qed.

Lemma Qltb_false (x y : Q) : Qltb x y = false <-> (y <= x)%Q.
Proof.
  unfold Qltb. rewrite negb_false_iff. apply Qle_bool_iff.
Qed.

Lemma Qleb_true (x y : Q) : Qleb x y = true <-> (x <= y)%Q.
Proof. apply Qle_bool_iff. Qed.

Lemma Qleb_false (x y : Q) : Qleb x y = false <-> (y < x)%Q.
Proof.
  unfold Qleb. split; intros H.
  - apply Qnot_le_lt. intros Hle. apply Qle_bool_iff in Hle. congruence.
  - destruct (Qle_bool x y) eqn:E; [|reflexivity].
    apply Qle_bool_iff in E. exfalso. apply (Qlt_not_le _ _ H E).
Qed.

Lemma Qgtb_true (x y : Q) : Qgtb x y = true <-> (y < x)%Q.
Proof. apply Qltb_true. Qed.

Lemma Qgtb_false (x y : Q) : Qgtb x y = false <-> (x <= y)%Q.
Proof. apply Qltb_false. Qed.

Lemma Qgeb_true (x y : Q) : Qgeb x y = true <-> (y <= x)%Q.
Proof. apply Qleb_true. Qed.

Lemma Qgeb_false (x y : Q) : Qgeb x y = false <-> (x < y)%Q.
Proof. apply Qleb_false. Qed.

Ltac Qcases :=
  repeat match goal with
  | H : Qltb _ _ = true |- _ => apply Qltb_true in H
  | H : Qltb _ _ = false |- _ => apply Qltb_false in H
  | H : Qleb _ _ = true |- _ => apply Qleb_true in H
  | H : Qleb _ _ = false |- _ => apply Qleb_false in H
  | H : Qgtb _ _ = true |- _ => apply Qltb_true in H
  | H : Qgtb _ _ = false |- _ => apply Qltb_false in H
  | H : Qgeb _ _ = true |- _ => apply Qleb_true in H
  | H : Qgeb _ _ = false |- _ => apply Qleb_false in H
  end.

(** ** Integer/double conversions *)

Lemma u64_of_double_floor (x : Q) : (0 <= x)%Q -> u64_of_double x = Qfloor x.
Proof.
  destruct x as [n d]. unfold u64_of_double, Qfloor, Qle. simpl.
  intros H. apply Z.quot_div_nonneg; lia.
Qed.

Lemma round_half_even_divides (q d : Z) :
  0 < d -> round_half_even (q * d) d = q.
Proof.
  intros Hd. unfold round_half_even.
  rewrite Z.div_mul by lia. rewrite Z.mod_mul by lia.
  replace (d <? 2 * 0) with false by (symmetry; apply Z.ltb_ge; lia).
  replace (2 * 0 =? d) with false by (symmetry; apply Z.eqb_neq; lia).
  reflexivity.
Qed.

(** Integers with at most 53 significant bits convert exactly. *)
Lemma double_of_u64_exact (m j : Z) :
  0 <= m < 2 ^ 53 -> 0 <= j -> double_of_u64 (m * 2 ^ j) = inject_Z (m * 2 ^ j).
Proof.
  intros Hm Hj. unfold double_of_u64.
  destruct (m * 2 ^ j <? 2 ^ 53) eqn:E; [reflexivity|].
  apply Z.ltb_ge in E.
  assert (Hm0 : 0 < m) by nia.
  assert (Hlog : Z.log2 (m * 2 ^ j) = j + Z.log2 m)
    by (apply Z.log2_mul_pow2; lia).
  assert (Hlm : Z.log2 m < 53) by (apply Z.log2_lt_pow2; lia).
  assert (Hl0 : 0 <= Z.log2 m) by apply Z.log2_nonneg.
  rewrite Hlog.
  set (e := j + Z.log2 m - 52).
  assert (He : 0 <= e <= j).
  { subst e. split; [|lia].
    assert (53 <= Z.log2 (m * 2 ^ j)) by (apply Z.log2_le_pow2; lia). lia. }
  assert (Hsplit : m * 2 ^ j = (m * 2 ^ (j - e)) * 2 ^ e).
  { rewrite <- Z.mul_assoc, <- Z.pow_add_r by lia. do 2 f_equal. lia. }
  rewrite Hsplit at 1.
  rewrite round_half_even_divides by (apply Z.pow_pos_nonneg; lia).
  rewrite <- Hsplit. reflexivity.
Qed.

Lemma double_of_u64_small (n : Z) : n < 2 ^ 53 -> double_of_u64 n = inject_Z n.
Proof.
  intros H. unfold double_of_u64.
  apply Z.ltb_lt in H. rewrite H. reflexivity.
Qed.

Lemma Qpower_2_nonneg (t : Z) : 0 <= t -> (Qpower 2 t == inject_Z (2 ^ t))%Q.
Proof.
  intros Ht. rewrite Zpower_Qpower by assumption. reflexivity.
Qed.

Lemma Qfloor_scaled (m t : Z) :
  Qfloor (inject_Z m * Qpower 2 t) = floor_scaled m t.
Proof.
  unfold floor_scaled. destruct (0 <=? t) eqn:E.
  - apply Z.leb_le in E.
    rewrite (Qfloor_comp _ (inject_Z (m * 2 ^ t))).
    + apply Qfloor_Z.
    + rewrite inject_Z_mult, Qpower_2_nonneg by assumption. reflexivity.
  - apply Z.leb_gt in E.
    assert (Hp : 0 < 2 ^ (- t)) by (apply Z.pow_pos_nonneg; lia).
    rewrite (Qfloor_comp _ (m # Z.to_pos (2 ^ (- t)))).
    + unfold Qfloor. cbv beta iota. f_equal. apply Z2Pos.id. assumption.
    + rewrite (Qmake_Qdiv m (Z.to_pos (2 ^ (- t)))).
      rewrite Z2Pos.id by assumption.
      replace t with (- - t) at 1 by lia.
      rewrite Qpower_opp, Qpower_2_nonneg by lia.
      reflexivity.
Qed.

Lemma floor_scaled_exact (m t : Z) :
  0 <= m < 2 ^ 53 ->
  double_of_u64 (floor_scaled m t) = inject_Z (floor_scaled m t).
Proof.
  intros Hm. unfold floor_scaled. destruct (0 <=? t) eqn:E.
  - apply Z.leb_le in E. apply double_of_u64_exact; assumption.
  - apply Z.leb_gt in E. apply double_of_u64_small.
    assert (Hp : 0 < 2 ^ (- t)) by (apply Z.pow_pos_nonneg; lia).
    assert (m / 2 ^ (- t) <= m) by (apply Z.div_le_upper_bound; nia).
    lia.
Qed.

(** ** Bit-level facts on the 1+63 layout *)

Lemma frac_mask_ones : binary_utils.PRICE_FRAC_MASK = Z.ones 63.
Proof. reflexivity. Qed.

Lemma land_frac_mask (n : Z) :
  0 <= n < 2 ^ 63 -> Z.land n binary_utils.PRICE_FRAC_MASK = n.
Proof.
  intros H. rewrite frac_mask_ones, Z.land_ones by lia.
  apply Z.mod_small. exact H.
Qed.

Lemma land_pow_small (n : Z) : 0 <= n < 2 ^ 63 -> Z.land (2 ^ 63) n = 0.
Proof.
  intros H. apply Z.bits_inj'; intros i Hi.
  rewrite Z.land_spec, Z.bits_0, Z.pow2_bits_eqb by lia.
  destruct (Z.eqb_spec 63 i) as [<-|Hne]; [|reflexivity].
  rewrite andb_true_l.
  rewrite <- (Z.mod_small n (2 ^ 63)) by lia.
  apply Z.mod_pow2_bits_high. lia.
Qed.

Lemma sign_lor (n : Z) :
  0 <= n < 2 ^ 63 -> Z.lor (Z.shiftl 1 63) n = 2 ^ 63 + n.
Proof.
  intros H. change (Z.shiftl 1 63) with (2 ^ 63).
  rewrite <- Z.lxor_lor by (apply land_pow_small; assumption).
  symmetry. apply Z.add_nocarry_lxor. apply land_pow_small; assumption.
Qed.

Lemma signed_land_sign (n : Z) :
  0 <= n < 2 ^ 63 -> Z.land (2 ^ 63 + n) binary_utils.PRICE_SIGN_MASK = 2 ^ 63.
Proof.
  intros H. change binary_utils.PRICE_SIGN_MASK with (2 ^ 63).
  rewrite <- sign_lor by assumption. change (Z.shiftl 1 63) with (2 ^ 63).
  rewrite Z.land_lor_distr_l, Z.land_diag.
  apply Z.bits_inj'; intros i Hi.
  rewrite Z.lor_spec, Z.land_spec, Z.pow2_bits_eqb by lia.
  destruct (Z.eqb_spec 63 i) as [<-|Hne]; [reflexivity|].
  rewrite andb_false_r. reflexivity.
Qed.

Lemma signed_land_frac (n : Z) :
  0 <= n < 2 ^ 63 -> Z.land (2 ^ 63 + n) binary_utils.PRICE_FRAC_MASK = n.
Proof.
  intros H. rewrite frac_mask_ones, Z.land_ones by lia.
  rewrite Z.add_comm, <- Zplus_mod_idemp_r, Z.mod_same, Z.add_0_r by lia.
  apply Z.mod_small. exact H.
Qed.

Lemma signed_testbit (n : Z) :
  0 <= n < 2 ^ 63 -> Z.testbit (2 ^ 63 + n) 63 = true.
Proof.
  intros H. apply Z.testbit_true; [lia|].
  replace (2 ^ 63 + n) with (1 * 2 ^ 63 + n) by lia.
  rewrite Z.div_add_l by lia. rewrite (Z.div_small n) by lia. reflexivity.
Qed.

(** ** The change-value codec *)

Section ChangeValue.
Import binary_utils.

Lemma PRICE_FRAC_SCALE_value : PRICE_FRAC_SCALE = inject_Z (2 ^ 63).
Proof. vm_compute. reflexivity. Qed.

Lemma PRICE_FRAC_SCALE_INV_value : PRICE_FRAC_SCALE_INV = (1 / inject_Z (2 ^ 63))%Q.
Proof. vm_compute. reflexivity. Qed.

Lemma isZero_true (v : Q) : isZero v = true <-> (Qabs v < ZERO_THRESHOLD)%Q.
Proof. apply Qltb_true. Qed.

Lemma isZero_false (v : Q) : isZero v = false <-> (ZERO_THRESHOLD <= Qabs v)%Q.
Proof. apply Qltb_false. Qed.

Lemma Qabs_binary64_value (m e : Z) :
  (Qabs (binary64_value m e) == binary64_value (Z.abs m) e)%Q.
Proof.
  unfold binary64_value. rewrite Qabs_Qmult.
  rewrite (Qabs_pos (Qpower 2 e)) by (apply Qpower_0_le; discriminate).
  reflexivity.
Qed.

Lemma scaled_abs (m e : Z) :
  (Qabs (binary64_value m e) * PRICE_FRAC_SCALE
   == inject_Z (Z.abs m) * Qpower 2 (e + 63))%Q.
Proof.
  rewrite Qabs_binary64_value, PRICE_FRAC_SCALE_value.
  unfold binary64_value.
  rewrite Qpower_plus by discriminate.
  rewrite <- (Qpower_2_nonneg 63) by lia.
  ring.
Qed.

Lemma magnitude_spec (m e : Z) :
  u64_of_double (Qabs (binary64_value m e) * PRICE_FRAC_SCALE) = magnitude m e.
Proof.
  rewrite u64_of_double_floor.
  - rewrite (Qfloor_comp _ _ (scaled_abs m e)). apply Qfloor_scaled.
  - rewrite PRICE_FRAC_SCALE_value.
    apply Qmult_le_0_compat; [apply Qabs_nonneg | discriminate].
Qed.

Lemma magnitude_bounds (m e : Z) :
  let v := binary64_value m e in
  (inject_Z (magnitude m e) <= Qabs v * inject_Z (2 ^ 63))%Q /\
  (Qabs v * inject_Z (2 ^ 63) < inject_Z (magnitude m e) + 1)%Q.
Proof.
  intros v. unfold magnitude. rewrite <- Qfloor_scaled.
  rewrite <- (Qfloor_comp _ _ (scaled_abs m e)).
  rewrite PRICE_FRAC_SCALE_value. fold v. split.
  - apply Qfloor_le.
  - eapply Qlt_le_trans; [apply Qlt_floor|].
    rewrite inject_Z_plus. apply Qle_refl.
Qed.

Lemma magnitude_range (m e : Z) :
  let v := binary64_value m e in
  (ZERO_THRESHOLD <= Qabs v)%Q -> (Qabs v < 1)%Q ->
  0 < magnitude m e < 2 ^ 63.
Proof.
  intros v Hlo Hhi.
  destruct (magnitude_bounds m e) as [Hle Hlt]. fold v in Hle, Hlt.
  unfold ZERO_THRESHOLD in Hlo.
  split.
  - assert (H : (inject_Z 0 < inject_Z (magnitude m e + 1))%Q).
    { rewrite inject_Z_plus. change (inject_Z 0) with 0%Q.
      change (inject_Z 1) with 1%Q.
      change (inject_Z (2 ^ 63)) with (9223372036854775808 # 1)%Q in Hlt.
      lra. }
    rewrite <- Zlt_Qlt in H.
    assert (H1 : (inject_Z 1 < inject_Z (magnitude m e + 1))%Q).
    { rewrite inject_Z_plus. change (inject_Z 1) with 1%Q.
      change (inject_Z (2 ^ 63)) with (9223372036854775808 # 1)%Q in Hlt.
      lra. }
    rewrite <- Zlt_Qlt in H1. lia.
  - assert (H : (inject_Z (magnitude m e) < inject_Z (2 ^ 63))%Q).
    { change (inject_Z (2 ^ 63)) with (9223372036854775808 # 1)%Q in *.
      lra. }
    rewrite <- Zlt_Qlt in H. exact H.
Qed.

Lemma magnitude_exact (m e : Z) :
  Z.abs m < 2 ^ 53 ->
  double_of_u64 (magnitude m e) = inject_Z (magnitude m e).
Proof.
  intros Hm. apply floor_scaled_exact. lia.
Qed.

Lemma encode_nonneg (m e : Z) :
  let v := binary64_value m e in
  (ZERO_THRESHOLD <= Qabs v)%Q -> (Qabs v < 1)%Q -> (0 <= v)%Q ->
  encodeChangeValue v = magnitude m e.
Proof.
  intros v Hlo Hhi Hs.
  pose proof (magnitude_range m e Hlo Hhi) as Hr.
  subst v. unfold encodeChangeValue.
  rewrite (proj2 (isZero_false _) Hlo), (proj2 (Qltb_false _ _) Hs).
  rewrite magnitude_spec, land_frac_mask by lia.
  reflexivity.
Qed.

Lemma encode_neg (m e : Z) :
  let v := binary64_value m e in
  (ZERO_THRESHOLD <= Qabs v)%Q -> (Qabs v < 1)%Q -> (v < 0)%Q ->
  encodeChangeValue v = 2 ^ 63 + magnitude m e.
Proof.
  intros v Hlo Hhi Hs.
  pose proof (magnitude_range m e Hlo Hhi) as Hr.
  subst v. unfold encodeChangeValue.
  rewrite (proj2 (isZero_false _) Hlo), (proj2 (Qltb_true _ _) Hs).
  rewrite magnitude_spec, land_frac_mask by lia.
  apply sign_lor. lia.
Qed.

Lemma decode_nonneg (n : Z) :
  0 < n < 2 ^ 63 -> double_of_u64 n = inject_Z n ->
  (decodeChangeValue n == inject_Z n / inject_Z (2 ^ 63))%Q.
Proof.
  intros Hn Hex. unfold decodeChangeValue.
  replace (n =? 0) with false by (symmetry; apply Z.eqb_neq; lia).
  change PRICE_SIGN_MASK with (2 ^ 63).
  rewrite Z.land_comm, land_pow_small by lia.
  rewrite land_frac_mask by lia. cbn [Z.eqb negb].
  rewrite Hex, PRICE_FRAC_SCALE_INV_value.
  field. discriminate.
Qed.

Lemma decode_neg (n : Z) :
  0 <= n < 2 ^ 63 -> double_of_u64 n = inject_Z n ->
  (decodeChangeValue (2 ^ 63 + n) == - (inject_Z n / inject_Z (2 ^ 63)))%Q.
Proof.
  intros Hn Hex. unfold decodeChangeValue.
  replace (2 ^ 63 + n =? 0) with false by (symmetry; apply Z.eqb_neq; lia).
  rewrite signed_land_sign, signed_land_frac by lia.
  change (2 ^ 63 =? 0) with false. cbn [negb].
  rewrite Hex, PRICE_FRAC_SCALE_INV_value.
  field. discriminate.
Qed.

End ChangeValue.

Section ChangeValueClaims.
Import binary_utils.

Lemma two_pow_minus_62 : (Qpower 2 (-62) == 1 # 4611686018427387904)%Q.
Proof. reflexivity. Qed.

Lemma change_value_flushed (v : Q) :
  (Qabs v < ZERO_THRESHOLD)%Q -> encodeChangeValue v = 0.
Proof.
  intros H. unfold encodeChangeValue.
  rewrite (proj2 (isZero_true _) H). reflexivity.
Qed.

Lemma change_value_encoding (m e : Z) :
  let v := binary64_value m e in
  (ZERO_THRESHOLD <= Qabs v)%Q -> (Qabs v < 1)%Q ->
  ((0 <= v)%Q /\ encodeChangeValue v = magnitude m e) \/
  ((v < 0)%Q /\ encodeChangeValue v = 2 ^ 63 + magnitude m e).
Proof.
  intros v Hlo Hhi. destruct (Qlt_le_dec v 0) as [Hn|Hp].
  - right. split; [assumption|]. apply encode_neg; assumption.
  - left. split; [assumption|]. apply encode_nonneg; assumption.
Qed.

(** At or above the threshold and below full scale, a binary64 value
    comes back within [2^-62]. *)
Lemma change_value_error (m e : Z) :
  let v := binary64_value m e in
  Z.abs m < 2 ^ 53 -> (Qabs v < 1)%Q -> (ZERO_THRESHOLD <= Qabs v)%Q ->
  (Qabs (decodeChangeValue (encodeChangeValue v) - v) <= Qpower 2 (-62))%Q.
Proof.
  intros v Hm Hhi Hlo.
  pose proof (magnitude_range m e Hlo Hhi) as Hr.
  pose proof (magnitude_exact m e Hm) as Hex.
  destruct (magnitude_bounds m e) as [Hle Hlt]. fold v in Hle, Hlt.
  change (inject_Z (2 ^ 63)) with (9223372036854775808 # 1)%Q in Hle, Hlt.
  rewrite two_pow_minus_62.
  destruct (change_value_encoding m e Hlo Hhi) as [[Hs E]|[Hs E]];
    fold v in Hs, E; rewrite E.
  + rewrite decode_nonneg by (assumption || lia).
    change (inject_Z (2 ^ 63)) with (9223372036854775808 # 1)%Q.
    rewrite (Qabs_pos v Hs) in Hle, Hlt.
    assert (Hd : (inject_Z (magnitude m e) / 9223372036854775808
                  * 9223372036854775808 == inject_Z (magnitude m e))%Q)
      by (field; discriminate).
    revert Hd. generalize (inject_Z (magnitude m e) / 9223372036854775808)%Q.
    intros d Hd. apply Qabs_Qle_condition. split; lra.
  + rewrite decode_neg by (assumption || lia).
    change (inject_Z (2 ^ 63)) with (9223372036854775808 # 1)%Q.
    rewrite (Qabs_neg v) in Hle, Hlt by lra.
    assert (Hd : (inject_Z (magnitude m e) / 9223372036854775808
                  * 9223372036854775808 == inject_Z (magnitude m e))%Q)
      by (field; discriminate).
    revert Hd. generalize (inject_Z (magnitude m e) / 9223372036854775808)%Q.
    intros d Hd. apply Qabs_Qle_condition. split; lra.
Qed.

(** C6 (as amended).  For every binary64 value [v] of magnitude below one:
    the encoding is zero exactly when [|v| < 1e-15], and such a value
    decodes to zero; at or above the threshold the decoded value is within
    [2^-62] of [v]; every [v <= -1e-15] has bit 63 set; and the encoding
    of zero is zero. *)
Theorem change_value_roundtrip (m e : Z) :
  let v := binary64_value m e in
  Z.abs m < 2 ^ 53 -> (Qabs v < 1)%Q ->
  encodeChangeValue 0 = 0 /\
  (encodeChangeValue v = 0 <-> (Qabs v < ZERO_THRESHOLD)%Q) /\
  ((Qabs v < ZERO_THRESHOLD)%Q ->
     (decodeChangeValue (encodeChangeValue v) == 0)%Q) /\
  ((ZERO_THRESHOLD <= Qabs v)%Q ->
     (Qabs (decodeChangeValue (encodeChangeValue v) - v) <= Qpower 2 (-62))%Q) /\
  ((v <= - ZERO_THRESHOLD)%Q -> Z.testbit (encodeChangeValue v) 63 = true).
Proof.
  intros v Hm Hhi.
  split; [reflexivity|]. split; [|split; [|split]].
  - split; [|apply change_value_flushed].
    intros Hz. destruct (Qlt_le_dec (Qabs v) ZERO_THRESHOLD) as [H|H];
      [exact H|exfalso].
    pose proof (magnitude_range m e H Hhi) as Hr.
    destruct (change_value_encoding m e H Hhi) as [[_ E]|[_ E]];
      fold v in E; rewrite E in Hz; lia.
  - intros H. rewrite (change_value_flushed v H). reflexivity.
  - intros Hlo. apply change_value_error; assumption.
  - intros Hneg. unfold ZERO_THRESHOLD in Hneg.
    assert (Hs : (v < 0)%Q) by lra.
    assert (Hlo : (ZERO_THRESHOLD <= Qabs v)%Q).
    { rewrite (Qabs_neg v) by lra. unfold ZERO_THRESHOLD. lra. }
    pose proof (magnitude_range m e Hlo Hhi) as Hr.
    destruct (change_value_encoding m e Hlo Hhi) as [[Hs' E]|[Hs' E]];
      fold v in Hs', E; [lra|].
    rewrite E. apply signed_testbit. lia.
Qed.
End ChangeValueClaims.

Section ChangeValueEvaluations.
Import binary_utils.

(** The theorem above at [v = 3/8]. *)
Lemma change_value_roundtrip_witness :
  Z.abs 3 < 2 ^ 53 /\ (Qabs (binary64_value 3 (-3)) < 1)%Q /\
  (Qabs (decodeChangeValue (encodeChangeValue (binary64_value 3 (-3)))
         - binary64_value 3 (-3)) <= Qpower 2 (-62))%Q.
Proof.
  assert (Hm : Z.abs 3 < 2 ^ 53) by (vm_compute; reflexivity).
  assert (Hv : (Qabs (binary64_value 3 (-3)) < 1)%Q) by (vm_compute; reflexivity).
  split; [exact Hm|]. split; [exact Hv|].
  apply (change_value_roundtrip 3 (-3) Hm Hv).
  vm_compute. discriminate.
Defined.

(** C6 as stated fails below the zero threshold: [v = 2^-51] lies in
    [[-1, 1]], encodes to 0 and decodes to 0, an error of [2^-51], far
    above [2^-62]; and [-2^-51] is negative but its encoding has bit 63
    clear. *)
Lemma change_value_threshold_counterexample :
  let v := binary64_value 1 (-51) in
  let w := binary64_value (-1) (-51) in
  (-1 <= v <= 1)%Q /\
  encodeChangeValue v = 0 /\
  ~ (Qabs (decodeChangeValue (encodeChangeValue v) - v) <= Qpower 2 (-62))%Q /\
  (w < 0)%Q /\ Z.testbit (encodeChangeValue w) 63 = false.
Proof.
  cbv zeta. repeat split.
  - vm_compute. discriminate.
  - vm_compute. discriminate.
  - vm_compute. intros H. apply H. reflexivity.
Qed.

(** The full-scale values fall outside the 63-bit fraction: the scale
    constant [static_cast<double>(2^63 - 1)] is [2^63], so [1.0] yields the
    fraction [2^63], which the mask clears. *)
Lemma change_value_full_scale :
  encodeChangeValue 1 = 0 /\ encodeChangeValue (-1) = 2 ^ 63 /\
  (decodeChangeValue (encodeChangeValue 1) == 0)%Q /\
  (decodeChangeValue (encodeChangeValue (-1)) == 0)%Q.
Proof. repeat split. Qed.

End ChangeValueEvaluations.

(** ** The action frame *)

Section ActionFrame.
Import binary_utils.

Lemma le_bytes_length (n : nat) (v : Z) : length (le_bytes n v) = n.
Proof.
  revert v. induction n as [|n IH]; intros v; [reflexivity|].
  cbn [le_bytes length]. rewrite IH. reflexivity.
Qed.

(** Storing a value that fits [n] bytes and loading it again. *)
Lemma le_value_le_bytes (n : nat) (v : Z) :
  0 <= v < 2 ^ (8 * Z.of_nat n) -> le_value (le_bytes n v) = v.
Proof.
  revert v. induction n as [|n IH]; intros v Hv.
  - change (2 ^ (8 * Z.of_nat 0)) with 1 in Hv. cbn [le_bytes le_value]. lia.
  - cbn [le_bytes le_value]. rewrite IH.
    + apply Z.bits_inj'. intros i Hi.
      rewrite Z.lor_spec, Z.land_spec. change 255 with (Z.ones 8).
      destruct (Z.lt_ge_cases i 8) as [Hlt|Hge].
      * rewrite Z.shiftl_spec_low, Z.ones_spec_low by lia.
        rewrite orb_false_r. apply andb_true_r.
      * rewrite Z.shiftl_spec, Z.shiftr_spec, Z.ones_spec_high by lia.
        rewrite andb_false_r. cbn [orb]. f_equal. lia.
    + rewrite Z.shiftr_div_pow2 by lia. split.
      * apply Z.div_pos; lia.
      * apply Z.div_lt_upper_bound; [lia|].
        rewrite <- Z.pow_add_r by lia.
        replace (8 + 8 * Z.of_nat n) with (8 * Z.of_nat (S n)) by lia.
        apply Hv.
Qed.

(** The five fields of a frame sit at offsets 0, 1, 9, 17 and 21. *)
Lemma frame_fields (a b c d e : list Z) :
  length a = 1%nat -> length b = 8%nat -> length c = 8%nat ->
  length d = 4%nat -> length e = 2%nat ->
  let buffer := a ++ b ++ c ++ d ++ e in
  length buffer = 23%nat /\
  slice 0 1 buffer = a /\ slice 1 8 buffer = b /\ slice 9 8 buffer = c /\
  slice 17 4 buffer = d /\ slice 21 2 buffer = e.
Proof.
  intros Ha Hb Hc Hd He.
  repeat (destruct a as [|? a]; try discriminate Ha).
  repeat (destruct b as [|? b]; try discriminate Hb).
  repeat (destruct c as [|? c]; try discriminate Hc).
  repeat (destruct d as [|? d]; try discriminate Hd).
  repeat (destruct e as [|? e]; try discriminate He).
  repeat split.
Qed.

Lemma Qabs_nonneg_eq (q : Q) : (0 <= q)%Q -> Qabs q = q.
Proof.
  destruct q as [n d]. unfold Qle, Qabs. cbn [Qnum Qden]. intros H.
  rewrite Z.abs_eq by lia. reflexivity.
Qed.

Lemma u64_of_double_inject_Z (z : Z) : u64_of_double (inject_Z z) = z.
Proof. unfold u64_of_double, inject_Z. cbn [Qnum Qden]. apply Z.quot_1_r. Qed.

(** The mid price comes back to the nearest cent. *)
Lemma mid_price_cents_roundtrip (m : Q) :
  (0 <= m)%Q -> (m <= 1000000)%Q ->
  let cents := u64_of_double (std_round (m * inject_Z CENTS_MULTIPLIER)) in
  0 <= cents < 2 ^ 32 /\
  (Qabs (double_of_u64 cents / inject_Z CENTS_MULTIPLIER - m) <= 1 # 200)%Q.
Proof.
  intros Hlo Hhi cents.
  change (inject_Z CENTS_MULTIPLIER) with 100%Q in *.
  assert (Hc : cents = Qfloor (m * 100 + (1 # 2))).
  { unfold cents, std_round.
    rewrite (proj2 (Qltb_false (m * 100) 0)) by lra.
    apply u64_of_double_inject_Z. }
  pose proof (Qfloor_le (m * 100 + (1 # 2))) as Hle.
  pose proof (Qlt_floor (m * 100 + (1 # 2))) as Hlt.
  rewrite <- Hc in Hle, Hlt. rewrite inject_Z_plus in Hlt.
  change (inject_Z 1) with 1%Q in Hlt.
  assert (Hr : 0 <= cents <= 100000000).
  { split.
    - assert (H : (inject_Z (-1) < inject_Z cents)%Q)
        by (change (inject_Z (-1)) with (-1 # 1)%Q; lra).
      rewrite <- Zlt_Qlt in H. lia.
    - assert (H : (inject_Z cents < inject_Z 100000001)%Q)
        by (change (inject_Z 100000001) with (100000001 # 1)%Q; lra).
      rewrite <- Zlt_Qlt in H. lia. }
  split; [lia|].
  rewrite double_of_u64_small by lia.
  assert (Hd : (inject_Z cents / 100 * 100 == inject_Z cents)%Q)
    by (field; discriminate).
  revert Hd. generalize (inject_Z cents / 100)%Q. intros d Hd.
  apply Qabs_Qle_condition. split; lra.
Qed.

Lemma orderbook_masks (n : Z) :
  0 <= n < 2 ^ 53 ->
  Z.land n ORDERBOOK_SIGN_MASK = 0 /\
  Z.land n ORDERBOOK_WHOLE_MASK = 0 /\
  Z.land n ORDERBOOK_FRAC_MASK = n.
Proof.
  intros Hn.
  assert (Hhigh : forall i, 53 <= i -> Z.testbit n i = false).
  { intros i Hi. rewrite <- (Z.mod_small n (2 ^ 53)) by lia.
    apply Z.mod_pow2_bits_high. lia. }
  split; [|split].
  - apply Z.bits_inj'. intros i Hi.
    rewrite Z.land_spec, Z.bits_0.
    change ORDERBOOK_SIGN_MASK with (2 ^ 63). rewrite Z.pow2_bits_eqb by lia.
    destruct (Z.eqb_spec 63 i) as [<-|Hne]; [|apply andb_false_r].
    rewrite Hhigh by lia. reflexivity.
  - apply Z.bits_inj'. intros i Hi.
    rewrite Z.land_spec, Z.bits_0. unfold ORDERBOOK_WHOLE_MASK.
    destruct (Z.lt_ge_cases i 53) as [Hlt|Hge].
    + rewrite Z.shiftl_spec_low by lia. apply andb_false_r.
    + rewrite Hhigh by lia. reflexivity.
  - change ORDERBOOK_FRAC_MASK with (Z.ones 53).
    rewrite Z.land_ones by lia. apply Z.mod_small. exact Hn.
Qed.

(** A volume fraction in [[0, 1]] comes back within the zero threshold. *)
Lemma orderbook_value_unit_interval (q : Q) :
  (0 <= q)%Q -> (q <= 1)%Q ->
  0 <= encodeOrderBookValue q < 2 ^ 64 /\
  (Qabs (decodeOrderBookValue (encodeOrderBookValue q) - q) <= ZERO_THRESHOLD)%Q.
Proof.
  intros Hlo Hhi. unfold encodeOrderBookValue.
  destruct (isZero q) eqn:Hz.
  { split; [lia|]. apply isZero_true in Hz.
    rewrite (Qabs_nonneg_eq q Hlo) in Hz.
    change (decodeOrderBookValue 0) with 0%Q.
    apply Qabs_Qle_condition. unfold ZERO_THRESHOLD in *. split; lra. }
  apply isZero_false in Hz. rewrite (Qabs_nonneg_eq q Hlo) in *.
  rewrite (proj2 (Qltb_false q 0) Hlo). cbv zeta.
  pose proof (Qfloor_le q) as Hfl. pose proof (Qlt_floor q) as Hfu.
  rewrite inject_Z_plus in Hfu. change (inject_Z 1) with 1%Q in Hfu.
  assert (Hw : Qfloor q = 0 \/ (Qfloor q = 1 /\ (q == 1)%Q)).
  { assert (H0 : (inject_Z (-1) < inject_Z (Qfloor q))%Q)
      by (change (inject_Z (-1)) with (-1 # 1)%Q; lra).
    assert (H2 : (inject_Z (Qfloor q) < inject_Z 2)%Q)
      by (change (inject_Z 2) with (2 # 1)%Q; lra).
    rewrite <- Zlt_Qlt in H0, H2.
    assert (Hc : Qfloor q = 0 \/ Qfloor q = 1) by lia.
    destruct Hc as [Hc|Hc]; [left; exact Hc|right].
    split; [exact Hc|]. rewrite Hc in Hfl.
    change (inject_Z 1) with 1%Q in Hfl. lra. }
  change ORDERBOOK_FRAC_SCALE with (inject_Z (2 ^ 53 - 1)).
  destruct Hw as [Hw|[Hw Hq]]; rewrite Hw.
  - (* below one: the integer part is 0 *)
    change (u64_of_double (Qmin (inject_Z 0) 1023)) with 0.
    set (F := u64_of_double ((q - inject_Z 0) * inject_Z (2 ^ 53 - 1))).
    assert (HF : F = Qfloor (q * inject_Z (2 ^ 53 - 1))).
    { unfold F. rewrite u64_of_double_floor.
      - apply Qfloor_comp. change (inject_Z 0) with 0%Q. ring.
      - change (inject_Z 0) with 0%Q.
        change (inject_Z (2 ^ 53 - 1)) with (9007199254740991 # 1)%Q. lra. }
    pose proof (Qfloor_le (q * inject_Z (2 ^ 53 - 1))) as HFl.
    pose proof (Qlt_floor (q * inject_Z (2 ^ 53 - 1))) as HFu.
    rewrite <- HF in HFl, HFu. rewrite inject_Z_plus in HFu.
    change (inject_Z 1) with 1%Q in HFu.
    change (inject_Z (2 ^ 53 - 1)) with (9007199254740991 # 1)%Q in HFl, HFu.
    unfold ZERO_THRESHOLD in Hz.
    rewrite Hw in Hfu. change (inject_Z 0) with 0%Q in Hfu.
    assert (HFr : 0 < F < 2 ^ 53).
    { split.
      - assert (H : (inject_Z 1 < inject_Z (F + 1))%Q)
          by (rewrite inject_Z_plus; change (inject_Z 1) with 1%Q; lra).
        rewrite <- Zlt_Qlt in H. lia.
      - assert (H : (inject_Z F < inject_Z (2 ^ 53))%Q)
          by (change (inject_Z (2 ^ 53)) with (9007199254740992 # 1)%Q; lra).
        rewrite <- Zlt_Qlt in H. exact H. }
    destruct (orderbook_masks F) as (Hs & Hwm & Hfm); [lia|].
    change (Z.shiftl 0 63) with 0.
    change (Z.shiftl (Z.land 0 (Z.shiftl 1 10 - 1)) 53) with 0.
    rewrite Hfm. change (Z.lor (Z.lor 0 0) F) with F.
    split; [lia|].
    unfold decodeOrderBookValue.
    replace (F =? 0) with false by (symmetry; apply Z.eqb_neq; lia).
    rewrite Hs, Hwm, Hfm. cbn [Z.eqb negb]. change (Z.shiftr 0 53) with 0.
    rewrite (double_of_u64_small F) by lia.
    change (double_of_u64 0) with 0%Q.
    change ORDERBOOK_FRAC_SCALE_INV with (1 / (9007199254740991 # 1))%Q.
    assert (Hd : (inject_Z F * (1 / (9007199254740991 # 1)) * (9007199254740991 # 1)
                  == inject_Z F)%Q) by (field; discriminate).
    revert Hd. generalize (inject_Z F * (1 / (9007199254740991 # 1)))%Q.
    intros d Hd. unfold ZERO_THRESHOLD.
    apply Qabs_Qle_condition. split; lra.
  - (* exactly one: the integer part is 1 and the fraction 0 *)
    change (u64_of_double (Qmin (inject_Z 1) 1023)) with 1.
    assert (HF : u64_of_double ((q - inject_Z 1) * inject_Z (2 ^ 53 - 1)) = 0).
    { rewrite u64_of_double_floor.
      - change 0 with (Qfloor 0). apply Qfloor_comp.
        change (inject_Z 1) with 1%Q. rewrite Hq. ring.
      - change (inject_Z 1) with 1%Q.
        change (inject_Z (2 ^ 53 - 1)) with (9007199254740991 # 1)%Q. lra. }
    rewrite HF. split; [vm_compute; split; [discriminate|reflexivity]|].
    match goal with
    | |- (Qabs (decodeOrderBookValue ?x - q) <= _)%Q =>
        assert (Hv : (decodeOrderBookValue x == 1)%Q) by reflexivity
    end.
    rewrite Hv, Hq. vm_compute. discriminate.
Qed.

(** The price offset of a frame: a binary64 value below full scale comes
    back within the zero threshold. *)
Lemma change_value_below_full_scale (m e : Z) :
  let v := binary64_value m e in
  Z.abs m < 2 ^ 53 -> (Qabs v < 1)%Q ->
  0 <= encodeChangeValue v < 2 ^ 64 /\
  (Qabs (decodeChangeValue (encodeChangeValue v) - v) <= ZERO_THRESHOLD)%Q.
Proof.
  intros v Hm Hhi.
  destruct (Qlt_le_dec (Qabs v) ZERO_THRESHOLD) as [Hz|Hz].
  - rewrite (change_value_flushed v Hz). split; [lia|].
    change (decodeChangeValue 0) with 0%Q.
    assert (E : (0 - v == - v)%Q) by ring.
    rewrite E, Qabs_opp. apply Qlt_le_weak. exact Hz.
  - split.
    + pose proof (magnitude_range m e Hz Hhi) as Hr.
      destruct (change_value_encoding m e Hz Hhi) as [[_ E]|[_ E]];
        fold v in E; rewrite E; lia.
    + eapply Qle_trans; [apply change_value_error; assumption|].
      rewrite two_pow_minus_62. unfold ZERO_THRESHOLD. discriminate.
Qed.

(** Below full scale the frame codec does what the specification asks:
    for an action kind below 8, a binary64 price offset of magnitude
    below 1, a volume fraction in [[0, 1]], a mid price in [[0, 1000000]]
    and a 16-bit state id, the encoder produces 23 bytes from which the
    decoder recovers the kind and the state id exactly, the price offset
    and the volume fraction within [1e-15], and the mid price within half
    a cent. *)
Lemma oms_action_roundtrip_below_full_scale
    (k : Z) (m e : Z) (q mid : Q) (s : Z) :
  let p := binary64_value m e in
  0 <= k < 8 -> Z.abs m < 2 ^ 53 -> (Qabs p < 1)%Q ->
  (0 <= q)%Q -> (q <= 1)%Q -> (0 <= mid)%Q -> (mid <= 1000000)%Q ->
  0 <= s < 2 ^ 16 ->
  exists buffer,
    encodeOmsActionV2 k p q mid s = Ok buffer /\
    length buffer = 23%nat /\
    action_type (decodeOmsActionV2 buffer) = k /\
    (Qabs (price (decodeOmsActionV2 buffer) - p) <= ZERO_THRESHOLD)%Q /\
    (Qabs (volume (decodeOmsActionV2 buffer) - q) <= ZERO_THRESHOLD)%Q /\
    (Qabs (mid_price (decodeOmsActionV2 buffer) - mid) <= 1 # 200)%Q /\
    state_id (decodeOmsActionV2 buffer) = s.
Proof.
  intros p Hk Hm Hp Hq0 Hq1 Hm0 Hm1 Hs.
  destruct (change_value_below_full_scale m e Hm Hp) as [Hpr Hpe]. fold p in Hpr, Hpe.
  destruct (orderbook_value_unit_interval q Hq0 Hq1) as [Hqr Hqe].
  destruct (mid_price_cents_roundtrip mid Hm0 Hm1) as [Hcr Hce].
  unfold encodeOmsActionV2.
  rewrite (proj2 (Qltb_false mid 0) Hm0).
  replace (Qgtb mid (inject_Z MAX_MIDPRICE)) with false
    by (symmetry; apply Qltb_false; exact Hm1).
  cbn [orb]. eexists. split; [reflexivity|].
  assert (Hkk : Z.land k ACTION_TYPE_MASK = k).
  { change ACTION_TYPE_MASK with (Z.ones 3). rewrite Z.land_ones by lia.
    apply Z.mod_small. exact Hk. }
  rewrite Hkk.
  destruct (frame_fields
              (le_bytes 1 k) (le_bytes 8 (encodeChangeValue p))
              (le_bytes 8 (encodeOrderBookValue q))
              (le_bytes 4 (u64_of_double
                             (std_round (mid * inject_Z CENTS_MULTIPLIER))))
              (le_bytes 2 s))
    as (Hlen & Ha & Hb & Hc & Hd & He); try apply le_bytes_length.
  split; [exact Hlen|].
  unfold decodeOmsActionV2.
  cbn [action_type price volume mid_price state_id].
  rewrite Ha, Hb, Hc, Hd, He.
  rewrite !le_value_le_bytes by (cbn [Z.of_nat Pos.of_succ_nat Pos.succ Z.mul Pos.mul]; lia).
  repeat split; assumption.
Qed.

(** C7 at the failing input: action kind 0, price offset 1.0, volume
    fraction 1.0, mid price 30000.00, state id 42.  The frame has 23 bytes
    and decodes to the same kind, volume, mid price and state id, but to
    price offset 0. *)
Theorem oms_action_full_scale_price_lost :
  exists buffer,
    encodeOmsActionV2 0 1 1 30000 42 = Ok buffer /\
    length buffer = 23%nat /\
    action_type (decodeOmsActionV2 buffer) = 0 /\
    (price (decodeOmsActionV2 buffer) == 0)%Q /\
    (volume (decodeOmsActionV2 buffer) == 1)%Q /\
    (mid_price (decodeOmsActionV2 buffer) == 30000)%Q /\
    state_id (decodeOmsActionV2 buffer) = 42.
Proof.
  eexists. split; [vm_compute; reflexivity|]. repeat split.
Qed.

(** The encoder rejects every mid price outside [[0, 1000000]]. *)
Lemma encodeOmsActionV2_rejects (k : Z) (p q m : Q) (s : Z) :
  (m < 0)%Q \/ (1000000 < m)%Q ->
  exists what, encodeOmsActionV2 k p q m s = Throw what.
Proof.
  intros H. unfold encodeOmsActionV2.
  destruct H as [H|H].
  - rewrite (proj2 (Qltb_true _ _) H). eexists. reflexivity.
  - replace (Qgtb m (inject_Z MAX_MIDPRICE)) with true.
    + rewrite orb_true_r. eexists. reflexivity.
    + symmetry. apply Qltb_true. exact H.
Qed.

End ActionFrame.

(** ** The book *)

Section BookSide.
Import OrderBookHandler.
Local Open Scope nat_scope.

Variable is_bids : bool.

Lemma cmp_before_true a b : cmp_before is_bids a b = true <-> price_before is_bids a b.
Proof. unfold cmp_before, price_before, Qgtb. destruct is_bids; apply Qltb_true. Qed.

Lemma cmp_before_false a b : cmp_before is_bids a b = false <-> ~ price_before is_bids a b.
Proof.
  rewrite <- cmp_before_true. destruct (cmp_before is_bids a b); split; congruence.
Qed.

Lemma price_before_trans a b c :
  price_before is_bids a b -> price_before is_bids b c -> price_before is_bids a c.
Proof. unfold price_before. destruct is_bids; intros; lra. Qed.

Lemma price_before_irrefl a b : (a == b)%Q -> ~ price_before is_bids a b.
Proof. unfold price_before. destruct is_bids; intros; lra. Qed.

Lemma price_tricho a b :
  ~ price_before is_bids a b -> ~ price_before is_bids b a -> (a == b)%Q.
Proof. unfold price_before. destruct is_bids; intros; lra. Qed.

Lemma price_before_compat a a' b b' :
  (a == a')%Q -> (b == b')%Q -> price_before is_bids a b -> price_before is_bids a' b'.
Proof. unfold price_before. destruct is_bids; intros; lra. Qed.

Lemma strictly_before_price a b :
  strictly_before is_bids a b <-> price_before is_bids (price a) (price b).
Proof. unfold strictly_before, price_before. reflexivity. Qed.

#[local] Instance strictly_before_transitive : Transitive (strictly_before is_bids).
Proof.
  intros a b c. rewrite !strictly_before_price. apply price_before_trans.
Qed.

(** One iteration of the loop, both sides at once. *)
Lemma search_step fuel side p v o left right :
  search (S fuel) side is_bids p v o left right =
  if left <? right then
    let mid := (left + right) / 2 in
    match side !! mid with
    | None => None
    | Some lvl =>
        if cmp_before is_bids (price lvl) p then
          search fuel side is_bids p v o (mid + 1) right
        else if cmp_before is_bids p (price lvl) then
          search fuel side is_bids p v o left mid
        else
          Some (if Qleb v 0 then delete mid side
                else <[mid := {| price := price lvl; volume := v; orders := o |}]> side)
    end
  else
    Some (if Qleb v 0 then side
          else take left side
               ++ {| price := p; volume := v; orders := o |} :: drop left side).
Proof. unfold cmp_before, Qgtb. destruct is_bids; reflexivity. Qed.

Lemma midpoint left right :
  left < right -> left <= (left + right) / 2 < right.
Proof.
  intros H. split.
  - apply Nat.div_le_lower_bound; lia.
  - apply Nat.Div0.div_lt_upper_bound; lia.
Qed.

(** The search always returns: the fuel [updatePriceLevel] gives it is
    enough, and [side[mid]] is always in range. *)
Lemma search_total fuel side p v o left right :
  right <= length side -> right - left < fuel ->
  is_Some (search fuel side is_bids p v o left right).
Proof.
  revert left right. induction fuel as [|fuel IH]; intros left right Hr Hf; [lia|].
  rewrite search_step.
  destruct (Nat.ltb_spec left right) as [Hlt|Hge]; [|eauto].
  pose proof (midpoint left right Hlt) as Hmid. cbv zeta.
  destruct (lookup_lt_is_Some_2 side ((left + right) / 2)) as [lvl ->]; [lia|].
  destruct (cmp_before is_bids (price lvl) p); [apply IH; lia|].
  destruct (cmp_before is_bids p (price lvl)); [apply IH; lia|].
  eauto.
Qed.

(** From [updatePriceLevel] the search always returns a side. *)
Lemma search_returns side p v o :
  is_Some (search (S (length side)) side is_bids p v o 0 (length side)).
Proof. apply search_total; lia. Qed.

Lemma side_ok_app l1 l2 :
  side_ok is_bids (l1 ++ l2) <->
  (forall x1 x2, x1 ∈ l1 -> x2 ∈ l2 -> strictly_before is_bids x1 x2) /\
  side_ok is_bids l1 /\ side_ok is_bids l2.
Proof.
  unfold side_ok, strictly_sorted, positive_volumes.
  rewrite StronglySorted_app, Forall_app. tauto.
Qed.

Lemma side_ok_cons x l :
  side_ok is_bids (x :: l) <->
  Forall (strictly_before is_bids x) l /\ (0 < volume x)%Q /\ side_ok is_bids l.
Proof.
  unfold side_ok, strictly_sorted, positive_volumes.
  rewrite StronglySorted_cons, Forall_cons. tauto.
Qed.

Lemma side_ok_nil : side_ok is_bids [].
Proof. split; constructor. Qed.

(** Removing, overwriting or inserting at the place the search finds keeps
    the side strictly ordered with positive sizes. *)
Lemma side_ok_delete side mid lvl :
  side_ok is_bids side -> side !! mid = Some lvl -> side_ok is_bids (delete mid side).
Proof.
  intros Hok Hl. rewrite delete_take_drop.
  rewrite <- (take_drop_middle side mid lvl Hl) in Hok.
  apply side_ok_app in Hok as (Hcross & H1 & H2).
  apply side_ok_cons in H2 as (Hx & _ & H2).
  apply side_ok_app. split; [|split; assumption].
  intros x1 x2 Hx1 Hx2. apply Hcross; [assumption|]. right. assumption.
Qed.

Lemma side_ok_overwrite side mid lvl v o :
  side_ok is_bids side -> side !! mid = Some lvl -> (0 < v)%Q ->
  side_ok is_bids (<[mid := {| price := price lvl; volume := v; orders := o |}]> side).
Proof.
  intros Hok Hl Hv.
  rewrite insert_take_drop by (apply lookup_lt_is_Some; eauto).
  rewrite <- (take_drop_middle side mid lvl Hl) in Hok.
  apply side_ok_app in Hok as (Hcross & H1 & H2).
  apply side_ok_cons in H2 as (Hx & _ & H2).
  apply side_ok_app. split; [|split; [assumption|]].
  - intros x1 x2 Hx1 Hx2. apply elem_of_cons in Hx2 as [->|Hx2].
    + apply (Hcross x1 lvl); [assumption|left].
    + apply Hcross; [assumption|]. right. assumption.
  - apply side_ok_cons. split; [|split; assumption]. exact Hx.
Qed.

Lemma side_ok_insert side left p v o :
  side_ok is_bids side -> (0 < v)%Q ->
  Forall (fun x => price_before is_bids (price x) p) (take left side) ->
  Forall (fun x => price_before is_bids p (price x)) (drop left side) ->
  side_ok is_bids (take left side ++ {| price := p; volume := v; orders := o |}
           :: drop left side).
Proof.
  intros Hok Hv Hbefore Hafter.
  rewrite <- (take_drop left side) in Hok.
  apply side_ok_app in Hok as (Hcross & H1 & H2).
  apply side_ok_app. split; [|split; [assumption|]].
  - intros x1 x2 Hx1 Hx2. apply elem_of_cons in Hx2 as [->|Hx2].
    + apply strictly_before_price. simpl.
      rewrite Forall_forall in Hbefore. apply Hbefore. assumption.
    + apply Hcross; assumption.
  - apply side_ok_cons. split; [|split; assumption].
    eapply Forall_impl; [exact Hafter|]. intros x Hx.
    apply strictly_before_price. exact Hx.
Qed.

Lemma search_ok fuel side p v o left right side' :
  side_ok is_bids side ->
  left <= right <= length side ->
  Forall (fun x => price_before is_bids (price x) p) (take left side) ->
  Forall (fun x => price_before is_bids p (price x)) (drop right side) ->
  search fuel side is_bids p v o left right = Some side' ->
  side_ok is_bids side'.
Proof.
  intros Hok. revert left right.
  induction fuel as [|fuel IH]; intros left right Hlr Hbefore Hafter Hs;
    [discriminate|].
  rewrite search_step in Hs.
  destruct (Nat.ltb_spec left right) as [Hlt|Hge].
  - pose proof (midpoint left right Hlt) as Hmid. cbv zeta in Hs.
    set (mid := (left + right) / 2) in *.
    destruct (side !! mid) as [lvl|] eqn:Hl; [|discriminate].
    pose proof Hok as Hsplit.
    rewrite <- (take_drop_middle side mid lvl Hl) in Hsplit.
    apply side_ok_app in Hsplit as (Hcross & _ & H2).
    apply side_ok_cons in H2 as (Hx & _ & _).
    destruct (cmp_before is_bids (price lvl) p) eqn:C1.
    { apply cmp_before_true in C1.
      apply (IH (mid + 1) right); [lia| |assumption|assumption].
      replace (mid + 1) with (S mid) by lia.
      rewrite (take_S_r side mid lvl Hl).
      apply Forall_app. split; [|repeat constructor; assumption].
      apply Forall_forall. intros x Hx1.
      apply (price_before_trans _ (price lvl)); [|assumption].
      apply strictly_before_price. apply Hcross; [assumption|left]. }
    destruct (cmp_before is_bids p (price lvl)) eqn:C2.
    { apply cmp_before_true in C2.
      apply (IH left mid); [lia|assumption| |assumption].
      rewrite (drop_S side lvl mid Hl).
      constructor; [assumption|].
      eapply Forall_impl; [exact Hx|]. intros x Hx'.
      apply (price_before_trans _ (price lvl)); [assumption|].
      apply strictly_before_price. exact Hx'. }
    injection Hs as <-.
    destruct (Qleb v 0) eqn:Hv.
    + eapply side_ok_delete; eassumption.
    + apply Qleb_false in Hv. apply side_ok_overwrite; assumption.
  - injection Hs as <-.
    assert (left = right) as -> by lia.
    destruct (Qleb v 0) eqn:Hv; [assumption|].
    apply Qleb_false in Hv. apply side_ok_insert; assumption.
Qed.

Lemma updatePriceLevel_ok side level :
  side_ok is_bids side -> side_ok is_bids (updatePriceLevel side level is_bids).
Proof.
  intros Hok. unfold updatePriceLevel.
  destruct (extract_values level 0 (0%Q, 0%Q, 0%Q)) as [idx [[p v] o]].
  destruct (idx <? 4); [assumption|].
  destruct (search _ _ _ _ _ _ _ _) as [side'|] eqn:Hs; [|assumption].
  eapply search_ok; [exact Hok| | | |exact Hs].
  - lia.
  - constructor.
  - rewrite drop_ge by lia. constructor.
Qed.

Lemma update_side_ok levels side :
  side_ok is_bids side -> side_ok is_bids (update_side side levels is_bids).
Proof.
  unfold update_side. revert side.
  induction levels as [|level levels IH]; intros side Hok; [assumption|].
  simpl. apply IH. destruct level; [apply updatePriceLevel_ok|]; assumption.
Qed.

End BookSide.

Section BookSort.
Import OrderBookHandler.
Local Open Scope nat_scope.

Variable is_bids : bool.

Lemma not_after_spec a b :
  not_after (side_comp is_bids) a b <-> ~ strictly_before is_bids b a.
Proof.
  unfold not_after, side_comp, strictly_before, compareBids, compareAsks, Qgtb.
  destruct is_bids; rewrite Qltb_false; split; intros H.
  - apply Qle_not_lt. exact H.
  - apply Qnot_lt_le. exact H.
  - apply Qle_not_lt. exact H.
  - apply Qnot_lt_le. exact H.
Qed.

Lemma not_after_prices a b :
  not_after (side_comp is_bids) a b <->
  if is_bids then (price b <= price a)%Q else (price a <= price b)%Q.
Proof.
  unfold not_after, side_comp, compareBids, compareAsks, Qgtb.
  destruct is_bids; apply Qltb_false.
Qed.

#[local] Instance not_after_transitive : Transitive (not_after (side_comp is_bids)).
Proof.
  intros a b c. rewrite !not_after_prices. destruct is_bids; intros; lra.
Qed.

#[local] Instance not_after_total : Total (not_after (side_comp is_bids)).
Proof.
  intros a b. rewrite !not_after_prices.
  destruct is_bids; destruct (Qlt_le_dec (price a) (price b)); lra.
Qed.

Lemma strictly_before_not_after a b :
  strictly_before is_bids a b -> not_after (side_comp is_bids) a b.
Proof.
  rewrite not_after_prices. unfold strictly_before.
  destruct is_bids; intros; lra.
Qed.

Lemma not_after_both a b :
  not_after (side_comp is_bids) a b -> not_after (side_comp is_bids) b a -> (price a == price b)%Q.
Proof.
  rewrite !not_after_prices. destruct is_bids; intros; lra.
Qed.

Lemma strictly_sorted_weaken l :
  strictly_sorted is_bids l -> StronglySorted (not_after (side_comp is_bids)) l.
Proof.
  induction 1 as [|x l Hl IH Hx]; constructor; [assumption|].
  eapply Forall_impl; [exact Hx|]. apply strictly_before_not_after.
Qed.

(** On a strictly ordered side a price identifies its level. *)
Lemma strictly_sorted_same_price l x y :
  strictly_sorted is_bids l -> x ∈ l -> y ∈ l ->
  (price x == price y)%Q -> x = y.
Proof.
  induction 1 as [|z l Hl IH Hz]; intros Hx Hy Hp.
  - inversion Hx.
  - rewrite Forall_forall in Hz.
    apply elem_of_cons in Hx as [->|Hx]; apply elem_of_cons in Hy as [->|Hy].
    + reflexivity.
    + exfalso. specialize (Hz y Hy). unfold strictly_before in Hz.
      destruct is_bids; lra.
    + exfalso. specialize (Hz x Hx). unfold strictly_before in Hz.
      destruct is_bids; lra.
    + apply IH; assumption.
Qed.

(** [std::sort] leaves a strictly ordered side as it is. *)
Lemma std_sort_sorted l :
  strictly_sorted is_bids l -> std_sort (side_comp is_bids) l = l.
Proof.
  intros Hl. unfold std_sort.
  apply (Sorted_unique_strong (not_after (side_comp is_bids))).
  - intros x1 x2 Hx1 Hx2 H12 H21.
    apply (strictly_sorted_same_price l); [assumption| |assumption|].
    + rewrite <- (merge_sort_Permutation (not_after (side_comp is_bids)) l). exact Hx1.
    + apply not_after_both; assumption.
  - apply Sorted_merge_sort. apply _.
  - apply StronglySorted_Sorted. apply strictly_sorted_weaken. exact Hl.
  - apply merge_sort_Permutation.
Qed.

Lemma distinct_prices_cons x l :
  distinct_prices (x :: l) <->
  Forall (fun y => ~ (price x == price y)%Q) l /\ distinct_prices l.
Proof.
  unfold distinct_prices. split.
  - intros H. inversion H; subst. split; assumption.
  - intros [H1 H2]. constructor; assumption.
Qed.

Lemma distinct_prices_Permutation l l' :
  l ≡ₚ l' -> distinct_prices l -> distinct_prices l'.
Proof.
  induction 1 as [|x l l' Hp IH|x y l|l l' l'' _ IH1 _ IH2]; intros Hd.
  - exact Hd.
  - apply distinct_prices_cons in Hd as [H1 H2].
    apply distinct_prices_cons. split; [|apply IH; exact H2].
    rewrite <- Hp. exact H1.
  - apply distinct_prices_cons in Hd as [H1 H2].
    apply distinct_prices_cons in H2 as [H2 H3].
    apply Forall_cons in H1 as [Hyx H1].
    apply distinct_prices_cons. split.
    + constructor; [|assumption]. intros E. apply Hyx. symmetry. exact E.
    + apply distinct_prices_cons. split; assumption.
  - apply IH2, IH1, Hd.
Qed.

Lemma distinct_sorted_strict l :
  StronglySorted (not_after (side_comp is_bids)) l -> distinct_prices l ->
  strictly_sorted is_bids l.
Proof.
  induction 1 as [|x l Hl IH Hx]; intros Hd; [constructor|].
  apply distinct_prices_cons in Hd as [Hdx Hd].
  constructor; [apply IH; exact Hd|].
  rewrite Forall_forall in *. intros y Hy.
  specialize (Hx y Hy). specialize (Hdx y Hy).
  apply not_after_prices in Hx. unfold strictly_before.
  destruct is_bids.
  - destruct (Qlt_le_dec (price y) (price x)); [assumption|].
    exfalso. apply Hdx. lra.
  - destruct (Qlt_le_dec (price x) (price y)); [assumption|].
    exfalso. apply Hdx. lra.
Qed.

(** Sorting levels with pairwise different prices orders them strictly. *)
Lemma std_sort_distinct l :
  distinct_prices l -> strictly_sorted is_bids (std_sort (side_comp is_bids) l).
Proof.
  intros Hd. apply distinct_sorted_strict.
  - apply StronglySorted_merge_sort; apply _.
  - apply (distinct_prices_Permutation l); [|exact Hd].
    symmetry. apply merge_sort_Permutation.
Qed.

Lemma std_sort_positive l :
  positive_volumes l -> positive_volumes (std_sort (side_comp is_bids) l).
Proof.
  unfold positive_volumes, std_sort. intros H.
  rewrite merge_sort_Permutation. exact H.
Qed.

Lemma std_sort_ok l : side_ok is_bids l -> side_ok is_bids (std_sort (side_comp is_bids) l).
Proof.
  intros [H1 H2]. rewrite std_sort_sorted by exact H1. split; assumption.
Qed.

End BookSort.

Section BookFrames.
Import OrderBookHandler.
Local Open Scope nat_scope.

Lemma compareBids_side : side_comp true = compareBids.
Proof. reflexivity. Qed.

Lemma compareAsks_side : side_comp false = compareAsks.
Proof. reflexivity. Qed.

Lemma validated_spec (b : Book) :
  (validated b = Applied b /\
     length (bids b) = REQUIRED_LEVELS /\ length (asks b) = REQUIRED_LEVELS) \/
  (validated b = Fatal b /\
     (length (bids b) <> REQUIRED_LEVELS \/ length (asks b) <> REQUIRED_LEVELS)).
Proof.
  unfold validated, validateOrderBookState.
  destruct (Nat.eqb_spec (length (bids b)) REQUIRED_LEVELS);
    destruct (Nat.eqb_spec (length (asks b)) REQUIRED_LEVELS); simpl; tauto.
Qed.

Lemma book_invariant_intro (b : Book) :
  sides_ok b ->
  length (bids b) = REQUIRED_LEVELS -> length (asks b) = REQUIRED_LEVELS ->
  book_invariant b.
Proof. intros [[? ?] [? ?]] ? ?. constructor; assumption. Qed.

Lemma book_invariant_sides (b : Book) : book_invariant b -> sides_ok b.
Proof. intros []. repeat split; assumption. Qed.

(** A delta keeps both sides strictly ordered with positive sizes, whether
    it validates or not. *)
Lemma processOrderBookUpdate_sides (data : DepthData) (b : Book) :
  sides_ok b -> sides_ok (book_of (processOrderBookUpdate data b)).
Proof.
  intros [Hb Ha]. unfold processOrderBookUpdate.
  match goal with |- sides_ok (book_of (validated ?x)) =>
    assert (Hx : sides_ok x); [|unfold validated; destruct validateOrderBookState; exact Hx]
  end.
  split; simpl.
  - destruct (data_bids data); [|assumption].
    rewrite <- compareBids_side. apply std_sort_ok, update_side_ok, Hb.
  - destruct (data_asks data); [|assumption].
    rewrite <- compareAsks_side. apply std_sort_ok, update_side_ok, Ha.
Qed.

(** A delta either is applied, leaving 400 levels on both sides, or is
    fatal, and then a side does not hold 400 levels. *)
Lemma processOrderBookUpdate_outcome (data : DepthData) (b : Book) :
  let o := processOrderBookUpdate data b in
  (o = Applied (book_of o) /\
     length (bids (book_of o)) = REQUIRED_LEVELS /\
     length (asks (book_of o)) = REQUIRED_LEVELS) \/
  (o = Fatal (book_of o) /\
     (length (bids (book_of o)) <> REQUIRED_LEVELS \/
      length (asks (book_of o)) <> REQUIRED_LEVELS)).
Proof.
  unfold processOrderBookUpdate.
  match goal with |- context [validated ?x] => destruct (validated_spec x) as [[E H]|[E H]] end;
    cbv zeta; rewrite E; simpl; tauto.
Qed.

Lemma processOrderBookUpdate_invariant (data : DepthData) (b b' : Book) :
  sides_ok b -> processOrderBookUpdate data b = Applied b' -> book_invariant b'.
Proof.
  intros Hok E.
  pose proof (processOrderBookUpdate_sides data b Hok) as Hs.
  destruct (processOrderBookUpdate_outcome data b) as [[E' [H1 H2]]|[E' _]];
    rewrite E in *; simpl in *; [|discriminate].
  apply book_invariant_intro; assumption.
Qed.

Lemma apply_updates_invariant (frames : list DepthData) (b b' : Book) :
  book_invariant b -> apply_updates frames b = Applied b' -> book_invariant b'.
Proof.
  revert b. induction frames as [|data frames IH]; intros b Hb E; simpl in E.
  - injection E as <-. exact Hb.
  - destruct (processOrderBookUpdate data b) as [b1|b1] eqn:E1; [|discriminate].
    apply (IH b1); [|exact E].
    eapply processOrderBookUpdate_invariant; [|exact E1].
    apply book_invariant_sides, Hb.
Qed.

Lemma emplace_level_positive side level :
  positive_volumes side -> positive_volumes (emplace_level side level).
Proof.
  intros Hacc. unfold emplace_level. destruct level as [level|]; [|exact Hacc].
  destruct (extract_values level 0 (0%Q, 0%Q, 0%Q)) as [idx [[p v] o]].
  destruct (4 <=? idx); [|exact Hacc].
  destruct (Qgtb v 0) eqn:Hv; [|exact Hacc].
  apply Qltb_true in Hv. cbn [andb].
  apply Forall_app. split; [exact Hacc|]. repeat constructor. exact Hv.
Qed.

Lemma snapshot_levels_positive (levels : list (option json_level)) :
  positive_volumes (snapshot_levels levels).
Proof.
  unfold snapshot_levels.
  assert (H : forall acc, positive_volumes acc ->
            positive_volumes (fold_left emplace_level levels acc)).
  { induction levels as [|level levels IH]; intros acc Hacc; [exact Hacc|].
    simpl. apply IH, emplace_level_positive, Hacc. }
  apply H. constructor.
Qed.

Lemma handleSnapshot_invariant (data : DepthData) (b b' : Book) :
  (forall l, data_bids data = Some l -> distinct_prices (snapshot_levels l)) ->
  (forall l, data_asks data = Some l -> distinct_prices (snapshot_levels l)) ->
  handleSnapshot data b = Applied b' -> book_invariant b'.
Proof.
  intros Hdb Hda E. unfold handleSnapshot in E.
  match type of E with validated ?x = _ =>
    destruct (validated_spec x) as [[E' [H1 H2]]|[E' _]]; rewrite E' in E;
      [injection E as <-|discriminate]
  end.
  apply book_invariant_intro; [|assumption|assumption].
  split; simpl.
  - destruct (data_bids data) as [l|]; [|apply side_ok_nil].
    rewrite <- compareBids_side. split.
    + apply std_sort_distinct, Hdb. reflexivity.
    + apply std_sort_positive, snapshot_levels_positive.
  - destruct (data_asks data) as [l|]; [|apply side_ok_nil].
    rewrite <- compareAsks_side. split.
    + apply std_sort_distinct, Hda. reflexivity.
    + apply std_sort_positive, snapshot_levels_positive.
Qed.

(** C4 (as amended).  After a snapshot whose levels have pairwise different
    prices within each side is applied, and after any run of applied
    deltas, both sides hold exactly 400 levels, bids strictly descending
    and asks strictly ascending in price (hence no duplicate price), every
    size positive; and from such a book every further delta frame either
    is applied and leaves that invariant, or is fatal, which happens
    exactly when it leaves a side with a count other than 400. *)
Theorem book_invariant_preserved
    (snapshot : DepthData) (deltas : list DepthData) (b0 b1 b : Book) :
  (forall l, data_bids snapshot = Some l -> distinct_prices (snapshot_levels l)) ->
  (forall l, data_asks snapshot = Some l -> distinct_prices (snapshot_levels l)) ->
  handleSnapshot snapshot b0 = Applied b1 ->
  apply_updates deltas b1 = Applied b ->
  book_invariant b /\
  forall data,
    let o := processOrderBookUpdate data b in
    (o = Applied (book_of o) /\ book_invariant (book_of o)) \/
    (o = Fatal (book_of o) /\
       (length (bids (book_of o)) <> REQUIRED_LEVELS \/
        length (asks (book_of o)) <> REQUIRED_LEVELS)).
Proof.
  intros Hdb Hda Hs Hu.
  assert (Hb : book_invariant b).
  { eapply apply_updates_invariant; [|exact Hu].
    eapply handleSnapshot_invariant; eassumption. }
  split; [exact Hb|]. intros data o.
  destruct (processOrderBookUpdate_outcome data b) as [[E H]|[E H]]; fold o in E, H.
  - left. split; [exact E|].
    eapply processOrderBookUpdate_invariant; [|exact E].
    apply book_invariant_sides, Hb.
  - right. split; assumption.
Qed.

Lemma distinct_pricesb_sound l : distinct_pricesb l = true -> distinct_prices l.
Proof.
  induction l as [|x t IH]; intros H; [constructor|].
  simpl in H. apply andb_true_iff in H as [H1 H2].
  constructor; [|apply IH; exact H2].
  rewrite forallb_forall in H1. apply Forall_forall. intros y Hy.
  apply list_elem_of_In in Hy. specialize (H1 y Hy).
  apply negb_true_iff in H1. intros E. apply Qeq_bool_iff in E. congruence.
Qed.

(** C4 (as amended) at a snapshot of 400 distinct bids and asks followed
    by one delta that overwrites, removes and inserts. *)
Lemma book_invariant_preserved_witness :
  let b1 := book_of (handleSnapshot ladder_snapshot empty_book) in
  let b := book_of (apply_updates [ladder_delta] b1) in
  handleSnapshot ladder_snapshot empty_book = Applied b1 /\
  apply_updates [ladder_delta] b1 = Applied b /\
  book_invariant b.
Proof.
  cbv zeta.
  assert (Hs : handleSnapshot ladder_snapshot empty_book
               = Applied (book_of (handleSnapshot ladder_snapshot empty_book)))
    by (vm_compute; reflexivity).
  assert (Hu : apply_updates [ladder_delta]
                 (book_of (handleSnapshot ladder_snapshot empty_book))
               = Applied (book_of (apply_updates [ladder_delta]
                   (book_of (handleSnapshot ladder_snapshot empty_book)))))
    by (vm_compute; reflexivity).
  split; [exact Hs|]. split; [exact Hu|].
  refine (proj1 (book_invariant_preserved ladder_snapshot [ladder_delta]
                   empty_book _ _ _ _ Hs Hu)).
  - intros l [= <-]. apply distinct_pricesb_sound. vm_compute. reflexivity.
  - intros l [= <-]. apply distinct_pricesb_sound. vm_compute. reflexivity.
Defined.

(** C4 as stated fails: a snapshot that lists the price 1000 twice among
    its 400 bids is applied, and leaves two bids at the same price. *)
Lemma duplicate_price_counterexample :
  exists b,
    handleSnapshot duplicate_snapshot empty_book = Applied b /\
    apply_updates [] b = Applied b /\
    length (bids b) = 400 /\ length (asks b) = 400 /\
    ~ strictly_sorted true (bids b).
Proof.
  eexists. split; [vm_compute; reflexivity|].
  split; [reflexivity|]. split; [reflexivity|]. split; [reflexivity|].
  intros H. apply StronglySorted_cons in H as [H _].
  apply Forall_cons in H as [H _].
  vm_compute in H. discriminate H.
Qed.

End BookFrames.

(** ** The exploration gate of the decision relay *)

Section Relay.
Import PPOHandler.
Local Open Scope nat_scope.

Lemma handleMessage_counter i s :
  state_counter_ (handleMessage i s) = S (state_counter_ s).
Proof.
  unfold handleMessage. cbv zeta.
  destruct (andb _ _); reflexivity.
Qed.

Lemma handleMessage_buffer i s :
  length (state_buffer_ s) <= state_counter_ s ->
  length (state_buffer_ (handleMessage i s)) <= S (state_counter_ s).
Proof.
  intros H. unfold handleMessage. cbv zeta.
  assert (Hlen : forall st,
    length ((if HISTORY_BUFFER_SIZE <=? length (state_buffer_ s)
             then tl (state_buffer_ s) else state_buffer_ s) ++ [st])
    <= S (state_counter_ s)).
  { intros st. rewrite length_app. cbn [length].
    destruct (HISTORY_BUFFER_SIZE <=? length (state_buffer_ s)).
    - destruct (state_buffer_ s); cbn [tl length] in *; lia.
    - lia. }
  destruct (andb _ _); cbn [forwardPass publishAction state_buffer_]; apply Hlen.
Qed.

(** A frame adds at most one decision; it is made only once 80 frames are
    buffered, and its price is what the gate makes of the actor's output
    at the current frame count. *)
Lemma handleMessage_decisions i s :
  length (state_buffer_ s) <= state_counter_ s ->
  decisions (handleMessage i s) = decisions s \/
  exists d, decisions (handleMessage i s) = decisions s ++ [d] /\
            counter d = S (state_counter_ s) /\
            NETWORK_INPUT_SIZE <= counter d /\
            price_offset d = gate d.
Proof.
  intros Hb. pose proof (handleMessage_buffer i s Hb) as Hb'.
  unfold handleMessage in *. cbv zeta in *.
  destruct (andb _ _) eqn:Hc; [|left; reflexivity].
  right. eexists. split; [reflexivity|].
  cbn [forwardPass publishAction state_buffer_ state_counter_ counter
       price_offset] in *.
  split; [reflexivity|].
  apply andb_true_iff in Hc as [Hc _]. apply Nat.leb_le in Hc.
  split; [lia|].
  unfold gate. cbn [counter rand_value actor_output].
  destruct (S (state_counter_ s) <? EXPLORATION_PERIOD); [|reflexivity].
  cbn [andb]. destruct (rand_ i mod 2 =? 0)%Z; reflexivity.
Qed.

Lemma relay_inv_initial : relay_inv initial.
Proof. split; [cbn [initial state_buffer_ state_counter_ length]; lia|]. intros k d H. destruct k; discriminate. Qed.

Lemma relay_inv_step i s : relay_inv s -> relay_inv (handleMessage i s).
Proof.
  intros [Hb Hd]. split.
  - rewrite handleMessage_counter. apply handleMessage_buffer, Hb.
  - rewrite handleMessage_counter. intros k d Hk.
    destruct (handleMessage_decisions i s Hb) as [E|(d' & E & Hc & Hn & Hg)];
      rewrite E in Hk.
    + destruct (Hd k d Hk) as [? ?]. split; [assumption|lia].
    + apply lookup_app_Some in Hk as [Hk|[Hlen Hk]].
      * destruct (Hd k d Hk) as [? ?]. split; [assumption|lia].
      * assert (k = length (decisions s)) as ->.
        { apply lookup_lt_Some in Hk. cbn [length] in Hk. lia. }
        replace (length (decisions s) - length (decisions s)) with 0 in Hk by lia.
        injection Hk as <-. split; [assumption|].
        split; [|lia].
        destruct (length (decisions s)) as [|n] eqn:En; [lia|].
        destruct (lookup_lt_is_Some_2 (decisions s) n) as [d0 Hd0]; [lia|].
        destruct (Hd n d0 Hd0) as [_ Hlast]. lia.
Qed.

Lemma relay_inv_run inputs s : relay_inv s -> relay_inv (run inputs s).
Proof.
  unfold run. revert s. induction inputs as [|i inputs IH]; intros s Hs; [exact Hs|].
  simpl. apply IH, relay_inv_step, Hs.
Qed.

(** C9 (as amended).  In every run of the relay, the price offset of the
    decision number [k] (counted from 0) is the actor's output, negated
    exactly when fewer than 1000 feature frames had been received when it
    was made and [rand()] returned an even value; at least [80 + k] frames
    had been received by then, so every decision made once 1000 frames
    have arrived, and in particular every decision after the first 920, is
    passed through verbatim. *)
Theorem exploration_gate (inputs : list Input) (k : nat) (d : Decision) :
  decisions (run inputs initial) !! k = Some d ->
  price_offset d = gate d /\
  NETWORK_INPUT_SIZE + k <= counter d /\
  (EXPLORATION_PERIOD <= counter d -> price_offset d = actor_output d) /\
  (920 <= k -> price_offset d = actor_output d).
Proof.
  intros Hk.
  destruct (relay_inv_run inputs initial relay_inv_initial) as [_ Hd].
  destruct (Hd k d Hk) as [Hg [Hlo _]].
  assert (Hv : EXPLORATION_PERIOD <= counter d -> price_offset d = actor_output d).
  { intros H. rewrite Hg. unfold gate.
    replace (counter d <? EXPLORATION_PERIOD) with false; [reflexivity|].
    symmetry. apply Nat.ltb_ge. exact H. }
  split; [exact Hg|]. split; [exact Hlo|]. split; [exact Hv|].
  intros H. apply Hv. unfold EXPLORATION_PERIOD, NETWORK_INPUT_SIZE in *. lia.
Qed.

(** The first decision of a steady run: made at the 81st frame, negated. *)
Lemma exploration_gate_witness :
  exists d,
    decisions (run (steady_inputs 81) initial) !! 0 = Some d /\
    price_offset d = gate d /\ counter d = 81 /\
    price_offset d = (- (1 # 2))%Q.
Proof.
  eexists. split; [vm_compute; reflexivity|].
  split; [|split; reflexivity].
  refine (proj1 (exploration_gate (steady_inputs 81) 0 _ _)).
  vm_compute. reflexivity.
Defined.

(** C9 as stated fails: in a steady run of 1001 frames the decision number
    460 (the 461st, well within the first 1000 decisions) is made when
    1001 frames have been received; [rand()] returned an even value for
    it, yet its price offset is the actor's output, not its negation. *)
Lemma exploration_gate_counterexample :
  exists d,
    decisions (run (steady_inputs 1001) initial) !! 460 = Some d /\
    (rand_value d mod 2 = 0)%Z /\
    counter d = 1001 /\
    price_offset d = actor_output d /\
    ~ (price_offset d == - actor_output d)%Q.
Proof.
  eexists. split; [vm_compute; reflexivity|].
  split; [reflexivity|]. split; [reflexivity|]. split; [reflexivity|].
  vm_compute. discriminate.
Qed.
End Relay.

(** ** The lifecycle engine *)

Section Publishing.
Import OMS.
Local Open Scope nat_scope.

Lemma extends_refl s : extends s s.
Proof. apply extends_same; reflexivity. Qed.

Lemma extends_maxdd s s' : extends s s' -> maxdd_ s' = maxdd_ s.
Proof. induction 1; congruence. Qed.

Lemma extends_publishTradeUpdate2 state_id okx_id s :
  extends s (publishTradeUpdate2 state_id okx_id s).
Proof.
  unfold publishTradeUpdate2. case_bool_decide as Hin; [apply extends_refl|].
  destruct (negb _); [apply extends_refl|].
  eapply extends_execution; [exact Hin|reflexivity..].
Qed.

Lemma extends_publishTradeUpdate3 state_id okx_id pct s :
  extends s (publishTradeUpdate3 state_id okx_id pct s).
Proof.
  unfold publishTradeUpdate3. case_bool_decide as Hin; [apply extends_refl|].
  destruct (Qleb pct 0); [apply extends_refl|].
  eapply extends_execution; [exact Hin|reflexivity..].
Qed.

Lemma extends_publishTradeUpdate4 state_id okx_id closed portions s :
  extends s (publishTradeUpdate4 state_id okx_id closed portions s).
Proof.
  unfold publishTradeUpdate4. destruct (andb _ _); [apply extends_refl|].
  eapply extends_trade; reflexivity.
Qed.

Ltac ext_same := apply extends_same; reflexivity.

Lemma extends_dual_purpose_order fill state_id iv ip fill_delta previous_size s :
  extends s (dual_purpose_order fill state_id iv ip fill_delta previous_size s).
Proof.
  unfold dual_purpose_order. cbv zeta.
  set (closing_order := closing_order_of _ _ _ _ _ _).
  assert (H2 : extends s
            (publishTradeUpdate3 state_id (okx_order_id fill)
               (OrderInfo.execution_percentage closing_order)
               (push_order closing_order s))).
  { eapply extends_trans; [|apply extends_publishTradeUpdate3]. ext_same. }
  destruct (Qgeb _ MIN_PORTION); [|exact H2].
  eapply extends_trans; [exact H2|].
  eapply extends_trans; [|apply extends_publishTradeUpdate3]. ext_same.
Qed.

Lemma extends_closure_path fill state_id iv ip fill_delta previous_size s :
  extends s (closure_path fill state_id iv ip fill_delta previous_size s).
Proof.
  unfold closure_path.
  set (s1 := if in_trade fill (current_trade_ s) then s else _).
  assert (H1 : extends s s1).
  { subst s1. destruct (in_trade fill (current_trade_ s));
      [apply extends_refl|apply extends_dual_purpose_order]. }
  cbv zeta.
  eapply extends_trans; [exact H1|].
  eapply extends_trans; [apply extends_publishTradeUpdate4|].
  destruct (has_next_trade_ _); ext_same.
Qed.

Lemma extends_open_trade fill state_id iv ip s :
  extends s (open_trade fill state_id iv ip s).
Proof.
  unfold open_trade. cbv zeta. destruct (andb _ _); [|apply extends_refl].
  eapply extends_trans; [|apply extends_publishTradeUpdate2]. ext_same.
Qed.

Lemma extends_same_direction fill state_id iv ip s :
  extends s (fst (same_direction fill state_id iv ip s)).
Proof.
  unfold same_direction. cbv zeta.
  destruct (Qltb (Qabs (Trade.size _)) EPSILON); cbn [fst].
  - eapply extends_trans; [|apply extends_closure_path]. ext_same.
  - destruct (Qgtb (filled_size fill) 0); [|ext_same].
    eapply extends_trans; [|apply extends_publishTradeUpdate2]. ext_same.
Qed.

Lemma extends_opposite_direction fill state_id iv ip s :
  extends s (fst (opposite_direction fill state_id iv ip s)).
Proof.
  unfold opposite_direction. cbv zeta.
  destruct (Qltb (Qabs _) EPSILON); cbn [fst].
  - eapply extends_trans; [|apply extends_closure_path]. ext_same.
  - destruct (Qltb (Qabs (Trade.size _)) EPSILON); cbn [fst].
    + eapply extends_trans; [|apply extends_closure_path]. ext_same.
    + destruct (Qgtb (filled_size fill) 0); [|ext_same].
      eapply extends_trans; [|apply extends_publishTradeUpdate2]. ext_same.
Qed.

Lemma extends_housekeeping fill s : extends s (housekeeping fill s).
Proof.
  unfold housekeeping.
  destruct (refresh_deque _ _ _) as [os known].
  destruct (cut_deque _ _ _) as [os' known']. ext_same.
Qed.

Lemma extends_recognise fill s : extends s (snd (recognise fill s)).
Proof.
  unfold recognise.
  destruct (known_orders_ s !! okx_order_id fill).
  - destruct (andb _ _); cbn [snd]; [ext_same|apply extends_refl].
  - destruct (first_order _ _); cbn [snd]; [ext_same|apply extends_refl].
Qed.

Lemma extends_order_fill_callback fill s :
  extends s (order_fill_callback fill s).
Proof.
  unfold order_fill_callback.
  pose proof (extends_recognise fill s) as H0.
  destruct (recognise fill s) as [[order_exists state_id] s0]. cbn [snd] in H0.
  destruct (negb order_exists); [exact H0|].
  eapply extends_trans; [exact H0|].
  set (s1 := with_orders_ _ s0).
  assert (H1 : extends s0 s1) by ext_same.
  eapply extends_trans; [exact H1|].
  destruct (order_details fill (orders_ s1)) as [iv ip].
  destruct (negb (Trade.has_active_trade _)).
  { eapply extends_trans;
      [apply (extends_open_trade fill state_id iv ip)|apply extends_housekeeping]. }
  destruct (orb _ _).
  - pose proof (extends_same_direction fill state_id iv ip s1) as H2.
    destruct (same_direction fill state_id iv ip s1) as [s2 []];
      cbn [fst] in H2; [exact H2|].
    eapply extends_trans; [exact H2|apply extends_housekeeping].
  - pose proof (extends_opposite_direction fill state_id iv ip s1) as H2.
    destruct (opposite_direction fill state_id iv ip s1) as [s2 []];
      cbn [fst] in H2; [exact H2|].
    eapply extends_trans; [exact H2|apply extends_housekeeping].
Qed.

End Publishing.

Section AtMostOnce.
Import OMS.
Local Open Scope nat_scope.

Lemma reported_once_nil pub : reported_once pub [].
Proof.
  split.
  - intros e sid He. inversion He.
  - intros sid i j e e' _ Hi. destruct i; discriminate.
Qed.

Lemma reported_once_snoc pub pub' out e0 :
  reported_once pub out ->
  pub ⊆ pub' ->
  (forall state_id, published_for state_id e0 = true -> state_id ∈ pub') ->
  (forall state_id, state_id ∈ pub -> exec_for state_id e0 = false) ->
  reported_once pub' (out ++ [e0]).
Proof.
  intros [H1 H2] Hsub Hnew Hfresh. split.
  - intros e sid He Hp. apply elem_of_app in He as [He|He].
    + apply Hsub. eapply H1; eassumption.
    + apply list_elem_of_singleton in He as ->. apply Hnew, Hp.
  - intros sid i j e e' Hij Hi Hj Hp.
    assert (Hjlen : j < length (out ++ [e0])) by (eapply lookup_lt_Some; exact Hj).
    rewrite length_app in Hjlen. cbn [length] in Hjlen.
    assert (Hi' : out !! i = Some e).
    { rewrite lookup_app_l in Hi by lia. exact Hi. }
    destruct (decide (j < length out)) as [Hlt|Hge].
    + rewrite lookup_app_l in Hj by lia. apply (H2 sid i j e e'); assumption.
    + assert (j = length out) as -> by lia.
      rewrite lookup_app_r in Hj by lia.
      replace (length out - length out) with 0 in Hj by lia.
      injection Hj as <-.
      apply Hfresh. eapply H1; [|exact Hp].
      eapply list_elem_of_lookup_2. exact Hi'.
Qed.

Lemma reported_once_extends s s' :
  extends s s' ->
  reported_once (published_state_ids_ s) (outbox s) ->
  reported_once (published_state_ids_ s') (outbox s').
Proof.
  induction 1 as [s s' _ Hset Ho|s s' sid id pct ok Hin _ Hset Ho
                 |s s' closed portions reward ok _ Hset Ho|s1 s2 s3 _ IH1 _ IH2];
    intros Hinv.
  - rewrite Hset, Ho. exact Hinv.
  - rewrite Hset, Ho. clear Hset Ho.
    apply (reported_once_snoc (published_state_ids_ s)).
    + exact Hinv.
    + destruct ok; set_solver.
    + intros sid' Hpub. unfold published_for, exec_for in Hpub. cbn in Hpub.
      apply andb_true_iff in Hpub as [Heq Hok].
      apply Z.eqb_eq in Heq as <-. rewrite Hok. set_solver.
    + intros sid' Hin'. unfold exec_for. cbn.
      apply Z.eqb_neq. intros ->. contradiction.
  - rewrite Hset, Ho. apply (reported_once_snoc (published_state_ids_ s)).
    + exact Hinv.
    + reflexivity.
    + intros sid' Hpub. unfold published_for, exec_for in Hpub. cbn in Hpub.
      discriminate.
    + intros sid' _. reflexivity.
  - apply IH2, IH1, Hinv.
Qed.

Lemma step_reported_once s e :
  reported_once (published_state_ids_ s) (outbox s) ->
  reported_once (published_state_ids_ (step s e)) (outbox (step s e)).
Proof.
  destruct e as [sid sd size price|sid id|fill|upl]; cbn [step].
  - intros H. exact H.
  - intros H. exact H.
  - apply reported_once_extends, extends_order_fill_callback.
  - unfold handle_position_update.
    destruct (Qltb upl 0); [|trivial].
    destruct (Qltb upl (maxdd_ s)); trivial.
Qed.

Lemma run_reported_once events s :
  reported_once (published_state_ids_ s) (outbox s) ->
  reported_once (published_state_ids_ (run events s)) (outbox (run events s)).
Proof.
  unfold run. revert s. induction events as [|e events IH]; intros s H; [exact H|].
  cbn [fold_left]. apply IH, step_reported_once, H.
Qed.

Lemma at_most_one (P Q : Report * bool -> bool) (out : list (Report * bool)) :
  (forall e, P e = true -> Q e = true) ->
  (forall i j e e', i < j -> out !! i = Some e -> out !! j = Some e' ->
     P e = true -> Q e' = false) ->
  length (List.filter P out) <= 1.
Proof.
  intros HPQ. induction out as [|e out IH]; intros H; [cbn; lia|].
  cbn [List.filter]. destruct (P e) eqn:HP.
  - assert (Hnone : List.filter P out = []).
    { clear IH. induction out as [|e1 out IH1]; [reflexivity|].
      cbn [List.filter]. destruct (P e1) eqn:HP1.
      - exfalso. specialize (H 0 1 e e1). cbn in H.
        rewrite (HPQ e1 HP1) in H. discriminate H; [lia|reflexivity..|exact HP].
      - apply IH1. intros i j x y Hij Hi Hj HPx.
        destruct i as [|i].
        + destruct j as [|j]; [lia|]. apply (H 0 (S (S j)) x y); [lia| | |exact HPx].
          * exact Hi.
          * exact Hj.
        + destruct j as [|j]; [lia|].
          apply (H (S (S i)) (S (S j)) x y); [lia|exact Hi|exact Hj|exact HPx]. }
    rewrite Hnone. cbn. lia.
  - apply IH. intros i j x y Hij Hi Hj HPx.
    apply (H (S i) (S j) x y); [lia|exact Hi|exact Hj|exact HPx].
Qed.

(** C5.  In every run of the engine, whatever the broker answers, at most
    one per-execution report is published for any state id, and once one
    has been published no later per-execution report for that state id is
    handed to the broker at all. *)
Theorem per_execution_report_at_most_once
    (statuses : list bool) (events : list Event) (state_id : Z) :
  let out := outbox (run events (initial statuses)) in
  length (List.filter (published_for state_id) out) <= 1 /\
  forall i j e e',
    i < j -> out !! i = Some e -> out !! j = Some e' ->
    published_for state_id e = true -> exec_for state_id e' = false.
Proof.
  intros out.
  destruct (run_reported_once events (initial statuses)) as [_ H2];
    [apply reported_once_nil|].
  fold out in H2. split.
  - apply (at_most_one _ (exec_for state_id)).
    + intros e He. unfold published_for in He.
      apply andb_true_iff in He as [He _]. exact He.
    + apply H2.
  - apply H2.
Qed.

End AtMostOnce.

Section Drawdown.
Import OMS Scenario.

Lemma maxdd_step (s : OMS.t) (e : Event) :
  maxdd_ (step s e) =
  match e with
  | PositionUpdate uplRatio =>
      if Qltb uplRatio 0 && Qltb uplRatio (maxdd_ s) then uplRatio else maxdd_ s
  | _ => maxdd_ s
  end.
Proof.
  destruct e as [sid sd size price|sid id|fill|upl]; cbn [step].
  - reflexivity.
  - reflexivity.
  - apply extends_maxdd, extends_order_fill_callback.
  - unfold handle_position_update.
    destruct (Qltb upl 0); [|reflexivity].
    destruct (Qltb upl (maxdd_ s)); reflexivity.
Qed.

Lemma maxdd_step_le (s : OMS.t) (e : Event) : (maxdd_ (step s e) <= maxdd_ s)%Q.
Proof.
  rewrite maxdd_step. destruct e; try apply Qle_refl.
  destruct (Qltb uplRatio 0); cbn [andb]; [|apply Qle_refl].
  destruct (Qltb uplRatio (maxdd_ s)) eqn:E; [|apply Qle_refl].
  apply Qltb_true in E. apply Qlt_le_weak, E.
Qed.

(** What the code does with the stored drawdown: a position update
    overwrites it with the observed ratio exactly when that ratio is
    negative and strictly below the stored value, whether or not a trade
    is active; no order, no fill and no trade closure writes it, so over
    any run it never moves back towards zero. *)
Lemma maxdd_never_reset (s : OMS.t) :
  (forall e,
     maxdd_ (step s e) =
     match e with
     | PositionUpdate uplRatio =>
         if Qltb uplRatio 0 && Qltb uplRatio (maxdd_ s) then uplRatio
         else maxdd_ s
     | _ => maxdd_ s
     end) /\
  (forall fill, maxdd_ (order_fill_callback fill s) = maxdd_ s) /\
  (forall events, (maxdd_ (run events s) <= maxdd_ s)%Q).
Proof.
  split; [apply maxdd_step|]. split.
  - intros fill. apply extends_maxdd, extends_order_fill_callback.
  - intros events. unfold run. revert s.
    induction events as [|e events IH]; intros s; [apply Qle_refl|].
    cbn [fold_left]. eapply Qle_trans; [apply IH|apply maxdd_step_le].
Qed.

(** C8 at the failing input.  A ratio of -0.1 is observed during a trade;
    the trade closes (the position is flat and the closure report is out)
    and the drawdown that [get_maxdd] returns for the next reward is still
    -0.1, not zero: the closure resets [Trade::maxdd], which the reward
    never reads, and leaves the stored value alone.  Nor does the update
    look for an active trade: on a fresh engine, with no trade at all, a
    ratio of -0.2 is stored as well. *)
Theorem maxdd_survives_closure :
  let s := run drawdown_then_close (initial []) in
  let idle := step (initial []) (PositionUpdate (- (1 # 5))) in
  (Trade.has_active_trade (current_trade_ s) = false /\
   (Trade.size (current_trade_ s) == 0)%Q /\
   (Trade.maxdd (current_trade_ s) == 0)%Q /\
   (exists portions reward,
      last (outbox s) = Some (TradeReport true portions reward, true)) /\
   maxdd_ s = (- (1 # 10))%Q /\
   ~ (maxdd_ s == 0)%Q) /\
  (Trade.has_active_trade (current_trade_ (initial [])) = false /\
   maxdd_ idle = (- (1 # 5))%Q).
Proof.
  cbv zeta. split.
  - split; [reflexivity|]. split; [reflexivity|]. split; [reflexivity|].
    split; [eexists; eexists; vm_compute; reflexivity|].
    split; [reflexivity|]. vm_compute. discriminate.
  - split; reflexivity.
Qed.

End Drawdown.

Section Recovery.
Import OMS Scenario.

#[local] Instance fill_time_le_transitive : Transitive fill_time_le.
Proof. intros a b c. unfold fill_time_le. lia. Qed.

#[local] Instance fill_time_le_total : Total fill_time_le.
Proof. intros a b. unfold fill_time_le. lia. Qed.

Lemma sort_by_fill_time_sorted os : StronglySorted fill_time_le (sort_by_fill_time os).
Proof. apply StronglySorted_merge_sort; apply _. Qed.

Lemma sort_by_fill_time_Permutation os : sort_by_fill_time os ≡ₚ os.
Proof. apply merge_sort_Permutation. Qed.

Lemma late_fill_recovered (fill : Fill) (s : OMS.t) (state_id : Z) :
  known_orders_ s !! okx_order_id fill = Some state_id ->
  Forall (fun o => OrderInfo.okx_order_id o <> okx_order_id fill) (orders_ s) ->
  (0 < filled_size fill)%Q ->
  let r := recovered_order state_id fill in
  let s' := snd (recognise fill s) in
  fst (recognise fill s) = (true, state_id) /\
  orders_ s' ≡ₚ orders_ s ++ [r] /\
  StronglySorted fill_time_le (orders_ s') /\
  r ∈ orders_ s'.
Proof.
  intros Hknown Habsent Hpos r s'.
  assert (Hex : existsb (OrderInfo.has_id (okx_order_id fill)) (orders_ s) = false).
  { clear -Habsent. induction Habsent as [|o os Ho _ IH]; [reflexivity|].
    cbn [existsb]. rewrite IH, orb_false_r.
    unfold OrderInfo.has_id. apply String.eqb_neq. exact Ho. }
  assert (Hrec : recognise fill s =
            (true, state_id,
             with_orders_ (sort_by_fill_time (orders_ s ++ [r])) s)).
  { unfold recognise. rewrite Hknown, Hex.
    rewrite (proj2 (Qgtb_true _ _) Hpos). reflexivity. }
  subst s'. rewrite Hrec. cbn [fst snd with_orders_ orders_].
  split; [reflexivity|].
  split; [apply sort_by_fill_time_Permutation|].
  split; [apply sort_by_fill_time_sorted|].
  rewrite sort_by_fill_time_Permutation. apply elem_of_app. right. left.
Qed.

Lemma first_order_unique (id : string) (l : list OrderInfo.t) (r : OrderInfo.t) :
  r ∈ l -> OrderInfo.has_id id r = true ->
  (forall o, o ∈ l -> OrderInfo.has_id id o = true -> o = r) ->
  first_order id l = Some r.
Proof.
  unfold first_order. induction l as [|x l IH]; intros Hr Hid Huniq.
  - apply elem_of_nil in Hr. destruct Hr.
  - cbn [List.find]. destruct (OrderInfo.has_id id x) eqn:Hx.
    + f_equal. apply Huniq; [left|exact Hx].
    + apply IH; [|exact Hid|].
      * apply elem_of_cons in Hr as [->|Hr]; [congruence|exact Hr].
      * intros o Ho. apply Huniq. right. exact Ho.
Qed.

Lemma first_order_update_first (id : string) (f : OrderInfo.t -> OrderInfo.t)
    (l : list OrderInfo.t) :
  (forall o, OrderInfo.has_id id (f o) = OrderInfo.has_id id o) ->
  first_order id (update_first id f l) = option_map f (first_order id l).
Proof.
  intros Hf. unfold first_order. induction l as [|x l IH]; [reflexivity|].
  cbn [update_first List.find]. destruct (OrderInfo.has_id id x) eqn:Hx.
  - cbn [List.find]. rewrite Hf, Hx. reflexivity.
  - cbn [List.find]. rewrite Hx. exact IH.
Qed.

(** The rest of the callback then finds the recovered order in the deque
    and takes the filled size and the average fill price as the order's
    intended volume and price. *)
Lemma late_fill_order_details (fill : Fill) (s : OMS.t) (state_id : Z) :
  known_orders_ s !! okx_order_id fill = Some state_id ->
  Forall (fun o => OrderInfo.okx_order_id o <> okx_order_id fill) (orders_ s) ->
  (0 < filled_size fill)%Q ->
  let s' := snd (recognise fill s) in
  order_details fill (update_order_fill fill (orders_ s'))
    = (filled_size fill, avg_price fill).
Proof.
  intros Hknown Habsent Hpos s'.
  destruct (late_fill_recovered fill s state_id Hknown Habsent Hpos)
    as (_ & Hperm & _ & Hin). fold s' in Hperm, Hin.
  set (r := recovered_order state_id fill) in *.
  assert (Hfirst : first_order (okx_order_id fill) (orders_ s') = Some r).
  { apply first_order_unique; [exact Hin| |].
    - unfold OrderInfo.has_id. apply String.eqb_refl.
    - intros o Ho Hid. rewrite Hperm in Ho.
      apply elem_of_app in Ho as [Ho|Ho].
      + rewrite Forall_forall in Habsent. specialize (Habsent o Ho).
        unfold OrderInfo.has_id in Hid. apply String.eqb_eq in Hid. contradiction.
      + apply list_elem_of_singleton in Ho. exact Ho. }
  unfold order_details, update_order_fill.
  rewrite first_order_update_first.
  - rewrite Hfirst. cbn [option_map]. cbv zeta.
    destruct (Qgtb _ 0); reflexivity.
  - intros o. cbv zeta. destruct (Qgtb _ 0); reflexivity.
Qed.

End Recovery.

Section FillAccounting.
Import OMS Scenario.

(** The split of a fill delta, as both opposite-direction computations
    make it. *)
Lemma closing_opening_split (fill_delta previous_size : Q) :
  let closing_size := Qmin fill_delta (Qabs previous_size) in
  let opening_size := (fill_delta - closing_size)%Q in
  (closing_size + opening_size == fill_delta)%Q /\
  (closing_size <= Qabs previous_size)%Q /\
  (0 <= opening_size)%Q.
Proof.
  cbv zeta.
  destruct (Q.min_spec fill_delta (Qabs previous_size)) as [[H E]|[H E]];
    rewrite E; repeat split; lra.
Qed.

Lemma trades_publishTradeUpdate3 state_id okx_id pct s :
  trades (publishTradeUpdate3 state_id okx_id pct s) = trades s.
Proof.
  unfold publishTradeUpdate3. case_bool_decide; [reflexivity|].
  destruct (Qleb pct 0); reflexivity.
Qed.

Lemma trades_publishTradeUpdate4 state_id okx_id closed portions s :
  trades (publishTradeUpdate4 state_id okx_id closed portions s) = trades s.
Proof.
  unfold publishTradeUpdate4. destruct (andb _ _); reflexivity.
Qed.

Lemma trades_inv s s' :
  trades s' = trades s ->
  current_trade_ s' = current_trade_ s /\ next_trade_ s' = next_trade_ s /\
  has_next_trade_ s' = has_next_trade_ s.
Proof. unfold trades. intros [= -> -> ->]. repeat split. Qed.

(** The closure block, entered with an order that is not in the trade yet
    and an opening part of at least 0.001, leaves the follow-on trade as
    the current trade. *)
Lemma closure_path_activates_follow_on fill state_id iv ip fill_delta previous_size s :
  in_trade fill (current_trade_ s) = false ->
  (MIN_PORTION <= fill_delta - Qmin fill_delta (Qabs previous_size))%Q ->
  let s' := closure_path fill state_id iv ip fill_delta previous_size s in
  current_trade_ s' =
    follow_on_trade fill state_id iv ip
      (fill_delta - Qmin fill_delta (Qabs previous_size)) /\
  has_next_trade_ s' = false.
Proof.
  intros Hin Hopen. unfold closure_path. rewrite Hin. cbv zeta.
  unfold dual_purpose_order. cbv zeta.
  rewrite (proj2 (Qgeb_true _ _) Hopen).
  match goal with |- context [publishTradeUpdate4 ?a ?b ?c ?d ?x] =>
    destruct (trades_inv _ _ (trades_publishTradeUpdate4 a b c d x)) as (_ & E2 & E3);
    set (s3 := publishTradeUpdate4 a b c d x) in *
  end.
  match type of E2 with _ = next_trade_ (publishTradeUpdate3 ?a ?b ?c ?x) =>
    destruct (trades_inv _ _ (trades_publishTradeUpdate3 a b c x)) as (_ & F2 & F3)
  end.
  rewrite F2 in E2. rewrite F3 in E3. cbn [with_next_trade_ next_trade_ has_next_trade_] in E2, E3.
  rewrite E3. cbn [with_next_trade_ with_current_trade_ current_trade_ has_next_trade_].
  rewrite E2. split; reflexivity.
Qed.

(** An opening part means the whole position was closed. *)
Lemma opening_part_closes (p fill_delta : Q) :
  (MIN_PORTION <= fill_delta - Qmin fill_delta (Qabs p))%Q ->
  Qltb (Qabs (if Qgtb p 0 then Qmax 0 (p - Qmin fill_delta (Qabs p))
              else Qmin 0 (p + Qmin fill_delta (Qabs p)))) EPSILON = true.
Proof.
  intros Hopen. apply Qltb_true, Qabs_Qlt_condition.
  unfold MIN_PORTION in Hopen. unfold EPSILON.
  assert (Habs : (0 <= p /\ Qabs p == p)%Q \/ (p <= 0 /\ Qabs p == - p)%Q).
  { destruct (Qlt_le_dec p 0) as [H|H].
    - right. split; [lra|]. apply Qabs_neg. lra.
    - left. split; [lra|]. apply Qabs_pos. lra. }
  pose proof (Q.min_spec fill_delta (Qabs p)) as Hmin.
  revert Hmin Hopen Habs.
  generalize (Qmin fill_delta (Qabs p)). generalize (Qabs p).
  intros a c Hmin Hopen Habs.
  destruct (Qgtb p 0) eqn:Hs.
  - apply Qgtb_true in Hs.
    pose proof (Q.max_spec 0 (p - c)) as Hmax. revert Hmax.
    generalize (Qmax 0 (p - c)). intros m Hmax. lra.
  - apply Qgtb_false in Hs.
    pose proof (Q.min_spec 0 (p + c)) as Hmin'. revert Hmin'.
    generalize (Qmin 0 (p + c)). intros m Hmin'. lra.
Qed.

(** On that path the claim of the specification holds: a fill against the
    trade whose order is new to the trade and whose opening part is at
    least 0.001 closes the trade and leaves the follow-on trade, in the
    direction of the fill's side and under the fill's order id. *)
Lemma opposite_fill_flips (fill : Fill) (state_id : Z) (iv ip : Q) (s : OMS.t) :
  let tr := current_trade_ s in
  let fill_delta := (filled_size fill - previous_filled_size fill tr)%Q in
  let opening_size := (fill_delta - Qmin fill_delta (Qabs (Trade.size tr)))%Q in
  in_trade fill tr = false ->
  (MIN_PORTION <= opening_size)%Q ->
  let s' := fst (opposite_direction fill state_id iv ip s) in
  snd (opposite_direction fill state_id iv ip s) = true /\
  has_next_trade_ s' = false /\
  current_trade_ s' = follow_on_trade fill state_id iv ip opening_size /\
  Trade.has_active_trade (current_trade_ s') = true /\
  Trade.is_long (current_trade_ s') = is_buy (side fill) /\
  Trade.tradeId (current_trade_ s') = okx_order_id fill /\
  Trade.size (current_trade_ s') = opening_size.
Proof.
  intros tr fill_delta opening_size Hin Hopen.
  unfold opposite_direction. fold tr. fold fill_delta. cbv zeta.
  rewrite (opening_part_closes (Trade.size tr) fill_delta Hopen). cbn [fst snd].
  match goal with |- context [closure_path _ _ _ _ _ _ ?x] =>
    destruct (closure_path_activates_follow_on fill state_id iv ip fill_delta
                (Trade.size tr) x) as [E1 E2];
      [exact Hin|exact Hopen|]
  end.
  rewrite E1, E2. repeat split.
Qed.

(** The closure block, entered with an order that is already in the
    trade and nothing parked in [next_trade_], leaves no trade. *)
Lemma closure_path_of_known_order fill state_id iv ip fill_delta previous_size s :
  in_trade fill (current_trade_ s) = true ->
  has_next_trade_ s = false ->
  let s' := closure_path fill state_id iv ip fill_delta previous_size s in
  current_trade_ s' = Trade.empty /\ has_next_trade_ s' = false.
Proof.
  intros Hin Hnext. unfold closure_path. rewrite Hin. cbv zeta.
  match goal with |- context [publishTradeUpdate4 ?a ?b ?c ?d ?x] =>
    destruct (trades_inv _ _ (trades_publishTradeUpdate4 a b c d x)) as (_ & _ & E3);
    set (s3 := publishTradeUpdate4 a b c d x) in *
  end.
  rewrite E3, Hnext. cbn [with_current_trade_ current_trade_ has_next_trade_].
  split; [reflexivity|]. rewrite E3. exact Hnext.
Qed.

(** The missed case in general: when the filling order is already in the
    trade (it filled in part before), a fill against the trade with an
    opening part of at least 0.001 closes the trade and queues no
    follow-on trade; the opening part is accounted nowhere. *)
Lemma opposite_fill_of_known_order (fill : Fill) (state_id : Z) (iv ip : Q)
    (s : OMS.t) :
  let tr := current_trade_ s in
  let fill_delta := (filled_size fill - previous_filled_size fill tr)%Q in
  let opening_size := (fill_delta - Qmin fill_delta (Qabs (Trade.size tr)))%Q in
  in_trade fill tr = true ->
  has_next_trade_ s = false ->
  (MIN_PORTION <= opening_size)%Q ->
  let s' := fst (opposite_direction fill state_id iv ip s) in
  snd (opposite_direction fill state_id iv ip s) = true /\
  has_next_trade_ s' = false /\
  current_trade_ s' = Trade.empty.
Proof.
  intros tr fill_delta opening_size Hin Hnext Hopen.
  unfold opposite_direction. fold tr. fold fill_delta. cbv zeta.
  rewrite (opening_part_closes (Trade.size tr) fill_delta Hopen). cbn [fst snd].
  match goal with |- context [closure_path _ _ _ _ _ _ ?x] =>
    destruct (closure_path_of_known_order fill state_id iv ip fill_delta
                (Trade.size tr) x) as [E1 E2];
      [exact Hin|exact Hnext|]
  end.
  rewrite E1, E2. repeat split.
Qed.

(** The reward in a closure report is the callback's own [final_reward]
    divided by 100. *)
Lemma published_reward_scale (tr : Trade.t) (maxdd r : Q) :
  published_reward tr maxdd = Some r -> (final_reward tr maxdd == 100 * r)%Q.
Proof.
  unfold published_reward, final_reward. cbv zeta.
  destruct (andb _ _); [|discriminate].
  set (b := if Trade.is_long tr then _ else _).
  set (b' := if Trade.is_long tr then _ else _).
  assert (Hb : (b' == 100 * b)%Q).
  { subst b b'. destruct (Trade.is_long tr); ring. }
  intros [= <-].
  destruct (Qgtb b 0) eqn:E1.
  - apply Qgtb_true in E1.
    rewrite (proj2 (Qgtb_true b' 0)) by lra. rewrite Hb. ring.
  - apply Qgtb_false in E1.
    rewrite (proj2 (Qgtb_false b' 0)) by lra.
    destruct (Qltb b 0) eqn:E2.
    + apply Qltb_true in E2.
      rewrite (proj2 (Qltb_true b' 0)) by lra. rewrite Hb. ring.
    + apply Qltb_false in E2.
      rewrite (proj2 (Qltb_false b' 0)) by lra. exact Hb.
Qed.

End FillAccounting.

Section FailingInputs.
Import OMS Scenario.

(** C1 at the failing input.  Long 1.0; the sell order X fills 0.5 and is
    recorded in the trade; its next fill reports 3.0 in total.  The fill is
    against the active trade, its delta 2.5 splits into closing 0.5 and
    opening 2.0, yet the callback leaves no trade at all: nothing is parked
    in [next_trade_] and the current trade is reset.  Had the same order
    filled 3.0 at once, the follow-on trade X, short 2.0, would be the
    current trade. *)
Theorem flip_after_partial_fill_drops_opening :
  let s := run partial_then_flip_prefix (initial []) in
  let tr := current_trade_ s in
  let fill_delta :=
    (filled_size flipping_fill - previous_filled_size flipping_fill tr)%Q in
  let closing_size := Qmin fill_delta (Qabs (Trade.size tr)) in
  let opening_size := (fill_delta - closing_size)%Q in
  let s' := order_fill_callback flipping_fill s in
  let once := order_fill_callback flipping_fill (run single_flip_prefix (initial [])) in
  (Trade.has_active_trade tr = true /\ Trade.is_long tr = true /\
   is_sell (side flipping_fill) = true) /\
  ((fill_delta == 5 # 2)%Q /\ (closing_size == 1 # 2)%Q /\ (opening_size == 2)%Q /\
   (MIN_PORTION <= opening_size)%Q) /\
  (has_next_trade_ s' = false /\ current_trade_ s' = Trade.empty) /\
  (Trade.has_active_trade (current_trade_ once) = true /\
   Trade.is_long (current_trade_ once) = false /\
   Trade.tradeId (current_trade_ once) = "X" /\
   (Trade.size (current_trade_ once) == 2)%Q).
Proof.
  cbv zeta. split; [repeat split|]. split; [repeat split; vm_compute; congruence|].
  split; [split; vm_compute; reflexivity|]. repeat split.
Qed.

(** C2 at the failing input.  Two buys at 30000, then a sell order at
    30300 that closes the trade in two fills, no drawdown: the side
    averages are 30000 and 30300, the callback's [final_reward] is 100,
    and the closure report carries the reward 1. *)
Theorem closure_report_reward_off_by_100 :
  let s := run round_trip_prefix (initial []) in
  let s' := order_fill_callback closing_fill s in
  (Trade.is_long (current_trade_ s) = true /\
   (Trade.get_avg_buy_price (current_trade_ s) == 30000)%Q /\
   (Trade.get_avg_sell_price (current_trade_ s) == 30300)%Q /\
   (maxdd_ s == 0)%Q) /\
  (final_reward (current_trade_ s) (maxdd_ s) == 100)%Q /\
  exists portions reward,
    last (outbox s') = Some (TradeReport true portions (Some reward), true) /\
    (reward == 1)%Q.
Proof.
  cbv zeta. split; [repeat split|]. split; [reflexivity|].
  eexists. eexists. split; [vm_compute; reflexivity|reflexivity].
Qed.

(** When the trade is opened by one fill and closed by one fill, the side
    tallies are still zero at closure (the opening fill and the closing
    fill never reach them), and the closure report carries no reward at
    all. *)
Lemma closure_report_without_reward :
  let s := run simple_round_trip (initial []) in
  Trade.has_active_trade (current_trade_ s) = false /\
  last (outbox s) = Some (TradeReport true [("A", 1%Q); ("B", 1%Q)] None, true).
Proof. cbv zeta. split; vm_compute; reflexivity. Qed.

(** C3 at the failing input.  The trade closed above has three orders with
    1, 2 and 1 fill portions; the vector the callback prepares has four
    entries, and the closure report has three, one per order, each the
    order's execution fraction (1 for the fully executed B, not 100). *)
Theorem closure_report_one_entry_per_order :
  let s := run round_trip_prefix (initial []) in
  let s' := order_fill_callback closing_fill s in
  map (fun o => (OrderInfo.okx_order_id o, length (OrderInfo.fill_portions o)))
      (Trade.orders (current_trade_ s))
    = [("A", 1%nat); ("B", 2%nat); ("C", 1%nat)] /\
  map fst (prepare_filled_portions (current_trade_ s)) = ["A"; "B"; "B"; "C"] /\
  exists reward,
    last (outbox s') =
      Some (TradeReport true [("A", 1%Q); ("B", 1%Q); ("C", (1 # 2)%Q)] reward, true).
Proof.
  cbv zeta. split; [reflexivity|]. split; [reflexivity|].
  eexists. vm_compute. reflexivity.
Qed.

End FailingInputs.

(** ** Rounding to binary64 *)

Section Rounding.
Import binary64.

Lemma rhe_scale (n d c : Z) :
  0 < d -> 0 < c -> round_half_even (n * c) (d * c) = round_half_even n d.
Proof.
  intros Hd Hc. unfold round_half_even. cbv zeta.
  rewrite Z.div_mul_cancel_r by lia.
  rewrite Z.mul_mod_distr_r by lia.
  replace (d * c <? 2 * (n mod d * c)) with (d <? 2 * (n mod d)).
  2:{ destruct (Z.ltb_spec d (2 * (n mod d))), (Z.ltb_spec (d * c) (2 * (n mod d * c)));
        try reflexivity; nia. }
  replace (2 * (n mod d * c) =? d * c) with (2 * (n mod d) =? d).
  2:{ destruct (Z.eqb_spec (2 * (n mod d)) d), (Z.eqb_spec (2 * (n mod d * c)) (d * c));
        try reflexivity; nia. }
  reflexivity.
Qed.

Lemma rhe_mono (n n' d : Z) :
  0 < d -> n <= n' -> round_half_even n d <= round_half_even n' d.
Proof.
  intros Hd Hn.
  pose proof (Z.div_le_mono n n' d Hd Hn) as Hq.
  pose proof (Z.div_mod n d ltac:(lia)) as E.
  pose proof (Z.div_mod n' d ltac:(lia)) as E'.
  pose proof (Z.mod_pos_bound n d Hd) as Hr.
  pose proof (Z.mod_pos_bound n' d Hd) as Hr'.
  unfold round_half_even. cbv zeta.
  destruct (Z.eq_dec (n / d) (n' / d)) as [Eq|Nq].
  - rewrite <- Eq in *.
    assert (Hrr : n mod d <= n' mod d) by nia.
    destruct (Z.ltb_spec d (2 * (n mod d))), (Z.ltb_spec d (2 * (n' mod d))); try lia.
    + destruct ((2 * (n mod d) =? d) && Z.odd (n / d)); lia.
    + destruct (Z.eqb_spec (2 * (n mod d)) d), (Z.eqb_spec (2 * (n' mod d)) d);
        cbn [andb]; try lia; destruct (Z.odd (n / d)); lia.
  - assert (n / d + 1 <= n' / d) by lia.
    destruct (d <? 2 * (n mod d)), (d <? 2 * (n' mod d)); try lia;
      destruct ((2 * (n mod d) =? d) && Z.odd (n / d));
      destruct ((2 * (n' mod d) =? d) && Z.odd (n' / d)); lia.
Qed.

Lemma rhe_error (n d : Z) :
  0 < d -> 2 * n - d <= 2 * d * round_half_even n d <= 2 * n + d.
Proof.
  intros Hd.
  pose proof (Z.div_mod n d ltac:(lia)) as E.
  pose proof (Z.mod_pos_bound n d Hd) as Hr.
  unfold round_half_even. cbv zeta.
  destruct (Z.ltb_spec d (2 * (n mod d))); [nia|].
  destruct (Z.eqb_spec (2 * (n mod d)) d); cbn [andb]; [|nia].
  destruct (Z.odd (n / d)); nia.
Qed.

Lemma Qrne_mono (t t' : Q) : (t <= t')%Q -> Qrne t <= Qrne t'.
Proof.
  destruct t as [n d], t' as [n' d']. unfold Qle, Qrne. cbn [Qnum Qden]. intros H.
  rewrite <- (rhe_scale n (Zpos d) (Zpos d')) by lia.
  rewrite <- (rhe_scale n' (Zpos d') (Zpos d)) by lia.
  rewrite (Z.mul_comm (Zpos d') (Zpos d)).
  apply rhe_mono; lia.
Qed.

Lemma Qrne_inject_Z (k : Z) : Qrne (inject_Z k) = k.
Proof.
  unfold Qrne, inject_Z, round_half_even. cbn [Qnum Qden].
  rewrite Z.div_1_r, Z.mod_1_r. reflexivity.
Qed.

Lemma Qrne_exact (t : Q) (k : Z) : (t == inject_Z k)%Q -> Qrne t = k.
Proof.
  intros E.
  pose proof (Qrne_mono t (inject_Z k)) as H1.
  pose proof (Qrne_mono (inject_Z k) t) as H2.
  rewrite Qrne_inject_Z in H1, H2.
  apply Z.le_antisymm; [apply H1|apply H2]; rewrite E; apply Qle_refl.
Qed.

Lemma Qrne_error (t : Q) :
  (t - (1 # 2) <= inject_Z (Qrne t) <= t + (1 # 2))%Q.
Proof.
  destruct t as [n d]. unfold Qrne. cbn [Qnum Qden].
  pose proof (rhe_error n (Zpos d) ltac:(lia)) as [H1 H2].
  unfold Qle, Qminus, Qplus, Qopp, inject_Z. cbn [Qnum Qden].
  split; lia.
Qed.

End Rounding.

Section PowersOfTwo.
Local Open Scope Q_scope.

Lemma p2_pos (q : Z) : 0 < 2 ^ q.
Proof. apply Qpower_0_lt. reflexivity. Qed.

Lemma p2_plus (a b : Z) : 2 ^ (a + b) == 2 ^ a * 2 ^ b.
Proof. apply Qpower_plus. discriminate. Qed.

Lemma p2_minus (a b : Z) : 2 ^ (a - b) == 2 ^ a / 2 ^ b.
Proof. apply Qpower_minus. discriminate. Qed.

Lemma p2_inject (k : Z) : (0 <= k)%Z -> inject_Z (2 ^ k) == 2 ^ k.
Proof. intros Hk. apply (Zpower_Qpower 2 k Hk). Qed.

Lemma p2_le (a b : Z) : (a <= b)%Z -> 2 ^ a <= 2 ^ b.
Proof. intros H. apply Qpower_le_compat_l; [exact H|discriminate]. Qed.

Lemma p2_lt (a b : Z) : (a < b)%Z -> 2 ^ a < 2 ^ b.
Proof. intros H. apply Qpower_lt_compat_l; [exact H|reflexivity]. Qed.

Lemma p2_lt_inv (a b : Z) : 2 ^ a < 2 ^ b -> (a < b)%Z.
Proof. intros H. apply (Qpower_lt_compat_l_inv 2); [exact H|reflexivity]. Qed.

Lemma p2_succ (a : Z) : 2 ^ (a + 1) == 2 * 2 ^ a.
Proof. rewrite p2_plus. change (2 ^ 1) with 2. ring. Qed.

(** Scaling by a power of two and back. *)
Lemma p2_cancel (x : Q) (q : Z) : x / 2 ^ q * 2 ^ q == x.
Proof. field. apply Qpower_not_0. discriminate. Qed.

End PowersOfTwo.

Section Exponent.
Import binary64.
Local Open Scope Q_scope.

Lemma ilog2_spec (x : Q) : 0 < x -> 2 ^ ilog2 x <= x /\ x < 2 ^ (ilog2 x + 1).
Proof.
  intros Hx. destruct x as [n d].
  assert (Hn : (0 < n)%Z) by (unfold Qlt in Hx; cbn in Hx; lia).
  unfold ilog2. cbn [Qnum Qden]. rewrite (Z.abs_eq n) by lia.
  assert (Habs : Qabs (n # d) = n # d).
  { unfold Qabs. rewrite (Z.abs_eq n) by lia. reflexivity. }
  rewrite Habs.
  set (a := Z.log2 n). set (b := Z.log2 (Zpos d)).
  destruct (Z.log2_spec n Hn) as [Ha1 Ha2]. fold a in Ha1, Ha2.
  destruct (Z.log2_spec (Zpos d) eq_refl) as [Hb1 Hb2]. fold b in Hb1, Hb2.
  assert (Ha0 : (0 <= a)%Z) by apply Z.log2_nonneg.
  assert (Hb0 : (0 <= b)%Z) by apply Z.log2_nonneg.
  rewrite Z.pow_succ_r in Ha2, Hb2 by assumption.
  set (N := inject_Z n). set (D := inject_Z (Zpos d)).
  assert (E : n # d == N / D) by apply Qmake_Qdiv.
  pose proof (p2_pos a) as HA. pose proof (p2_pos b) as HB.
  assert (HA1 : 2 ^ a <= N).
  { rewrite <- p2_inject by assumption. unfold N. rewrite <- Zle_Qle. exact Ha1. }
  assert (HA2 : N < 2 * 2 ^ a).
  { rewrite <- p2_inject by assumption. unfold N.
    change 2 with (inject_Z 2) at 1. rewrite <- inject_Z_mult, <- Zlt_Qlt. exact Ha2. }
  assert (HB1 : 2 ^ b <= D).
  { rewrite <- p2_inject by assumption. unfold D. rewrite <- Zle_Qle. exact Hb1. }
  assert (HB2 : D < 2 * 2 ^ b).
  { rewrite <- p2_inject by assumption. unfold D.
    change 2 with (inject_Z 2) at 1. rewrite <- inject_Z_mult, <- Zlt_Qlt. exact Hb2. }
  assert (HD : 0 < D) by lra.
  assert (HU : n # d < 2 ^ (a - b + 1)).
  { rewrite E, p2_succ, p2_minus.
    apply Qlt_shift_div_r; [exact HD|].
    setoid_replace (2 * (2 ^ a / 2 ^ b) * D) with (2 * 2 ^ a * D / 2 ^ b) using relation Qeq
      by (field; lra).
    apply Qlt_shift_div_l; [exact HB|].
    revert HA HB HA1 HA2 HB1 HB2. generalize (2 ^ a) (2 ^ b). intros A B. nra. }
  assert (HL : 2 ^ (a - b - 1) < n # d).
  { rewrite E. rewrite !p2_minus. change (2 ^ 1) with 2.
    apply Qlt_shift_div_l; [exact HD|].
    setoid_replace (2 ^ a / 2 ^ b / 2 * D) with (2 ^ a * D / (2 * 2 ^ b)) using relation Qeq
      by (field; lra).
    apply Qlt_shift_div_r; [lra|].
    revert HA HB HA1 HA2 HB1 HB2. generalize (2 ^ a) (2 ^ b). intros A B. nra. }
  destruct (Qle_bool (2 ^ (a - b)) (n # d)) eqn:Hc.
  - apply Qle_bool_iff in Hc. split; [exact Hc|exact HU].
  - split; [apply Qlt_le_weak, HL|].
    replace (a - b - 1 + 1)%Z with (a - b)%Z by lia.
    apply Qnot_le_lt. intros H. apply Qle_bool_iff in H. congruence.
Qed.

Lemma ilog2_unique (x : Q) (e : Z) : 2 ^ e <= x -> x < 2 ^ (e + 1) -> ilog2 x = e.
Proof.
  intros H1 H2.
  assert (Hx : 0 < x) by (pose proof (p2_pos e); lra).
  destruct (ilog2_spec x Hx) as [H3 H4].
  assert (ilog2 x < e + 1)%Z by (apply p2_lt_inv; lra).
  assert (e < ilog2 x + 1)%Z by (apply p2_lt_inv; lra).
  lia.
Qed.

Lemma ilog2_mono (x y : Q) : 0 < x -> x <= y -> (ilog2 x <= ilog2 y)%Z.
Proof.
  intros Hx Hxy.
  destruct (ilog2_spec x Hx) as [H1 _].
  destruct (ilog2_spec y ltac:(lra)) as [_ H2].
  assert (ilog2 x < ilog2 y + 1)%Z by (apply p2_lt_inv; lra).
  lia.
Qed.

End Exponent.

Section Binary64.
Import binary64.
Local Open Scope Q_scope.

Lemma fl_pos_eq (x : Q) :
  0 < x ->
  fl_pos x = inject_Z (Qrne (x / 2 ^ Z.max (ilog2 x - 52) (-1074)))
             * 2 ^ Z.max (ilog2 x - 52) (-1074).
Proof.
  intros Hx. unfold fl_pos.
  destruct (Qle_bool x 0) eqn:E; [|reflexivity].
  apply Qle_bool_iff in E. lra.
Qed.

Lemma fl_pos_0 (x : Q) : x <= 0 -> fl_pos x = 0.
Proof. intros Hx. unfold fl_pos. apply Qle_bool_iff in Hx. rewrite Hx. reflexivity. Qed.

Lemma Qrne_nonneg (t : Q) : 0 <= t -> (0 <= Qrne t)%Z.
Proof. intros H. apply (Qrne_mono 0 t) in H. exact H. Qed.

Lemma fl_pos_nonneg (x : Q) : 0 <= fl_pos x.
Proof.
  destruct (Qlt_le_dec 0 x) as [Hx|Hx]; [|rewrite fl_pos_0 by exact Hx; apply Qle_refl].
  rewrite fl_pos_eq by exact Hx.
  set (q := Z.max _ _). pose proof (p2_pos q) as HP.
  apply Qmult_le_0_compat; [|lra].
  change 0 with (inject_Z 0). rewrite <- Zle_Qle. apply Qrne_nonneg.
  apply Qle_shift_div_l; [exact HP|]. lra.
Qed.

(** Scaled to the last place, a value is rounded to an integer. *)
Lemma scaled_le (x y : Q) (q : Z) : x <= y -> x / 2 ^ q <= y / 2 ^ q.
Proof.
  intros H. pose proof (p2_pos q) as HP.
  apply Qle_shift_div_l; [exact HP|]. rewrite p2_cancel. exact H.
Qed.

Lemma fl_pos_mono (x y : Q) : 0 < x -> x <= y -> fl_pos x <= fl_pos y.
Proof.
  intros Hx Hxy. assert (Hy : 0 < y) by lra.
  rewrite (fl_pos_eq x Hx), (fl_pos_eq y Hy).
  pose proof (ilog2_mono x y Hx Hxy) as He.
  destruct (ilog2_spec x Hx) as [Hx1 Hx2].
  destruct (ilog2_spec y Hy) as [Hy1 Hy2].
  set (ex := ilog2 x) in *. set (ey := ilog2 y) in *.
  set (qx := Z.max (ex - 52) (-1074)). set (qy := Z.max (ey - 52) (-1074)).
  destruct (Z.eq_dec qx qy) as [Eq|Nq].
  - rewrite <- Eq. pose proof (p2_pos qx) as HP.
    apply Qmult_le_compat_r; [|lra].
    rewrite <- Zle_Qle. apply Qrne_mono, scaled_le, Hxy.
  - assert (Hqy : qy = (ey - 52)%Z) by lia.
    assert (Hex : (ex + 1 <= ey)%Z) by lia.
    assert (Hk : (0 <= ey - qx)%Z) by lia.
    pose proof (p2_pos qx) as HPx. pose proof (p2_pos qy) as HPy.
    apply Qle_trans with (2 ^ ey).
    + assert (Ht : x / 2 ^ qx <= inject_Z (2 ^ (ey - qx))).
      { rewrite p2_inject by exact Hk. rewrite p2_minus.
        apply scaled_le. pose proof (p2_le (ex + 1) ey Hex). lra. }
      apply Qrne_mono in Ht. rewrite Qrne_inject_Z in Ht.
      rewrite Zle_Qle in Ht. rewrite p2_inject in Ht by exact Hk.
      setoid_replace (2 ^ ey) with (2 ^ (ey - qx) * 2 ^ qx) using relation Qeq
        by (rewrite <- p2_plus; f_equiv; lia).
      apply Qmult_le_compat_r; [exact Ht|lra].
    + assert (Ht : inject_Z (2 ^ 52) <= y / 2 ^ qy).
      { rewrite p2_inject by lia.
        setoid_replace (2 ^ 52) with (2 ^ ey / 2 ^ qy) using relation Qeq
          by (rewrite <- p2_minus; f_equiv; lia).
        apply scaled_le, Hy1. }
      apply Qrne_mono in Ht. rewrite Qrne_inject_Z in Ht.
      rewrite Zle_Qle in Ht. rewrite p2_inject in Ht by lia.
      setoid_replace (2 ^ ey) with (2 ^ 52 * 2 ^ qy) using relation Qeq
        by (rewrite <- p2_plus; f_equiv; lia).
      apply Qmult_le_compat_r; [exact Ht|lra].
Qed.

Lemma fl_pos_exact (m e : Z) :
  (0 < m < 2 ^ 53)%Z -> (-1074 <= e)%Z ->
  fl_pos (inject_Z m * 2 ^ e) == inject_Z m * 2 ^ e.
Proof.
  intros Hm He. pose proof (p2_pos e) as HPe.
  assert (Hm0 : 0 < inject_Z m).
  { change 0 with (inject_Z 0). rewrite <- Zlt_Qlt. lia. }
  assert (Hm1 : inject_Z m < 2 ^ 53).
  { rewrite <- p2_inject by lia. rewrite <- Zlt_Qlt. lia. }
  set (x := inject_Z m * 2 ^ e).
  assert (Hx : 0 < x) by (apply Qmult_lt_0_compat; assumption).
  rewrite (fl_pos_eq x Hx).
  destruct (ilog2_spec x Hx) as [Hx1 Hx2].
  set (ex := ilog2 x) in *. set (q := Z.max (ex - 52) (-1074)).
  assert (Hu : x < 2 ^ (e + 53)).
  { rewrite p2_plus. unfold x. rewrite (Qmult_comm (2 ^ e)).
    apply Qmult_lt_compat_r; assumption. }
  assert (Hex : (ex < e + 53)%Z) by (apply p2_lt_inv; lra).
  assert (Hq : (0 <= e - q)%Z) by lia.
  assert (Ht : x / 2 ^ q == inject_Z (m * 2 ^ (e - q))).
  { rewrite inject_Z_mult, p2_inject by exact Hq. rewrite p2_minus.
    unfold x. field. apply Qpower_not_0. discriminate. }
  rewrite (Qrne_exact _ _ Ht), <- Ht. apply p2_cancel.
Qed.

Lemma fl_pos_error (x : Q) :
  2 ^ (-1022) <= x -> x * (1 - u) <= fl_pos x <= x * (1 + u).
Proof.
  intros Hn. assert (Hx : 0 < x) by (pose proof (p2_pos (-1022)); lra).
  rewrite (fl_pos_eq x Hx).
  destruct (ilog2_spec x Hx) as [Hx1 Hx2].
  set (ex := ilog2 x) in *.
  assert (Hex : (-1022 < ex + 1)%Z) by (apply p2_lt_inv; lra).
  replace (Z.max (ex - 52) (-1074)) with (ex - 52)%Z by lia.
  set (q := (ex - 52)%Z). pose proof (p2_pos q) as HP.
  pose proof (Qrne_error (x / 2 ^ q)) as [H1 H2].
  set (k := inject_Z (Qrne (x / 2 ^ q))) in *.
  assert (E : 2 ^ ex == 4503599627370496 * 2 ^ q).
  { setoid_replace (2 ^ ex) with (2 ^ 52 * 2 ^ q) using relation Qeq
      by (rewrite <- p2_plus; f_equiv; unfold q; lia).
    reflexivity. }
  assert (Et : x / 2 ^ q * 2 ^ q == x) by apply p2_cancel.
  unfold u. revert HP H1 H2 E Et Hx1.
  generalize (2 ^ q) (2 ^ ex) (x / 2 ^ q). intros P A t HP H1 H2 E Et Hx1.
  assert (H3 : (t - (1 # 2)) * P <= k * P) by (apply Qmult_le_compat_r; lra).
  assert (H4 : k * P <= (t + (1 # 2)) * P) by (apply Qmult_le_compat_r; lra).
  split; lra.
Qed.

End Binary64.

Section Signed.
Import binary64.
Local Open Scope Q_scope.

Lemma fl_of_nonneg (x : Q) : 0 <= x -> fl x = fl_pos x.
Proof.
  intros H. unfold fl. destruct (Qltb x 0) eqn:E; [|reflexivity].
  apply Qltb_true in E. lra.
Qed.

Lemma fl_of_neg (x : Q) : x < 0 -> fl x = - fl_pos (- x).
Proof. intros H. unfold fl. apply Qltb_true in H. rewrite H. reflexivity. Qed.

Lemma fl_mono (x y : Q) : x <= y -> fl x <= fl y.
Proof.
  intros H.
  destruct (Qlt_le_dec x 0) as [Hx|Hx], (Qlt_le_dec y 0) as [Hy|Hy].
  - rewrite (fl_of_neg x Hx), (fl_of_neg y Hy).
    apply Qopp_le_compat, fl_pos_mono; lra.
  - rewrite (fl_of_neg x Hx), (fl_of_nonneg y Hy).
    pose proof (fl_pos_nonneg (- x)). pose proof (fl_pos_nonneg y). lra.
  - lra.
  - rewrite (fl_of_nonneg x Hx), (fl_of_nonneg y Hy).
    destruct (Qlt_le_dec 0 x) as [Hx0|Hx0]; [apply fl_pos_mono; assumption|].
    rewrite (fl_pos_0 x Hx0). apply fl_pos_nonneg.
Qed.

#[global] Instance fl_comp : Proper (Qeq ==> Qeq) fl.
Proof.
  intros x y E. apply Qle_antisym; apply fl_mono; rewrite E; apply Qle_refl.
Qed.

Lemma fl_0 : fl 0 = 0.
Proof. reflexivity. Qed.

Lemma fl_nonneg (x : Q) : 0 <= x -> 0 <= fl x.
Proof. intros H. rewrite <- fl_0. apply fl_mono, H. Qed.

Lemma fl_nonpos (x : Q) : x <= 0 -> fl x <= 0.
Proof. intros H. rewrite <- fl_0. apply fl_mono, H. Qed.

Lemma fl_opp (x : Q) : fl (- x) == - fl x.
Proof.
  destruct (Qlt_le_dec x 0) as [Hx|Hx].
  - rewrite (fl_of_neg x Hx), (fl_of_nonneg (- x)) by lra. ring.
  - destruct (Qlt_le_dec 0 x) as [Hx0|Hx0].
    + rewrite (fl_of_neg (- x)) by lra. rewrite (fl_of_nonneg x Hx).
      assert (E : - - x = x) by (destruct x; unfold Qopp; cbn; rewrite Z.opp_involutive; reflexivity).
      rewrite E. reflexivity.
    + assert (E : x == 0) by lra.
      rewrite (fl_comp _ _ E).
      assert (E' : - x == 0) by lra.
      rewrite (fl_comp _ _ E'). reflexivity.
Qed.

(** Binary64 values are left alone: an integer of at most 53 bits scaled
    by a power of two no smaller than the least subnormal. *)
Lemma fl_exact (m e : Z) :
  (Z.abs m < 2 ^ 53)%Z -> (-1074 <= e)%Z ->
  fl (inject_Z m * 2 ^ e) == inject_Z m * 2 ^ e.
Proof.
  intros Hm He. pose proof (p2_pos e) as HP.
  destruct (Z.lt_trichotomy m 0) as [Hneg|[->|Hpos]].
  - assert (E : inject_Z m * 2 ^ e == - (inject_Z (- m) * 2 ^ e))
      by (rewrite inject_Z_opp; ring).
    rewrite E, fl_opp.
    assert (H0 : 0 <= inject_Z (- m) * 2 ^ e).
    { apply Qmult_le_0_compat; [|lra].
      change 0 with (inject_Z 0). rewrite <- Zle_Qle. lia. }
    rewrite (fl_of_nonneg _ H0), fl_pos_exact by lia. reflexivity.
  - assert (E : inject_Z 0 * 2 ^ e == 0) by ring.
    rewrite E. reflexivity.
  - assert (H0 : 0 <= inject_Z m * 2 ^ e).
    { apply Qmult_le_0_compat; [|lra].
      change 0 with (inject_Z 0). rewrite <- Zle_Qle. lia. }
    rewrite (fl_of_nonneg _ H0). apply fl_pos_exact; lia.
Qed.

Lemma fl_inject_Z (m : Z) : (Z.abs m < 2 ^ 53)%Z -> fl (inject_Z m) == inject_Z m.
Proof.
  intros Hm. pose proof (fl_exact m 0 Hm ltac:(lia)) as H.
  change (2 ^ 0) with 1 in H.
  assert (E : inject_Z m * 1 == inject_Z m) by ring.
  rewrite E in H. exact H.
Qed.

Lemma fl_p2 (k : Z) : (-1074 <= k)%Z -> fl (2 ^ k) == 2 ^ k.
Proof.
  intros Hk. pose proof (fl_exact 1 k ltac:(cbn; lia) Hk) as H.
  assert (E : inject_Z 1 * 2 ^ k == 2 ^ k) by ring.
  rewrite E in H. exact H.
Qed.

(** In the normal range the rounding error is at most half a unit in the
    last place, a relative [2^-53]. *)
Lemma fl_error (x : Q) :
  2 ^ (-1022) <= x -> x * (1 - u) <= fl x <= x * (1 + u).
Proof.
  intros H. pose proof (p2_pos (-1022)).
  rewrite fl_of_nonneg by lra. apply fl_pos_error, H.
Qed.

(** What is at least a power of two stays so. *)
Lemma fl_ge_p2 (x : Q) (k : Z) : (-1074 <= k)%Z -> 2 ^ k <= x -> 2 ^ k <= fl x.
Proof. intros Hk H. rewrite <- (fl_p2 k Hk). apply fl_mono, H. Qed.

Lemma fl_le_p2 (x : Q) (k : Z) : (-1074 <= k)%Z -> x <= 2 ^ k -> fl x <= 2 ^ k.
Proof. intros Hk H. rewrite <- (fl_p2 k Hk). apply fl_mono, H. Qed.

(** The least normal binary64 value; the relative error bound holds from
    there on. *)
Lemma least_normal_small :
  2 ^ (-1022) <= 1 # 1606938044258990275541962092341162602522202993782792835301376.
Proof. vm_compute. discriminate. Qed.

Lemma fl_upper (z b : Q) :
  z <= b ->
  (1 # 1606938044258990275541962092341162602522202993782792835301376) <= b ->
  fl z <= b * (1 + u).
Proof.
  intros Hz Hb. eapply Qle_trans; [apply fl_mono, Hz|].
  apply fl_error. pose proof least_normal_small. lra.
Qed.

Lemma fl_lower (z b : Q) :
  b <= z ->
  (1 # 1606938044258990275541962092341162602522202993782792835301376) <= b ->
  b * (1 - u) <= fl z.
Proof.
  intros Hz Hb. eapply Qle_trans; [|apply fl_mono, Hz].
  apply fl_error. pose proof least_normal_small. lra.
Qed.

(** Bounds that are binary64 values themselves survive the rounding. *)
Lemma fl_ge (x c : Q) : fl c == c -> c <= x -> c <= fl x.
Proof. intros Hc H. rewrite <- Hc. apply fl_mono, H. Qed.

Lemma fl_le (x c : Q) : fl c == c -> x <= c -> fl x <= c.
Proof. intros Hc H. rewrite <- Hc. apply fl_mono, H. Qed.

End Signed.

(** * Further properties *)

(** ** The depth engine: what a delta does to a side *)

Section DeltaEffect.
Import OrderBookHandler DepthEngine.
Local Open Scope nat_scope.

Variable is_bids : bool.

Lemma at_price_before (p : Q) (x : OrderBookLevel) :
  price_before is_bids (price x) p \/ price_before is_bids p (price x) ->
  at_price p x = false.
Proof.
  intros H. unfold at_price. apply not_true_iff_false. intros E.
  apply Qeq_bool_iff in E. unfold price_before in H.
  destruct is_bids; destruct H; lra.
Qed.

Lemma levels_none (p : Q) (l : list OrderBookLevel) :
  Forall (fun x => at_price p x = false) l ->
  levels_at p l = [] /\ levels_off p l = l.
Proof.
  unfold levels_at, levels_off. induction 1 as [|x l Hx _ [IH1 IH2]]; [split; reflexivity|].
  cbn [List.filter]. rewrite Hx. cbn [negb]. rewrite IH1, IH2. split; reflexivity.
Qed.

Lemma levels_split (p : Q) (l1 l2 : list OrderBookLevel) (x : OrderBookLevel) :
  Forall (fun y => at_price p y = false) l1 ->
  Forall (fun y => at_price p y = false) l2 ->
  at_price p x = true ->
  levels_at p (l1 ++ x :: l2) = [x] /\ levels_off p (l1 ++ x :: l2) = l1 ++ l2.
Proof.
  intros H1 H2 Hx.
  destruct (levels_none p l1 H1) as [A1 O1].
  destruct (levels_none p l2 H2) as [A2 O2].
  unfold levels_at, levels_off in *.
  rewrite !List.filter_app. cbn [List.filter]. rewrite Hx. cbn [negb].
  rewrite A1, A2, O1, O2. split; reflexivity.
Qed.

(** On a sorted side, the levels around position [mid] are off the price
    found there. *)
Lemma around_found (side : list OrderBookLevel) (mid : nat) (lvl : OrderBookLevel)
    (p : Q) :
  side_ok is_bids side -> side !! mid = Some lvl -> (price lvl == p)%Q ->
  Forall (fun y => at_price p y = false) (take mid side) /\
  Forall (fun y => at_price p y = false) (drop (S mid) side).
Proof.
  intros Hok Hl Hp.
  rewrite <- (take_drop_middle side mid lvl Hl) in Hok.
  apply side_ok_app in Hok as (Hcross & _ & H2).
  apply side_ok_cons in H2 as (Hx & _ & _).
  split.
  - apply Forall_forall. intros y Hy. apply at_price_before. left.
    apply (price_before_compat is_bids (price y) (price y) (price lvl) p);
      [reflexivity|exact Hp|].
    apply strictly_before_price. apply Hcross; [exact Hy|left].
  - eapply Forall_impl; [exact Hx|]. intros y Hy. apply at_price_before. right.
    apply (price_before_compat is_bids (price lvl) p (price y) (price y));
      [exact Hp|reflexivity|].
    apply strictly_before_price. exact Hy.
Qed.

Lemma search_effect fuel side p v o left right side' :
  side_ok is_bids side ->
  left <= right <= length side ->
  Forall (fun x => price_before is_bids (price x) p) (take left side) ->
  Forall (fun x => price_before is_bids p (price x)) (drop right side) ->
  search fuel side is_bids p v o left right = Some side' ->
  levels_off p side' = levels_off p side /\
  if Qleb v 0 then side' = levels_off p side
  else exists lvl, levels_at p side' = [lvl] /\
         (price lvl == p)%Q /\ volume lvl = v /\ orders lvl = o.
Proof.
  intros Hok. revert left right.
  induction fuel as [|fuel IH]; intros left right Hlr Hbefore Hafter Hs;
    [discriminate|].
  rewrite search_step in Hs.
  destruct (Nat.ltb_spec left right) as [Hlt|Hge].
  - pose proof (midpoint left right Hlt) as Hmid. cbv zeta in Hs.
    set (mid := (left + right) / 2) in *.
    destruct (side !! mid) as [lvl|] eqn:Hl; [|discriminate].
    pose proof Hok as Hsplit.
    rewrite <- (take_drop_middle side mid lvl Hl) in Hsplit.
    apply side_ok_app in Hsplit as (Hcross & _ & H2).
    apply side_ok_cons in H2 as (Hx & _ & _).
    destruct (cmp_before is_bids (price lvl) p) eqn:C1.
    { apply cmp_before_true in C1.
      apply (IH (mid + 1) right); [lia| |assumption|assumption].
      replace (mid + 1) with (S mid) by lia.
      rewrite (take_S_r side mid lvl Hl).
      apply Forall_app. split; [|repeat constructor; assumption].
      apply Forall_forall. intros x Hx1.
      apply (price_before_trans is_bids _ (price lvl)); [|assumption].
      apply strictly_before_price. apply Hcross; [assumption|left]. }
    destruct (cmp_before is_bids p (price lvl)) eqn:C2.
    { apply cmp_before_true in C2.
      apply (IH left mid); [lia|assumption| |assumption].
      rewrite (drop_S side lvl mid Hl).
      constructor; [assumption|].
      eapply Forall_impl; [exact Hx|]. intros x Hx'.
      apply (price_before_trans is_bids _ (price lvl)); [assumption|].
      apply strictly_before_price. exact Hx'. }
    apply cmp_before_false in C1. apply cmp_before_false in C2.
    assert (Hp : (price lvl == p)%Q) by (apply (price_tricho is_bids); assumption).
    destruct (around_found side mid lvl p Hok Hl Hp) as [Hl1 Hl2].
    assert (Hat : at_price p lvl = true) by (apply Qeq_bool_iff; exact Hp).
    destruct (levels_split p _ _ lvl Hl1 Hl2 Hat) as [_ Hoff].
    rewrite (take_drop_middle side mid lvl Hl) in Hoff.
    injection Hs as <-.
    destruct (Qleb v 0) eqn:Hv.
    + rewrite delete_take_drop. rewrite Hoff.
      split; [|reflexivity].
      destruct (levels_none p (take mid side ++ drop (S mid) side)) as [_ E];
        [apply Forall_app; split; assumption|exact E].
    + rewrite insert_take_drop by (apply lookup_lt_Some in Hl; exact Hl).
      set (new := {| price := price lvl; volume := v; orders := o |}).
      assert (Hnew : at_price p new = true) by (apply Qeq_bool_iff; exact Hp).
      destruct (levels_split p _ _ new Hl1 Hl2 Hnew) as [Hat' Hoff'].
      rewrite Hoff', Hoff. split; [reflexivity|].
      exists new. split; [exact Hat'|]. split; [exact Hp|]. split; reflexivity.
  - injection Hs as <-.
    assert (left = right) as -> by lia.
    assert (Hl1 : Forall (fun y => at_price p y = false) (take right side)).
    { eapply Forall_impl; [exact Hbefore|]. intros y Hy.
      apply at_price_before. left. exact Hy. }
    assert (Hl2 : Forall (fun y => at_price p y = false) (drop right side)).
    { eapply Forall_impl; [exact Hafter|]. intros y Hy.
      apply at_price_before. right. exact Hy. }
    assert (Hside : levels_off p side = side).
    { destruct (levels_none p side) as [_ E]; [|exact E].
      rewrite <- (take_drop right side). apply Forall_app. split; assumption. }
    destruct (Qleb v 0) eqn:Hv.
    + split; [reflexivity|]. symmetry. exact Hside.
    + set (new := {| price := p; volume := v; orders := o |}).
      assert (Hnew : at_price p new = true)
        by (apply Qeq_bool_iff; reflexivity).
      destruct (levels_split p _ _ new Hl1 Hl2 Hnew) as [Hat' Hoff'].
      rewrite Hoff', (take_drop right side), Hside. split; [reflexivity|].
      exists new. split; [exact Hat'|]. split; [reflexivity|]. split; reflexivity.
Qed.

(** X1.  What one level of a delta does to a sorted side.  A level with a
    size of zero or less removes the level at its price, if there is one,
    and nothing else; a level with a positive size leaves exactly one
    level at its price, carrying the new size and order count, and all
    other levels as they were; a level with fewer than four members
    changes nothing. *)
Theorem updatePriceLevel_effect (side : list OrderBookLevel) (level : json_level)
    (idx : nat) (p v o : Q) :
  side_ok is_bids side ->
  extract_values level 0 (0%Q, 0%Q, 0%Q) = (idx, (p, v, o)) ->
  let side' := updatePriceLevel side level is_bids in
  (idx < 4 -> side' = side) /\
  (4 <= idx -> (v <= 0)%Q -> side' = levels_off p side) /\
  (4 <= idx -> (0 < v)%Q ->
     levels_off p side' = levels_off p side /\
     exists lvl, levels_at p side' = [lvl] /\
       (price lvl == p)%Q /\ volume lvl = v /\ orders lvl = o).
Proof.
  intros Hok Hex side'. subst side'. unfold updatePriceLevel. rewrite Hex.
  destruct (Nat.ltb_spec idx 4) as [Hlt|Hge].
  - split; [reflexivity|]. split; intros; lia.
  - split; [intros; lia|].
    destruct (search_returns is_bids side p v o) as [s' Hs]. rewrite Hs.
    destruct (search_effect (S (length side)) side p v o 0 (length side) s' Hok)
      as [Hoff Hres];
      [lia|constructor|rewrite drop_ge by lia; constructor|exact Hs|].
    split; intros _ Hv.
    + rewrite (proj2 (Qleb_true v 0) Hv) in Hres. exact Hres.
    + rewrite (proj2 (Qleb_false v 0) Hv) in Hres. split; assumption.
Qed.

End DeltaEffect.

(** X1 on three bids at 100, 99 and 98: a delta for 99 with size 5 leaves
    one level at 99 with the new size and count, and the others alone. *)
Lemma updatePriceLevel_effect_witness :
  let side :=
    [ {| OrderBookHandler.price := 100; OrderBookHandler.volume := 1;
         OrderBookHandler.orders := 1 |};
      {| OrderBookHandler.price := 99; OrderBookHandler.volume := 2;
         OrderBookHandler.orders := 1 |};
      {| OrderBookHandler.price := 98; OrderBookHandler.volume := 3;
         OrderBookHandler.orders := 1 |} ] in
  let side' :=
    OrderBookHandler.updatePriceLevel side [Some 99%Q; Some 5%Q; Some 0%Q; Some 2%Q] true in
  OrderBookHandler.side_ok true side /\
  DepthEngine.levels_off 99 side' = DepthEngine.levels_off 99 side /\
  exists lvl, DepthEngine.levels_at 99 side' = [lvl] /\
    (OrderBookHandler.price lvl == 99)%Q /\
    OrderBookHandler.volume lvl = 5%Q /\ OrderBookHandler.orders lvl = 2%Q.
Proof.
  intros side side'.
  assert (Hok : OrderBookHandler.side_ok true side).
  { split.
    - repeat constructor; reflexivity.
    - repeat constructor; reflexivity. }
  split; [exact Hok|].
  refine (proj2 (proj2 (updatePriceLevel_effect true side
                          [Some 99%Q; Some 5%Q; Some 0%Q; Some 2%Q] 4 99 5 2 Hok eq_refl))
            _ _).
  - apply le_n.
  - reflexivity.
Defined.

(** ** The depth engine: parsing numbers *)

Section FastStod.
Import Stdlib.Strings.Ascii.
Import OrderBookHandler DepthEngine.

Lemma scan_integer_digits (ds rest : string) (z : Z) :
  all_digits ds = true ->
  match rest with String c _ => is_digit c = false | EmptyString => True end ->
  scan_integer (ds ++ rest)%string (inject_Z z) =
  (inject_Z (fold_left (fun acc c => acc * 10 + digit_value c)
               (String.list_ascii_of_string ds) z), rest).
Proof.
  revert z. induction ds as [|c ds IH]; intros z Hd Hr.
  - change (String.append EmptyString rest) with rest.
    cbn [String.list_ascii_of_string fold_left].
    destruct rest as [|c rest]; [reflexivity|].
    cbn [scan_integer]. rewrite Hr. reflexivity.
  - unfold all_digits in Hd. cbn [String.list_ascii_of_string forallb] in Hd.
    apply andb_true_iff in Hd as [Hc Hd].
    change (String.append (String c ds) rest) with (String c (String.append ds rest)).
    cbn [scan_integer String.list_ascii_of_string fold_left].
    rewrite Hc.
    replace (inject_Z z * 10 + inject_Z (digit_value c))%Q
      with (inject_Z (z * 10 + digit_value c)).
    + apply IH; assumption.
    + unfold inject_Z, Qplus, Qmult. cbn [Qnum Qden Pos.mul].
      f_equal. lia.
Qed.

Lemma stops_spec (rest : string) :
  stops rest = true ->
  match rest with
  | String c _ =>
      is_digit c = false /\ Ascii.eqb c "-" = false /\ Ascii.eqb c "." = false
      /\ Ascii.eqb c "e" = false /\ Ascii.eqb c "E" = false
  | EmptyString => True
  end.
Proof.
  destruct rest as [|c rest]; [trivial|]. cbn [stops]. intros H.
  apply andb_true_iff in H as [H H5]. apply andb_true_iff in H as [H H4].
  apply andb_true_iff in H as [H H3]. apply andb_true_iff in H as [H1 H2].
  apply negb_true_iff in H1, H2, H3, H4, H5. repeat split; assumption.
Qed.

Lemma fast_stod_sign (str : string) :
  fast_stod str =
  match str with
  | String "-"%char rest => (- unsigned_value rest)%Q
  | _ => unsigned_value str
  end.
Proof.
  destruct str as [|c rest]; [reflexivity|].
  destruct c as [[] [] [] [] [] [] [] []]; try reflexivity.
  unfold fast_stod, unsigned_value.
  destruct (scan_integer rest 0) as [val p].
  destruct (match p with
            | String "."%char r => scan_fraction r val (1 # 10)
            | _ => (val, p)
            end) as [val' p'].
  destruct p' as [|c r]; [reflexivity|].
  destruct (Ascii.eqb c "e" || Ascii.eqb c "E"); [|reflexivity].
  destruct (match r with
            | String "-"%char r' => (true, r')
            | String "+"%char r' => (false, r')
            | _ => (false, r)
            end) as [exp_neg p''].
  destruct (scan_exponent p'' 0) as [exp rest'].
  destruct exp_neg; reflexivity.
Qed.

(** Digits, then a rest at which every further step is skipped. *)
Lemma unsigned_value_digits (ds rest : string) :
  all_digits ds = true -> stops rest = true ->
  unsigned_value (ds ++ rest) = inject_Z (decimal_value ds).
Proof.
  intros Hd Hr. pose proof (stops_spec rest Hr) as Hs.
  unfold unsigned_value. change 0%Q with (inject_Z 0).
  rewrite (scan_integer_digits ds rest 0 Hd).
  - fold (decimal_value ds). destruct rest as [|c rest]; [reflexivity|].
    destruct Hs as (_ & _ & Hp & He & HE).
    assert (Hpoint : match String c rest with
                     | String "."%char r =>
                         scan_fraction r (inject_Z (decimal_value ds)) (1 # 10)
                     | _ => (inject_Z (decimal_value ds), String c rest)
                     end = (inject_Z (decimal_value ds), String c rest)).
    { destruct c as [[] [] [] [] [] [] [] []]; try reflexivity. discriminate Hp. }
    rewrite Hpoint. rewrite He, HE. reflexivity.
  - destruct rest as [|c rest]; [trivial|]. apply Hs.
Qed.

Lemma no_leading_minus (s : string) (A : Type) (f : string -> A) (g : A) :
  match s with
  | String c _ => Ascii.eqb c "-" = false
  | EmptyString => True
  end ->
  match s with String "-"%char r => f r | _ => g end = g.
Proof.
  destruct s as [|c r]; [reflexivity|]. intros H.
  destruct c as [[] [] [] [] [] [] [] []]; try reflexivity. discriminate H.
Qed.

Lemma digits_then_rest_no_minus (ds rest : string) :
  all_digits ds = true -> stops rest = true ->
  match (ds ++ rest)%string with
  | String c _ => Ascii.eqb c "-" = false
  | EmptyString => True
  end.
Proof.
  intros Hd Hr. destruct ds as [|c ds].
  - change (String.append EmptyString rest) with rest.
    pose proof (stops_spec rest Hr) as Hs.
    destruct rest as [|c rest]; [trivial|]. apply Hs.
  - change (String.append (String c ds) rest) with (String c (String.append ds rest)).
    unfold all_digits in Hd. cbn [String.list_ascii_of_string forallb] in Hd.
    apply andb_true_iff in Hd as [Hc _].
    destruct c as [[] [] [] [] [] [] [] []]; try reflexivity. discriminate Hc.
Qed.

(** X2.  [fast_stod] on a number written with digits only: the result is
    the number, a leading minus sign negates it, and whatever follows the
    digits is ignored (unless it is a point or an exponent mark, which
    continue the number); so a string that starts with none of these, the
    empty one included, reads as zero.  (Below [2^53] the double
    arithmetic of the loop is exact.) *)
Theorem fast_stod_digits (ds rest : string) :
  all_digits ds = true -> decimal_value ds < 2 ^ 53 -> stops rest = true ->
  fast_stod (ds ++ rest) = inject_Z (decimal_value ds) /\
  fast_stod (String "-" (ds ++ rest)) = (- inject_Z (decimal_value ds))%Q /\
  fast_stod rest = 0%Q.
Proof.
  intros Hd _ Hr. rewrite !fast_stod_sign. split; [|split].
  - rewrite (no_leading_minus (ds ++ rest) _ (fun r => (- unsigned_value r)%Q)
               (unsigned_value (ds ++ rest))
               (digits_then_rest_no_minus ds rest Hd Hr)).
    apply unsigned_value_digits; assumption.
  - rewrite unsigned_value_digits by assumption. reflexivity.
  - rewrite (no_leading_minus rest _ (fun r => (- unsigned_value r)%Q)
               (unsigned_value rest)
               (digits_then_rest_no_minus EmptyString rest eq_refl Hr)).
    change rest with (String.append EmptyString rest).
    apply (unsigned_value_digits EmptyString rest eq_refl Hr).
Qed.

Lemma fast_stod_digits_witness :
  all_digits "30000" = true /\ stops "USDT" = true /\
  fast_stod "30000USDT" = 30000%Q /\ fast_stod "-30000USDT" = (- 30000)%Q.
Proof.
  assert (Hd : all_digits "30000" = true) by reflexivity.
  assert (Hb : decimal_value "30000" < 2 ^ 53) by reflexivity.
  assert (Hr : stops "USDT" = true) by reflexivity.
  split; [exact Hd|]. split; [exact Hr|].
  destruct (fast_stod_digits "30000" "USDT" Hd Hb Hr) as (H1 & H2 & _).
  split; [exact H1|exact H2].
Defined.

End FastStod.

(** ** The depth engine: features *)

Section Features.
Import OrderBookHandler DepthEngine.
Local Open Scope nat_scope.

Lemma fold_sum_nonneg (f : OrderBookLevel -> Q) (l : list OrderBookLevel) (acc : Q) :
  Forall (fun level => (0 <= f level)%Q) l -> (0 <= acc)%Q ->
  (0 <= fold_left (fun sum level => (sum + f level)%Q) l acc)%Q.
Proof.
  intros H. revert acc. induction H as [|x l Hx _ IH]; intros acc Hacc; [exact Hacc|].
  cbn [fold_left]. apply IH. lra.
Qed.

Lemma depth_sum_nonneg (f : OrderBookLevel -> Q) (depth : nat)
    (side : list OrderBookLevel) :
  Forall (fun level => (0 <= f level)%Q) side -> (0 <= depth_sum f depth side)%Q.
Proof.
  intros H. unfold depth_sum. apply fold_sum_nonneg; [|lra].
  apply Forall_take. exact H.
Qed.

(** A share [(x - y) / (x + y)] of two amounts that are not negative. *)
Lemma share_range (x y : Q) :
  (0 <= x)%Q -> (0 <= y)%Q ->
  (-1 <= (if Qgtb (x + y) 0 then (x - y) / (x + y) else 0) <= 1)%Q.
Proof.
  intros Hx Hy. destruct (Qgtb (x + y) 0) eqn:E; [|lra].
  apply Qgtb_true in E. split.
  - apply Qle_shift_div_l; [exact E|lra].
  - apply Qle_shift_div_r; [exact E|lra].
Qed.

(** X3.  The two imbalances lie in [[-1, 1]] whenever no size and no order
    count of the book is negative, at every depth; on a book with nothing
    to count they are 0. *)
Theorem imbalance_range (b : Book) (depth : nat) :
  Forall (fun level => (0 <= volume level)%Q /\ (0 <= orders level)%Q) (bids b) ->
  Forall (fun level => (0 <= volume level)%Q /\ (0 <= orders level)%Q) (asks b) ->
  (-1 <= calculateVolumeImbalance b depth <= 1)%Q /\
  (-1 <= calculateOrderImbalance b depth <= 1)%Q /\
  (bids b = [] -> asks b = [] ->
   calculateVolumeImbalance b depth = 0%Q /\ calculateOrderImbalance b depth = 0%Q).
Proof.
  intros Hb Ha. split; [|split].
  - apply share_range; apply depth_sum_nonneg.
    + eapply Forall_impl; [exact Hb|]. intros x [H _]. exact H.
    + eapply Forall_impl; [exact Ha|]. intros x [H _]. exact H.
  - apply share_range; apply depth_sum_nonneg.
    + eapply Forall_impl; [exact Hb|]. intros x [_ H]. exact H.
    + eapply Forall_impl; [exact Ha|]. intros x [_ H]. exact H.
  - intros Eb Ea. unfold calculateVolumeImbalance, calculateOrderImbalance, depth_sum.
    rewrite Eb, Ea, take_nil. split; reflexivity.
Qed.

(** On a sorted side every price is at or behind the best one. *)
Lemma best_price_first (is_bids : bool) (best : OrderBookLevel)
    (rest : list OrderBookLevel) :
  strictly_sorted is_bids (best :: rest) ->
  Forall (fun level =>
            if is_bids then (price level <= price best)%Q
            else (price best <= price level)%Q) (best :: rest).
Proof.
  intros H. apply StronglySorted_inv in H as [_ H]. constructor.
  - destruct is_bids; apply Qle_refl.
  - eapply Forall_impl; [exact H|]. intros y Hy.
    unfold strictly_before in Hy. destruct is_bids; lra.
Qed.

(** X3 on a book with one bid of size 2 and one ask of size 3. *)
Lemma imbalance_range_witness :
  let b := {| bids := [{| price := 100; volume := 2; orders := 1 |}];
              asks := [{| price := 101; volume := 3; orders := 2 |}] |} in
  (-1 <= calculateVolumeImbalance b 10 <= 1)%Q /\
  (-1 <= calculateOrderImbalance b 10 <= 1)%Q.
Proof.
  intros b.
  assert (Hb : Forall (fun level => (0 <= volume level)%Q /\ (0 <= orders level)%Q)
                      (bids b)).
  { repeat constructor; discriminate. }
  assert (Ha : Forall (fun level => (0 <= volume level)%Q /\ (0 <= orders level)%Q)
                      (asks b)).
  { repeat constructor; discriminate. }
  destruct (imbalance_range b 10 Hb Ha) as (H1 & H2 & _).
  split; [exact H1|exact H2].
Defined.

End Features.

(** ** The depth engine: the frames it publishes *)

Section EngineFrames.
Import OrderBookHandler DepthEngine Pipeline.
Local Open Scope nat_scope.

Lemma engine_inv_initial (statuses : list bool) :
  engine_inv statuses (initial statuses).
Proof.
  split; [reflexivity|]. split; [reflexivity|].
  intros k f ok H. destruct k; discriminate H.
Qed.

Lemma engine_inv_with_book (statuses : list bool) (b : Book) (e : Engine) :
  engine_inv statuses e -> engine_inv statuses (with_book b e).
Proof. intros H. exact H. Qed.

Lemma next_status_nth (statuses : list bool) (e : Engine) :
  publish_status e = drop (length (outbox e)) statuses ->
  next_status e = nth (length (outbox e)) statuses true /\
  tl (publish_status e) = drop (S (length (outbox e))) statuses.
Proof.
  unfold next_status. intros ->. generalize (length (outbox e)). intros n.
  revert statuses. induction n as [|n IH]; intros [|ok statuses]; try (split; reflexivity).
  cbn [drop nth]. apply IH.
Qed.

Lemma engine_inv_publish (statuses : list bool) (e : Engine) :
  length (bids (book e)) = REQUIRED_LEVELS ->
  length (asks (book e)) = REQUIRED_LEVELS ->
  engine_inv statuses e -> engine_inv statuses (publishOrderBookUpdate e).
Proof.
  intros Hb Ha (Hid & Hst & Hfr).
  destruct (next_status_nth statuses e Hst) as [Hn Ht]. split; [|split].
  - cbn [publishOrderBookUpdate current_state_id_ outbox].
    rewrite length_app. cbn [length]. unfold incrementStateId, MAX_STATE_ID.
    rewrite Hid. change (65535 + 1)%Z with 65536%Z.
    rewrite Z.add_mod_idemp_l by lia. f_equal. lia.
  - cbn [publishOrderBookUpdate publish_status outbox].
    rewrite length_app. cbn [length]. rewrite Ht. f_equal. lia.
  - intros k f ok. cbn [publishOrderBookUpdate outbox]. intros H.
    apply lookup_app_Some in H as [H|[Hk H]]; [apply Hfr, H|].
    apply list_lookup_singleton_Some in H as [Hk0 [= <- <-]].
    cbn [frame_state_id frame_book frame_features frame_size].
    split; [rewrite Hid; f_equal; lia|].
    split; [exact Hb|]. split; [exact Ha|]. split; [reflexivity|].
    split; [unfold message_size; rewrite Hb, Ha; reflexivity|].
    rewrite Hn. f_equal. lia.
Qed.

Lemma validated_applied (b b' : Book) :
  validated b = Applied b' ->
  b' = b /\ length (bids b) = REQUIRED_LEVELS /\ length (asks b) = REQUIRED_LEVELS.
Proof.
  intros E. destruct (validated_spec b) as [[E' H]|[E' _]]; rewrite E' in E.
  - injection E as <-. split; [reflexivity|exact H].
  - discriminate E.
Qed.

Lemma engine_inv_handleMessage (statuses : list bool) (m : Message) (e : Engine) :
  engine_inv statuses e -> engine_inv statuses (fst (handleMessage m e)).
Proof.
  intros H. unfold handleMessage.
  destruct (op m) as [o|].
  - destruct (String.eqb_spec o "ping") as [->|Hping]; [exact H|].
    destruct (String.eqb_spec o "pong") as [->|Hpong]; [exact H|].
    assert (E : forall (X : Engine * bool),
               match o with
               | "ping"%string | "pong"%string => (e, false)
               | _ => X
               end = X \/
               match o with
               | "ping"%string | "pong"%string => (e, false)
               | _ => X
               end = (e, false)).
    { intros X. clear. 
      repeat (match goal with
              | |- context [match ?s with EmptyString => _ | String _ _ => _ end] =>
                  destruct s; [auto|]
              | |- context [match ?a with Ascii.Ascii _ _ _ _ _ _ _ _ => _ end] =>
                  destruct a
              | |- context [if ?b then _ else _] => destruct b
              end); auto. }
    match goal with |- engine_inv _ (fst ?M) =>
      match M with context [match event m with Some _ => _ | None => ?Y end] =>
        set (X := match event m with Some _ => (e, false) | None => Y end)
      end
    end.
    destruct (E X) as [-> | ->]; [|exact H].
    subst X. clear E.
    destruct (event m); [exact H|].
    destruct (action m) as [a|]; [|exact H].
    destruct (data m) as [[|first_item rest]|]; try exact H.
    destruct (String.eqb a "snapshot").
    + destruct (handleSnapshot first_item (book e)) as [b|b] eqn:E; [|exact H].
      unfold handleSnapshot in E. apply validated_applied in E as (-> & Hb & Ha).
      apply engine_inv_publish; [exact Hb|exact Ha|exact H].
    + destruct (String.eqb a "update"); [|exact H].
      destruct (processOrderBookUpdate first_item (book e)) as [b|b] eqn:E; [|exact H].
      unfold processOrderBookUpdate in E. apply validated_applied in E as (-> & Hb & Ha).
      apply engine_inv_publish; [exact Hb|exact Ha|exact H].
  - destruct (event m); [exact H|].
    destruct (action m) as [a|]; [|exact H].
    destruct (data m) as [[|first_item rest]|]; try exact H.
    destruct (String.eqb a "snapshot").
    + destruct (handleSnapshot first_item (book e)) as [b|b] eqn:E; [|exact H].
      unfold handleSnapshot in E. apply validated_applied in E as (-> & Hb & Ha).
      apply engine_inv_publish; [exact Hb|exact Ha|exact H].
    + destruct (String.eqb a "update"); [|exact H].
      destruct (processOrderBookUpdate first_item (book e)) as [b|b] eqn:E; [|exact H].
      unfold processOrderBookUpdate in E. apply validated_applied in E as (-> & Hb & Ha).
      apply engine_inv_publish; [exact Hb|exact Ha|exact H].
Qed.

Lemma engine_inv_run (statuses : list bool) (messages : list Message) (e : Engine) :
  engine_inv statuses e -> engine_inv statuses (run messages e).
Proof.
  unfold run. revert e. induction messages as [|m rest IH]; intros e H; [exact H|].
  cbn [fold_left]. apply IH, engine_inv_handleMessage, H.
Qed.

Lemma filter_all (A : Type) (l : list (A * bool)) :
  Forall (fun x => snd x = true) l -> List.filter snd l = l.
Proof.
  induction 1 as [|x l Hx _ IH]; [reflexivity|].
  cbn [List.filter]. rewrite Hx, IH. reflexivity.
Qed.

(** X5.  Whatever messages arrive, frames that leave a side with a count
    other than 400 included, and whatever the broker answers: the frames
    the engine hands to the broker are numbered 0, 1, 2, ... in that order,
    wrapping to 0 after 65535; each carries a book that holds exactly 400
    bids and 400 asks together with the features of that very book, and
    has the size the relay accepts (19374 bytes); the engine's counter is
    the number the next frame will carry.  The counter moves on whether or
    not the broker takes the frame, so a frame the broker refuses leaves a
    gap in the numbers that reach the exchange; when the broker took every
    frame, the frames published are the frames handed over. *)
Theorem engine_frames_numbered (messages : list Message) (statuses : list bool) :
  let e := run messages (initial statuses) in
  current_state_id_ e = (Z.of_nat (length (outbox e)) mod 65536)%Z /\
  Z.of_nat PPOExecution.expected_size = 19374%Z /\
  (forall k f ok, outbox e !! k = Some (f, ok) ->
     frame_state_id f = (Z.of_nat k mod 65536)%Z /\
     length (bids (frame_book f)) = 400 /\
     length (asks (frame_book f)) = 400 /\
     frame_features f = calculateFeatures (frame_book f) /\
     frame_size f = PPOExecution.expected_size /\
     ok = nth k statuses true) /\
  (forall k f, published e !! k = Some f ->
     exists j, k <= j /\ outbox e !! j = Some (f, true) /\
               frame_state_id f = (Z.of_nat j mod 65536)%Z) /\
  (Forall (fun ok => ok = true) (take (length (outbox e)) statuses) ->
   published e = map fst (outbox e)).
Proof.
  intros e.
  destruct (engine_inv_run statuses messages (initial statuses)
              (engine_inv_initial statuses)) as (H1 & _ & H2).
  fold e in H1, H2.
  split; [exact H1|]. split; [reflexivity|]. split; [exact H2|]. split.
  - intros k f Hk. unfold published in Hk.
    assert (Hsub : forall (l : list (Frame * bool)) k f,
               map fst (List.filter snd l) !! k = Some f ->
               exists j, k <= j /\ l !! j = Some (f, true)).
    { clear. induction l as [|[f0 ok0] l IH]; intros k f H; [destruct k; discriminate H|].
      cbn [List.filter snd] in H. destruct ok0.
      - destruct k as [|k].
        + injection H as <-. exists 0. split; [lia|reflexivity].
        + cbn in H. destruct (IH k f H) as (j & Hj & Hl).
          exists (S j). split; [lia|exact Hl].
      - destruct (IH k f H) as (j & Hj & Hl).
        exists (S j). split; [lia|exact Hl]. }
    destruct (Hsub _ _ _ Hk) as (j & Hj & Hl).
    exists j. split; [exact Hj|]. split; [exact Hl|].
    apply (H2 j f true Hl).
  - intros Hall. unfold published. f_equal. apply filter_all.
    apply Forall_lookup. intros k [f ok] Hk. cbn [snd].
    destruct (H2 k f ok Hk) as (_ & _ & _ & _ & _ & ->).
    apply lookup_lt_Some in Hk.
    rewrite Forall_lookup in Hall.
    destruct (statuses !! k) as [x|] eqn:Ex.
    + rewrite (nth_lookup_Some _ _ _ _ Ex).
      apply (Hall k x). rewrite lookup_take_lt by lia. exact Ex.
    + apply nth_overflow. apply lookup_ge_None in Ex. lia.
Qed.

End EngineFrames.

(** ** The depth engine: the VWAP features under rounding *)

Section Vwap.
Import OrderBookHandler DepthEngine binary64.
Local Open Scope Q_scope.

(** The growth of the error bound per level, [1 + 3u], and after [k]
    levels. *)
Let r : Q := 9007199254740995 # 9007199254740992.
Let R (k : nat) : Q := r ^ Z.of_nat k.
Let tiny : Q := 1 # 18446744073709551616.

Lemma R_ge_1 (k : nat) : 1 <= R k.
Proof. apply Qpower_1_le; [discriminate|lia]. Qed.

Lemma R_succ (k : nat) : R (S k) == R k * r.
Proof.
  unfold R. rewrite Nat2Z.inj_succ. unfold Z.succ.
  rewrite Qpower_plus by discriminate. reflexivity.
Qed.

Lemma R_mono (k n : nat) : (k <= n)%nat -> R k <= R n.
Proof. intros H. apply Qpower_le_compat_l; [lia|discriminate]. Qed.

Lemma ordinary_bounds (level : OrderBookLevel) :
  ordinary level -> tiny <= price level /\ tiny <= volume level.
Proof. intros [[H1 _] [H2 _]]. split; assumption. Qed.

(** One pass of the loop keeps the weighted sum at most [R k * (P * T)]
    and the exact volume [T] at most [R k] times the volume sum, when no
    price exceeds [P]. *)
Lemma vwap_step_upper (P : Q) (levels : list OrderBookLevel) :
  Forall (fun level => tiny <= price level <= P /\ tiny <= volume level) levels ->
  forall (k : nat) (vs ws T : Q),
    0 <= T -> 0 <= vs -> 0 <= ws ->
    ws <= R k * (P * T) -> T <= R k * vs ->
    let '(vs', ws') :=
      fold_left
        (fun '(volumeSum, weightedPriceSum) level =>
           (fl (volumeSum + volume level),
            fl (weightedPriceSum + fl (price level * volume level))))
        levels (vs, ws) in
    exists T', T <= T' /\ (levels <> [] -> tiny <= T') /\ 0 <= vs' /\ 0 <= ws' /\
               ws' <= R (k + length levels) * (P * T') /\
               T' <= R (k + length levels) * vs'.
Proof.
  induction 1 as [|level levels [[Hp1 Hp2] Hv] _ IH]; intros k vs ws T HS Hvs Hws H1 H2.
  - cbn [fold_left length]. rewrite Nat.add_0_r. exists T.
    split; [apply Qle_refl|]. split; [congruence|]. repeat split; assumption.
  - cbn [fold_left length].
    set (p := price level) in *. set (v := volume level) in *.
    assert (HP : tiny <= P) by lra.
    assert (Ht : 0 < tiny) by reflexivity.
    pose proof (R_ge_1 k) as Hr. pose proof (R_succ k) as Hrs.
    assert (Hpv : fl (p * v) <= P * v * (1 + u)).
    { apply fl_upper; [apply Qmult_le_compat_r; lra|]. unfold tiny in *. nra. }
    assert (Hpv0 : 0 <= fl (p * v)) by (apply fl_nonneg; nra).
    assert (Hws1 : fl (ws + fl (p * v)) <= (R k * (P * T) + P * v * (1 + u)) * (1 + u)).
    { apply fl_upper; [lra|]. unfold tiny, u in *. nra. }
    assert (Hws0 : 0 <= fl (ws + fl (p * v))) by (apply fl_nonneg; lra).
    assert (Hvs1 : (vs + v) * (1 - u) <= fl (vs + v)).
    { apply fl_lower; [apply Qle_refl|]. unfold tiny in *. lra. }
    assert (Hvs0 : 0 <= fl (vs + v)) by (apply fl_nonneg; lra).
    specialize (IH (S k) (fl (vs + v)) (fl (ws + fl (p * v))) (T + v)).
    replace (k + S (length levels))%nat with (S k + length levels)%nat
      by lia.
    destruct (fold_left _ levels _) as [vs' ws'].
    destruct IH as (T' & I1 & I2 & I3 & I4 & I5 & I6); try lra.
    + rewrite Hrs.
      assert (HY : P * v <= R k * (P * v)).
      { rewrite <- (Qmult_1_l (P * v)) at 1. apply Qmult_le_compat_r; [exact Hr|nra]. }
      assert (HY0 : 0 <= P * v) by nra.
      assert (HX0 : 0 <= R k * (P * T)) by nra.
      setoid_replace (R k * r * (P * (T + v)))
        with (r * (R k * (P * T)) + r * (R k * (P * v))) using relation Qeq by ring.
      revert Hws1 HY HY0 HX0.
      generalize (fl (ws + fl (p * v))) (R k * (P * T)) (R k * (P * v)) (P * v).
      intros w X W Y Hws1 HY HY0 HX0. unfold r, u in *. lra.
    + rewrite Hrs.
      assert (HA : T <= R k * vs) by exact H2.
      assert (HB : v <= R k * v).
      { rewrite <- (Qmult_1_l v) at 1. apply Qmult_le_compat_r; [exact Hr|lra]. }
      assert (HC : R k * ((vs + v) * (1 - u)) <= R k * fl (vs + v))
        by (apply Qmult_le_l; lra).
      setoid_replace (R k * ((vs + v) * (1 - u)))
        with ((1 - u) * (R k * vs + R k * v)) using relation Qeq in HC by ring.
      setoid_replace (R k * r * fl (vs + v)) with (r * (R k * fl (vs + v)))
        using relation Qeq by ring.
      revert HA HB HC.
      generalize (R k * fl (vs + v)) (R k * vs) (R k * v).
      intros C A B HA HB HC. unfold r, u in *. lra.
    + exists T'. split; [lra|]. split; [intros _|repeat split; assumption].
      unfold tiny in *. lra.
Qed.

(** The same from below, when no price is under [A]. *)
Lemma vwap_step_lower (A : Q) (levels : list OrderBookLevel) :
  Forall (fun level => tiny <= A /\ A <= price level /\ tiny <= volume level)
         levels ->
  forall (k : nat) (vs ws T : Q),
    0 <= T -> 0 <= vs -> 0 <= ws ->
    A * T <= R k * ws -> vs <= R k * T ->
    let '(vs', ws') :=
      fold_left
        (fun '(volumeSum, weightedPriceSum) level =>
           (fl (volumeSum + volume level),
            fl (weightedPriceSum + fl (price level * volume level))))
        levels (vs, ws) in
    exists T', T <= T' /\ (levels <> [] -> tiny <= T' /\ tiny <= vs') /\
               0 <= vs' /\ 0 <= ws' /\
               A * T' <= R (k + length levels) * ws' /\
               vs' <= R (k + length levels) * T'.
Proof.
  induction 1 as [|level levels (HA & Hp & Hv) _ IH]; intros k vs ws T HS Hvs Hws H1 H2.
  - cbn [fold_left length]. rewrite Nat.add_0_r. exists T.
    split; [apply Qle_refl|]. split; [congruence|]. repeat split; assumption.
  - cbn [fold_left length].
    set (p := price level) in *. set (v := volume level) in *.
    assert (Ht : 0 < tiny) by reflexivity.
    pose proof (R_ge_1 k) as Hr. pose proof (R_succ k) as Hrs.
    assert (Hpv : A * v * (1 - u) <= fl (p * v)).
    { apply fl_lower; [apply Qmult_le_compat_r; lra|]. unfold tiny in *. nra. }
    assert (Hws1 : (ws + A * v * (1 - u)) * (1 - u) <= fl (ws + fl (p * v))).
    { apply fl_lower; [lra|]. unfold tiny, u in *. nra. }
    assert (Hws0 : 0 <= fl (ws + fl (p * v))).
    { apply fl_nonneg. assert (0 <= fl (p * v)) by (apply fl_nonneg; nra). lra. }
    assert (Hvs1 : fl (vs + v) <= (vs + v) * (1 + u)).
    { apply fl_upper; [apply Qle_refl|]. unfold tiny in *. lra. }
    assert (Hvs0 : 0 <= fl (vs + v)) by (apply fl_nonneg; lra).
    specialize (IH (S k) (fl (vs + v)) (fl (ws + fl (p * v))) (T + v)).
    replace (k + S (length levels))%nat with (S k + length levels)%nat
      by lia.
    destruct (fold_left _ levels _) as [vs' ws'] eqn:Ef.
    destruct IH as (T' & I1 & I2 & I3 & I4 & I5 & I6); try lra.
    + rewrite Hrs.
      assert (HY0 : 0 <= A * v) by nra.
      assert (HY : A * v <= R k * (A * v)).
      { rewrite <- (Qmult_1_l (A * v)) at 1. apply Qmult_le_compat_r; [exact Hr|exact HY0]. }
      assert (HC : R k * ((ws + A * v * (1 - u)) * (1 - u))
                   <= R k * fl (ws + fl (p * v))) by (apply Qmult_le_l; lra).
      setoid_replace (R k * ((ws + A * v * (1 - u)) * (1 - u)))
        with ((1 - u) * (R k * ws) + (1 - u) * (1 - u) * (R k * (A * v)))
        using relation Qeq in HC by ring.
      setoid_replace (A * (T + v)) with (A * T + A * v) using relation Qeq by ring.
      setoid_replace (R k * r * fl (ws + fl (p * v)))
        with (r * (R k * fl (ws + fl (p * v)))) using relation Qeq by ring.
      assert (HW0 : 0 <= R k * ws) by nra.
      revert H1 HY HY0 HC HW0.
      generalize (R k * fl (ws + fl (p * v))) (R k * ws) (R k * (A * v)) (A * v) (A * T).
      intros C W Z Y X H1 HY HY0 HC HW0. unfold r, u in *. lra.
    + rewrite Hrs.
      assert (HB : v <= R k * v).
      { rewrite <- (Qmult_1_l v) at 1. apply Qmult_le_compat_r; [exact Hr|lra]. }
      setoid_replace (R k * r * (T + v)) with (r * (R k * T + R k * v))
        using relation Qeq by ring.
      revert H2 HB Hvs1.
      generalize (fl (vs + v)) (R k * T) (R k * v).
      intros c X B H2 HB Hvs1. unfold r, u in *. lra.
    + exists T'. split; [lra|]. split; [intros _|repeat split; assumption].
      assert (Hvt : tiny <= fl (vs + v)).
      { apply fl_ge; [vm_compute; reflexivity|]. unfold tiny in *. lra. }
      split; [unfold tiny in *; lra|].
      destruct levels as [|y levels]; [cbn [fold_left] in Ef; injection Ef as <- _; exact Hvt|].
      apply I2. discriminate.
Qed.

Lemma mul_le_l (z x y : Q) : 0 <= z -> x <= y -> z * x <= z * y.
Proof. intros Hz H. rewrite !(Qmult_comm z). apply Qmult_le_compat_r; assumption. Qed.

Lemma sq_le (x y : Q) : 0 <= x -> x <= y -> x * x <= y * y.
Proof. intros. nra. Qed.

(** After 400 levels the bound has grown by less than 1300 units
    roundoff. *)
Lemma R_bound (k : nat) :
  (k <= 400)%nat -> R k <= 1 + (13 # 4) * inject_Z (Z.of_nat k) * u.
Proof.
  induction k as [|k IH]; intros Hk.
  - change (R 0) with 1. change (inject_Z (Z.of_nat 0)) with 0. lra.
  - specialize (IH ltac:(lia)). rewrite R_succ.
    rewrite Nat2Z.inj_succ. unfold Z.succ. rewrite inject_Z_plus.
    change (inject_Z 1) with 1.
    assert (Hn : 0 <= inject_Z (Z.of_nat k) <= 400).
    { split.
      - change 0 with (inject_Z 0). rewrite <- Zle_Qle. lia.
      - change 400 with (inject_Z 400). rewrite <- Zle_Qle. lia. }
    pose proof (R_ge_1 k) as H1.
    revert IH Hn H1. generalize (R k) (inject_Z (Z.of_nat k)). intros x n IH Hn H1.
    unfold r, u in *. lra.
Qed.

Lemma R_400 : R 400 <= 1 + 1300 * u.
Proof.
  pose proof (R_bound 400 ltac:(lia)) as H.
  change (inject_Z (Z.of_nat 400)) with 400 in H. unfold u in *. lra.
Qed.

Lemma R_400_sq : 1 <= R 400 * R 400 <= (1 + 1300 * u) * (1 + 1300 * u).
Proof.
  pose proof R_400 as H. pose proof (R_ge_1 400) as H1. split.
  - rewrite <- (Qmult_1_l 1). apply sq_le; [discriminate|exact H1].
  - apply sq_le; lra.
Qed.

Lemma ordinary_tiny (level : OrderBookLevel) :
  ordinary level -> tiny <= price level /\ tiny <= volume level.
Proof.
  intros [[H1 _] [H2 _]].
  assert (E : 2 ^ (-64) == tiny) by reflexivity.
  rewrite E in H1, H2. split; assumption.
Qed.

(** The bid VWAP exceeds the best bid by the accumulated rounding at
    most. *)
Lemma bid_vwap_upper (b : Book) (depth : nat) (best : OrderBookLevel)
    (rest : list OrderBookLevel) :
  bids b = best :: rest -> strictly_sorted true (bids b) ->
  Forall ordinary (bids b) -> (0 < depth <= 400)%nat ->
  calculateVWAP b depth true <= R 400 * R 400 * r * price best.
Proof.
  intros E Hs Ho Hd. unfold calculateVWAP, vwap_sums. cbv zeta.
  set (P := price best).
  assert (HF : Forall (fun level => tiny <= price level <= P /\ tiny <= volume level)
                      (take depth (bids b))).
  { apply Forall_take. rewrite E in Hs.
    pose proof (best_price_first true best rest Hs) as Hb. rewrite <- E in Hb.
    rewrite Forall_forall in Ho, Hb. apply Forall_forall. intros x Hx.
    destruct (ordinary_tiny x (Ho x Hx)) as [H1 H2].
    specialize (Hb x Hx). cbv iota in Hb. repeat split; assumption. }
  assert (Hne : take depth (bids b) <> []).
  { rewrite E. destruct depth; [lia|discriminate]. }
  assert (Hn : (length (take depth (bids b)) <= 400)%nat).
  { rewrite length_take. lia. }
  assert (HP : tiny <= P).
  { rewrite Forall_forall in Ho. apply (ordinary_tiny best). apply Ho.
    rewrite E. left. }
  pose proof (vwap_step_upper P (take depth (bids b)) HF 0 0 0 0) as W.
  cbv zeta in W.
  destruct (fold_left _ (take depth (bids b)) _) as [vs ws].
  destruct W as (T & _ & HT & Hvs & Hws & H1 & H2);
    try apply Qle_refl; try (unfold R; cbn [Z.of_nat]; change (r ^ 0) with 1; lra).
  specialize (HT Hne). cbn [Nat.add] in H1, H2.
  pose proof (R_ge_1 (length (take depth (bids b)))) as Hr1.
  pose proof (R_mono _ _ Hn) as Hr2.
  assert (HG : R 400 <= 2) by (pose proof R_400 as H; unfold u in H; lra).
  revert H1 H2 Hr1 Hr2 HG.
  generalize (R (length (take depth (bids b)))) (R 400). intros rn G H1 H2 Hr1 Hr2 HG.
  assert (Ht : 0 < tiny) by reflexivity.
  assert (Hpos : 0 < vs) by nra.
  rewrite (proj2 (Qgtb_true _ _) Hpos).
  assert (Hq : ws / vs <= G * G * P).
  { apply Qle_shift_div_r; [exact Hpos|].
    assert (A1 : rn * (P * T) <= rn * (P * (rn * vs))).
    { apply mul_le_l; [lra|]. apply mul_le_l; [lra|exact H2]. }
    assert (A2 : rn * rn * (P * vs) <= G * G * (P * vs)).
    { apply Qmult_le_compat_r; [apply sq_le; lra|].
      apply Qmult_le_0_compat; lra. }
    setoid_replace (rn * (P * (rn * vs))) with (rn * rn * (P * vs))
      using relation Qeq in A1 by ring.
    setoid_replace (G * G * P * vs) with (G * G * (P * vs)) using relation Qeq by ring.
    lra. }
  assert (HN : (1 # 1606938044258990275541962092341162602522202993782792835301376)
               <= G * G * P) by (unfold tiny in *; nra).
  pose proof (fl_upper _ _ Hq HN) as B.
  eapply Qle_trans; [exact B|].
  assert (H0 : 0 <= G * G * P) by nra.
  setoid_replace (G * G * r * P) with (r * (G * G * P)) using relation Qeq by ring.
  revert H0. generalize (G * G * P). intros X H0.
  unfold r, u. lra.
Qed.

(** The ask VWAP falls short of the best ask by the accumulated rounding
    at most. *)
Lemma ask_vwap_lower (b : Book) (depth : nat) (best : OrderBookLevel)
    (rest : list OrderBookLevel) :
  asks b = best :: rest -> strictly_sorted false (asks b) ->
  Forall ordinary (asks b) -> (0 < depth <= 400)%nat ->
  price best * (1 - u) <= R 400 * R 400 * calculateVWAP b depth false.
Proof.
  intros E Hs Ho Hd. unfold calculateVWAP, vwap_sums. cbv zeta.
  set (A := price best).
  assert (HA : tiny <= A).
  { rewrite Forall_forall in Ho. apply (ordinary_tiny best). apply Ho.
    rewrite E. left. }
  assert (HF : Forall (fun level => tiny <= A /\ A <= price level /\ tiny <= volume level)
                      (take depth (asks b))).
  { apply Forall_take. rewrite E in Hs.
    pose proof (best_price_first false best rest Hs) as Hb. rewrite <- E in Hb.
    rewrite Forall_forall in Ho, Hb. apply Forall_forall. intros x Hx.
    destruct (ordinary_tiny x (Ho x Hx)) as [H1 H2].
    specialize (Hb x Hx). cbv iota in Hb. repeat split; assumption. }
  assert (Hne : take depth (asks b) <> []).
  { rewrite E. destruct depth; [lia|discriminate]. }
  assert (Hn : (length (take depth (asks b)) <= 400)%nat).
  { rewrite length_take. lia. }
  pose proof (vwap_step_lower A (take depth (asks b)) HF 0 0 0 0) as W.
  cbv zeta in W.
  destruct (fold_left _ (take depth (asks b)) _) as [vs ws].
  destruct W as (T & _ & HT & Hvs & Hws & H1 & H2);
    try apply Qle_refl; try (unfold R; cbn [Z.of_nat]; change (r ^ 0) with 1; lra).
  cbn [Nat.add] in H1, H2.
  pose proof (R_ge_1 (length (take depth (asks b)))) as Hr1.
  pose proof (R_mono _ _ Hn) as Hr2.
  assert (HG : R 400 <= 2) by (pose proof R_400 as H; unfold u in H; lra).
  revert H1 H2 Hr1 Hr2 HG.
  generalize (R (length (take depth (asks b)))) (R 400). intros rn G H1 H2 Hr1 Hr2 HG.
  assert (Ht : 0 < tiny) by reflexivity.
  destruct (HT Hne) as [HT1 Hvt]. clear HT.
  assert (Hpos : 0 < vs) by lra.
  rewrite (proj2 (Qgtb_true _ _) Hpos).
  assert (HG2 : 1 <= G * G <= 4) by nra.
  assert (Hq : A / (G * G) <= ws / vs).
  { apply Qle_shift_div_l; [exact Hpos|].
    setoid_replace (A / (G * G) * vs) with (A * vs / (G * G)) using relation Qeq
      by (field; lra).
    apply Qle_shift_div_r; [lra|].
    assert (A1 : A * vs <= A * (rn * T)) by (apply mul_le_l; lra).
    assert (A2 : rn * (A * T) <= rn * (rn * ws)) by (apply mul_le_l; lra).
    assert (A3 : rn * rn * ws <= G * G * ws).
    { apply Qmult_le_compat_r; [apply sq_le; lra|lra]. }
    setoid_replace (A * (rn * T)) with (rn * (A * T)) using relation Qeq in A1 by ring.
    setoid_replace (rn * (rn * ws)) with (rn * rn * ws) using relation Qeq in A2
      by ring.
    setoid_replace (ws * (G * G)) with (G * G * ws) using relation Qeq by ring.
    lra. }
  assert (HN : (1 # 1606938044258990275541962092341162602522202993782792835301376)
               <= A / (G * G)).
  { apply Qle_shift_div_l; [lra|]. unfold tiny in *. nra. }
  pose proof (fl_lower _ _ Hq HN) as B.
  assert (B' : G * G * (A / (G * G) * (1 - u)) <= G * G * fl (ws / vs))
    by (apply mul_le_l; lra).
  setoid_replace (G * G * (A / (G * G) * (1 - u))) with (A * (1 - u))
    using relation Qeq in B' by (field; lra).
  exact B'.
Qed.

(** The mid price, up to two roundings. *)
Lemma mid_price_bounds (b : Book) (best_bid best_ask : OrderBookLevel)
    (bids' asks' : list OrderBookLevel) :
  bids b = best_bid :: bids' -> asks b = best_ask :: asks' ->
  ordinary best_bid -> ordinary best_ask ->
  let half := (price best_ask + price best_bid) * (1 # 2) in
  half * ((1 - u) * (1 - u)) <= calculateMidPrice b <= half * ((1 + u) * (1 + u)).
Proof.
  intros Eb Ea Hb Ha half. unfold calculateMidPrice. rewrite Eb, Ea.
  destruct (ordinary_tiny _ Hb) as [Hpb _]. destruct (ordinary_tiny _ Ha) as [Hpa _].
  subst half. set (P := price best_bid) in *. set (A := price best_ask) in *.
  change (fl (A + P) / 2) with (fl (A + P) * (1 # 2)).
  assert (H1 : (A + P) * (1 - u) <= fl (A + P) <= (A + P) * (1 + u)).
  { split; [apply fl_lower|apply fl_upper]; try apply Qle_refl; unfold tiny in *; lra. }
  assert (H2 : fl (A + P) * (1 # 2) * (1 - u) <= fl (fl (A + P) * (1 # 2))
               <= fl (A + P) * (1 # 2) * (1 + u)).
  { split; [apply fl_lower|apply fl_upper]; try apply Qle_refl;
      unfold tiny, u in *; lra. }
  revert H1 H2. generalize (fl (fl (A + P) * (1 # 2))) (fl (A + P)).
  intros m s H1 H2. unfold tiny, u in *. split; lra.
Qed.

Lemma displacement_nonpos (v m : Q) : 0 < m -> v <= m -> fl (fl (v - m) / m) <= 0.
Proof.
  intros Hm H. apply fl_nonpos, Qle_shift_div_r; [exact Hm|].
  assert (H0 : fl (v - m) <= 0) by (apply fl_nonpos; lra). lra.
Qed.

Lemma displacement_nonneg (v m : Q) : 0 < m -> m <= v -> 0 <= fl (fl (v - m) / m).
Proof.
  intros Hm H. apply fl_nonneg, Qle_shift_div_l; [exact Hm|].
  assert (H0 : 0 <= fl (v - m)) by (apply fl_nonneg; lra). lra.
Qed.

Lemma spread_constant_bids :
  R 400 * R 400 * r
  <= (1 + (1 # 2199023255552)) * ((1 - u) * (1 - u)).
Proof.
  destruct R_400_sq as [_ H].
  apply Qle_trans with ((1 + 1300 * u) * (1 + 1300 * u) * r).
  - apply Qmult_le_compat_r; [exact H|discriminate].
  - vm_compute. discriminate.
Qed.

Lemma spread_constant_asks :
  R 400 * R 400 * ((1 + u) * (1 + u))
  <= 2 * (1 + (1 # 1099511627776)) * (1 - u) / (2 + (1 # 1099511627776)).
Proof.
  destruct R_400_sq as [_ H].
  apply Qle_trans with ((1 + 1300 * u) * (1 + 1300 * u) * ((1 + u) * (1 + u))).
  - apply Qmult_le_compat_r; [exact H|discriminate].
  - vm_compute. discriminate.
Qed.

(** X4.  On a book whose sides are sorted, whose prices and sizes lie
    between [2^-64] and [2^64], and whose best ask exceeds its best bid by
    one part in [2^40] at least, the mid price lies between the two, no
    bid-side VWAP displacement is positive and no ask-side one is
    negative, at each of the five depths; every operation rounded to
    binary64 as the code computes it. *)
Theorem vwap_displacement_signs (b : Book) (best_bid best_ask : OrderBookLevel)
    (bids' asks' : list OrderBookLevel) :
  sides_ok b ->
  bids b = best_bid :: bids' -> asks b = best_ask :: asks' ->
  Forall ordinary (bids b) -> Forall ordinary (asks b) ->
  price best_bid * (1 + 2 ^ (-40)) <= price best_ask ->
  let features := calculateFeatures b in
  price best_bid <= midPrice features <= price best_ask /\
  length (bidVwapChange features) = 5%nat /\
  length (askVwapChange features) = 5%nat /\
  Forall (fun change => change <= 0) (bidVwapChange features) /\
  Forall (fun change => 0 <= change) (askVwapChange features).
Proof.
  intros [[Hsb _] [Hsa _]] Eb Ea Hob Hoa Hspread features.
  assert (Hbb : ordinary best_bid).
  { rewrite Forall_forall in Hob. apply Hob. rewrite Eb. left. }
  assert (Hba : ordinary best_ask).
  { rewrite Forall_forall in Hoa. apply Hoa. rewrite Ea. left. }
  pose proof (mid_price_bounds b best_bid best_ask bids' asks' Eb Ea Hbb Hba) as Hmid.
  cbv zeta in Hmid.
  destruct (ordinary_tiny _ Hbb) as [HP _]. destruct (ordinary_tiny _ Hba) as [HA _].
  assert (Ed : 2 ^ (-40) == 1 # 1099511627776) by reflexivity.
  rewrite Ed in Hspread.
  assert (Hbid : forall depth, (0 < depth <= 400)%nat ->
            calculateVWAP b depth true <= calculateMidPrice b).
  { intros depth Hd.
    pose proof (bid_vwap_upper b depth best_bid bids' Eb Hsb Hob Hd) as H.
    pose proof spread_constant_bids as C.
    revert H C. generalize (R 400 * R 400 * r). intros K H C.
    assert (H' : K * price best_bid
                 <= (1 + (1 # 2199023255552)) * ((1 - u) * (1 - u)) * price best_bid).
    { apply Qmult_le_compat_r; [exact C|unfold tiny in *; lra]. }
    revert Hmid H H'. generalize (calculateVWAP b depth true) (calculateMidPrice b)
      (K * price best_bid).
    intros v m KP Hmid H H'. unfold tiny, u in *. lra. }
  assert (Hask : forall depth, (0 < depth <= 400)%nat ->
            calculateMidPrice b <= calculateVWAP b depth false).
  { intros depth Hd.
    pose proof (ask_vwap_lower b depth best_ask asks' Ea Hsa Hoa Hd) as H.
    pose proof spread_constant_asks as C.
    pose proof (R_ge_1 400) as HG.
    assert (HGG : 0 < R 400 * R 400) by nra.
    apply (Qmult_le_l _ _ (R 400 * R 400) HGG).
    eapply Qle_trans; [|exact H].
    assert (M : R 400 * R 400 * calculateMidPrice b
                <= R 400 * R 400
                   * ((price best_ask + price best_bid) * (1 # 2)
                      * ((1 + u) * (1 + u)))).
    { apply mul_le_l; [lra|apply Hmid]. }
    setoid_replace (R 400 * R 400
                    * ((price best_ask + price best_bid) * (1 # 2)
                       * ((1 + u) * (1 + u))))
      with (R 400 * R 400 * ((1 + u) * (1 + u))
            * ((price best_ask + price best_bid) * (1 # 2)))
      using relation Qeq in M by ring.
    assert (M' : R 400 * R 400 * ((1 + u) * (1 + u))
                 * ((price best_ask + price best_bid) * (1 # 2))
                 <= 2 * (1 + (1 # 1099511627776)) * (1 - u) / (2 + (1 # 1099511627776))
                    * ((price best_ask + price best_bid) * (1 # 2))).
    { apply Qmult_le_compat_r; [exact C|unfold tiny in *; lra]. }
    eapply Qle_trans; [exact M|]. eapply Qle_trans; [exact M'|].
    setoid_replace (2 * (1 + (1 # 1099511627776)) * (1 - u) / (2 + (1 # 1099511627776)))
      with (2199023255552 * (1 - u) / 2199023255553 * (1 + (1 # 1099511627776)))
      using relation Qeq by (vm_compute; reflexivity).
    change (2199023255552 * (1 - u) / 2199023255553)
      with (2199023255552 * (1 - u) * (1 # 2199023255553)).
    unfold tiny, u in *. lra. }
  assert (Hm : price best_bid <= calculateMidPrice b <= price best_ask).
  { revert Hmid. generalize (calculateMidPrice b). intros m Hmid.
    unfold tiny, u in *. split; lra. }
  assert (Hm0 : 0 < calculateMidPrice b) by (unfold tiny in *; lra).
  split; [exact Hm|]. split; [reflexivity|]. split; [reflexivity|].
  unfold features, calculateFeatures. cbv zeta.
  cbn [bidVwapChange askVwapChange]. rewrite (proj2 (Qgtb_true _ _) Hm0).
  unfold depthLevels. cbn [map].
  split; repeat constructor;
    first [apply displacement_nonpos; [exact Hm0|apply Hbid; lia]
          |apply displacement_nonneg; [exact Hm0|apply Hask; lia]].
Qed.

(** X4 on a book with bids at 100 and 99 and asks at 101 and 103. *)
Lemma vwap_displacement_signs_witness :
  let b := {| bids := [{| price := 100; volume := 2; orders := 1 |};
                       {| price := 99; volume := 1; orders := 1 |}];
              asks := [{| price := 101; volume := 3; orders := 2 |};
                       {| price := 103; volume := 1; orders := 1 |}] |} in
  100 <= midPrice (calculateFeatures b) <= 101 /\
  Forall (fun change => change <= 0) (bidVwapChange (calculateFeatures b)) /\
  Forall (fun change => 0 <= change) (askVwapChange (calculateFeatures b)).
Proof.
  intros b.
  assert (Hs : sides_ok b).
  { split; split; repeat constructor; reflexivity. }
  assert (Hob : Forall ordinary (bids b)).
  { repeat constructor; vm_compute; discriminate. }
  assert (Hoa : Forall ordinary (asks b)).
  { repeat constructor; vm_compute; discriminate. }
  assert (Hx : 100 * (1 + 2 ^ (-40)) <= 101) by (vm_compute; discriminate).
  destruct (vwap_displacement_signs b _ _ _ _ Hs eq_refl eq_refl Hob Hoa Hx)
    as (H1 & _ & _ & H4 & H5).
  split; [exact H1|]. split; [exact H4|exact H5].
Defined.

End Vwap.

(** ** The codec: what the decoders return *)

Section Decoders.
Import binary_utils.

Lemma round_half_even_bounds (n d : Z) :
  n / d <= round_half_even n d <= n / d + 1.
Proof.
  unfold round_half_even. cbv zeta.
  destruct (d <? 2 * (n mod d)); [lia|].
  destruct ((2 * (n mod d) =? d) && Z.odd (n / d)); lia.
Qed.

(** The conversion to [double] never leaves the power-of-two range of its
    argument. *)
Lemma double_of_u64_bounds (n k : Z) :
  0 <= n < 2 ^ k -> 0 <= k ->
  (0 <= double_of_u64 n)%Q /\ (double_of_u64 n <= inject_Z (2 ^ k))%Q.
Proof.
  intros Hn Hk. unfold double_of_u64.
  destruct (Z.ltb_spec n (2 ^ 53)) as [Hs|Hb].
  - split; [change 0%Q with (inject_Z 0)|]; rewrite <- Zle_Qle; lia.
  - cbv zeta.
    assert (Hpos : 0 < n) by lia.
    destruct (Z.log2_spec n Hpos) as [Hl Hu].
    assert (HL : 53 <= Z.log2 n).
    { apply Z.log2_le_pow2; lia. }
    assert (HLk : Z.log2 n < k).
    { apply Z.log2_lt_pow2; lia. }
    set (e := Z.log2 n - 52) in *.
    assert (He : 0 < 2 ^ e) by (apply Z.pow_pos_nonneg; lia).
    assert (Hsplit : 2 ^ Z.succ (Z.log2 n) = 2 ^ 53 * 2 ^ e).
    { rewrite <- Z.pow_add_r by lia. f_equal. lia. }
    assert (Hq : 0 <= n / 2 ^ e < 2 ^ 53).
    { split; [apply Z.div_pos; lia|].
      apply Z.div_lt_upper_bound; [lia|]. lia. }
    pose proof (round_half_even_bounds n (2 ^ e)) as Hr.
    assert (Hk' : 2 ^ 53 * 2 ^ e <= 2 ^ k).
    { rewrite <- Hsplit. apply Z.pow_le_mono_r; lia. }
    split; [change 0%Q with (inject_Z 0)|]; rewrite <- Zle_Qle; nia.
Qed.

Lemma whole_part_range (encoded : Z) :
  0 <= Z.shiftr (Z.land encoded ORDERBOOK_WHOLE_MASK) 53 < 2 ^ 10.
Proof.
  rewrite Z.shiftr_land. unfold ORDERBOOK_WHOLE_MASK.
  rewrite Z.shiftr_shiftl_l by lia. change (53 - 53) with 0.
  rewrite Z.shiftl_0_r. change (Z.shiftl 1 10 - 1) with (Z.ones 10).
  rewrite Z.land_ones by lia. apply Z.mod_pos_bound. lia.
Qed.

Lemma Qopp_range (x b : Q) : (0 <= x)%Q -> (x <= b)%Q ->
  forall neg : bool, (- b <= (if neg then - x else x) <= b)%Q.
Proof. intros H0 Hb [|]; split; lra. Qed.

Lemma decodeChangeValue_range (encoded : Z) :
  (-1 <= decodeChangeValue encoded <= 1)%Q.
Proof.
  unfold decodeChangeValue. destruct (encoded =? 0); [split; discriminate|].
  cbv zeta. refine (Qopp_range _ 1 _ _ _).
  - rewrite frac_mask_ones, Z.land_ones by lia.
    destruct (double_of_u64_bounds (encoded mod 2 ^ 63) 63) as [H0 _];
      [apply Z.mod_pos_bound; lia|lia|].
    rewrite PRICE_FRAC_SCALE_INV_value.
    apply Qmult_le_0_compat; [exact H0|discriminate].
  - rewrite frac_mask_ones, Z.land_ones by lia.
    destruct (double_of_u64_bounds (encoded mod 2 ^ 63) 63) as [H0 H1];
      [apply Z.mod_pos_bound; lia|lia|].
    rewrite PRICE_FRAC_SCALE_INV_value.
    change (inject_Z (2 ^ 63)) with (9223372036854775808 # 1)%Q in *.
    revert H0 H1. generalize (double_of_u64 (encoded mod 2 ^ 63)).
    intros d H0 H1.
    assert (E : (d * (1 / (9223372036854775808 # 1)) * (9223372036854775808 # 1)
                 == d)%Q) by (field; discriminate).
    revert E. generalize (d * (1 / (9223372036854775808 # 1)))%Q. intros x E. lra.
Qed.

Lemma decodeOrderBookValue_range (encoded : Z) :
  (-1024 <= decodeOrderBookValue encoded <= 1024)%Q.
Proof.
  unfold decodeOrderBookValue. destruct (encoded =? 0); [split; discriminate|].
  cbv zeta.
  pose proof (whole_part_range encoded) as Hw.
  set (whole := Z.shiftr (Z.land encoded ORDERBOOK_WHOLE_MASK) 53) in *.
  change ORDERBOOK_FRAC_MASK with (Z.ones 53). rewrite Z.land_ones by lia.
  pose proof (Z.mod_pos_bound encoded (2 ^ 53) eq_refl) as Hf.
  set (fraction := encoded mod 2 ^ 53) in *.
  rewrite (double_of_u64_small whole) by lia.
  rewrite (double_of_u64_small fraction) by lia.
  change ORDERBOOK_FRAC_SCALE_INV with (1 / (9007199254740991 # 1))%Q.
  assert (Hw0 : (inject_Z 0 <= inject_Z whole)%Q) by (rewrite <- Zle_Qle; lia).
  assert (Hw1 : (inject_Z whole <= inject_Z 1023)%Q) by (rewrite <- Zle_Qle; lia).
  assert (Hf0 : (inject_Z 0 <= inject_Z fraction)%Q) by (rewrite <- Zle_Qle; lia).
  assert (Hf1 : (inject_Z fraction <= inject_Z (2 ^ 53 - 1))%Q)
    by (rewrite <- Zle_Qle; lia).
  change (inject_Z 0) with 0%Q in Hw0, Hf0.
  change (inject_Z 1023) with (1023 # 1)%Q in Hw1.
  change (inject_Z (2 ^ 53 - 1)) with (9007199254740991 # 1)%Q in Hf1.
  revert Hw0 Hw1 Hf0 Hf1.
  generalize (inject_Z whole) (inject_Z fraction). intros w f Hw0 Hw1 Hf0 Hf1.
  assert (E : (f * (1 / (9007199254740991 # 1)) * (9007199254740991 # 1) == f)%Q)
    by (field; discriminate).
  revert E. generalize (f * (1 / (9007199254740991 # 1)))%Q. intros x E.
  refine (Qopp_range _ 1024 _ _ _); lra.
Qed.

(** X6.  Whatever 64-bit word arrives, a decoded change value lies in
    [[-1, 1]] and a decoded order-book value in [[-1024, 1024]]; the word
    with only the sign bit set decodes to zero in both formats. *)
Theorem decoded_values_bounded (encoded : Z) :
  (-1 <= decodeChangeValue encoded <= 1)%Q /\
  (-1024 <= decodeOrderBookValue encoded <= 1024)%Q /\
  (decodeChangeValue (2 ^ 63) == 0)%Q /\ (decodeOrderBookValue (2 ^ 63) == 0)%Q.
Proof.
  split; [apply decodeChangeValue_range|].
  split; [apply decodeOrderBookValue_range|].
  split; reflexivity.
Qed.

End Decoders.

(** ** The codec: sizes and order counts *)

Section OrderBookValue.
Import binary_utils.

(** A whole part below [2^10] and a fraction below [2^53] share no bit,
    and each mask returns its own field. *)
Lemma orderbook_fields (whole fraction : Z) :
  0 <= whole < 2 ^ 10 -> 0 <= fraction < 2 ^ 53 ->
  let n := Z.lor (Z.shiftl whole 53) fraction in
  n = whole * 2 ^ 53 + fraction /\
  Z.land n ORDERBOOK_SIGN_MASK = 0 /\
  Z.shiftr (Z.land n ORDERBOOK_WHOLE_MASK) 53 = whole /\
  Z.land n ORDERBOOK_FRAC_MASK = fraction.
Proof.
  intros Hw Hf n.
  assert (Hdisj : Z.land (Z.shiftl whole 53) fraction = 0).
  { apply Z.bits_inj'. intros i Hi. rewrite Z.land_spec, Z.bits_0.
    destruct (Z.lt_ge_cases i 53) as [Hlt|Hge].
    - rewrite Z.shiftl_spec_low by lia. reflexivity.
    - rewrite <- (Z.mod_small fraction (2 ^ 53)) by lia.
      rewrite Z.mod_pow2_bits_high by lia. apply andb_false_r. }
  assert (Hn : n = whole * 2 ^ 53 + fraction).
  { unfold n. rewrite <- Z.lxor_lor by exact Hdisj.
    rewrite <- Z.add_nocarry_lxor by exact Hdisj.
    rewrite Z.shiftl_mul_pow2 by lia. reflexivity. }
  split; [exact Hn|]. split; [|split].
  - change ORDERBOOK_SIGN_MASK with (2 ^ 63). rewrite Z.land_comm.
    apply land_pow_small. rewrite Hn. nia.
  - rewrite Z.shiftr_land. unfold ORDERBOOK_WHOLE_MASK.
    rewrite Z.shiftr_shiftl_l by lia. change (53 - 53) with 0.
    rewrite Z.shiftl_0_r. change (Z.shiftl 1 10 - 1) with (Z.ones 10).
    rewrite Z.land_ones by lia. rewrite Z.shiftr_div_pow2 by lia.
    rewrite Hn, Z.div_add_l by lia. rewrite (Z.div_small fraction) by lia.
    rewrite Z.add_0_r. apply Z.mod_small. lia.
  - change ORDERBOOK_FRAC_MASK with (Z.ones 53). rewrite Z.land_ones by lia.
    rewrite Hn, Z.add_comm, Z.mod_add by lia. apply Z.mod_small. lia.
Qed.

Lemma whole_part_clamped (w : Z) :
  0 <= w -> u64_of_double (Qmin (inject_Z w) 1023) = Z.min w 1023.
Proof.
  intros Hw.
  assert (E : (Qmin (inject_Z w) 1023 == inject_Z (Z.min w 1023))%Q).
  { destruct (Q.min_spec (inject_Z w) 1023) as [[H ->]|[H ->]].
    - change 1023%Q with (inject_Z 1023) in H. rewrite <- Zlt_Qlt in H.
      rewrite Z.min_l by lia. reflexivity.
    - change 1023%Q with (inject_Z 1023) in H. rewrite <- Zle_Qle in H.
      rewrite Z.min_r by lia. reflexivity. }
  rewrite u64_of_double_floor.
  - rewrite (Qfloor_comp _ _ E). apply Qfloor_Z.
  - rewrite E. change 0%Q with (inject_Z 0). rewrite <- Zle_Qle. lia.
Qed.

(** The decoder on a word made of a whole part and a fraction. *)
Lemma decode_fields (whole fraction : Z) :
  0 <= whole < 2 ^ 10 -> 0 <= fraction < 2 ^ 53 ->
  (decodeOrderBookValue (Z.lor (Z.shiftl whole 53) fraction)
   == inject_Z whole + inject_Z fraction * (1 / (9007199254740991 # 1)))%Q.
Proof.
  intros Hw Hf.
  destruct (orderbook_fields whole fraction Hw Hf) as (Hn & Hs & Hwm & Hfm).
  unfold decodeOrderBookValue.
  destruct (Z.eqb_spec (Z.lor (Z.shiftl whole 53) fraction) 0) as [E|_].
  - rewrite E in Hn.
    assert (whole = 0) by nia. assert (fraction = 0) by nia. subst. reflexivity.
  - cbv zeta. rewrite Hs, Hwm, Hfm. cbn [Z.eqb negb].
    rewrite (double_of_u64_small whole) by lia.
    rewrite (double_of_u64_small fraction) by lia.
    reflexivity.
Qed.

(** X7.  A size or order count [q >= 0] on the wire: below 1024 it comes
    back from the decoder within [1e-15]; from 1024 on its whole part is
    stored as 1023 and only the fractional part survives, so what comes
    back lies between 1023 and 1024. *)
Theorem orderbook_value_saturates (q : Q) :
  (0 <= q)%Q ->
  let d := decodeOrderBookValue (encodeOrderBookValue q) in
  0 <= encodeOrderBookValue q < 2 ^ 63 /\
  ((q < 1024)%Q -> (Qabs (d - q) <= ZERO_THRESHOLD)%Q) /\
  ((1024 <= q)%Q -> (1023 <= d <= 1024)%Q).
Proof.
  intros Hq d. subst d. unfold encodeOrderBookValue.
  destruct (isZero q) eqn:Hz.
  { apply isZero_true in Hz. rewrite (Qabs_nonneg_eq q Hq) in Hz.
    unfold ZERO_THRESHOLD in *. change (decodeOrderBookValue 0) with 0%Q.
    split; [lia|]. split; intros H; [apply Qabs_Qle_condition|]; split; lra. }
  apply isZero_false in Hz. rewrite (Qabs_nonneg_eq q Hq) in *.
  rewrite (proj2 (Qltb_false q 0) Hq). cbv zeta.
  pose proof (Qfloor_le q) as Hfl. pose proof (Qlt_floor q) as Hfu.
  rewrite inject_Z_plus in Hfu. change (inject_Z 1) with 1%Q in Hfu.
  set (w := Qfloor q) in *.
  assert (Hw : 0 <= w).
  { assert (H : (inject_Z (-1) < inject_Z w)%Q)
      by (change (inject_Z (-1)) with (-1 # 1)%Q; lra).
    rewrite <- Zlt_Qlt in H. lia. }
  rewrite (whole_part_clamped w Hw).
  change ORDERBOOK_FRAC_SCALE with (inject_Z (2 ^ 53 - 1)).
  set (F := u64_of_double ((q - inject_Z w) * inject_Z (2 ^ 53 - 1))).
  assert (HF : F = Qfloor ((q - inject_Z w) * inject_Z (2 ^ 53 - 1))).
  { unfold F. apply u64_of_double_floor.
    change (inject_Z (2 ^ 53 - 1)) with (9007199254740991 # 1)%Q.
    apply Qmult_le_0_compat; [lra|discriminate]. }
  pose proof (Qfloor_le ((q - inject_Z w) * inject_Z (2 ^ 53 - 1))) as HFl.
  pose proof (Qlt_floor ((q - inject_Z w) * inject_Z (2 ^ 53 - 1))) as HFu.
  rewrite <- HF in HFl, HFu. rewrite inject_Z_plus in HFu.
  change (inject_Z 1) with 1%Q in HFu.
  change (inject_Z (2 ^ 53 - 1)) with (9007199254740991 # 1)%Q in HFl, HFu.
  assert (HFr : 0 <= F < 2 ^ 53).
  { split.
    - assert (H : (inject_Z (-1) < inject_Z F)%Q)
        by (change (inject_Z (-1)) with (-1 # 1)%Q; lra).
      rewrite <- Zlt_Qlt in H. lia.
    - assert (H : (inject_Z F < inject_Z (2 ^ 53))%Q)
        by (change (inject_Z (2 ^ 53)) with (9007199254740992 # 1)%Q; lra).
      rewrite <- Zlt_Qlt in H. exact H. }
  assert (HW : 0 <= Z.min w 1023 < 2 ^ 10) by lia.
  assert (HF0 : (inject_Z 0 <= inject_Z F)%Q) by (rewrite <- Zle_Qle; lia).
  change (inject_Z 0) with 0%Q in HF0.
  change (Z.shiftl 0 63) with 0. rewrite Z.lor_0_l.
  change (Z.shiftl 1 10 - 1) with (Z.ones 10).
  rewrite Z.land_ones by lia. rewrite (Z.mod_small (Z.min w 1023)) by lia.
  destruct (orderbook_fields _ _ HW HFr) as (Hn & _).
  rewrite (proj2 (proj2 (orderbook_masks F HFr))).
  split; [rewrite Hn; nia|].
  rewrite (decode_fields _ _ HW HFr).
  assert (Hx : (inject_Z F * (1 / (9007199254740991 # 1)) * (9007199254740991 # 1)
                == inject_Z F)%Q) by (field; discriminate).
  revert Hx. generalize (inject_Z F * (1 / (9007199254740991 # 1)))%Q. intros x Hx.
  unfold ZERO_THRESHOLD. split; intros Hc.
  - assert (Hlt : (inject_Z w < inject_Z 1024)%Q)
      by (change (inject_Z 1024) with (1024 # 1)%Q; lra).
    rewrite <- Zlt_Qlt in Hlt. rewrite Z.min_l by lia.
    apply Qabs_Qle_condition. split; lra.
  - assert (Hge : (inject_Z 1023 < inject_Z (w + 1))%Q).
    { rewrite inject_Z_plus. change (inject_Z 1) with 1%Q.
      change (inject_Z 1023) with (1023 # 1)%Q. lra. }
    rewrite <- Zlt_Qlt in Hge. rewrite Z.min_r by lia.
    change (inject_Z 1023) with (1023 # 1)%Q. split; lra.
Qed.

(** X7 at 2500 contracts: the relay reads them as 1023. *)
Lemma orderbook_value_saturates_witness :
  (1023 <= decodeOrderBookValue (encodeOrderBookValue 2500) <= 1024)%Q.
Proof.
  assert (H0 : (0 <= 2500)%Q) by discriminate.
  assert (H1 : (1024 <= 2500)%Q) by discriminate.
  exact (proj2 (proj2 (orderbook_value_saturates 2500 H0)) H1).
Defined.

End OrderBookValue.

(** ** The order manager: from an action to an order request *)

Section OrderRequest.
Import binary64 OMSAction.
Local Open Scope Q_scope.

(** The factor [1.0 + price / 1000.0] for an offset in [[-1, 1]]. *)
Lemma price_factor (price : Q) :
  -1 <= price <= 1 ->
  let f := fl (1 + fl (price / 1000)) in
  fl (1 + fl (-1 # 1000)) <= f <= fl (1 + fl (1 # 1000)) /\
  (price < 0 -> f <= 1) /\ (0 <= price -> 1 <= f).
Proof.
  intros [Hl Hh] f. subst f.
  change (price / 1000) with (price * (1 # 1000)).
  assert (H1 : fl (-1 # 1000) <= fl (price * (1 # 1000))) by (apply fl_mono; lra).
  assert (H2 : fl (price * (1 # 1000)) <= fl (1 # 1000)) by (apply fl_mono; lra).
  split; [split; apply fl_mono; lra|]. split; intros Hp.
  - apply fl_le; [reflexivity|].
    assert (H3 : fl (price * (1 # 1000)) <= 0) by (apply fl_nonpos; lra). lra.
  - apply fl_ge; [reflexivity|].
    assert (H3 : 0 <= fl (price * (1 # 1000))) by (apply fl_nonneg; lra). lra.
Qed.

Lemma order_price_bounds (price mid : Q) :
  -1 <= price <= 1 -> 1 # 100 <= mid -> fl mid == mid ->
  let op := price_of price mid in
  ((999 # 1000) * (1 - (1 # 1000000000000000)) * mid <= op
   <= (1001 # 1000) * (1 + (1 # 1000000000000000)) * mid) /\
  (price < 0 -> op <= mid) /\ (0 <= price -> mid <= op).
Proof.
  intros Hp Hm Hrep op. subst op. unfold price_of.
  destruct (price_factor price Hp) as ([Hf1 Hf2] & Hneg & Hpos).
  set (f := fl (1 + fl (price / 1000))) in *.
  assert (K1 : 998 # 1000 <= fl (1 + fl (-1 # 1000))) by (vm_compute; discriminate).
  assert (K2 : (999 # 1000) * (1 - (1 # 1000000000000000))
               <= fl (1 + fl (-1 # 1000)) * (1 - u)) by (vm_compute; discriminate).
  assert (K3 : fl (1 + fl (1 # 1000)) * (1 + u)
               <= (1001 # 1000) * (1 + (1 # 1000000000000000)))
    by (vm_compute; discriminate).
  assert (K4 : fl (1 + fl (1 # 1000)) <= 1002 # 1000) by (vm_compute; discriminate).
  revert K1 K2 K3 K4 Hf1 Hf2.
  generalize (fl (1 + fl (-1 # 1000))) (fl (1 + fl (1 # 1000))).
  intros lo hi K1 K2 K3 K4 Hf1 Hf2.
  assert (L : mid * lo <= mid * f) by (apply Qmult_le_l; lra).
  assert (U : mid * f <= mid * hi) by (apply Qmult_le_l; lra).
  assert (Nl : (1 # 1606938044258990275541962092341162602522202993782792835301376)
               <= mid * lo) by nra.
  assert (Nu : (1 # 1606938044258990275541962092341162602522202993782792835301376)
               <= mid * hi) by nra.
  pose proof (fl_lower (mid * f) (mid * lo) L Nl) as B1.
  pose proof (fl_upper (mid * f) (mid * hi) U Nu) as B2.
  split; [split|split].
  - eapply Qle_trans; [|exact B1].
    setoid_replace (mid * lo * (1 - u)) with (lo * (1 - u) * mid) using relation Qeq
      by ring.
    apply Qmult_le_compat_r; lra.
  - eapply Qle_trans; [exact B2|].
    setoid_replace (mid * hi * (1 + u)) with (hi * (1 + u) * mid) using relation Qeq
      by ring.
    apply Qmult_le_compat_r; lra.
  - intros Hlt. specialize (Hneg Hlt).
    rewrite <- Hrep at 2. apply fl_mono. nra.
  - intros Hge. specialize (Hpos Hge).
    rewrite <- Hrep at 1. apply fl_mono. nra.
Qed.

(** The divisor [order_price / 100.0]. *)
Lemma divisor_bounds (op : Q) :
  1 # 256 <= op -> op <= 2097152 ->
  1 # 32768 <= fl (op / 100) <= 32768.
Proof.
  intros H1 H2. change (op / 100) with (op * (1 # 100)). split.
  - apply fl_ge; [vm_compute; reflexivity|lra].
  - apply fl_le; [vm_compute; reflexivity|lra].
Qed.

Lemma raw_size_sign (balance volume op : Q) :
  1 # 1000 <= balance -> 1 # 256 <= op -> op <= 2097152 ->
  (volume <= 0 -> raw_size balance volume op <= 0) /\
  (u <= volume ->
   (1 # 4835703278458516698824704) <= raw_size balance volume op).
Proof.
  intros Hb Ho1 Ho2. unfold raw_size. cbv zeta.
  destruct (divisor_bounds op Ho1 Ho2) as [Hd1 Hd2].
  set (dp := fl (op / 100)) in *.
  assert (Hc : 1 # 1024 <= fl (1 # 1000)) by (vm_compute; discriminate).
  assert (Hm1 : 1 # 1048576 <= fl (balance * fl (1 # 1000))).
  { apply fl_ge; [vm_compute; reflexivity|].
    revert Hc. generalize (fl (1 # 1000)). intros c Hc. nra. }
  set (m1 := fl (balance * fl (1 # 1000))) in *.
  unfold LEVERAGE. split; intros Hv.
  - assert (H1 : fl (m1 * volume) <= 0) by (apply fl_nonpos; nra).
    assert (H2 : fl (100 * fl (m1 * volume)) <= 0) by (apply fl_nonpos; lra).
    apply fl_nonpos. apply Qle_shift_div_r; lra.
  - unfold u in Hv.
    assert (H1 : 1 # 9444732965739290427392 <= fl (m1 * volume)).
    { apply fl_ge; [vm_compute; reflexivity|]. nra. }
    assert (H2 : 1 # 147573952589676412928 <= fl (100 * fl (m1 * volume))).
    { apply fl_ge; [vm_compute; reflexivity|]. lra. }
    apply fl_ge; [vm_compute; reflexivity|].
    apply Qle_shift_div_l; [lra|].
    revert H2 Hd1 Hd2. generalize (fl (100 * fl (m1 * volume))) dp. intros a b. nra.
Qed.

(** Rounding up to tenths. *)
Lemma tenths (raw : Q) :
  (1 # 4835703278458516698824704) <= raw ->
  let k := Qceiling (fl (raw * 10)) in
  let size := fl (ceil (fl (raw * 10)) / 10) in
  (1 <= k)%Z /\ size == fl (inject_Z k / 10) /\ MIN_CONTRACT_SIZE <= size /\
  raw * (1 - (1 # 1000000000000000)) <= size
  <= (raw + (1 # 10)) * (1 + (1 # 1000000000000000)).
Proof.
  intros Hr k size. subst k size. unfold ceil.
  assert (Ht : raw * 10 * (1 - u) <= fl (raw * 10) <= raw * 10 * (1 + u)).
  { apply fl_error. pose proof least_normal_small. lra. }
  set (t := fl (raw * 10)) in *.
  pose proof (Qle_ceiling t) as Hk1. pose proof (Qceiling_lt t) as Hk2.
  set (k := Qceiling t) in *.
  unfold Z.sub in Hk2. rewrite inject_Z_plus in Hk2.
  change (inject_Z (- (1))) with (- (1)) in Hk2.
  assert (Ht0 : 0 < t) by (unfold u in Ht; lra).
  assert (Hk : (1 <= k)%Z).
  { assert (H : inject_Z 0 < inject_Z k) by (change (inject_Z 0) with 0; lra).
    rewrite <- Zlt_Qlt in H. lia. }
  assert (Hk' : 1 <= inject_Z k).
  { change 1 with (inject_Z 1). rewrite <- Zle_Qle. exact Hk. }
  change (inject_Z k / 10) with (inject_Z k * (1 # 10)).
  assert (Hs : inject_Z k * (1 # 10) * (1 - u) <= fl (inject_Z k * (1 # 10))
               <= inject_Z k * (1 # 10) * (1 + u)).
  { apply fl_error. pose proof least_normal_small. lra. }
  split; [exact Hk|]. split; [reflexivity|]. split.
  - unfold MIN_CONTRACT_SIZE. apply fl_mono. lra.
  - revert Hs. generalize (fl (inject_Z k * (1 # 10))). intros s Hs.
    unfold u in *. split; lra.
Qed.

(** X8.  [processAction] on binary64 arguments: a balance of at least
    0.001, a price offset in [[-1, 1]], a volume of at most 1024 and a mid
    price between 0.01 and 1,000,000.  No order is requested when the
    volume is zero or negative.  For a volume of at least [2^-53] (no
    smaller positive volume comes off the wire) exactly one order is
    requested, for the given state id: a buy priced at or below the mid
    price when the price offset is negative and a sell priced at or above
    it otherwise, in either case within 0.1 % of the mid price up to a
    rounding error of one part in [10^15]; its size is a whole number of
    tenths, at least one, as a binary64 value, hence no smaller than the
    minimum contract size, and it is the computed size rounded up to the
    next tenth: not below the computed size and less than 0.1 above it,
    again up to one part in [10^15]. *)
Theorem oms_order_request (balance price volume mid_price : Q)
    (action_type state_id : Z) :
  1 # 1000 <= balance <= 1000000000000 ->
  -1 <= price <= 1 ->
  volume <= 1024 ->
  1 # 100 <= mid_price <= 1000000 ->
  fl mid_price == mid_price ->
  let request := processAction balance action_type price volume mid_price state_id in
  let raw := raw_size balance volume (price_of price mid_price) in
  (volume <= 0 -> request = None) /\
  ((1 # 9007199254740992) <= volume ->
   exists o, request = Some o /\
     order_state_id o = state_id /\
     order_side o = (if Qltb price 0 then "buy" else "sell")%string /\
     ord_type o = (if (action_type =? 0)%Z then "limit" else "market")%string /\
     original_volume o = volume /\ original_price o = price /\
     ((999 # 1000) * (1 - (1 # 1000000000000000)) * mid_price <= order_price o
      <= (1001 # 1000) * (1 + (1 # 1000000000000000)) * mid_price) /\
     (price < 0 -> order_price o <= mid_price) /\
     (0 <= price -> mid_price <= order_price o) /\
     (exists tenths : Z,
        (1 <= tenths)%Z /\ order_size o == fl (inject_Z tenths / 10)) /\
     MIN_CONTRACT_SIZE <= order_size o /\
     raw * (1 - (1 # 1000000000000000)) <= order_size o
     <= (raw + (1 # 10)) * (1 + (1 # 1000000000000000))).
Proof.
  intros Hb Hp Hv Hm Hrep request raw. subst request raw.
  destruct (order_price_bounds price mid_price Hp (proj1 Hm) Hrep)
    as ([Ho1 Ho2] & Hneg & Hpos).
  set (op := price_of price mid_price) in *.
  assert (Hop1 : 1 # 256 <= op) by lra.
  assert (Hop2 : op <= 2097152) by lra.
  destruct (raw_size_sign balance volume op (proj1 Hb) Hop1 Hop2) as [Hs0 Hs1].
  unfold processAction. cbv zeta. fold op.
  set (raw := raw_size balance volume op) in *.
  split.
  - intros Hv0. specialize (Hs0 Hv0).
    assert (Ht : fl (raw * 10) <= 0) by (apply fl_nonpos; lra).
    assert (Hk : ceil (fl (raw * 10)) <= 0).
    { unfold ceil. change 0 with (inject_Z 0). rewrite <- Zle_Qle.
      change 0%Z with (Qceiling 0). apply Qceiling_resp_le, Ht. }
    assert (Hsz : fl (ceil (fl (raw * 10)) / 10) <= 0).
    { apply fl_nonpos. change (?x / 10) with (x * (1 # 10)). lra. }
    assert (Hmin : 0 < MIN_CONTRACT_SIZE) by (vm_compute; reflexivity).
    rewrite (proj2 (Qltb_true (fl (ceil (fl (raw * 10)) / 10)) MIN_CONTRACT_SIZE))
      by lra.
    reflexivity.
  - intros Hv1. specialize (Hs1 Hv1).
    destruct (tenths raw Hs1) as (Hk & Hsz & Hmin & Hround).
    cbv zeta in Hk, Hsz, Hmin, Hround.
    rewrite (proj2 (Qltb_false (fl (ceil (fl (raw * 10)) / 10)) MIN_CONTRACT_SIZE)
               Hmin).
    eexists. split; [reflexivity|].
    cbn [order_state_id order_side ord_type original_volume original_price
         order_price order_size].
    do 5 (split; [reflexivity|]).
    split; [split; assumption|]. split; [exact Hneg|]. split; [exact Hpos|].
    split; [eexists; split; [exact Hk|exact Hsz]|].
    split; [exact Hmin|exact Hround].
Qed.

(** X8 on a balance of 2300, no price offset, the full volume and a mid
    price of 10000: the computed size is 2.3000000000000003 and 24 tenths
    are ordered. *)
Lemma oms_order_request_witness :
  exists o, processAction 2300 0 0 1 10000 42 = Some o /\
    order_state_id o = 42%Z /\ order_side o = "sell"%string /\
    10000 <= order_price o /\
    MIN_CONTRACT_SIZE <= order_size o /\
    order_size o == fl (24 # 10).
Proof.
  assert (Hb : 1 # 1000 <= 2300 <= 1000000000000) by (split; discriminate).
  assert (Hp : -1 <= 0 <= 1) by (split; discriminate).
  assert (Hv : 1 <= 1024) by discriminate.
  assert (Hm : 1 # 100 <= 10000 <= 1000000) by (split; discriminate).
  assert (Hrep : fl 10000 == 10000) by (vm_compute; reflexivity).
  destruct (oms_order_request 2300 0 1 10000 0 42 Hb Hp Hv Hm Hrep) as [_ H].
  destruct (H ltac:(discriminate))
    as (o & Ho & Hid & Hside & _ & _ & _ & _ & _ & Hpos & _ & Hmin & _).
  exists o. split; [exact Ho|]. split; [exact Hid|]. split; [exact Hside|].
  split; [apply Hpos; discriminate|]. split; [exact Hmin|].
  vm_compute in Ho. injection Ho as <-. vm_compute. reflexivity.
Defined.

End OrderRequest.

(** ** The relay: when it decides and what it remembers *)

Section RelayWindows.
Import PPOHandler Pipeline.
Local Open Scope nat_scope.

Lemma back_snoc (buffer : list OrderBookState) (state : OrderBookState) :
  back (buffer ++ [state]) = state.
Proof. unfold back. apply List.last_last. Qed.

(** One frame: the history, the actions and the decisions afterwards. *)
Lemma handleMessage_effect (i : Input) (s : PPO) :
  let decides := (NETWORK_INPUT_SIZE - 1 <=? length (state_buffer_ s)) && triggers i in
  state_buffer_ (handleMessage i s) =
    (if HISTORY_BUFFER_SIZE <=? length (state_buffer_ s)
     then tl (state_buffer_ s) else state_buffer_ s) ++ [decoded_state i] /\
  (if decides then
     exists d, decisions (handleMessage i s) = decisions s ++ [d] /\
       decision_state_id d = frame_state_id i /\
       wire d = binary_utils.encodeOmsActionV2 0 (price_offset d) (volume_fraction d)
                  (mid_price (decoded_state i)) (frame_state_id i) /\
       action_buffer_ (handleMessage i s) =
         (if ACTION_BUFFER_SIZE <=? length (action_buffer_ s)
          then tl (action_buffer_ s) else action_buffer_ s) ++ [action_of d]
   else decisions (handleMessage i s) = decisions s /\
        action_buffer_ (handleMessage i s) = action_buffer_ s).
Proof.
  intros decides. unfold handleMessage. cbv zeta.
  fold (decoded_state i).
  set (buffer := (if HISTORY_BUFFER_SIZE <=? length (state_buffer_ s)
                  then tl (state_buffer_ s) else state_buffer_ s) ++ [decoded_state i]).
  assert (Hback : back buffer = decoded_state i) by apply back_snoc.
  cbn [state_buffer_]. rewrite Hback.
  assert (Hlen : (NETWORK_INPUT_SIZE <=? length buffer)
                 = (NETWORK_INPUT_SIZE - 1 <=? length (state_buffer_ s))).
  { unfold buffer. rewrite length_app. cbn [length].
    unfold NETWORK_INPUT_SIZE, HISTORY_BUFFER_SIZE.
    destruct (Nat.leb_spec 1000 (length (state_buffer_ s))) as [H|H].
    - destruct (state_buffer_ s) as [|x l]; cbn [length tl] in *; [lia|].
      destruct (Nat.leb_spec 80 (length l + 1)), (Nat.leb_spec (80 - 1) (S (length l)));
        try reflexivity; lia.
    - destruct (Nat.leb_spec 80 (length (state_buffer_ s) + 1)),
               (Nat.leb_spec (80 - 1) (length (state_buffer_ s)));
        try reflexivity; lia. }
  rewrite Hlen. cbn [state_id decoded_state]. fold (triggers i). fold decides.
  destruct decides.
  - cbn [forwardPass publishAction state_buffer_ decisions action_buffer_].
    rewrite Hback.
    split; [reflexivity|]. eexists. split; [reflexivity|].
    cbn [decision_state_id wire price_offset volume_fraction state_id decoded_state
         mid_price].
    split; [reflexivity|]. split; reflexivity.
  - cbn [state_buffer_ decisions action_buffer_]. split; [reflexivity|].
    split; reflexivity.
Qed.

Lemma handleMessage_buffer_length (i : Input) (s : PPO) :
  length (state_buffer_ (handleMessage i s)) =
  if HISTORY_BUFFER_SIZE <=? length (state_buffer_ s)
  then length (state_buffer_ s) else S (length (state_buffer_ s)).
Proof.
  rewrite (proj1 (handleMessage_effect i s)), length_app. cbn [length].
  unfold HISTORY_BUFFER_SIZE.
  destruct (Nat.leb_spec 1000 (length (state_buffer_ s))) as [H|H]; [|lia].
  destruct (state_buffer_ s); cbn [length tl] in *; lia.
Qed.

Lemma run_decisions (inputs : list Input) (s : PPO) :
  map decision_state_id (decisions (run inputs s)) =
  map decision_state_id (decisions s)
  ++ map frame_state_id
       (List.filter triggers
          (drop (NETWORK_INPUT_SIZE - 1 - length (state_buffer_ s)) inputs)).
Proof.
  unfold run. revert s. induction inputs as [|i inputs IH]; intros s.
  - cbn [fold_left]. rewrite drop_nil. cbn [List.filter map]. rewrite app_nil_r.
    reflexivity.
  - cbn [fold_left]. rewrite IH. rewrite handleMessage_buffer_length.
    destruct (handleMessage_effect i s) as [_ Hd].
    unfold NETWORK_INPUT_SIZE, HISTORY_BUFFER_SIZE in *.
    destruct (Nat.leb_spec (80 - 1) (length (state_buffer_ s))) as [Hb|Hb];
      cbn [andb] in Hd.
    + replace (80 - 1 - length (state_buffer_ s)) with 0 by lia.
      replace (80 - 1 - (if 1000 <=? length (state_buffer_ s)
                         then length (state_buffer_ s)
                         else S (length (state_buffer_ s)))) with 0
        by (destruct (1000 <=? length (state_buffer_ s)); lia).
      rewrite !drop_0. cbn [List.filter].
      destruct (triggers i).
      * destruct Hd as (d & -> & Hid & _).
        rewrite map_app, <- app_assoc. cbn [map app]. rewrite Hid. reflexivity.
      * destruct Hd as [-> _]. reflexivity.
    + destruct Hd as [-> _].
      replace (1000 <=? length (state_buffer_ s)) with false
        by (symmetry; apply Nat.leb_gt; lia).
      replace (80 - 1 - length (state_buffer_ s))
        with (S (80 - 1 - S (length (state_buffer_ s)))) by lia.
      reflexivity.
Qed.

(** X9.  The relay decides exactly once for every frame that arrives 80th
    or later and carries an even state id, in order of arrival, and for
    that frame's state id; it decides for no other frame, however many
    arrive. *)
Theorem decisions_at_even_frames (inputs : list Input) :
  map decision_state_id (decisions (run inputs initial)) =
  map frame_state_id (List.filter triggers (drop 79 inputs)).
Proof. rewrite run_decisions. reflexivity. Qed.

Lemma run_snoc (inputs : list Input) (i : Input) (s : PPO) :
  run (inputs ++ [i]) s = handleMessage i (run inputs s).
Proof. unfold run. rewrite fold_left_app. reflexivity. Qed.

(** Appending to the last [n] elements, after dropping the oldest when
    there are [n] already, gives the last [n] of the longer list. *)
Lemma window_snoc {A B : Type} (f : A -> B) (n : nat) (l : list A) (x : A) :
  0 < n ->
  (if n <=? length (map f (drop (length l - n) l))
   then tl (map f (drop (length l - n) l))
   else map f (drop (length l - n) l)) ++ [f x]
  = map f (drop (length (l ++ [x]) - n) (l ++ [x])).
Proof.
  intros Hn. rewrite length_map, length_drop, length_app. cbn [length].
  destruct (Nat.leb_spec n (length l - (length l - n))) as [H|H].
  - assert (Hl : n <= length l) by lia.
    replace (length l + 1 - n) with (length l - n + 1) by lia.
    rewrite drop_app_le by lia. rewrite map_app. cbn [map]. f_equal.
    rewrite <- drop_drop.
    destruct (drop (length l - n) l); reflexivity.
  - replace (length l - n) with 0 by lia.
    replace (length l + 1 - n) with 0 by lia.
    rewrite !drop_0, map_app. reflexivity.
Qed.

Lemma run_windows (inputs : list Input) :
  let s := run inputs initial in
  state_buffer_ s =
    map decoded_state (drop (length inputs - HISTORY_BUFFER_SIZE) inputs) /\
  action_buffer_ s =
    map action_of (drop (length (decisions s) - ACTION_BUFFER_SIZE) (decisions s)).
Proof.
  induction inputs as [|i inputs IH] using rev_ind; [split; reflexivity|].
  cbv zeta in *. rewrite run_snoc. destruct IH as [IHs IHa].
  destruct (handleMessage_effect i (run inputs initial)) as [Hs Hd].
  split.
  - rewrite Hs, IHs. apply window_snoc. unfold HISTORY_BUFFER_SIZE. lia.
  - destruct (_ && _).
    + destruct Hd as (d & -> & _ & _ & ->). rewrite IHa.
      apply window_snoc. unfold ACTION_BUFFER_SIZE. lia.
    + destruct Hd as [-> ->]. exact IHa.
Qed.

(** X10.  After any number of frames the history holds the latest 1000 of
    them (all of them while fewer have arrived), oldest first, each as its
    state id and its mid price in currency units; and the action buffer
    holds the latest 1000 decisions in the same way.  Neither ever holds
    more than 1000 entries. *)
Theorem relay_buffers_are_windows (inputs : list Input) :
  let s := run inputs initial in
  state_buffer_ s = map decoded_state (drop (length inputs - 1000) inputs) /\
  action_buffer_ s =
    map action_of (drop (length (decisions s) - 1000) (decisions s)) /\
  length (state_buffer_ s) = Nat.min (length inputs) 1000 /\
  length (action_buffer_ s) = Nat.min (length (decisions s)) 1000.
Proof.
  intros s. destruct (run_windows inputs) as [Hs Ha]. fold s in Hs, Ha.
  split; [exact Hs|]. split; [exact Ha|].
  rewrite Hs, Ha, !length_map, !length_drop. unfold HISTORY_BUFFER_SIZE, ACTION_BUFFER_SIZE.
  split; lia.
Qed.

End RelayWindows.

(** ** The relay: execution updates *)

Section ExecutionUpdates.
Import PPOHandler PPOExecution.
Local Open Scope nat_scope.

Lemma state_sequence_lookup (state_id : Z) (i : nat) :
  i < 80 ->
  state_sequence state_id !! i
  = Some ((start_state_id state_id + Z.of_nat i) mod 65535)%Z.
Proof.
  intros Hi. unfold state_sequence, NETWORK_INPUT_SIZE, UINT16_MAX.
  change (map ?f ?l) with (f <$> l).
  rewrite list_lookup_fmap, lookup_seq_lt by exact Hi. reflexivity.
Qed.

Lemma state_sequence_length (state_id : Z) : length (state_sequence state_id) = 80.
Proof. unfold state_sequence. rewrite length_map, length_seq. reflexivity. Qed.

Lemma state_sequence_range (state_id : Z) :
  Forall (fun id => (0 <= id < UINT16_MAX)%Z) (state_sequence state_id).
Proof.
  unfold state_sequence. apply Forall_map, Forall_forall. intros i _.
  apply Z.mod_pos_bound. reflexivity.
Qed.

(** X11.  The 80 state ids recorded for an order reported at [state_id]:
    from 79 up to 65534 they are the 80 consecutive ids that end at
    [state_id]; below 79 the window wraps, but because entries are taken
    modulo 65535 it steps from 65534 straight to 0 and so reaches one id
    further back than 80 frames; at 65535 it ends in 0 instead of 65535.
    The id 65535 is never recorded. *)
Theorem state_sequence_window (state_id : Z) :
  (0 <= state_id <= 65535)%Z ->
  length (state_sequence state_id) = 80 /\
  Forall (fun id => (0 <= id < 65535)%Z) (state_sequence state_id) /\
  ((79 <= state_id < 65535)%Z ->
   state_sequence state_id = seqZ (state_id - 79) 80) /\
  ((state_id < 79)%Z ->
   state_sequence state_id
   = seqZ (65456 + state_id) (79 - state_id) ++ seqZ 0 (state_id + 1)) /\
  (state_id = 65535%Z -> state_sequence state_id = seqZ 65456 79 ++ [0%Z]).
Proof.
  intros Hs. split; [apply state_sequence_length|].
  split; [apply state_sequence_range|].
  assert (Hstart : start_state_id state_id
                   = if (80 <=? state_id)%Z then (state_id - 79)%Z
                     else (65456 + state_id)%Z).
  { unfold start_state_id, NETWORK_INPUT_SIZE, UINT16_MAX.
    change (Z.of_nat 80) with 80%Z.
    destruct (Z.leb_spec 80 state_id); rewrite Z.mod_small; lia. }
  split; [|split].
  - intros H. apply list_eq. intros i.
    destruct (Nat.lt_ge_cases i 80) as [Hi|Hi].
    + rewrite state_sequence_lookup by exact Hi.
      rewrite lookup_seqZ_lt by lia. f_equal. rewrite Hstart.
      destruct (Z.leb_spec 80 state_id) as [H80|H80].
      * apply Z.mod_small. lia.
      * assert (state_id = 79%Z) as -> by lia.
        replace (65456 + 79 + Z.of_nat i)%Z with (Z.of_nat i + 1 * 65535)%Z by lia.
        rewrite Z.mod_add by lia. apply Z.mod_small. lia.
    + rewrite lookup_ge_None_2 by (rewrite state_sequence_length; exact Hi).
      symmetry. apply lookup_seqZ_ge. lia.
  - intros H. apply list_eq. intros i.
    replace (80 <=? state_id)%Z with false in Hstart
      by (symmetry; apply Z.leb_gt; lia).
    destruct (Nat.lt_ge_cases i 80) as [Hi|Hi].
    + rewrite state_sequence_lookup by exact Hi. rewrite Hstart.
      destruct (Z.lt_ge_cases (Z.of_nat i) (79 - state_id)) as [Hlow|Hhigh].
      * rewrite lookup_app_l by (rewrite length_seqZ; lia).
        rewrite lookup_seqZ_lt by lia. f_equal. apply Z.mod_small. lia.
      * rewrite lookup_app_r by (rewrite length_seqZ; lia).
        rewrite length_seqZ. rewrite lookup_seqZ_lt by lia. f_equal.
        replace (65456 + state_id + Z.of_nat i)%Z
          with (Z.of_nat i - (79 - state_id) + 1 * 65535)%Z by lia.
        rewrite Z.mod_add by lia. rewrite Z.mod_small by lia. lia.
    + rewrite lookup_ge_None_2 by (rewrite state_sequence_length; exact Hi).
      symmetry. apply lookup_ge_None_2.
      rewrite length_app, !length_seqZ. lia.
  - intros ->. vm_compute. reflexivity.
Qed.

(** X11 at the ids 78 and 65535. *)
Lemma state_sequence_window_witness :
  state_sequence 78 = seqZ 65534 1 ++ seqZ 0 79 /\
  state_sequence 65535 = seqZ 65456 79 ++ [0%Z].
Proof.
  assert (H78 : (0 <= 78 <= 65535)%Z) by lia.
  assert (Hmax : (0 <= 65535 <= 65535)%Z) by lia.
  split.
  - refine (proj1 (proj2 (proj2 (proj2 (state_sequence_window 78 H78)))) _). lia.
  - exact (proj2 (proj2 (proj2 (proj2 (state_sequence_window 65535 Hmax)))) eq_refl).
Defined.

Lemma set_coefficient_shape (id : string) (c : Q) (os : list OrderInfo) :
  shape (set_coefficient id c os) = shape os.
Proof.
  induction os as [|o os IH]; [reflexivity|]. cbn [set_coefficient].
  destruct (has_id id o); [reflexivity|]. unfold shape in *. cbn [map]. rewrite IH.
  reflexivity.
Qed.

Lemma assign_items_shape (items : list (string * option Q)) (os : list OrderInfo) :
  shape (fst (assign_items items os)) = shape os.
Proof.
  revert os. induction items as [|[id value] items IH]; intros os; [reflexivity|].
  cbn [assign_items]. destruct (existsb (has_id id) os); [|apply IH].
  destruct value as [c|]; [|reflexivity].
  rewrite IH. apply set_coefficient_shape.
Qed.

Lemma assign_portions_shape (portions : list (list (string * option Q)))
    (os : list OrderInfo) :
  shape (fst (assign_portions portions os)) = shape os.
Proof.
  revert os. induction portions as [|p portions IH]; intros os; [reflexivity|].
  cbn [assign_portions]. pose proof (assign_items_shape p os) as Hp.
  destruct (assign_items p os) as [os' thrown]. cbn [fst] in Hp.
  destruct thrown; [exact Hp|]. rewrite IH. exact Hp.
Qed.

Lemma orders_ok_shape (os os' : list OrderInfo) :
  shape os' = shape os -> orders_ok os -> orders_ok os'.
Proof.
  intros E [Hn Hf]. split.
  - replace (map okx_id os') with (map (fun x => fst (fst x)) (shape os'))
      by (unfold shape; rewrite map_map; reflexivity).
    rewrite E. unfold shape. rewrite map_map. exact Hn.
  - assert (Hs : Forall (fun x : string * list Z * option ActionInfo =>
                           length (snd (fst x)) = NETWORK_INPUT_SIZE /\
                           Forall (fun id => (0 <= id < UINT16_MAX)%Z) (snd (fst x)))
                        (shape os')).
    { rewrite E. unfold shape. apply Forall_map. exact Hf. }
    unfold shape in Hs. apply Forall_map in Hs. exact Hs.
Qed.

Lemma updateNetworks_ok (trade : TradeInfo) (buffer : list TradeInfo) :
  orders trade <> [] ->
  length buffer <= MAX_TRAINING_BUFFER_SIZE ->
  Forall (fun trade => orders trade <> []) buffer ->
  length (updateNetworks trade buffer) <= MAX_TRAINING_BUFFER_SIZE /\
  Forall (fun trade => orders trade <> []) (updateNetworks trade buffer) /\
  last (updateNetworks trade buffer) = Some trade.
Proof.
  intros Ht Hl Hf. unfold updateNetworks, MAX_TRAINING_BUFFER_SIZE in *. cbv zeta.
  assert (Hall : Forall (fun trade => orders trade <> []) (buffer ++ [trade])).
  { apply Forall_app. split; [exact Hf|]. constructor; [exact Ht|constructor]. }
  rewrite length_app. cbn [length].
  destruct (Nat.ltb_spec 100 (length buffer + 1)) as [H|H].
  - destruct buffer as [|x buffer]; cbn [length] in *; [lia|].
    cbn [app tl]. split; [rewrite length_app; cbn [length]; lia|].
    split; [apply Forall_cons in Hall as [_ Hall]; exact Hall|].
    apply last_snoc.
  - split; [rewrite length_app; cbn [length]; lia|].
    split; [exact Hall|]. apply last_snoc.
Qed.

Lemma learner_inv_step (action_buffer : list ActionInfo) (json : ExecutionUpdate)
    (l : Learner) :
  learner_inv l -> learner_inv (handleExecutionUpdate action_buffer json l).
Proof.
  intros (Hn & Hf & Hl & Ht).
  assert (Hok : orders_ok (orders (current_trade_ l))) by (split; assumption).
  assert (Hwith : forall os, shape os = shape (orders (current_trade_ l)) ->
                             learner_inv (with_orders os l)).
  { intros os E. destruct (orders_ok_shape _ _ E Hok) as [H1 H2].
    repeat split; assumption. }
  unfold handleExecutionUpdate.
  destruct (is_trade_closed json) as [| |[|]]; try (repeat split; assumption).
  - (* closure *)
    set (result := match filled_portions json with
                   | Some (portion :: rest) =>
                       assign_portions (portion :: rest) (orders (current_trade_ l))
                   | _ => (orders (current_trade_ l), false)
                   end).
    assert (Hshape : shape (fst result) = shape (orders (current_trade_ l))).
    { unfold result. destruct (filled_portions json) as [[|p ps]|]; try reflexivity.
      apply assign_portions_shape. }
    assert (Hgo : learner_inv
              (let '(os, thrown) := result in
               if thrown then with_orders os l
               else
                 match reward_ json with
                 | Mistyped => with_orders os l
                 | r =>
                     {| current_trade_ := TradeInfo_;
                        training_buffer_ :=
                          match os with
                          | [] => training_buffer_ l
                          | _ =>
                              updateNetworks
                                {| reward := match r with
                                             | Present x => x
                                             | _ => reward (current_trade_ l)
                                             end;
                                   orders := os |} (training_buffer_ l)
                          end |}
                 end)).
    { destruct result as [os thrown]. cbn [fst] in Hshape.
      destruct thrown; [apply Hwith, Hshape|].
      assert (Hreset : forall r : Q,
        learner_inv
          {| current_trade_ := TradeInfo_;
             training_buffer_ :=
               match os with
               | [] => training_buffer_ l
               | _ => updateNetworks {| reward := r; orders := os |} (training_buffer_ l)
               end |}).
      { intros r. split; [constructor|]. split; [constructor|].
        cbn [training_buffer_]. destruct os as [|o os']; [split; assumption|].
        destruct (updateNetworks_ok {| reward := r; orders := o :: os' |}
                    (training_buffer_ l)) as (H1 & H2 & _);
          [discriminate|exact Hl|exact Ht|].
        split; assumption. }
      destruct (reward_ json); [apply Hreset|apply Hwith, Hshape|apply Hreset]. }
    destruct (orders (current_trade_ l)) as [|o os] eqn:Eo;
      destruct (filled_portions json) as [ps|] eqn:Ep;
      try exact Hgo.
    repeat split; try assumption; rewrite Eo; assumption.
  - (* a single execution *)
    destruct (state_id_ json) as [| |state_id]; try (repeat split; assumption).
    destruct (okx_id_ json) as [| |id]; try (repeat split; assumption).
    destruct (existsb (has_id id) (orders (current_trade_ l))) eqn:Ex;
      [repeat split; assumption|].
    split; [|split; [|split; assumption]]; cbn [with_orders current_trade_ orders].
    + rewrite map_app. cbn [map new_order okx_id].
      apply NoDup_app. split; [exact Hn|]. split; [|apply NoDup_singleton].
      intros x Hx Hx'. apply list_elem_of_singleton in Hx'. subst x.
      apply list_elem_of_fmap in Hx as (o & Ho & Hin).
      assert (Hex : existsb (has_id id) (orders (current_trade_ l)) = true).
      { apply existsb_exists. exists o. split; [apply list_elem_of_In, Hin|].
        unfold has_id. rewrite <- Ho. apply String.eqb_refl. }
      congruence.
    + apply Forall_app. split; [exact Hf|]. constructor; [|constructor].
      cbn [new_order state_ids]. split;
        [apply state_sequence_length|apply state_sequence_range].
Qed.

Lemma learner_inv_run (updates : list (list ActionInfo * ExecutionUpdate))
    (l : Learner) :
  learner_inv l -> learner_inv (run_updates updates l).
Proof.
  unfold run_updates. revert l.
  induction updates as [|[action_buffer json] updates IH]; intros l H; [exact H|].
  cbn [fold_left]. apply IH, learner_inv_step, H.
Qed.

(** X12.  Whatever execution updates arrive, in whatever order and with
    whatever members missing or mistyped: the orders of the relay's current
    trade have pairwise different OKX ids, each carries exactly 80 state
    ids, none of them 65535, and the training buffer holds at most 100
    trades, none of them without an order. *)
Theorem execution_updates_keep_trade_well_formed
    (r : Q) (updates : list (list ActionInfo * ExecutionUpdate)) :
  let l := run_updates updates (fresh r) in
  NoDup (map okx_id (orders (current_trade_ l))) /\
  Forall (fun order =>
            length (state_ids order) = 80 /\
            Forall (fun id => (0 <= id < 65535)%Z) (state_ids order))
         (orders (current_trade_ l)) /\
  length (training_buffer_ l) <= 100 /\
  Forall (fun trade => orders trade <> []) (training_buffer_ l).
Proof.
  intros l. apply (learner_inv_run updates (fresh r)).
  split; [constructor|]. split; [constructor|]. split; [cbn; lia|constructor].
Qed.

(** *** A closure report *)

Lemma assign_okx_id (item : string * Q) (order : OrderInfo) :
  okx_id (assign item order) = okx_id order.
Proof. unfold assign. destruct (has_id _ _); reflexivity. Qed.

Lemma set_coefficient_map (id : string) (c : Q) (os : list OrderInfo) :
  NoDup (map okx_id os) ->
  (if existsb (has_id id) os then set_coefficient id c os else os)
  = map (assign (id, c)) os.
Proof.
  assert (Hnone : forall l, existsb (has_id id) l = false -> map (assign (id, c)) l = l).
  { induction l as [|o l IH]; [reflexivity|]. cbn [existsb map]. intros H.
    apply orb_false_iff in H as [Ho Hl]. unfold assign at 1. cbn [fst].
    rewrite Ho, (IH Hl). reflexivity. }
  induction os as [|o os IH]; intros Hn; [reflexivity|].
  cbn [map] in Hn. apply NoDup_cons in Hn as [Ho Hn].
  cbn [existsb set_coefficient map]. unfold assign at 1. cbn [fst snd].
  destruct (has_id id o) eqn:E.
  - cbn [orb]. f_equal. symmetry. apply Hnone.
    destruct (existsb (has_id id) os) eqn:Ex; [|reflexivity].
    apply existsb_exists in Ex as (o' & Hin & Ho').
    exfalso. apply Ho. apply list_elem_of_fmap. exists o'.
    split; [|apply list_elem_of_In, Hin].
    unfold has_id in E, Ho'. apply String.eqb_eq in E, Ho'. congruence.
  - cbn [orb]. specialize (IH Hn).
    destruct (existsb (has_id id) os); [f_equal; exact IH|].
    f_equal. exact IH.
Qed.

Lemma assign_portions_fold (portions : list (string * Q)) (os : list OrderInfo) :
  NoDup (map okx_id os) ->
  assign_portions (map (fun '(id, pct) => [(id, Some pct)]) portions) os
  = (map (fun order => fold_left (fun order item => assign item order) portions order) os,
     false).
Proof.
  revert os. induction portions as [|[id c] portions IH]; intros os Hn.
  - cbn [map assign_portions fold_left]. rewrite map_id. reflexivity.
  - assert (Hn' : NoDup (map okx_id (map (assign (id, c)) os))).
    { rewrite map_map. erewrite map_ext; [exact Hn|]. intros o. apply assign_okx_id. }
    pose proof (set_coefficient_map id c os Hn) as Hs.
    cbn [map assign_portions assign_items fold_left].
    rewrite <- (map_map (assign (id, c))
                  (fun order => fold_left (fun order item => assign item order)
                                  portions order)).
    destruct (existsb (has_id id) os).
    + rewrite Hs. apply (IH _ Hn').
    + rewrite <- Hs. apply (IH _ Hn).
Qed.

Lemma fold_assign_okx_id (portions : list (string * Q)) (order : OrderInfo) :
  okx_id (fold_left (fun order item => assign item order) portions order) = okx_id order.
Proof.
  revert order. induction portions as [|p ps IH]; intros order; [reflexivity|].
  cbn [fold_left]. rewrite IH. apply assign_okx_id.
Qed.

Lemma fold_assign_after_report (portions : list (string * Q)) (order : OrderInfo) :
  fold_left (fun order item => assign item order) portions order
  = after_report portions order.
Proof.
  induction portions as [|[id c] ps IH] using rev_ind; [reflexivity|].
  rewrite fold_left_app. cbn [fold_left]. rewrite IH.
  unfold after_report, reported_value. rewrite List.filter_app, map_app.
  cbn [List.filter fst]. unfold assign. cbn [fst snd].
  assert (Hid : has_id id (match last (map snd (List.filter
                              (fun item => String.eqb (fst item) (okx_id order)) ps)) with
                           | Some c0 => with_coefficient c0 order
                           | None => order
                           end) = has_id id order).
  { destruct (last _); reflexivity. }
  rewrite Hid. unfold has_id. rewrite (String.eqb_sym id (okx_id order)).
  destruct (String.eqb (okx_id order) id).
  - cbn [map snd]. rewrite last_snoc.
    destruct (last _); reflexivity.
  - cbn [map]. rewrite app_nil_r. reflexivity.
Qed.

Lemma updateNetworks_last (trade : TradeInfo) (buffer : list TradeInfo) :
  last (updateNetworks trade buffer) = Some trade.
Proof.
  unfold updateNetworks. cbv zeta.
  destruct (MAX_TRAINING_BUFFER_SIZE <? length (buffer ++ [trade])) eqn:E;
    [|apply last_snoc].
  destruct buffer as [|x buffer]; [discriminate E|].
  cbn [app tl]. apply last_snoc.
Qed.

(** X13.  A closure report of the order manager, read by the relay while
    its trade has orders with pairwise different ids: the trade is filed in
    the training buffer as its newest entry, with the reward of the report
    (its own when the report has none) and with each order's coefficient
    set to the last value the report lists under that order's OKX id, the
    orders the report does not mention keeping theirs; and the relay's
    current trade is empty again. *)
Theorem closure_report_files_trade (action_buffer : list ActionInfo)
    (portions : list (string * Q)) (report_reward : option Q) (l : Learner) :
  NoDup (map okx_id (orders (current_trade_ l))) ->
  orders (current_trade_ l) <> [] ->
  let l' := handleExecutionUpdate action_buffer
              (of_report (TradeReport true portions report_reward)) l in
  current_trade_ l' = TradeInfo_ /\
  last (training_buffer_ l')
  = Some {| reward := match report_reward with
                      | Some x => x
                      | None => reward (current_trade_ l)
                      end;
            orders := map (after_report portions) (orders (current_trade_ l)) |}.
Proof.
  intros Hn Hne l'. subst l'. unfold handleExecutionUpdate.
  cbn [of_report is_trade_closed filled_portions reward_].
  destruct (orders (current_trade_ l)) as [|o os] eqn:Eo; [contradiction|].
  rewrite <- Eo in *.
  assert (Hres :
    match map (fun '(id, pct) => [(id, Some pct)]) portions with
    | portion :: rest => assign_portions (portion :: rest) (orders (current_trade_ l))
    | [] => (orders (current_trade_ l), false)
    end = (map (after_report portions) (orders (current_trade_ l)), false)).
  { pose proof (assign_portions_fold portions _ Hn) as H.
    rewrite (map_ext _ _ (fold_assign_after_report portions)) in H.
    destruct portions as [|p ps]; [|exact H].
    cbn [map]. f_equal. symmetry. etransitivity; [|apply map_id].
    apply map_ext. intros x. reflexivity. }
  rewrite Hres.
  assert (Hmap : map (after_report portions) (orders (current_trade_ l)) <> []).
  { rewrite Eo. discriminate. }
  destruct (map (after_report portions) (orders (current_trade_ l))) as [|o' os'] eqn:Em;
    [contradiction|].
  destruct report_reward as [x|]; cbn [current_trade_ training_buffer_];
    (split; [reflexivity|apply updateNetworks_last]).
Qed.

(** X13 on a trade of two orders of which the report mentions one, twice. *)
Lemma closure_report_files_trade_witness :
  let order id := {| state_ids := state_sequence 100; action := None;
                     okx_id := id; coefficient := 0 |} in
  let l := {| current_trade_ := {| reward := 0; orders := [order "A"; order "B"] |};
              training_buffer_ := [] |} in
  let portions := [("A"%string, 1 # 2); ("A"%string, 1%Q)] in
  last (training_buffer_
          (handleExecutionUpdate [] (of_report (TradeReport true portions (Some 3%Q))) l))
  = Some {| reward := 3;
            orders := map (after_report portions) (orders (current_trade_ l)) |} /\
  map coefficient (map (after_report portions) (orders (current_trade_ l)))
  = [1%Q; 0%Q].
Proof.
  intros order l portions.
  assert (Hn : NoDup (map okx_id (orders (current_trade_ l)))).
  { apply NoDup_ListNoDup. repeat constructor; cbn; intuition discriminate. }
  assert (Hne : orders (current_trade_ l) <> []) by discriminate.
  split; [|reflexivity].
  exact (proj2 (closure_report_files_trade [] portions (Some 3%Q) l Hn Hne)).
Defined.

End ExecutionUpdates.

(** ** The order manager: the buffer of order updates *)

Section UpdateBuffer.
Import OMS OrderUpdates.
Local Open Scope Z_scope.

#[local] Instance timestamp_le_transitive : Transitive timestamp_le.
Proof. intros a b c. unfold timestamp_le. lia. Qed.

#[local] Instance timestamp_le_total : Total timestamp_le.
Proof. intros a b. unfold timestamp_le. lia. Qed.

Lemma filter_split {A : Type} (f : A -> bool) (l : list A) :
  List.filter f l ++ List.filter (fun x => negb (f x)) l ≡ₚ l.
Proof.
  induction l as [|x l IH]; [reflexivity|]. cbn [List.filter].
  destruct (f x); cbn [negb app].
  - constructor. exact IH.
  - rewrite <- Permutation_middle. constructor. exact IH.
Qed.

Lemma filter_Forall {A : Type} (f : A -> bool) (l : list A) :
  Forall (fun x => f x = true) (List.filter f l).
Proof.
  apply Forall_forall. intros x Hx. apply list_elem_of_In, filter_In in Hx. tauto.
Qed.

(** One pass of the processor. *)
Lemma process_buffered_updates_spec (current_time : Z) (update_buffer : list Fill) :
  let '(out, rest) := process_buffered_updates current_time update_buffer in
  out ++ rest ≡ₚ update_buffer /\
  StronglySorted timestamp_le out /\
  Forall (fun update => BUFFER_WINDOW_MS < current_time - timestamp update) out /\
  Forall (fun update => current_time - timestamp update <= BUFFER_WINDOW_MS) rest.
Proof.
  unfold process_buffered_updates.
  destruct update_buffer as [|u l].
  { repeat split; constructor. }
  rewrite partition_as_filter. set (b := u :: l).
  split; [|split; [|split]].
  - unfold sort_by_timestamp. rewrite merge_sort_Permutation. apply filter_split.
  - apply StronglySorted_merge_sort; apply _.
  - unfold sort_by_timestamp.
    rewrite (merge_sort_Permutation timestamp_le).
    eapply Forall_impl; [apply filter_Forall|].
    intros x Hx. unfold expired in Hx. apply Z.ltb_lt in Hx. exact Hx.
  - eapply Forall_impl; [apply (filter_Forall (fun x => negb (expired current_time x)))|].
    intros x Hx. unfold expired in Hx. apply negb_true_iff, Z.ltb_ge in Hx. exact Hx.
Qed.

Lemma run_ops_conserves (ops : list Op) (b : Buffer) :
  calls (run_ops ops b) ++ update_buffer_ (run_ops ops b)
  ≡ₚ calls b ++ update_buffer_ b ++ added ops.
Proof.
  unfold run_ops. revert b. induction ops as [|op ops IH]; intros b.
  - cbn [fold_left added flat_map]. rewrite app_nil_r. reflexivity.
  - cbn [fold_left]. rewrite IH. destruct op as [update|current_time].
    + cbn [op_step calls update_buffer_ added flat_map].
      unfold add_to_buffer, sort_by_timestamp. rewrite merge_sort_Permutation.
      rewrite <- !app_assoc. reflexivity.
    + cbn [op_step added flat_map app].
      pose proof (process_buffered_updates_spec current_time (update_buffer_ b)) as H.
      destruct (process_buffered_updates current_time (update_buffer_ b)) as [out rest].
      destruct H as [H _]. cbn [calls update_buffer_].
      rewrite <- H, <- !app_assoc. reflexivity.
Qed.

(** X15.  The buffer of order updates, under any interleaving of arrivals
    and passes of the processor: no update is lost or duplicated (those
    handed to the fill callback together with those still buffered are
    exactly those that arrived); and one pass at time [t] hands over, in
    ascending timestamp order, exactly the buffered updates whose
    timestamp is more than 2000 ms behind [t], leaving the others. *)
Theorem buffered_updates_delivered_once (ops : list Op) :
  let b := run_ops ops {| update_buffer_ := []; calls := [] |} in
  calls b ++ update_buffer_ b ≡ₚ added ops /\
  forall (b0 : Buffer) (t : Z),
    let b1 := op_step b0 (Tick t) in
    exists out,
      calls b1 = calls b0 ++ out /\
      out ++ update_buffer_ b1 ≡ₚ update_buffer_ b0 /\
      StronglySorted timestamp_le out /\
      Forall (fun update => 2000 < t - fill_time update) out /\
      Forall (fun update => t - fill_time update <= 2000) (update_buffer_ b1).
Proof.
  intros b. split.
  - unfold b. rewrite run_ops_conserves. reflexivity.
  - intros b0 t b1. subst b1. cbn [op_step].
    pose proof (process_buffered_updates_spec t (update_buffer_ b0)) as H.
    destruct (process_buffered_updates t (update_buffer_ b0)) as [out rest].
    exists out. cbn [calls update_buffer_]. split; [reflexivity|exact H].
Qed.

End UpdateBuffer.

(** ** The order manager: the deque of orders and the registry of ids *)

Section Deque.
Import OMS OrderUpdates.
Local Open Scope Q_scope.

(** Publishing and trade accounting leave the deque and the registry
    alone. *)
Lemma deque_publishTradeUpdate2 state_id okx_id s :
  deque (publishTradeUpdate2 state_id okx_id s) = deque s.
Proof.
  unfold publishTradeUpdate2. case_bool_decide; [reflexivity|].
  destruct (negb _); reflexivity.
Qed.

Lemma deque_publishTradeUpdate3 state_id okx_id pct s :
  deque (publishTradeUpdate3 state_id okx_id pct s) = deque s.
Proof.
  unfold publishTradeUpdate3. case_bool_decide; [reflexivity|].
  destruct (Qleb pct 0); reflexivity.
Qed.

Lemma deque_publishTradeUpdate4 state_id okx_id closed portions s :
  deque (publishTradeUpdate4 state_id okx_id closed portions s) = deque s.
Proof. unfold publishTradeUpdate4. destruct (andb _ _); reflexivity. Qed.

Lemma deque_with_next_trade_ tr flag s : deque (with_next_trade_ tr flag s) = deque s.
Proof. reflexivity. Qed.

Lemma deque_with_current_trade_ tr s : deque (with_current_trade_ tr s) = deque s.
Proof. reflexivity. Qed.

Lemma deque_push_order order s : deque (push_order order s) = deque s.
Proof. reflexivity. Qed.

Lemma deque_dual_purpose_order fill state_id iv ip fill_delta previous_size s :
  deque (dual_purpose_order fill state_id iv ip fill_delta previous_size s) = deque s.
Proof.
  unfold dual_purpose_order. cbv zeta.
  destruct (Qgeb _ MIN_PORTION);
    repeat first [rewrite deque_publishTradeUpdate3
                 |rewrite deque_with_next_trade_
                 |rewrite deque_push_order];
    reflexivity.
Qed.

Lemma deque_closure_path fill state_id iv ip fill_delta previous_size s :
  deque (closure_path fill state_id iv ip fill_delta previous_size s) = deque s.
Proof.
  unfold closure_path. cbv zeta.
  set (s1 := if in_trade fill (current_trade_ s) then s else _).
  assert (H1 : deque s1 = deque s).
  { subst s1. destruct (in_trade fill (current_trade_ s));
      [reflexivity|apply deque_dual_purpose_order]. }
  rewrite <- H1.
  destruct (has_next_trade_ _);
    (etransitivity; [|apply (deque_publishTradeUpdate4 state_id (okx_order_id fill) true
                               (prepare_filled_portions (current_trade_ s1)))]);
    reflexivity.
Qed.

Lemma deque_open_trade fill state_id iv ip s :
  deque (open_trade fill state_id iv ip s) = deque s.
Proof.
  unfold open_trade. cbv zeta. destruct (andb _ _); [|reflexivity].
  rewrite deque_publishTradeUpdate2. reflexivity.
Qed.

Lemma deque_same_direction fill state_id iv ip s :
  deque (fst (same_direction fill state_id iv ip s)) = deque s.
Proof.
  unfold same_direction. cbv zeta.
  destruct (Qltb (Qabs (Trade.size _)) EPSILON); cbn [fst].
  - rewrite deque_closure_path. reflexivity.
  - destruct (Qgtb (filled_size fill) 0); [|reflexivity].
    rewrite deque_publishTradeUpdate2. reflexivity.
Qed.

Lemma deque_opposite_direction fill state_id iv ip s :
  deque (fst (opposite_direction fill state_id iv ip s)) = deque s.
Proof.
  unfold opposite_direction. cbv zeta.
  destruct (Qltb (Qabs _) EPSILON); cbn [fst].
  - rewrite deque_closure_path. reflexivity.
  - destruct (Qltb (Qabs (Trade.size _)) EPSILON); cbn [fst].
    + rewrite deque_closure_path. reflexivity.
    + destruct (Qgtb (filled_size fill) 0); [|reflexivity].
      rewrite deque_publishTradeUpdate2. reflexivity.
Qed.

Lemma deque_housekeeping fill s s' :
  deque s = deque s' -> deque (housekeeping fill s) = deque (housekeeping fill s').
Proof.
  unfold deque, housekeeping. intros [= Ho Hk]. rewrite Ho, Hk.
  destruct (refresh_deque _ _ _) as [os known].
  destruct (cut_deque _ _ _) as [os' known']. reflexivity.
Qed.

(** The callback, as far as the deque and the registry go: what
    [recognise] leaves, then the fill recorded in the deque, then, unless
    the callback returned from a closure, the housekeeping. *)
Lemma deque_order_fill_callback fill s :
  let s0 := snd (recognise fill s) in
  let s1 := with_orders_ (update_order_fill fill (orders_ s0)) s0 in
  deque (order_fill_callback fill s) = deque s0 \/
  deque (order_fill_callback fill s) = deque s1 \/
  deque (order_fill_callback fill s) = deque (housekeeping fill s1).
Proof.
  unfold order_fill_callback.
  destruct (recognise fill s) as [[order_exists state_id] s0]. cbn [snd].
  destruct (negb order_exists); [left; reflexivity|]. right.
  set (s1 := with_orders_ _ s0).
  destruct (order_details fill (orders_ s1)) as [iv ip].
  destruct (negb (Trade.has_active_trade _)).
  { right. apply deque_housekeeping, deque_open_trade. }
  destruct (orb _ _).
  - pose proof (deque_same_direction fill state_id iv ip s1) as H2.
    destruct (same_direction fill state_id iv ip s1) as [s2 []];
      cbn [fst] in H2; [left; exact H2|].
    right. apply deque_housekeeping, H2.
  - pose proof (deque_opposite_direction fill state_id iv ip s1) as H2.
    destruct (opposite_direction fill state_id iv ip s1) as [s2 []];
      cbn [fst] in H2; [left; exact H2|].
    right. apply deque_housekeeping, H2.
Qed.

(** *** Volumes in the deque *)

Lemma update_first_Forall (P : OrderInfo.t -> Prop) id f os :
  (forall o, P o -> P (f o)) -> Forall P os -> Forall P (update_first id f os).
Proof.
  intros Hf H. induction H as [|o os Ho Hos IH]; [constructor|].
  cbn [update_first]. destruct (OrderInfo.has_id id o); constructor; auto.
Qed.

Lemma update_order_fill_positive fill os :
  volumes_positive os -> volumes_positive (update_order_fill fill os).
Proof.
  apply update_first_Forall. intros o Ho. cbv zeta.
  destruct (Qgtb _ 0); exact Ho.
Qed.

Lemma recognise_positive fill s :
  volumes_positive (orders_ s) -> volumes_positive (orders_ (snd (recognise fill s))).
Proof.
  intros H. unfold recognise.
  destruct (known_orders_ s !! okx_order_id fill) as [state_id|].
  - destruct (negb _ && Qgtb (filled_size fill) 0) eqn:E; cbn [snd]; [|exact H].
    apply andb_true_iff in E as [_ E]. apply Qgtb_true in E.
    cbn [with_orders_ orders_]. unfold volumes_positive, sort_by_fill_time.
    rewrite merge_sort_Permutation. apply Forall_app. split; [exact H|].
    constructor; [exact E|constructor].
  - destruct (first_order _ _); exact H.
Qed.

Lemma refresh_deque_positive fill os known :
  volumes_positive os -> volumes_positive (fst (refresh_deque fill os known)).
Proof.
  intros H. revert known. induction H as [|o os Ho Hos IH]; intros known;
    [constructor|].
  cbn [refresh_deque]. destruct (OrderInfo.has_id (okx_order_id fill) o).
  - destruct (_ || _); [apply IH|].
    specialize (IH known). destruct (refresh_deque fill os known) as [rest' known'].
    constructor; [exact Ho|exact IH].
  - specialize (IH known). destruct (refresh_deque fill os known) as [rest' known'].
    constructor; [exact Ho|exact IH].
Qed.

Lemma cut_deque_positive n os known :
  volumes_positive os -> volumes_positive (fst (cut_deque n os known)).
Proof.
  revert os known. induction n as [|n IH]; intros os known H; [exact H|].
  destruct os as [|front rest]; [exact H|]. cbn [cut_deque].
  destruct (300 <? length (front :: rest))%nat; [|exact H].
  apply IH. apply Forall_cons in H as [_ H]. exact H.
Qed.

Lemma housekeeping_positive fill s :
  volumes_positive (orders_ s) -> volumes_positive (orders_ (housekeeping fill s)).
Proof.
  intros H. unfold housekeeping.
  pose proof (refresh_deque_positive fill (orders_ s) (known_orders_ s) H) as H1.
  destruct (refresh_deque _ _ _) as [os known]. cbn [fst] in H1.
  pose proof (cut_deque_positive (length os) os known H1) as H2.
  destruct (cut_deque _ _ _) as [os' known']. exact H2.
Qed.

Lemma trim_front_positive n os :
  volumes_positive os -> volumes_positive (trim_front n os).
Proof.
  revert os. induction n as [|n IH]; intros os H; [exact H|].
  cbn [trim_front]. destruct (300 <? length os)%nat; [|exact H].
  apply IH. destruct os as [|o os]; [exact H|].
  apply Forall_cons in H as [_ H]. exact H.
Qed.

Lemma store_order_positive order s :
  volumes_positive (orders_ s) -> volumes_positive (orders_ (store_order order s)).
Proof.
  intros H. unfold store_order. cbv zeta. cbn [with_orders_ orders_].
  apply trim_front_positive, Forall_app. split; [exact H|].
  constructor; [|constructor]. cbn [OrderInfo.volume].
  destruct (Qleb (OrderInfo.volume order) 0) eqn:E.
  - eapply Qlt_le_trans; [|apply Q.le_max_r]. reflexivity.
  - apply Qleb_false in E. exact E.
Qed.

Lemma update_order_id_positive state_id id flag os :
  volumes_positive os -> volumes_positive (update_order_id state_id id flag os).
Proof.
  intros H. induction H as [|o os Ho Hos IH]; [constructor|].
  cbn [update_order_id]. destruct (_ && _); constructor; assumption.
Qed.

Lemma order_fill_callback_positive fill s :
  volumes_positive (orders_ s) ->
  volumes_positive (orders_ (order_fill_callback fill s)).
Proof.
  intros H. pose proof (recognise_positive fill s H) as H0.
  pose proof (update_order_fill_positive fill _ H0) as H1.
  destruct (deque_order_fill_callback fill s) as [E|[E|E]];
    apply (f_equal fst) in E; cbn [deque fst] in E; rewrite E.
  - exact H0.
  - exact H1.
  - apply housekeeping_positive. exact H1.
Qed.

Lemma step_positive s e :
  volumes_positive (orders_ s) -> volumes_positive (orders_ (step s e)).
Proof.
  intros H. destruct e as [state_id side size price|state_id id|fill|uplRatio];
    cbn [step].
  - apply store_order_positive, H.
  - apply update_order_id_positive, H.
  - apply order_fill_callback_positive, H.
  - unfold handle_position_update.
    destruct (Qltb uplRatio 0); [destruct (Qltb uplRatio _)|]; exact H.
Qed.

(** X16.  In every run of the order manager, whatever orders, ids, fills
    and position updates arrive, every order in the deque has a positive
    volume: an order stored with none is given at least 0.1, and an order
    recovered from a late fill is given the size of that fill. *)
Theorem deque_volumes_positive (statuses : list bool) (events : list Event) :
  Forall (fun order => 0 < OrderInfo.volume order)
         (orders_ (run events (initial statuses))).
Proof.
  assert (H : forall s, volumes_positive (orders_ s) ->
                        volumes_positive (orders_ (run events s))).
  { unfold run. induction events as [|e events IH]; intros s Hs; [exact Hs|].
    cbn [fold_left]. apply IH, step_positive, Hs. }
  apply H. constructor.
Qed.

(** *** The registry of known ids *)

Lemma remembers_refl known : remembers known known.
Proof. intros id H. exact H. Qed.

Lemma remembers_trans k1 k2 k3 : remembers k1 k2 -> remembers k2 k3 -> remembers k1 k3.
Proof. intros H1 H2 id H. apply H2, H1, H. Qed.

Lemma remembers_insert known id state_id : remembers known (<[id := state_id]> known).
Proof.
  intros id' H. destruct (decide (id = id')) as [->|Hne].
  - rewrite lookup_insert_eq. eauto.
  - rewrite lookup_insert_ne by exact Hne. exact H.
Qed.

Lemma recognise_remembers fill s :
  remembers (known_orders_ s) (known_orders_ (snd (recognise fill s))).
Proof.
  unfold recognise. destruct (known_orders_ s !! okx_order_id fill).
  - destruct (_ && _); apply remembers_refl.
  - destruct (first_order _ _); cbn [snd]; [apply remembers_insert|apply remembers_refl].
Qed.

Lemma refresh_deque_remembers fill os known :
  remembers known (snd (refresh_deque fill os known)).
Proof.
  revert known. induction os as [|o os IH]; intros known; [apply remembers_refl|].
  cbn [refresh_deque]. destruct (OrderInfo.has_id (okx_order_id fill) o).
  - destruct (_ || _).
    + eapply remembers_trans; [apply remembers_insert|apply IH].
    + specialize (IH known). destruct (refresh_deque fill os known). exact IH.
  - specialize (IH known). destruct (refresh_deque fill os known). exact IH.
Qed.

Lemma cut_deque_remembers n os known : remembers known (snd (cut_deque n os known)).
Proof.
  revert os known. induction n as [|n IH]; intros os known; [apply remembers_refl|].
  destruct os as [|front rest]; [apply remembers_refl|]. cbn [cut_deque].
  destruct (300 <? length (front :: rest))%nat; [|apply remembers_refl].
  eapply remembers_trans; [|apply IH].
  destruct (String.eqb _ _); [apply remembers_refl|apply remembers_insert].
Qed.

Lemma housekeeping_remembers fill s :
  remembers (known_orders_ s) (known_orders_ (housekeeping fill s)).
Proof.
  unfold housekeeping.
  pose proof (refresh_deque_remembers fill (orders_ s) (known_orders_ s)) as H1.
  destruct (refresh_deque _ _ _) as [os known]. cbn [snd] in H1.
  pose proof (cut_deque_remembers (length os) os known) as H2.
  destruct (cut_deque _ _ _) as [os' known']. cbn [snd] in H2.
  eapply remembers_trans; [exact H1|exact H2].
Qed.

Lemma step_remembers s e : remembers (known_orders_ s) (known_orders_ (step s e)).
Proof.
  destruct e as [state_id side size price|state_id id|fill|uplRatio]; cbn [step].
  - apply remembers_refl.
  - apply remembers_insert.
  - pose proof (recognise_remembers fill s) as H0.
    destruct (deque_order_fill_callback fill s) as [E|[E|E]];
      apply (f_equal snd) in E; cbn [deque snd] in E; rewrite E.
    + exact H0.
    + exact H0.
    + eapply remembers_trans; [exact H0|].
      apply (housekeeping_remembers fill
               (with_orders_ (update_order_fill fill (orders_ (snd (recognise fill s))))
                  (snd (recognise fill s)))).
  - unfold handle_position_update.
    destruct (Qltb uplRatio 0); [destruct (Qltb uplRatio _)|]; apply remembers_refl.
Qed.

Lemma run_remembers events s :
  remembers (known_orders_ s) (known_orders_ (run events s)).
Proof.
  unfold run. revert s. induction events as [|e events IH]; intros s;
    [apply remembers_refl|].
  cbn [fold_left]. eapply remembers_trans; [apply step_remembers|apply IH].
Qed.

(** X17.  The registry of known order ids only grows: an OKX id that is
    registered, or that the exchange assigns at any point of a run, is
    registered at the end of the run, whatever orders, id assignments,
    fills and position updates come after. *)
Theorem known_orders_never_forgotten (events : list Event) (s : OMS.t) (id : string) :
  is_Some (known_orders_ s !! id) \/ (exists state_id, OrderId state_id id ∈ events) ->
  is_Some (known_orders_ (run events s) !! id).
Proof.
  intros [H|[state_id H]].
  - apply run_remembers, H.
  - apply list_elem_of_split in H as (l1 & l2 & ->).
    unfold run. rewrite fold_left_app. cbn [fold_left].
    apply (run_remembers l2). cbn [step with_known_orders_ known_orders_].
    rewrite lookup_insert_eq. eauto.
Qed.

(** X17 for the id 7001, assigned between two other events. *)
Lemma known_orders_never_forgotten_witness :
  is_Some (known_orders_
             (run [OrderSent 12 "buy" 1 30000; OrderId 12 "7001";
                   PositionUpdate (- (1 # 100))] (initial []))
           !! "7001"%string).
Proof.
  apply known_orders_never_forgotten. right. exists 12%Z.
  apply list_elem_of_In. right. left. reflexivity.
Defined.

(** *** Recording a fill twice *)

Lemma update_first_twice id f os :
  (forall o, OrderInfo.has_id id (f o) = OrderInfo.has_id id o) ->
  (forall o, f (f o) = f o) ->
  update_first id f (update_first id f os) = update_first id f os.
Proof.
  intros Hid Hff. induction os as [|o os IH]; [reflexivity|].
  cbn [update_first]. destruct (OrderInfo.has_id id o) eqn:E; cbn [update_first].
  - rewrite Hid, E, Hff. reflexivity.
  - rewrite E, IH. reflexivity.
Qed.

Lemma Qgtb_diag (x : Q) : Qgtb (x - x) 0 = false.
Proof. apply Qgtb_false. lra. Qed.

(** X18.  Recording the same exchange update in the deque a second time
    changes nothing: after the first recording the order's cumulative
    filled size equals the reported one, so the second finds no new fill. *)
Theorem update_order_fill_idempotent (fill : Fill) (os : list OrderInfo.t) :
  update_order_fill fill (update_order_fill fill os) = update_order_fill fill os.
Proof.
  unfold update_order_fill. apply update_first_twice.
  - intros o. cbv zeta. destruct (Qgtb _ 0); reflexivity.
  - intros o. cbv zeta.
    destruct (Qgtb ((if is_filled_state (state fill) then OrderInfo.volume o
                     else filled_size fill) - OrderInfo.cumulative_filled_size o) 0)
      eqn:E.
    + cbn [OrderInfo.with_cumulative OrderInfo.with_fill OrderInfo.volume
           OrderInfo.cumulative_filled_size].
      rewrite Qgtb_diag. reflexivity.
    + rewrite E. reflexivity.
Qed.

(** X20.  An update that has been recorded in the deque does not pass the
    buffer's door again.  For an order that is in the deque and an update
    whose state is not "filled": once [update_order_fill] has recorded the
    update, [handle_order_update] finds no fill delta above [1e-8] in a
    repetition of it and leaves the buffer as it is. *)
Theorem recorded_update_not_buffered_again
    (fill : Fill) (os : list OrderInfo.t) (update_buffer : list Fill) :
  is_filled_state (state fill) = false ->
  existsb (OrderInfo.has_id (okx_order_id fill)) os = true ->
  handle_order_update fill (update_order_fill fill os) update_buffer = update_buffer.
Proof.
  intros Hst Hin. unfold handle_order_update, prev_acc_filled_size. cbv zeta.
  unfold update_order_fill. rewrite first_order_update_first
    by (intros o; cbv zeta; destruct (Qgtb _ 0); reflexivity).
  unfold first_order. destruct (List.find _ os) as [o|] eqn:Ef.
  - cbn [option_map]. rewrite Hst.
    destruct (Qgtb (filled_size fill - OrderInfo.cumulative_filled_size o) 0) eqn:E.
    + cbn [OrderInfo.with_cumulative OrderInfo.cumulative_filled_size].
      replace (Qgtb (filled_size fill - filled_size fill) (1 # 100000000)) with false
        by (symmetry; apply Qgtb_false; lra).
      reflexivity.
    + apply Qgtb_false in E.
      replace (Qgtb (filled_size fill - OrderInfo.cumulative_filled_size o)
                    (1 # 100000000)) with false
        by (symmetry; apply Qgtb_false; lra).
      reflexivity.
  - exfalso. apply existsb_exists in Hin as (o & Ho & Hid).
    apply (find_none _ _ Ef) in Ho. congruence.
Qed.

(** X20 on an order of 1 contract of which 0.4 are reported filled. *)
Lemma recorded_update_not_buffered_again_witness :
  let os := orders_ (run [OrderSent 12 "buy" 1 30000; OrderId 12 "7001"] (initial [])) in
  let fill := {| okx_order_id := "7001"; filled_size := 4 # 10; avg_price := 30000;
                 side := "buy"; state := "partially_filled"; pnl := 0;
                 fill_time := 1000 |} in
  handle_order_update fill os [] = [fill] /\
  handle_order_update fill (update_order_fill fill os) [] = [].
Proof.
  intros os fill. split; [reflexivity|].
  apply recorded_update_not_buffered_again; reflexivity.
Defined.

End Deque.

(** ** The order manager: the first fill of a trade *)

Section Opening.
Import OMS OrderUpdates.
Local Open Scope Q_scope.

Lemma housekeeping_keeps fill s :
  current_trade_ (housekeeping fill s) = current_trade_ s /\
  outbox (housekeeping fill s) = outbox s /\
  published_state_ids_ (housekeeping fill s) = published_state_ids_ s.
Proof.
  unfold housekeeping.
  destruct (refresh_deque _ _ _) as [os known].
  destruct (cut_deque _ _ _) as [os' known']. repeat split.
Qed.

(** X19.  The first fill of a trade.  When no trade is active and the
    position is flat, a fill of positive size for an order that is
    registered and in the deque opens a trade: the trade is active, long
    exactly when the fill is a buy, sized by the fill and named after the
    order; the order joins the trade; and one per-execution report for the
    order's state id is handed to the broker, unless one was published for
    that state id before, in which case nothing is. *)
Theorem first_fill_opens_trade (fill : Fill) (s : OMS.t) (state_id : Z) :
  known_orders_ s !! okx_order_id fill = Some state_id ->
  existsb (OrderInfo.has_id (okx_order_id fill)) (orders_ s) = true ->
  Trade.has_active_trade (current_trade_ s) = false ->
  Trade.size (current_trade_ s) == 0 ->
  0 < filled_size fill ->
  let s' := order_fill_callback fill s in
  let tr := current_trade_ s' in
  Trade.has_active_trade tr = true /\
  Trade.is_long tr = is_buy (side fill) /\
  Trade.size tr = filled_size fill /\
  Trade.tradeId tr = okx_order_id fill /\
  (exists order,
     Trade.orders tr = Trade.orders (current_trade_ s) ++ [order] /\
     OrderInfo.okx_order_id order = okx_order_id fill /\
     OrderInfo.state_id order = state_id /\
     OrderInfo.filled_size order = filled_size fill /\
     OrderInfo.tradeId order = okx_order_id fill) /\
  outbox s' =
    (if bool_decide (state_id ∈ published_state_ids_ s) then outbox s
     else outbox s ++ [(ExecutionReport state_id (okx_order_id fill) None,
                        next_status s)]).
Proof.
  intros Hk Hin Ha Hsize Hpos s' tr. subst tr s'.
  unfold order_fill_callback, recognise. rewrite Hk, Hin. cbn [negb andb].
  set (s1 := with_orders_ _ s).
  destruct (order_details fill (orders_ s1)) as [iv ip].
  change (current_trade_ s1) with (current_trade_ s). rewrite Ha. cbn [negb].
  destruct (housekeeping_keeps fill (open_trade fill state_id iv ip s1))
    as (-> & -> & _).
  unfold open_trade. cbv zeta.
  change (current_trade_ s1) with (current_trade_ s).
  rewrite (proj2 (Qgtb_true _ _) Hpos).
  rewrite (proj2 (Qeq_bool_iff _ _) Hsize). cbn [andb orb].
  unfold publishTradeUpdate2.
  change (published_state_ids_ (with_current_trade_ _ s1))
    with (published_state_ids_ s).
  case_bool_decide as Hpub.
  - cbn [with_current_trade_ current_trade_ outbox Trade.has_active_trade
         Trade.is_long Trade.size Trade.tradeId Trade.orders].
    repeat split. eexists. split; [reflexivity|]. repeat split.
  - cbn [with_current_trade_ current_trade_ Trade.orders].
    rewrite existsb_app. cbn [existsb trade_order OrderInfo.filled_size].
    assert (Hid : OrderInfo.has_id (okx_order_id fill)
                    (trade_order state_id fill iv ip (okx_order_id fill) false) = true)
      by apply String.eqb_refl.
    rewrite Hid, (proj2 (Qgtb_true _ _) Hpos).
    cbn [andb orb]. rewrite orb_true_r. cbn [negb].
    cbn [amqp_basic_publish current_trade_ outbox Trade.has_active_trade
         Trade.is_long Trade.size Trade.tradeId Trade.orders].
    repeat split. eexists. split; [reflexivity|]. repeat split.
Qed.

(** X19 on a buy order stored, given the id 7001 and filled by 0.4. *)
Lemma first_fill_opens_trade_witness :
  let s := run [OrderSent 12 "buy" 1 30000; OrderId 12 "7001"] (initial []) in
  let fill := {| okx_order_id := "7001"; filled_size := 4 # 10; avg_price := 30000;
                 side := "buy"; state := "partially_filled"; pnl := 0;
                 fill_time := 1000 |} in
  Trade.has_active_trade (current_trade_ (order_fill_callback fill s)) = true /\
  outbox (order_fill_callback fill s) = [(ExecutionReport 12 "7001" None, true)].
Proof.
  intros s fill.
  assert (Hk : known_orders_ s !! okx_order_id fill = Some 12%Z) by reflexivity.
  assert (Hin : existsb (OrderInfo.has_id (okx_order_id fill)) (orders_ s) = true)
    by reflexivity.
  assert (Ha : Trade.has_active_trade (current_trade_ s) = false) by reflexivity.
  assert (Hsize : Trade.size (current_trade_ s) == 0) by reflexivity.
  assert (Hpos : 0 < filled_size fill) by reflexivity.
  destruct (first_fill_opens_trade fill s 12 Hk Hin Ha Hsize Hpos)
    as (H1 & _ & _ & _ & _ & H6).
  split; [exact H1|exact H6].
Defined.

End Opening.

(** ** From the depth engine to the order manager *)

Section EndToEnd.
Import binary_utils.
Local Open Scope Z_scope.





End EndToEnd.

(** ** From a decision to the execution report that answers it *)

Section ActionMatching.
Import PPOHandler PPOExecution Pipeline.
Local Open Scope Z_scope.

Lemma numbered_cons (b : Z) (i : Input) (l : list Input) :
  numbered b (i :: l) -> frame_state_id i = b mod 65536 /\ numbered (b + 1) l.
Proof.
  intros H. split.
  - rewrite (H 0%nat i eq_refl). f_equal. lia.
  - intros k j Hk. rewrite (H (S k) j Hk). f_equal. lia.
Qed.

Lemma numbered_drop (a : Z) (n : nat) (l : list Input) :
  numbered a l -> numbered (a + Z.of_nat n) (drop n l).
Proof.
  intros H k i Hk. rewrite lookup_drop in Hk. rewrite (H _ _ Hk). f_equal. lia.
Qed.

Lemma mod_65536_parity (z : Z) : (z mod 65536) mod 2 = z mod 2.
Proof.
  rewrite (Z.div_mod z 65536) at 2 by lia.
  replace (65536 * (z / 65536) + z mod 65536)
    with (z mod 65536 + (32768 * (z / 65536)) * 2) by lia.
  rewrite Z.mod_add by lia. reflexivity.
Qed.

(** The state ids of the frames that trigger a decision, among frames
    numbered from [b]: every other id, starting at the first even one. *)
Lemma triggering_ids (b : Z) (l : list Input) :
  numbered b l ->
  exists M : nat,
    map frame_state_id (List.filter triggers l)
    = map (fun j => (next_even b + 2 * Z.of_nat j) mod 65536) (seq 0 M).
Proof.
  revert b. induction l as [|i l IH]; intros b H; [exists 0%nat; reflexivity|].
  apply numbered_cons in H as [Hi Hl]. destruct (IH _ Hl) as [M HM].
  cbn [List.filter]. unfold triggers at 1. rewrite Hi, mod_65536_parity.
  pose proof (Z.mod_pos_bound b 2 eq_refl) as Hb. unfold next_even in *.
  destruct (Z.eqb_spec (b mod 2) 0) as [E|E].
  - exists (S M). cbn [map seq]. rewrite HM, Hi, E. f_equal; [f_equal; lia|].
    rewrite <- seq_shift, map_map. apply map_ext. intros j. f_equal.
    replace ((b + 1) mod 2) with 1; [lia|].
    rewrite <- Zplus_mod_idemp_l, E. reflexivity.
  - exists M. rewrite HM. apply map_ext. intros j. f_equal.
    assert (Hb1 : b mod 2 = 1) by lia.
    replace ((b + 1) mod 2) with 0; [lia|].
    rewrite <- Zplus_mod_idemp_l, Hb1. reflexivity.
Qed.

Lemma spaced_ids_differ (x0 : Z) (x y : nat) :
  (x0 + 2 * Z.of_nat x) mod 65536 = (x0 + 2 * Z.of_nat y) mod 65536 ->
  (Z.of_nat x - Z.of_nat y < 1000) -> (Z.of_nat y - Z.of_nat x < 1000) -> x = y.
Proof.
  intros E H1 H2.
  pose proof (Z.div_mod (x0 + 2 * Z.of_nat x) 65536 ltac:(lia)) as Dx.
  pose proof (Z.div_mod (x0 + 2 * Z.of_nat y) 65536 ltac:(lia)) as Dy.
  rewrite E in Dx.
  assert (Hq : (x0 + 2 * Z.of_nat x) / 65536 = (x0 + 2 * Z.of_nat y) / 65536) by lia.
  lia.
Qed.

Lemma latest_ids_differ (x0 : Z) (M : nat) :
  NoDup (drop (M - 1000)
           (map (fun j => (x0 + 2 * Z.of_nat j) mod 65536) (seq 0 M))).
Proof.
  change (map ?f ?l) with (f <$> l). rewrite <- fmap_drop, drop_seq.
  apply NoDup_fmap_2_strong; [|apply NoDup_seq].
  intros x y Hx Hy E. apply elem_of_seq in Hx, Hy.
  apply (spaced_ids_differ x0 x y E); lia.
Qed.

Lemma only_match {A : Type} (f : A -> Z) (l : list A) (x : A) :
  NoDup (map f l) -> x ∈ l -> List.filter (fun y => f y =? f x) l = [x].
Proof.
  intros Hn Hx. induction l as [|y l IH]; [apply elem_of_nil in Hx; destruct Hx|].
  cbn [map] in Hn. apply NoDup_cons in Hn as [Hy Hn]. cbn [List.filter].
  assert (Hnone : forall z, f z ∉ map f l -> List.filter (fun y => f y =? f z) l = []).
  { intros z Hz. clear -Hz. induction l as [|w l IH]; [reflexivity|].
    cbn [List.filter map] in *. apply not_elem_of_cons in Hz as [Hne Hz].
    destruct (Z.eqb_spec (f w) (f z)) as [E|_]; [congruence|]. apply IH, Hz. }
  apply elem_of_cons in Hx as [->|Hx].
  - rewrite Z.eqb_refl. f_equal. apply Hnone, Hy.
  - destruct (Z.eqb_spec (f y) (f x)) as [E|_].
    + exfalso. apply Hy. rewrite E. apply list_elem_of_fmap. exists x. split; auto.
    + apply IH; assumption.
Qed.

Lemma action_buffer_ids (a : Z) (inputs : list Input) :
  numbered a inputs ->
  NoDup (map action_state_id (action_buffer_ (run inputs initial))).
Proof.
  intros H.
  destruct (run_windows inputs) as [_ Ha]. cbv zeta in Ha. rewrite Ha.
  rewrite map_map.
  change (map (fun x => action_state_id (action_of x)) ?l)
    with (decision_state_id <$> l).
  rewrite fmap_drop. change (decision_state_id <$> ?l) with (map decision_state_id l).
  rewrite <- (length_map decision_state_id), run_decisions.
  cbn [initial decisions map app state_buffer_ length].
  destruct (triggering_ids _ _ (numbered_drop a (NETWORK_INPUT_SIZE - 1 - 0) inputs H))
    as [M ->].
  rewrite length_map, length_seq. apply latest_ids_differ.
Qed.

(** X21.  When the frames the relay receives are numbered the way the
    depth engine numbers them (consecutively, wrapping after 65535), no two
    actions in the relay's action buffer carry the same state id; so an
    execution update that names the state id of a buffered action gets
    exactly that action attached to the order it adds. *)
Theorem execution_report_finds_its_action
    (a : Z) (inputs : list Input) (act : ActionInfo) (id : string) :
  numbered a inputs ->
  act ∈ action_buffer_ (run inputs initial) ->
  NoDup (map action_state_id (action_buffer_ (run inputs initial))) /\
  action (new_order (action_state_id act) id (action_buffer_ (run inputs initial)))
  = Some act.
Proof.
  intros H Hact. pose proof (action_buffer_ids a inputs H) as Hn.
  split; [exact Hn|]. cbn [new_order action]. unfold matching_actions.
  rewrite (only_match action_state_id _ act Hn Hact). reflexivity.
Qed.

Lemma steady_inputs_numbered (n : nat) : numbered 0 (steady_inputs n).
Proof.
  intros k i Hk. unfold steady_inputs in Hk.
  change (map ?f ?l) with (f <$> l) in Hk.
  rewrite list_lookup_fmap in Hk.
  destruct (seq 0 n !! k) as [j|] eqn:Ej; [|discriminate Hk].
  apply lookup_seq in Ej as [-> _]. injection Hk as <-. reflexivity.
Qed.

(** X21 after 100 frames numbered from 0: the action of the decision made
    at state id 98 is found by an execution update for state id 98. *)
Lemma execution_report_finds_its_action_witness :
  let s := run (steady_inputs 100) initial in
  let act := {| action_price := - (1 # 2); action_volume := 1 # 2;
                action_state_id := 98 |} in
  act ∈ action_buffer_ s /\
  action (new_order 98 "7001" (action_buffer_ s)) = Some act.
Proof.
  intros s act.
  assert (Hin : act ∈ action_buffer_ s).
  { apply (list_elem_of_lookup_2 _ 9%nat). vm_compute. reflexivity. }
  split; [exact Hin|].
  exact (proj2 (execution_report_finds_its_action 0 (steady_inputs 100) act "7001"
                  (steady_inputs_numbered 100) Hin)).
Defined.

End ActionMatching.

(** ** A late fill of an order that has left the deque *)

Section LateFill.
Import OMS Scenario.

Lemma refresh_deque_erases (fill : Fill) (os : list OrderInfo.t) (known : gmap string Z) :
  Forall (fun o => OrderInfo.has_id (okx_order_id fill) o = true ->
                   (OrderInfo.volume o == filled_size fill)%Q) os ->
  (0 < filled_size fill)%Q ->
  fst (refresh_deque fill os known)
  = List.filter (fun o => negb (OrderInfo.has_id (okx_order_id fill) o)) os.
Proof.
  intros H Hpos. revert known.
  induction H as [|o os Ho _ IH]; intros known; [reflexivity|].
  cbn [refresh_deque List.filter].
  destruct (OrderInfo.has_id (okx_order_id fill) o) eqn:Hid; cbn [negb].
  - specialize (Ho eq_refl).
    assert (Hexec : Qgeb (ratio (filled_size fill) (OrderInfo.volume o)) 1 = true).
    { unfold ratio.
      assert (Hv : (0 < OrderInfo.volume o)%Q) by (rewrite Ho; exact Hpos).
      rewrite (proj2 (Qgtb_true _ _) Hv). apply Qleb_true.
      rewrite Ho. apply Qle_shift_div_l; [exact Hpos|]. lra. }
    destruct (is_filled_state (state fill)); cbn [orb].
    + apply IH.
    + rewrite Hexec. apply IH.
  - specialize (IH known). destruct (refresh_deque fill os known) as [rest' known'].
    cbn [fst] in *. f_equal. exact IH.
Qed.

Lemma cut_deque_drop (n : nat) (os : list OrderInfo.t) (known : gmap string Z) :
  (length os - 300 <= n)%nat ->
  fst (cut_deque n os known) = drop (length os - 300) os.
Proof.
  revert os known. induction n as [|n IH]; intros os known Hn.
  - cbn [cut_deque]. replace (length os - 300)%nat with 0%nat by lia. reflexivity.
  - destruct os as [|front rest]; [reflexivity|]. cbn [cut_deque].
    destruct (300 <? length (front :: rest))%nat eqn:E.
    + apply Nat.ltb_lt in E. cbn [length] in *.
      rewrite IH by lia.
      replace (S (length rest) - 300)%nat with (S (length rest - 300)) by lia.
      reflexivity.
    + apply Nat.ltb_ge in E. cbn [fst].
      replace (length (front :: rest) - 300)%nat with 0%nat by lia. reflexivity.
Qed.

Lemma filter_update_first (id : string) (f : OrderInfo.t -> OrderInfo.t)
    (os : list OrderInfo.t) :
  (forall o, OrderInfo.has_id id (f o) = OrderInfo.has_id id o) ->
  List.filter (fun o => negb (OrderInfo.has_id id o)) (update_first id f os)
  = List.filter (fun o => negb (OrderInfo.has_id id o)) os.
Proof.
  intros Hf. induction os as [|o os IH]; [reflexivity|].
  cbn [update_first]. destruct (OrderInfo.has_id id o) eqn:Hid.
  - cbn [List.filter]. rewrite Hf, Hid. reflexivity.
  - cbn [List.filter]. rewrite Hid. cbn [negb]. f_equal. exact IH.
Qed.

Lemma update_order_fill_id (fill : Fill) (os : list OrderInfo.t) :
  List.filter (fun o => negb (OrderInfo.has_id (okx_order_id fill) o))
              (update_order_fill fill os)
  = List.filter (fun o => negb (OrderInfo.has_id (okx_order_id fill) o)) os.
Proof.
  apply filter_update_first. intros o. cbv zeta. destruct (Qgtb _ 0); reflexivity.
Qed.

Lemma update_order_fill_volume (fill : Fill) (v : Q) (os : list OrderInfo.t) :
  Forall (fun o => OrderInfo.has_id (okx_order_id fill) o = true ->
                   (OrderInfo.volume o == v)%Q) os ->
  Forall (fun o => OrderInfo.has_id (okx_order_id fill) o = true ->
                   (OrderInfo.volume o == v)%Q) (update_order_fill fill os).
Proof.
  intros H. induction H as [|o os Ho Hos IH]; [constructor|].
  unfold update_order_fill in *. cbn [update_first].
  destruct (OrderInfo.has_id (okx_order_id fill) o) eqn:Hid.
  - constructor; [|exact Hos]. cbv zeta. intros _. specialize (Ho eq_refl).
    destruct (Qgtb _ 0); exact Ho.
  - constructor; [|exact IH]. intros E. rewrite Hid in E. discriminate.
Qed.

Lemma filter_absent (id : string) (os : list OrderInfo.t) :
  Forall (fun o => OrderInfo.okx_order_id o <> id) os ->
  List.filter (fun o => negb (OrderInfo.has_id id o)) os = os.
Proof.
  intros H. induction H as [|o os Ho _ IH]; [reflexivity|].
  cbn [List.filter]. unfold OrderInfo.has_id at 1.
  rewrite (proj2 (String.eqb_neq _ _) Ho). cbn [negb]. f_equal. exact IH.
Qed.

Lemma filter_Permutation' (P : OrderInfo.t -> bool) (l l' : list OrderInfo.t) :
  l ≡ₚ l' -> List.filter P l ≡ₚ List.filter P l'.
Proof.
  induction 1 as [|x l l' _ IH|x y l|l l' l'' _ IH1 _ IH2].
  - reflexivity.
  - cbn [List.filter]. destruct (P x); [constructor|]; exact IH.
  - cbn [List.filter]. destruct (P x), (P y); try reflexivity. constructor.
  - etransitivity; eassumption.
Qed.

Lemma filter_StronglySorted (R : relation OrderInfo.t) (P : OrderInfo.t -> bool)
    (l : list OrderInfo.t) :
  StronglySorted R l -> StronglySorted R (List.filter P l).
Proof.
  induction 1 as [|x l _ IH Hx]; [constructor|].
  cbn [List.filter]. destruct (P x); [|exact IH].
  constructor; [exact IH|].
  rewrite List.Forall_forall in *. intros y Hy.
  apply List.filter_In in Hy as [Hy _]. apply Hx, Hy.
Qed.

(** What the callback makes of such a fill, as far as the deque goes. *)
Lemma late_fill_deque (fill : Fill) (s : OMS.t) (state_id : Z) :
  known_orders_ s !! okx_order_id fill = Some state_id ->
  Forall (fun o => OrderInfo.okx_order_id o <> okx_order_id fill) (orders_ s) ->
  (0 < filled_size fill)%Q ->
  let r := recovered_order state_id fill in
  let s0 := with_orders_ (sort_by_fill_time (orders_ s ++ [r])) s in
  let s1 := with_orders_ (update_order_fill fill (orders_ s0)) s0 in
  let rest :=
    List.filter (fun o => negb (OrderInfo.has_id (okx_order_id fill) o)) (orders_ s0) in
  recognise fill s = (true, state_id, s0) /\
  recognise fill s0 = (true, state_id, s0) /\
  order_details fill (orders_ s1) = (filled_size fill, avg_price fill) /\
  orders_ (housekeeping fill s1) = drop (length rest - 300) rest /\
  rest ≡ₚ orders_ s /\
  StronglySorted fill_time_le rest.
Proof.
  intros Hknown Habsent Hpos r s0 s1 rest.
  destruct (late_fill_recovered fill s state_id Hknown Habsent Hpos)
    as (_ & Hperm & Hsorted & Hin).
  assert (Hex : existsb (OrderInfo.has_id (okx_order_id fill)) (orders_ s) = false).
  { clear -Habsent. induction Habsent as [|o os Ho _ IH]; [reflexivity|].
    cbn [existsb]. rewrite IH, orb_false_r.
    unfold OrderInfo.has_id. apply String.eqb_neq. exact Ho. }
  assert (Hrec : recognise fill s = (true, state_id, s0)).
  { unfold recognise. rewrite Hknown, Hex.
    rewrite (proj2 (Qgtb_true _ _) Hpos). reflexivity. }
  rewrite Hrec in Hperm, Hsorted, Hin. cbn [snd] in Hperm, Hsorted, Hin.
  fold r in Hperm, Hin.
  assert (Hex0 : existsb (OrderInfo.has_id (okx_order_id fill)) (orders_ s0) = true).
  { apply existsb_exists. exists r. split.
    - apply list_elem_of_In. exact Hin.
    - apply String.eqb_refl. }
  split; [exact Hrec|]. split.
  { unfold recognise. change (known_orders_ s0) with (known_orders_ s).
    rewrite Hknown, Hex0. reflexivity. }
  split.
  { pose proof (late_fill_order_details fill s state_id Hknown Habsent Hpos) as Hd.
    cbv zeta in Hd. rewrite Hrec in Hd. exact Hd. }
  assert (Hvol : Forall (fun o => OrderInfo.has_id (okx_order_id fill) o = true ->
                                  (OrderInfo.volume o == filled_size fill)%Q)
                        (orders_ s0)).
  { apply Forall_forall. intros o Ho Hid. rewrite Hperm in Ho.
    apply elem_of_app in Ho as [Ho|Ho].
    - rewrite Forall_forall in Habsent. specialize (Habsent o Ho).
      unfold OrderInfo.has_id in Hid. apply String.eqb_eq in Hid. contradiction.
    - apply list_elem_of_singleton in Ho. subst o. reflexivity. }
  split.
  { unfold housekeeping. change (orders_ s1) with (update_order_fill fill (orders_ s0)).
    pose proof (refresh_deque_erases fill (update_order_fill fill (orders_ s0))
                  (known_orders_ s1)
                  (update_order_fill_volume fill _ _ Hvol) Hpos) as Hr.
    rewrite update_order_fill_id in Hr. fold rest in Hr.
    destruct (refresh_deque fill _ _) as [os known]. cbn [fst] in Hr. subst os.
    pose proof (cut_deque_drop (length rest) rest known ltac:(lia)) as Hc.
    destruct (cut_deque _ _ _) as [os' known']. cbn [fst] in Hc.
    cbn [with_known_orders_ with_orders_ orders_]. exact Hc. }
  split.
  - unfold rest. rewrite (filter_Permutation' _ _ _ Hperm).
    rewrite List.filter_app, (filter_absent _ _ Habsent).
    cbn [List.filter]. unfold OrderInfo.has_id at 1.
    cbn [r recovered_order OrderInfo.okx_order_id].
    rewrite String.eqb_refl. cbn [negb]. rewrite app_nil_r. reflexivity.
  - apply filter_StronglySorted. exact Hsorted.
Qed.

(** C10 (as amended).  A fill for an order id that is in [known_orders_]
    but on no order of the deque, with a positive filled size.  The
    callback handles it exactly as it would had the order been in the
    deque, at its fill-time position, carrying the state id of the map,
    the filled size as its volume, the average fill price as its price and
    an execution percentage of 1; so a trade that the fill opens records
    the order with that volume, that price and an execution of 1.  The
    order does not stay: when the callback runs to its end, as it always
    does when no trade is active, the order is erased again for being
    fully executed, and the deque is the old one, sorted by fill time and
    cut to its last 300; only a callback that returns from its closure
    block leaves the recovered order, with the fill recorded, in the
    deque. *)
Theorem late_fill_recovery_is_transient (fill : Fill) (s : OMS.t) (state_id : Z) :
  known_orders_ s !! okx_order_id fill = Some state_id ->
  Forall (fun o => OrderInfo.okx_order_id o <> okx_order_id fill) (orders_ s) ->
  (0 < filled_size fill)%Q ->
  let r := recovered_order state_id fill in
  let s0 := with_orders_ (sort_by_fill_time (orders_ s ++ [r])) s in
  let s' := order_fill_callback fill s in
  let rest :=
    List.filter (fun o => negb (OrderInfo.has_id (okx_order_id fill) o)) (orders_ s0) in
  let erased := orders_ s' = drop (length rest - 300) rest in
  let kept := orders_ s' = update_order_fill fill (orders_ s0) in
  let recorded :=
    trade_order state_id fill (filled_size fill) (avg_price fill) (okx_order_id fill)
      false in
  (OrderInfo.okx_order_id r = okx_order_id fill /\
   OrderInfo.state_id r = state_id /\
   OrderInfo.volume r = filled_size fill /\
   OrderInfo.price r = avg_price fill /\
   OrderInfo.execution_percentage r = 1%Q /\
   OrderInfo.fill_time r = fill_time fill) /\
  (orders_ s0 ≡ₚ orders_ s ++ [r] /\ StronglySorted fill_time_le (orders_ s0)) /\
  s' = order_fill_callback fill s0 /\
  (rest ≡ₚ orders_ s /\ StronglySorted fill_time_le rest /\
   Forall (fun o => OrderInfo.okx_order_id o <> okx_order_id fill) rest) /\
  (erased \/ kept) /\
  (Trade.has_active_trade (current_trade_ s) = false -> erased) /\
  (Trade.has_active_trade (current_trade_ s) = false ->
   (Trade.size (current_trade_ s) == 0)%Q ->
   Trade.orders (current_trade_ s') = Trade.orders (current_trade_ s) ++ [recorded] /\
   (OrderInfo.execution_percentage recorded == 1)%Q).
Proof.
  intros Hknown Habsent Hpos r s0 s' rest erased kept recorded.
  destruct (late_fill_deque fill s state_id Hknown Habsent Hpos)
    as (Hrec & Hrec0 & Hd & Hh & Hrest & Hsorted).
  fold r s0 rest in Hrec, Hrec0, Hd, Hh, Hrest.
  destruct (late_fill_recovered fill s state_id Hknown Habsent Hpos)
    as (_ & Hperm & Hs0 & _).
  rewrite Hrec in Hperm, Hs0. cbn [snd] in Hperm, Hs0.
  set (s1 := with_orders_ (update_order_fill fill (orders_ s0)) s0) in *.
  assert (Hcb : s' =
    let '(s2, returned) :=
      if negb (Trade.has_active_trade (current_trade_ s1)) then
        (open_trade fill state_id (filled_size fill) (avg_price fill) s1, false)
      else
        if (Trade.is_long (current_trade_ s1) && is_buy (side fill))
           || (negb (Trade.is_long (current_trade_ s1)) && is_sell (side fill))
        then same_direction fill state_id (filled_size fill) (avg_price fill) s1
        else opposite_direction fill state_id (filled_size fill) (avg_price fill) s1 in
    if returned then s2 else housekeeping fill s2).
  { unfold s', order_fill_callback. rewrite Hrec. cbn [negb]. fold s1.
    rewrite Hd. reflexivity. }
  split; [repeat split|]. split; [split; assumption|]. split.
  { unfold s' at 1. unfold order_fill_callback at 1. rewrite Hrec.
    unfold order_fill_callback. rewrite Hrec0. reflexivity. }
  split.
  { split; [exact Hrest|]. split; [exact Hsorted|].
    apply List.Forall_forall. intros o Ho. apply List.filter_In in Ho as [_ Ho].
    unfold OrderInfo.has_id in Ho. apply negb_true_iff, String.eqb_neq in Ho.
    exact Ho. }
  assert (Hhk : forall s2, OrderUpdates.deque s2 = OrderUpdates.deque s1 ->
                  orders_ (housekeeping fill s2) = drop (length rest - 300) rest).
  { intros s2 E. rewrite <- Hh.
    apply (f_equal fst (deque_housekeeping fill s2 s1 E)). }
  assert (Hopen : Trade.has_active_trade (current_trade_ s) = false -> erased).
  { intros Ha. unfold erased. rewrite Hcb.
    change (current_trade_ s1) with (current_trade_ s). rewrite Ha. cbn [negb].
    apply Hhk, deque_open_trade. }
  split; [|split; [exact Hopen|]].
  - destruct (Trade.has_active_trade (current_trade_ s)) eqn:Ha;
      [|left; apply Hopen; reflexivity].
    unfold erased, kept. rewrite Hcb.
    change (current_trade_ s1) with (current_trade_ s). rewrite Ha. cbn [negb].
    destruct (_ || _).
    + pose proof (deque_same_direction fill state_id (filled_size fill)
                    (avg_price fill) s1) as H2.
      destruct (same_direction _ _ _ _ s1) as [s2 []]; cbn [fst] in H2.
      * right. exact (f_equal fst H2).
      * left. apply Hhk, H2.
    + pose proof (deque_opposite_direction fill state_id (filled_size fill)
                    (avg_price fill) s1) as H2.
      destruct (opposite_direction _ _ _ _ s1) as [s2 []]; cbn [fst] in H2.
      * right. exact (f_equal fst H2).
      * left. apply Hhk, H2.
  - intros Ha Hsize. split.
    + rewrite Hcb. change (current_trade_ s1) with (current_trade_ s).
      rewrite Ha. cbn [negb].
      destruct (housekeeping_keeps fill
                  (open_trade fill state_id (filled_size fill) (avg_price fill) s1))
        as (-> & _).
      unfold open_trade. cbv zeta.
      change (current_trade_ s1) with (current_trade_ s).
      rewrite (proj2 (Qgtb_true _ _) Hpos).
      rewrite (proj2 (Qeq_bool_iff _ _) Hsize). cbn [andb orb].
      unfold publishTradeUpdate2.
      destruct (bool_decide _); [reflexivity|].
      match goal with |- context [negb ?b] => destruct b end; reflexivity.
    + unfold recorded, trade_order. cbn [OrderInfo.execution_percentage].
      unfold ratio. rewrite (proj2 (Qgtb_true _ _) Hpos).
      field. intros E. rewrite E in Hpos. discriminate.
Qed.

(** C10 as stated fails: the known order "X" is on no order of the deque,
    its fill reports 0.5, and after the fill event the deque holds the
    order "Y" alone; the recovered order is not in it. *)
Lemma late_fill_order_erased_counterexample :
  let s' := step late_state (OrderFill late_fill) in
  known_orders_ late_state !! "X" = Some 7 /\
  map OrderInfo.okx_order_id (orders_ late_state) = ["Y"] /\
  (0 < filled_size late_fill)%Q /\
  map OrderInfo.okx_order_id (orders_ s') = ["Y"] /\
  ~ recovered_order 7 late_fill ∈ orders_ s'.
Proof.
  cbv zeta. split; [vm_compute; reflexivity|]. split; [reflexivity|].
  split; [reflexivity|]. split; [vm_compute; reflexivity|].
  intros H. apply (list_elem_of_fmap_2 OrderInfo.okx_order_id) in H.
  change (OrderInfo.okx_order_id <$> ?l) with (map OrderInfo.okx_order_id l) in H.
  replace (map OrderInfo.okx_order_id (orders_ (step late_state (OrderFill late_fill))))
    with ["Y"] in H by (vm_compute; reflexivity).
  apply list_elem_of_singleton in H. discriminate.
Qed.

(** C10 (as amended) on that fill: the trade it opens records "X" with
    volume 0.5 and price 30050, and the deque is back to "Y". *)
Lemma late_fill_recovery_is_transient_witness :
  let s' := order_fill_callback late_fill late_state in
  known_orders_ late_state !! "X" = Some 7 /\
  (0 < filled_size late_fill)%Q /\
  Trade.orders (current_trade_ s')
  = Trade.orders (current_trade_ late_state)
    ++ [trade_order 7 late_fill (1 # 2) 30050 "X" false] /\
  orders_ s' =
    drop (length (List.filter (fun o => negb (OrderInfo.has_id "X" o))
                    (sort_by_fill_time
                       (orders_ late_state ++ [recovered_order 7 late_fill]))) - 300)
         (List.filter (fun o => negb (OrderInfo.has_id "X" o))
            (sort_by_fill_time (orders_ late_state ++ [recovered_order 7 late_fill]))).
Proof.
  assert (Hk : known_orders_ late_state !! okx_order_id late_fill = Some 7)
    by (vm_compute; reflexivity).
  assert (Ha : Forall (fun o => OrderInfo.okx_order_id o <> okx_order_id late_fill)
                 (orders_ late_state))
    by (repeat constructor; discriminate).
  assert (Hp : (0 < filled_size late_fill)%Q) by reflexivity.
  assert (Ht : Trade.has_active_trade (current_trade_ late_state) = false)
    by reflexivity.
  assert (Hz : (Trade.size (current_trade_ late_state) == 0)%Q) by reflexivity.
  destruct (late_fill_recovery_is_transient late_fill late_state 7 Hk Ha Hp)
    as (_ & _ & _ & _ & _ & He & Ho).
  split; [exact Hk|]. split; [exact Hp|].
  split; [exact (proj1 (Ho Ht Hz))|exact (He Ht)].
Defined.

End LateFill.
